(* ===== verification/_CoqProject ===== *)
-Q . S2P
Prelude.v
Memory.v
Stacks.v
Bitmap.v
Layout.v
Pmm.v
Vmm.v
Slots.v
Interrupts.v
Pit.v
Scheduler.v
Preempt.v
Locks.v
Concurrency.v
Strings.v
Printf.v
CList.v
Heap.v
HeapInv.v
HeapSpec.v
HeapAlign.v
Backing.v
KernelHeap.v
Boot.v
Operators.v
Elf.v
Linker.v
LinkerSpec.v
ModulePages.v
Relocations.v
LinkerInv.v
Acpi.v
Apic.v
ApicConfig.v
SharedPtr.v
Crc32.v
Atexit.v
Smp.v
Modules.v
Display.v
Serial.v
Log.v
SelfTest.v
Lapic.v
StackTrace.v
