(* ===== verification/Prelude.v ===== *)
(** * A verification of the OSPP kernel

    OSPP is a 32-bit x86 kernel in C++17. This library models its components as
    executable functions and step relations and proves what makes them correct. A C++
    function is a definition of the same name; its state is passed explicitly, and what a
    call does is a value of [res] (below): a return, a panic, a fault, or a model bound
    exceeded. Integers are [Z] with the truncations of their C++ types
    written out.

    ** The parts and their files

    Data structures of klibcpp/:
    - [Bitmap.v]: [FixedBitmapAllocator] (bitmap.hpp), allocating runs of units by first
      fit; the pages of module space and the frames of memory are its units.
    - [Slots.v]: [StaticSlot], [StaticArray] and their iterators (static_slot.hpp,
      static_array.hpp, slot_iterator.hpp), objects constructed in static storage.
    - [CList.v]: intrusive circular lists (cllist.hpp), on memory.
    - [Strings.v], [Printf.v]: the C string functions, number conversions and 64-bit division
      (cstring.cpp, cstdlib.cpp), and formatted output (printf_impl) over a class of sinks.
    - [SharedPtr.v]: counted references to shared objects (memory.hpp), on many cores.
    - [Crc32.v]: the checksum and its table, computed at compile time (crc32.hpp).
    - [Locks.v]: atomics, and the spin lock under both of its guards (atomic.hpp, spinlock.hpp,
      iguard.hpp), as a step relation over any number of cores and the handlers that
      interrupt them.
    - [Concurrency.v]: the TLB shootdown of vmm.cpp with the start of other cores
      (smp_ll.cpp), as step relations over any number of cores.

    Memory, from the bottom up:
    - [Memory.v]: byte memory, 32-bit accesses.
    - [Stacks.v]: the stacks of cores and tasks with their anchors (smp.hpp), by which code finds
      the core it runs on; shared by the interrupt dispatch, the scheduler and the start of cores.
    - [Layout.v]: page arithmetic and the map of virtual regions (pmm.hpp, layout.hpp).
    - [Pmm.v]: the frame allocator and its set-up from the boot loader's memory map
      (pmm.cpp, multiboot_utils.hpp). It implements the class [FrameAllocator].
    - [Vmm.v]: page tables behind a recursive mapping, with a TLB that may cache any
      translation it has seen (vmm.hpp, vmm.cpp), for any [FrameAllocator].
    - [Heap.v]: the kernel heap (heap.cpp), in a state monad over any state with the class
      [HeapMem]: the heap's fields, memory accesses, and pages to give back. [Heap] is its
      model, byte memory that faults outside the heap.
    - [HeapInv.v], [HeapSpec.v], [HeapAlign.v]: over the model, the invariant of the chunks, the
      contracts of [alloc] and [free], and the blocks at an alignment that [palignedAlloc] cuts.
    - [Backing.v]: the other [HeapMem], the page tables of [Vmm.v] with the frames of [Pmm.v]:
      whatever call returns in the model returns the same there, in a state behind the model's.
    - [KernelHeap.v]: the contracts of the heap on that machine, and its construction.
    - [Boot.v]: the start of the managers in [Kernel::init] (kernel.cpp), from the memory map to a heap.
    - [Operators.v]: [new] and [delete] (cstdlib.cpp) and the table of functions they call through
      (kapi.hpp).

    Interrupts and tasks:
    - [Interrupts.v]: descriptor tables, gates, dispatch and acknowledgement (gdt, idt, pic).
    - [Pit.v]: the interval timer and its table of handlers (pit.cpp).
    - [Scheduler.v]: round-robin tasks and context switches (scheduler.cpp).
    - [Preempt.v]: these three as one machine: the registrations of the scheduler's constructor
      and destructor, and the path of a timer interrupt to [schedule].

    Platform:
    - [Acpi.v], [Apic.v], [ApicConfig.v]: the firmware's tables, the description of the
      interrupt controllers in them, and the routing of interrupts it leads to (acpi.cpp, apic.hpp, apic.cpp).
    - [Lapic.v]: the registers of the local controller, over the class [LocalApic] of devices.
    - [Smp.v]: the start of the other cores and their tables (smp.hpp, smp.cpp).

    Output and support:
    - [Display.v], [Serial.v], [Log.v]: the text screen, the serial port, and the lines of
      the log, put together with the [snprintf] of [Printf.v].
    - [Atexit.v]: functions to run at exit (the C++ runtime's table of destructors).
    - [StackTrace.v]: the stack trace of a panic, walked through the page tables of [Vmm.v].
    - [SelfTest.v]: the engine of the kernel's own tests (ktest), and 20 of the 26 cases of its
      built-in suites, which pass on the models.

    Modules:
    - [Elf.v]: object files, hashes and kernel exports (elf.hpp, hash.hpp, kexp).
    - [Linker.v]: the module linker (ld.cpp), over the class [PageSpace] of frames and mappings.
    - [LinkerSpec.v], [Relocations.v]: the layout it computes, the contents it loads, the
      relocations it applies.
    - [ModulePages.v]: the laws of a [PageSpace] that the linker relies on, as the class [ModulePages];
      the machine of [Vmm.v] with the frames of [Pmm.v] keeps them.
    - [LinkerInv.v]: the module space the linker owns over its life, for any [ModulePages]:
      allocated pages, mapped pages and their frames.
    - [Modules.v]: the manager of the loaded modules (module.hpp).

    ** What is shown

    For allocators and containers (bitmap, frames, heap, slots, lists, module space) an abstract
    state (a set of units, a list of chunks, a sequence) and that every operation
    acts on it as intended, its failures included; invariants hold in every
    reachable state. For the page tables, that mapping, unmapping and translation agree
    with a page walk and that no stale translation is used; for the heap, its contracts first on
    a model of its memory, then, by simulation, on page tables and frames, from the boot to [new] and
    [delete]. For the string functions, formatted
    output, hashes, division and tables, equality with a reference definition or a round trip. For locks,
    shootdown, timer and scheduler, safety by induction on the steps and progress under
    stated fairness; that dispatch, timer and scheduler together preempt tasks slice by slice. Where the code does not do what it means to, the theorem states
    what it does: these are named as findings, for example
    [heap_double_allocation], [relocation_check_wraps], [shootdown_hazards].

    ** Bounds

    Loops over a counted range run on that count. Loops that follow memory (strings, lists,
    tables of entries) take [fuel]; their lemmas assume only that it exceeds the
    length of what is there, so it bounds nothing but the model. [alloc] recurs at most once: growing
    leaves a hole that is large enough.

    ** Not modelled

    Inline assembly (context switch stubs, boot code) and what a device does behind a port or a
    register, other than what the drivers rely on; floating point ([ftoa], cmath); type traits and
    the other templates that exist only while compiling; the rest of [Kernel::init] and the reset code of kernel.cpp, which call
    the parts above in order; the cases of
    ktest on floating point, a booted machine and running tasks.
    Atomic accesses are taken as sequentially consistent. The remote flush of [Vmm.v] is one
    completed step there; its wait, and what can go wrong in it, is in [Concurrency.v].

    ** This file

    Shared vocabulary: outcomes of kernel code, machine words and their
    wrap-around, bit lemmas, and sets of consecutive integers.

    - [res]: what a call into the kernel does.  [Ok] is a normal return,
      [Panic] is [kstd::panic] or a failed [assert] (neither returns),
      [Fault] is an access to memory that is not there (an index outside an
      array, or a virtual address that is not mapped) and [NoFuel] says that
      the bound given to a loop of the model was too small.  Theorems that
      state [f .. = Ok ..] therefore also exclude the last three.
    - [wrap w]: truncation to [w] bits; [u8], [u16], [u32], [u64] are its
      instances.  Every C++ expression of an unsigned type is written with
      the truncation it has in the source. *)
From stdpp Require Export prelude gmap strings.
#[global] Open Scope Z_scope.

(** ** Outcomes *)

Inductive res (A : Type) : Type :=
| Ok (a : A)
| Panic (msg : string)
| Fault (addr : Z)
| NoFuel.
Arguments Ok {A} a.
Arguments Panic {A} msg.
Arguments Fault {A} addr.
Arguments NoFuel {A}.

#[export] Instance res_ret : MRet res := @Ok.
#[export] Instance res_bind : MBind res := fun A B f m =>
  match m with
  | Ok a => f a
  | Panic msg => Panic msg
  | Fault addr => Fault addr
  | NoFuel => NoFuel
  end.

(** [kstd::_assert]: continue when the condition holds. *)
Definition kassert (cond : bool) (text : string) : res () :=
  if cond then Ok () else Panic text.

Lemma bind_Ok {A B} (a : A) (f : A → res B) : (Ok a ≫= f) = f a.
Proof. reflexivity. Qed.

Lemma bind_assoc {A B C} (m : res A) (f : A → res B) (g : B → res C) : ((m ≫= f) ≫= g) = (m ≫= λ a, f a ≫= g).
Proof. by destruct m. Qed.

Lemma bind_Ok_inv {A B} (m : res A) (f : A → res B) (b : B) :
  (m ≫= f) = Ok b → ∃ a, m = Ok a ∧ f a = Ok b.
Proof. destruct m; simpl; naive_solver. Qed.

Lemma kassert_Ok cond text : kassert cond text = Ok () ↔ cond = true.
Proof. destruct cond; simpl; naive_solver. Qed.

(** Decompose every [m ≫= f = Ok b] hypothesis into its steps. *)
Ltac res_inv :=
  repeat match goal with
  | H : (_ ≫= _) = Ok _ |- _ =>
      let a := fresh "r" in let E := fresh "E" in
      apply bind_Ok_inv in H as (a & E & H)
  | H : Ok _ = Ok _ |- _ => injection H as H
  | H : kassert _ _ = Ok _ |- _ =>
      let E := fresh "E" in assert (E := H); destruct (kassert _ _); simpl in H
  | H : Panic _ = Ok _ |- _ => discriminate H
  | H : Fault _ = Ok _ |- _ => discriminate H
  | H : NoFuel = Ok _ |- _ => discriminate H
  end.

(** Linear arithmetic with division and remainder by constants. *)
Ltac dlia := Z.to_euclidean_division_equations; lia.

(** ** Machine words *)

Definition wrap (w z : Z) : Z := z mod 2 ^ w.
Abbreviation u8 := (wrap 8).
Abbreviation u16 := (wrap 16).
Abbreviation u32 := (wrap 32).
Abbreviation u64 := (wrap 64).

(** [~x] on a 32-bit word. *)
Definition not32 (x : Z) : Z := u32 (Z.lnot x).

Lemma wrap_range w z : 0 ≤ w → 0 ≤ wrap w z < 2 ^ w.
Proof. intros. apply Z.mod_pos_bound. lia. Qed.

Lemma wrap_small w z : 0 ≤ z < 2 ^ w → wrap w z = z.
Proof. apply Z.mod_small. Qed.

Lemma u32_small z : 0 ≤ z < 2 ^ 32 → u32 z = z.
Proof. apply wrap_small. Qed.

Lemma u32_range z : 0 ≤ u32 z < 2 ^ 32.
Proof. apply wrap_range; lia. Qed.

Lemma wrap_wrap w z : 0 ≤ w → wrap w (wrap w z) = wrap w z.
Proof. intros. apply wrap_small, wrap_range; lia. Qed.

Lemma wrap_add_l w a b : wrap w (wrap w a + b) = wrap w (a + b).
Proof. apply Zplus_mod_idemp_l. Qed.

Lemma wrap_add_r w a b : wrap w (a + wrap w b) = wrap w (a + b).
Proof. apply Zplus_mod_idemp_r. Qed.

Lemma wrap_mul_l w a b : wrap w (wrap w a * b) = wrap w (a * b).
Proof. apply Zmult_mod_idemp_l. Qed.

Lemma wrap_sub_l w a b : wrap w (wrap w a - b) = wrap w (a - b).
Proof. apply Zminus_mod_idemp_l. Qed.

Lemma wrap_sub_r w a b : wrap w (a - wrap w b) = wrap w (a - b).
Proof. apply Zminus_mod_idemp_r. Qed.

Lemma wrap_testbit w z i :
  0 ≤ w → Z.testbit (wrap w z) i = bool_decide (i < w) && Z.testbit z i.
Proof.
  intros Hw. unfold wrap. destruct (decide (i < 0)).
  { rewrite !Z.testbit_neg_r, andb_false_r by lia. done. }
  case_bool_decide.
  - by rewrite Z.mod_pow2_bits_low by lia.
  - by rewrite Z.mod_pow2_bits_high by lia.
Qed.

(** Replace [wrap w e] by [e] wherever [e] is provably in range. *)
Ltac unwrap :=
  repeat match goal with
  | |- context [wrap ?w ?e] => rewrite (wrap_small w e) by lia
  | H : context [wrap ?w ?e] |- _ => rewrite (wrap_small w e) in H by lia
  end.

(** ** Bits *)

Lemma testbit_high w z i : 0 ≤ z < 2 ^ w → 0 ≤ w ≤ i → Z.testbit z i = false.
Proof.
  intros Hz Hi. apply (proj1 (Z.bounded_iff_bits_nonneg w z ltac:(lia) ltac:(lia))); lia.
Qed.

Lemma lor_range w a b :
  0 ≤ w → 0 ≤ a < 2 ^ w → 0 ≤ b < 2 ^ w → 0 ≤ Z.lor a b < 2 ^ w.
Proof.
  intros Hw Ha Hb. assert (0 ≤ Z.lor a b) by (apply Z.lor_nonneg; lia).
  split; [done|]. apply Z.bounded_iff_bits_nonneg; [lia..|]. intros l Hl.
  rewrite Z.lor_spec, (testbit_high w a), (testbit_high w b) by lia. done.
Qed.

Lemma land_range w a b : 0 ≤ w → 0 ≤ a < 2 ^ w → 0 ≤ Z.land a b < 2 ^ w.
Proof.
  intros Hw Ha. assert (0 ≤ Z.land a b) by (apply Z.land_nonneg; lia).
  split; [done|]. apply Z.bounded_iff_bits_nonneg; [lia..|]. intros l Hl.
  rewrite Z.land_spec, (testbit_high w a) by lia. done.
Qed.

Lemma bit_range w k : 0 ≤ k < w → 0 ≤ Z.shiftl 1 k < 2 ^ w.
Proof.
  intros. rewrite Z.shiftl_1_l. split; [lia|]. apply Z.pow_lt_mono_r; lia.
Qed.

Lemma bit_testbit k i : 0 ≤ k → Z.testbit (Z.shiftl 1 k) i = bool_decide (i = k).
Proof.
  intros Hk. rewrite Z.shiftl_1_l. case_bool_decide as E.
  - subst. apply Z.pow2_bits_true; lia.
  - apply Z.pow2_bits_false; lia.
Qed.

(** [(v & (1u << k)) != 0] tests bit [k]. *)
Lemma land_bit v k :
  0 ≤ k → negb (Z.land v (Z.shiftl 1 k) =? 0) = Z.testbit v k.
Proof.
  intros Hk. destruct (Z.testbit v k) eqn:E.
  - apply negb_true_iff, Z.eqb_neq. intros F.
    apply (f_equal (fun x => Z.testbit x k)) in F.
    rewrite Z.land_spec, bit_testbit, E, bool_decide_true, Z.bits_0 in F by lia. done.
  - apply negb_false_iff, Z.eqb_eq. apply Z.bits_inj'. intros i Hi.
    rewrite Z.land_spec, bit_testbit, Z.bits_0 by lia.
    case_bool_decide; subst; [by rewrite E|by rewrite andb_false_r].
Qed.

(** [v & ~(2^k - 1)] drops the low [k] bits, at any width. *)
Lemma land_lnot_mask w v k :
  0 ≤ k < w → 0 ≤ v < 2 ^ w → Z.land v (wrap w (Z.lnot (2 ^ k - 1))) = v - v mod 2 ^ k.
Proof.
  intros Hk Hv. replace (v - v mod 2 ^ k) with (Z.shiftl (Z.shiftr v k) k).
  2:{ rewrite Z.shiftl_mul_pow2, Z.shiftr_div_pow2 by lia.
      pose proof (Z.div_mod v (2 ^ k)). lia. }
  apply Z.bits_inj'. intros i Hi.
  rewrite Z.land_spec, wrap_testbit, Z.lnot_spec by lia.
  replace (2 ^ k - 1) with (Z.ones k) by (rewrite Z.ones_equiv; lia).
  rewrite Z.testbit_ones by lia.
  destruct (decide (i < k)).
  { rewrite Z.shiftl_spec_low by lia.
    rewrite (proj2 (Z.leb_le 0 i)), (proj2 (Z.ltb_lt i k)) by lia.
    rewrite !andb_false_r. done. }
  rewrite Z.shiftl_spec_high, Z.shiftr_spec by lia.
  replace (i - k + k) with i by lia.
  rewrite (proj2 (Z.leb_le 0 i)), (proj2 (Z.ltb_ge i k)) by lia. simpl.
  case_bool_decide; [by rewrite andb_true_r|].
  rewrite (testbit_high w v) by lia. done.
Qed.

Lemma land_not_mask v k :
  0 ≤ k < 32 → 0 ≤ v < 2 ^ 32 → Z.land v (not32 (2 ^ k - 1)) = v - v mod 2 ^ k.
Proof. apply land_lnot_mask. Qed.

(** [v & (2^k - 1)] keeps the low [k] bits. *)
Lemma land_mask v k : 0 ≤ k → Z.land v (2 ^ k - 1) = v mod 2 ^ k.
Proof. intros. rewrite <- Z.land_ones, Z.ones_equiv by lia. f_equal; lia. Qed.

(** Disjoint bits: or is addition. *)
Lemma lor_low a b k : 0 ≤ k → 0 ≤ b < 2 ^ k → Z.lor (2 ^ k * a) b = 2 ^ k * a + b.
Proof.
  intros Hk Hb. assert (Z.land (2 ^ k * a) b = 0) as E.
  { apply Z.bits_inj'. intros i Hi. rewrite Z.land_spec, Z.bits_0, Z.mul_comm.
    destruct (decide (i < k)); [by rewrite Z.mul_pow2_bits_low by lia|].
    rewrite (testbit_high k b) by lia. apply andb_false_r. }
  rewrite <- Z.lxor_lor by done. symmetry. by apply Z.add_nocarry_lxor.
Qed.

(** ** Runs of consecutive integers *)

Definition run (i n : Z) : gset Z := list_to_set (seqZ i n).

Lemma elem_of_run i n x : x ∈ run i n ↔ i ≤ x < i + n.
Proof. unfold run. rewrite elem_of_list_to_set, elem_of_seqZ. done. Qed.

Lemma size_run i n : 0 ≤ n → Z.of_nat (size (run i n)) = n.
Proof.
  intros. unfold run. rewrite size_list_to_set by apply NoDup_seqZ.
  rewrite length_seqZ. lia.
Qed.

Lemma run_0 i : run i 0 = ∅.
Proof. apply set_eq. intros x. rewrite elem_of_run. set_solver by lia. Qed.

Lemma run_S i n : 0 ≤ n → run i (n + 1) = run i n ∪ {[ i + n ]}.
Proof.
  intros. apply set_eq. intros x.
  rewrite elem_of_union, elem_of_singleton, !elem_of_run. lia.
Qed.

Lemma run_cons i n : 0 ≤ n → run i (n + 1) = {[ i ]} ∪ run (i + 1) n.
Proof.
  intros. apply set_eq. intros x.
  rewrite elem_of_union, elem_of_singleton, !elem_of_run. lia.
Qed.

Lemma union_diff_Z (A R : gset Z) : A ∪ (R ∖ A) = A ∪ R.
Proof. apply set_eq. intros x. destruct (decide (x ∈ A)); set_solver. Qed.

Lemma size_union_Z (X Y : gset Z) :
  X ## Y → Z.of_nat (size (X ∪ Y)) = Z.of_nat (size X) + Z.of_nat (size Y).
Proof. intros. rewrite size_union by done. lia. Qed.

Lemma size_difference_Z (X Y : gset Z) :
  Y ⊆ X → Z.of_nat (size (X ∖ Y)) = Z.of_nat (size X) - Z.of_nat (size Y).
Proof.
  intros HYX. pose proof (subseteq_size Y X HYX). rewrite size_difference by done. lia.
Qed.

Create HintDb kernel discriminated.
Create Rewrite HintDb kernel.
#[export] Hint Resolve u32_range : kernel.
#[export] Hint Rewrite elem_of_run : kernel.

#[global] Opaque run.
