(* ===== verification/Memory.v ===== *)
(** Byte-addressed memory: the little-endian 32-bit accesses of the machine on
    a map from addresses to bytes, shared by the files that model code working
    through pointers. *)
From S2P Require Import Prelude.

(** The contents of a memory; an address that holds no meaningful data simply
    has some byte. *)
Definition ram := Z → Z.

Definition wr8 (m : ram) (a v : Z) : ram := λ b, if b =? a then u8 v else m b.

Definition rd32 (m : ram) (a : Z) : Z :=
  m a + 2 ^ 8 * m (a + 1) + 2 ^ 16 * m (a + 2) + 2 ^ 24 * m (a + 3).

Definition wr32 (m : ram) (a v : Z) : ram :=
  wr8 (wr8 (wr8 (wr8 m a v) (a + 1) (Z.shiftr v 8)) (a + 2) (Z.shiftr v 16)) (a + 3) (Z.shiftr v 24).

(** [fill8 m a v n]: [n] bytes at [a] set to [v]. *)
Fixpoint fill8 (m : ram) (a v : Z) (n : nat) : ram :=
  match n with
  | O => m
  | S n => fill8 (wr8 m a v) (a + 1) v n
  end.

Definition bytes_ok (m : ram) : Prop := ∀ a, 0 ≤ m a < 256.

Lemma wr8_same m a v : wr8 m a v a = u8 v.
Proof. unfold wr8. by rewrite Z.eqb_refl. Qed.

Lemma wr8_other m a v b : b ≠ a → wr8 m a v b = m b.
Proof. intros H. unfold wr8. by rewrite (proj2 (Z.eqb_neq _ _) H). Qed.

Lemma wr8_bytes m a v : bytes_ok m → bytes_ok (wr8 m a v).
Proof.
  intros H b. unfold wr8. destruct (b =? a); [|apply H]. apply (wrap_range 8). lia.
Qed.

Lemma wr32_bytes m a v : bytes_ok m → bytes_ok (wr32 m a v).
Proof. intros. unfold wr32. auto 10 using wr8_bytes. Qed.

Lemma wr32_other8 m a v b : b < a ∨ a + 4 ≤ b → wr32 m a v b = m b.
Proof. intros H. unfold wr32. rewrite !wr8_other by lia. done. Qed.

Lemma rd32_range m a : bytes_ok m → 0 ≤ rd32 m a < 2 ^ 32.
Proof.
  intros H. unfold rd32. pose proof (H a). pose proof (H (a + 1)).
  pose proof (H (a + 2)). pose proof (H (a + 3)). lia.
Qed.

Lemma rd32_wr32_same m a v : 0 ≤ v < 2 ^ 32 → rd32 (wr32 m a v) a = v.
Proof.
  intros Hv. unfold rd32, wr32.
  rewrite (wr8_other _ (a + 3)), (wr8_other _ (a + 2)), (wr8_other _ (a + 1)) by lia.
  rewrite (wr8_other _ (a + 3) _ (a + 1)), (wr8_other _ (a + 2) _ (a + 1)) by lia.
  rewrite (wr8_other _ (a + 3) _ (a + 2)) by lia.
  rewrite !wr8_same, !Z.shiftr_div_pow2 by lia. unfold wrap. dlia.
Qed.

Lemma rd32_ext m m' a : (∀ b, a ≤ b < a + 4 → m b = m' b) → rd32 m a = rd32 m' a.
Proof. intros H. unfold rd32. rewrite !H by lia. done. Qed.

Lemma rd32_wr32_other m a v b : b + 4 ≤ a ∨ a + 4 ≤ b → rd32 (wr32 m a v) b = rd32 m b.
Proof. intros H. apply rd32_ext. intros c Hc. apply wr32_other8. lia. Qed.

Lemma fill8_bytes v n : ∀ m a, bytes_ok m → bytes_ok (fill8 m a v n).
Proof. induction n; simpl; auto using wr8_bytes. Qed.

Lemma fill8_other v n : ∀ m a b, b < a ∨ a + Z.of_nat n ≤ b → fill8 m a v n b = m b.
Proof.
  induction n as [|n IH]; intros m a b H; simpl; [done|].
  rewrite IH by lia. apply wr8_other. lia.
Qed.

Lemma fill8_in v n : ∀ m a b, a ≤ b < a + Z.of_nat n → fill8 m a v n b = u8 v.
Proof.
  induction n as [|n IH]; intros m a b H; simpl; [lia|].
  destruct (decide (b = a)) as [->|]; [|apply IH; lia].
  rewrite fill8_other by lia. apply wr8_same.
Qed.

Lemma rd32_fill8_other m a v n b :
  b + 4 ≤ a ∨ a + Z.of_nat n ≤ b → rd32 (fill8 m a v n) b = rd32 m b.
Proof. intros H. apply rd32_ext. intros c Hc. apply fill8_other. lia. Qed.

Lemma rd32_fill8_0 m a n b :
  a ≤ b → b + 4 ≤ a + Z.of_nat n → rd32 (fill8 m a 0 n) b = 0.
Proof. intros H1 H2. unfold rd32. rewrite !fill8_in by lia. reflexivity. Qed.
