(* ===== verification/Stacks.v ===== *)
(** The stacks of cores and tasks: [CoreStack] and [StackAnchor] of kernel/include/sys/smp.hpp, with
    [CoreManager::current_anchor] and [current_core].

    A stack is aligned to its size, so that code finds the anchor at the low end of the stack it
    runs on from its stack pointer; the anchor names the core. A stack is named by its address. *)
From S2P Require Import Prelude Memory.

(** ** Stacks *)

Definition CORE_STACK_SIZE : Z := 4096.
Definition MAGIC : Z := 0x434F5245.
Definition ANCHOR_SIZE : Z := 16.

(** The fields of a [StackAnchor] at [a]. *)
Definition anchor_magic (m : ram) (a : Z) : Z := rd32 m a.
Definition anchor_core (m : ram) (a : Z) : Z := rd32 m (a + 8).

Definition init_stack_anchor (base stack_id core : Z) (m : ram) : ram :=
  wr32 (wr32 (wr32 (wr32 m base MAGIC) (base + 4) stack_id) (base + 8) core) (base + 12) 0.
(** [anchor = stack.anchor]: the four words of [from]'s anchor are written to [base]'s. *)
Definition copy_anchor_from (base from : Z) (m : ram) : ram :=
  wr32 (wr32 (wr32 (wr32 m base (rd32 m from)) (base + 4) (rd32 m (from + 4))) (base + 8) (rd32 m (from + 8)))
    (base + 12) (rd32 m (from + 12)).
Definition initial_sp (base : Z) : Z := u32 (base + CORE_STACK_SIZE).
Definition from_sp (sp : Z) : Z := Z.land sp (not32 (CORE_STACK_SIZE - 1)).
Definition anchor_from_sp (sp : Z) : Z := from_sp sp.

Definition current_anchor (m : ram) (esp : Z) : res Z :=
  let anchor := anchor_from_sp esp in
  if negb (anchor_magic m anchor =? MAGIC) then Panic "invalid current core stack anchor" else Ok anchor.
Definition current_core (m : ram) (esp : Z) : res Z :=
  anchor ← current_anchor m esp;
  if anchor_core m anchor =? 0 then Panic "current core is null" else Ok (anchor_core m anchor).

(** ** Anchors *)

(** A stack at [b]; and its anchor names the core at address [c]. *)
Definition stack_at (b : Z) : Prop := 0 < b ∧ b mod 4096 = 0 ∧ b + 4096 ≤ 2 ^ 32.
Definition anchored (m : ram) (b c : Z) : Prop := anchor_magic m b = MAGIC ∧ anchor_core m b = c.

Lemma from_sp_ok b sp : stack_at b → b ≤ sp < b + 4096 → from_sp sp = b.
Proof.
  intros (H0 & Hm & Hr) Hs. unfold from_sp, CORE_STACK_SIZE. change (4096 - 1) with (2 ^ 12 - 1). rewrite land_not_mask by lia.
  change (2 ^ 12) with 4096. dlia.
Qed.

Lemma stacks_apart b b' : stack_at b → stack_at b' → b ≠ b' → b + 4096 ≤ b' ∨ b' + 4096 ≤ b.
Proof. intros (_ & H & _) (_ & H' & _) Hne. dlia. Qed.

Lemma current_anchor_ok m b c sp : stack_at b → anchored m b c → b ≤ sp < b + 4096 → current_anchor m sp = Ok b.
Proof.
  intros Hb [Hm _] Hs. unfold current_anchor, anchor_from_sp. rewrite (from_sp_ok b) by done. by rewrite Hm.
Qed.

Lemma current_core_ok m b c sp : stack_at b → anchored m b c → c ≠ 0 → b ≤ sp < b + 4096 → current_core m sp = Ok c.
Proof.
  intros Hb Ha H0 Hs. unfold current_core. rewrite (current_anchor_ok m b c) by done. cbn [mbind res_bind].
  by rewrite (proj2 Ha), (proj2 (Z.eqb_neq c 0)).
Qed.

Lemma anchored_ext m m' b c : (∀ k, 0 ≤ k < 16 → m' (b + k) = m (b + k)) → anchored m b c → anchored m' b c.
Proof.
  intros He [Hm Hc]. split; unfold anchor_magic, anchor_core in *.
  - rewrite <- Hm. apply rd32_ext. intros a Ha. replace a with (b + (a - b)) by lia. apply He. lia.
  - rewrite <- Hc. apply rd32_ext. intros a Ha. replace a with (b + (a - b)) by lia. apply He. lia.
Qed.

Lemma init_anchor_ok b i c m : 0 ≤ i < 2 ^ 32 → 0 ≤ c < 2 ^ 32 → anchored (init_stack_anchor b i c m) b c.
Proof.
  intros Hi Hc. split; unfold anchor_magic, anchor_core, init_stack_anchor.
  - rewrite !rd32_wr32_other by lia. by apply rd32_wr32_same.
  - rewrite rd32_wr32_other by lia. by apply rd32_wr32_same.
Qed.

Lemma init_anchor_other b i c m a : a < b ∨ b + 16 ≤ a → init_stack_anchor b i c m a = m a.
Proof. intros Ha. unfold init_stack_anchor. rewrite !wr32_other8 by lia. done. Qed.

Lemma copy_anchor_other b from m a : a < b ∨ b + 16 ≤ a → copy_anchor_from b from m a = m a.
Proof. intros Ha. unfold copy_anchor_from. rewrite !wr32_other8 by lia. done. Qed.

(** A copied anchor names the core of the original. *)
Lemma copy_anchor_ok b from c m : bytes_ok m → anchored m from c → anchored (copy_anchor_from b from m) b c.
Proof.
  intros Hb [Hm Hc]. pose proof (rd32_range m from Hb). pose proof (rd32_range m (from + 8) Hb).
  split; unfold anchor_magic, anchor_core, copy_anchor_from in *.
  - rewrite !rd32_wr32_other by lia. by rewrite rd32_wr32_same.
  - rewrite rd32_wr32_other by lia. by rewrite rd32_wr32_same.
Qed.
