(* ===== verification/Bitmap.v ===== *)
(** The bitmap allocator of klibcpp/include/klibcpp/bitmap.hpp.

    [FixedBitmapAllocator<BaseAddr, MaxUnits, UnitSize>] hands out runs of
    fixed-size units.  Its template arguments are the record [params], its
    fields the record [bitmap_t]; every method is one definition of the
    section below.  The bitmap is the array of 32-bit words of the source, and
    an index outside the array is a [Fault].

    The abstract state is the set of allocated unit numbers ([rep]).  The
    lemmas [*_spec] say what each method does to that set, on every branch. *)
From S2P Require Import Prelude.

Record params := Params { BASE_ADDR : Z; MAX_UNITS : Z; UNIT_SIZE : Z }.

Record bitmap_t := Bitmap { bitmap : list Z; allocated_units_ : Z }.

(** What the [static_assert]s and the instances of the source guarantee: the
    managed range lies in the 32-bit address space. *)
Definition params_ok (P : params) : Prop :=
  0 ≤ BASE_ADDR P ∧ 0 < MAX_UNITS P ∧ 0 < UNIT_SIZE P ∧ MAX_UNITS P + 31 < 2 ^ 32
  ∧ BASE_ADDR P + MAX_UNITS P * UNIT_SIZE P ≤ 2 ^ 32.

Section Allocator.
Context (P : params).

Definition BITMAP_SIZE : Z := u32 (MAX_UNITS P + 31) / 32.

(** *** Operations *)

Definition bitmap_init : bitmap_t := Bitmap (replicate (Z.to_nat BITMAP_SIZE) 0) 0.

Definition test_bit (s : bitmap_t) (bit : Z) : res bool :=
  match bitmap s !! Z.to_nat (bit / 32) with
  | Some w => Ok (negb (Z.land w (Z.shiftl 1 (bit mod 32)) =? 0))
  | None => Fault (bit / 32)
  end.

Definition set_bit (s : bitmap_t) (bit : Z) : res bitmap_t :=
  match bitmap s !! Z.to_nat (bit / 32) with
  | Some w => Ok (Bitmap (<[Z.to_nat (bit / 32) := Z.lor w (Z.shiftl 1 (bit mod 32))]> (bitmap s))
                         (allocated_units_ s))
  | None => Fault (bit / 32)
  end.

Definition clear_bit (s : bitmap_t) (bit : Z) : res bitmap_t :=
  match bitmap s !! Z.to_nat (bit / 32) with
  | Some w => Ok (Bitmap (<[Z.to_nat (bit / 32) := Z.land w (not32 (Z.shiftl 1 (bit mod 32)))]> (bitmap s))
                         (allocated_units_ s))
  | None => Fault (bit / 32)
  end.

Definition add_allocated (s : bitmap_t) (d : Z) : bitmap_t :=
  Bitmap (bitmap s) (u32 (allocated_units_ s + d)).

(** [memset] over the whole array: every byte, hence every word. *)
Definition clear (s : bitmap_t) : bitmap_t := Bitmap ((λ _, 0) <$> bitmap s) 0.
Definition set (s : bitmap_t) : bitmap_t := Bitmap ((λ _, 4294967295) <$> bitmap s) (MAX_UNITS P).

(** The inner loop of [alloc_units]: the offset of the first set bit among the
    [n] remaining positions from [i + j], if there is one. *)
Fixpoint scan_units (s : bitmap_t) (i j : Z) (n : nat) : res (option Z) :=
  match n with
  | O => Ok None
  | S n => b ← test_bit s (u32 (i + j));
           if (b : bool) then Ok (Some j) else scan_units s i (u32 (j + 1)) n
  end.

Fixpoint set_units (s : bitmap_t) (i j : Z) (n : nat) : res bitmap_t :=
  match n with
  | O => Ok s
  | S n => s ← set_bit s (u32 (i + j)); set_units s i (u32 (j + 1)) n
  end.

(** The outer loop of [alloc_units]: after a collision at offset [j] the search
    resumes behind it ([i += j] and the loop's [++i]). *)
Fixpoint search_units (fuel : nat) (s : bitmap_t) (count last i : Z) : res (option Z) :=
  if i <=? last then
    match fuel with
    | O => NoFuel
    | S fuel =>
        r ← scan_units s i 0 (Z.to_nat count);
        match r with
        | None => Ok (Some i)
        | Some j => search_units fuel s count last (u32 (u32 (i + j) + 1))
        end
    end
  else Ok None.

Definition alloc_units (count : Z) (s : bitmap_t) : res (Z * bitmap_t) :=
  if count =? 0 then Ok (0, s)
  else if count >? MAX_UNITS P then Panic "alloc_units: request too large"
  else
    let last := u32 (MAX_UNITS P - count) in
    r ← search_units (Z.to_nat (MAX_UNITS P)) s count last 0;
    match r with
    | Some i =>
        s ← set_units s i 0 (Z.to_nat count);
        Ok (u32 (BASE_ADDR P + u32 (i * UNIT_SIZE P)), add_allocated s count)
    | None => Panic "alloc_units: out of memory"
    end.

(** The checks shared by [free_units] and the two [mark_units_*]: the number of
    the first unit of the range. *)
Definition range_start (op : string) (base count : Z) : res Z :=
  if base <? BASE_ADDR P then Panic (op +:+ ": address below base")
  else
    let offset := u32 (base - BASE_ADDR P) in
    if negb (offset mod UNIT_SIZE P =? 0) then Panic (op +:+ ": unaligned address")
    else
      let start := offset / UNIT_SIZE P in
      if u32 (start + count) >? MAX_UNITS P then Panic (op +:+ ": invalid range")
      else Ok start.

Fixpoint free_loop (s : bitmap_t) (start i : Z) (n : nat) : res bitmap_t :=
  match n with
  | O => Ok s
  | S n => b ← test_bit s (u32 (start + i));
           if negb b then Panic "free_units: double free"
           else s ← clear_bit s (u32 (start + i)); free_loop s start (u32 (i + 1)) n
  end.

Definition free_units (base count : Z) (s : bitmap_t) : res bitmap_t :=
  if count =? 0 then Ok s
  else
    start ← range_start "free_units" base count;
    s ← free_loop s start 0 (Z.to_nat count);
    Ok (add_allocated s (- count)).

Fixpoint mark_free_loop (s : bitmap_t) (start i : Z) (n : nat) : res bitmap_t :=
  match n with
  | O => Ok s
  | S n => b ← test_bit s (u32 (start + i));
           s ← (if (b : bool)
                then s ← clear_bit s (u32 (start + i)); Ok (add_allocated s (-1))
                else Ok s);
           mark_free_loop s start (u32 (i + 1)) n
  end.

Definition mark_units_free (base count : Z) (s : bitmap_t) : res bitmap_t :=
  if count =? 0 then Ok s
  else start ← range_start "mark_units_free" base count;
       mark_free_loop s start 0 (Z.to_nat count).

Fixpoint mark_used_loop (s : bitmap_t) (start i : Z) (n : nat) : res bitmap_t :=
  match n with
  | O => Ok s
  | S n => b ← test_bit s (u32 (start + i));
           s ← (if negb b
                then s ← set_bit s (u32 (start + i)); Ok (add_allocated s 1)
                else Ok s);
           mark_used_loop s start (u32 (i + 1)) n
  end.

Definition mark_units_used (base count : Z) (s : bitmap_t) : res bitmap_t :=
  if count =? 0 then Ok s
  else start ← range_start "mark_units_used" base count;
       mark_used_loop s start 0 (Z.to_nat count).

Definition alloc_unit (s : bitmap_t) : res (Z * bitmap_t) := alloc_units 1 s.
Definition free_unit (addr : Z) (s : bitmap_t) : res bitmap_t := free_units addr 1 s.

Definition contains (addr : Z) : bool :=
  if addr <? BASE_ADDR P then false
  else u32 (addr - BASE_ADDR P) / UNIT_SIZE P <? MAX_UNITS P.

Definition allocated (addr : Z) (s : bitmap_t) : res bool :=
  if negb (contains addr) then Ok false
  else
    let offset := u32 (addr - BASE_ADDR P) in
    if negb (offset mod UNIT_SIZE P =? 0) then Ok false
    else test_bit s (offset / UNIT_SIZE P).

Definition allocated_unit_count (s : bitmap_t) : Z := allocated_units_ s.
Definition free_unit_count (s : bitmap_t) : Z := u32 (MAX_UNITS P - allocated_units_ s).

(** *** Abstract state *)

(** [bits s A]: the words of [s] store the set [A] of allocated unit numbers. *)
Record bits (s : bitmap_t) (A : gset Z) : Prop := {
  bits_length : Z.of_nat (length (bitmap s)) = BITMAP_SIZE;
  bits_words i w : bitmap s !! i = Some w → 0 ≤ w < 2 ^ 32;
  bits_test n w : 0 ≤ n < MAX_UNITS P → bitmap s !! Z.to_nat (n / 32) = Some w →
                  Z.testbit w (n mod 32) = bool_decide (n ∈ A);
  bits_dom : A ⊆ run 0 (MAX_UNITS P)
}.

(** [rep s A]: moreover the counter of [s] is the number of allocated units. *)
Definition rep (s : bitmap_t) (A : gset Z) : Prop :=
  bits s A ∧ allocated_units_ s = Z.of_nat (size A).

(** The reference allocation policy: the least unit from which [count] units
    are free, tried one start after the other. *)
Fixpoint first_fit (A : gset Z) (count i : Z) (n : nat) : option Z :=
  match n with
  | O => None
  | S n => if bool_decide (run i count ## A) then Some i else first_fit A count (i + 1) n
  end.

Definition find_run (A : gset Z) (count : Z) : option Z :=
  first_fit A count 0 (Z.to_nat (MAX_UNITS P - count + 1)).

End Allocator.

(** ** Lemmas *)

Section Facts.
Context (P : params) (HP : params_ok P).
Implicit Types (s : bitmap_t) (A : gset Z).

Lemma BITMAP_SIZE_eq : BITMAP_SIZE P = (MAX_UNITS P + 31) / 32.
Proof. unfold BITMAP_SIZE. destruct HP as (?&?&?&?&?). by rewrite u32_small by lia. Qed.

Lemma word_lookup s A n :
  bits P s A → 0 ≤ n < MAX_UNITS P →
  ∃ w, bitmap s !! Z.to_nat (n / 32) = Some w ∧ 0 ≤ w < 2 ^ 32.
Proof.
  intros Hs Hn. pose proof (bits_length _ _ _ Hs) as Hl. rewrite BITMAP_SIZE_eq in Hl.
  destruct (lookup_lt_is_Some_2 (bitmap s) (Z.to_nat (n / 32))) as [w Hw]; [dlia|].
  exists w. split; [done|]. eapply bits_words; eauto.
Qed.

Lemma test_bit_ok s A n :
  bits P s A → 0 ≤ n < MAX_UNITS P → test_bit s n = Ok (bool_decide (n ∈ A)).
Proof.
  intros Hs Hn. destruct (word_lookup s A n Hs Hn) as (w & Hw & ?). unfold test_bit.
  rewrite Hw, land_bit by dlia. f_equal. by eapply bits_test.
Qed.

(** Two unit numbers live at different bit positions. *)
Lemma bit_pos_inj n m :
  0 ≤ n → 0 ≤ m → Z.to_nat (n / 32) = Z.to_nat (m / 32) → n mod 32 = m mod 32 → n = m.
Proof. intros. dlia. Qed.

(** Updating the word of unit [n] so that only its bit changes, to [b]. *)
Lemma bits_update s A n w w' (b : bool) c :
  bits P s A → 0 ≤ n < MAX_UNITS P →
  bitmap s !! Z.to_nat (n / 32) = Some w → 0 ≤ w' < 2 ^ 32 →
  (∀ k, 0 ≤ k < 32 → Z.testbit w' k = if bool_decide (k = n mod 32) then b else Z.testbit w k) →
  bits P (Bitmap (<[Z.to_nat (n / 32) := w']> (bitmap s)) c)
       (if b then A ∪ {[n]} else A ∖ {[n]}).
Proof.
  intros Hs Hn Hw Hw' Hk. split; simpl.
  - rewrite length_insert. apply Hs.
  - intros i v. rewrite list_lookup_insert_Some. intros [(?&?&?)|[? ?]]; [by subst|].
    eapply bits_words; eauto.
  - intros m v Hm. rewrite list_lookup_insert_Some. intros [(E&<-&?)|[E Hv]].
    + rewrite Hk by dlia. case_bool_decide as E2.
      * assert (m = n) by (apply bit_pos_inj; lia || done). subst m.
        destruct b; symmetry; [apply bool_decide_true|apply bool_decide_false]; set_solver.
      * rewrite E in Hw. rewrite (bits_test _ _ _ Hs m w Hm Hw).
        assert (m ≠ n) by congruence. apply bool_decide_ext. destruct b; set_solver.
    + rewrite (bits_test _ _ _ Hs m v Hm Hv). assert (m ≠ n) by congruence.
      apply bool_decide_ext. destruct b; set_solver.
  - pose proof (bits_dom _ _ _ Hs). destruct b; [|set_solver].
    apply union_subseteq. split; [done|]. apply singleton_subseteq_l, elem_of_run. lia.
Qed.

Lemma set_bit_ok s A n :
  bits P s A → 0 ≤ n < MAX_UNITS P →
  ∃ s', set_bit s n = Ok s' ∧ bits P s' (A ∪ {[n]}) ∧ allocated_units_ s' = allocated_units_ s.
Proof.
  intros Hs Hn. destruct (word_lookup s A n Hs Hn) as (w & Hw & Hr). unfold set_bit. rewrite Hw.
  eexists. split_and!; [done| |done].
  apply (bits_update s A n w _ true); [done..| |].
  - apply lor_range; [lia|done|]. apply bit_range. dlia.
  - intros k Hk. rewrite Z.lor_spec, bit_testbit by dlia. case_bool_decide; [|by rewrite orb_false_r].
    by rewrite orb_true_r.
Qed.

Lemma clear_bit_ok s A n :
  bits P s A → 0 ≤ n < MAX_UNITS P →
  ∃ s', clear_bit s n = Ok s' ∧ bits P s' (A ∖ {[n]}) ∧ allocated_units_ s' = allocated_units_ s.
Proof.
  intros Hs Hn. destruct (word_lookup s A n Hs Hn) as (w & Hw & Hr). unfold clear_bit. rewrite Hw.
  eexists. split_and!; [done| |done].
  apply (bits_update s A n w _ false); [done..| |].
  - by apply land_range.
  - intros k Hk. unfold not32. rewrite Z.land_spec, wrap_testbit, Z.lnot_spec, bit_testbit by dlia.
    rewrite bool_decide_true by lia. simpl.
    case_bool_decide; [by rewrite andb_false_r|by rewrite andb_true_r].
Qed.

Lemma bits_add_allocated s A d : bits P s A → bits P (add_allocated s d) A.
Proof. intros [????]. by split. Qed.

(** *** The search of [alloc_units] *)

Lemma first_fit_skip A count m : ∀ i n,
  (∀ k, 0 ≤ k < Z.of_nat m → ¬ run (i + k) count ## A) →
  first_fit A count i n = first_fit A count (i + Z.of_nat m) (n - m).
Proof.
  induction m as [|m IH]; intros i n Hk.
  { rewrite Nat.sub_0_r. f_equal. lia. }
  destruct n as [|n]; [done|]. simpl.
  rewrite bool_decide_false by (replace i with (i + 0) by lia; apply Hk; lia).
  rewrite IH.
  - f_equal; lia.
  - intros k ?. replace (i + 1 + k) with (i + (k + 1)) by lia. apply Hk. lia.
Qed.

Lemma first_fit_Some A count : ∀ n i r,
  first_fit A count i n = Some r →
  i ≤ r < i + Z.of_nat n ∧ run r count ## A ∧ (∀ k, i ≤ k < r → ¬ run k count ## A).
Proof.
  induction n as [|n IH]; intros i r; simpl; [done|]. case_bool_decide as E.
  - intros [= <-]. split_and!; [lia|lia|done|]. intros. lia.
  - intros H%IH. destruct H as (?&?&Hk). split_and!; [lia|lia|done|].
    intros k ?. destruct (decide (k = i)); [by subst|]. apply Hk. lia.
Qed.

Lemma first_fit_None A count : ∀ n i,
  first_fit A count i n = None → ∀ k, i ≤ k < i + Z.of_nat n → ¬ run k count ## A.
Proof.
  induction n as [|n IH]; intros i; simpl; [lia|]. case_bool_decide as E; [done|].
  intros H k Hk. destruct (decide (k = i)); [by subst|]. apply (IH _ H). lia.
Qed.

Lemma scan_units_ok s A i count : ∀ n j,
  bits P s A → 0 ≤ i → 0 ≤ j → i + count ≤ MAX_UNITS P → j + Z.of_nat n = count →
  (∀ k, 0 ≤ k < j → i + k ∉ A) →
  ∃ r, scan_units s i j n = Ok r ∧
    match r with
    | None => run i count ## A
    | Some j' => 0 ≤ j' < count ∧ i + j' ∈ A
    end.
Proof.
  induction n as [|n IH]; intros j Hs Hi Hj Hc Hn Hk; simpl.
  { exists None. split; [done|]. intros x Hx%elem_of_run Hx'.
    apply (Hk (x - i)); [lia|]. by replace (i + (x - i)) with x by lia. }
  destruct HP as (?&?&?&?&?). rewrite (u32_small (i + j)) by lia.
  rewrite (test_bit_ok s A) by (done || lia). simpl. case_bool_decide as E.
  { exists (Some j). split; [done|]. split; [lia|done]. }
  rewrite u32_small by lia. apply IH; [done|lia..|].
  intros k ?. destruct (decide (k = j)); [by subst|]. apply Hk. lia.
Qed.

(** Skipping behind a collision finds what the exhaustive search finds. *)
Lemma search_units_first_fit s A count last : ∀ fuel i,
  bits P s A → 0 < count → last + count = MAX_UNITS P → 0 ≤ i →
  last + 1 - i ≤ Z.of_nat fuel →
  search_units fuel s count last i = Ok (first_fit A count i (Z.to_nat (last + 1 - i))).
Proof.
  induction fuel as [|fuel IH]; intros i Hs Hc Hl Hi Hf; simpl.
  { destruct (Z.leb_spec i last); [lia|].
    replace (Z.to_nat (last + 1 - i)) with 0%nat by lia. done. }
  destruct (Z.leb_spec i last) as [Hle|Hgt].
  2:{ replace (Z.to_nat (last + 1 - i)) with 0%nat by lia. done. }
  destruct (scan_units_ok s A i count (Z.to_nat count) 0) as (r & -> & Hr); [done|lia..|].
  destruct r as [j|]; simpl.
  - destruct Hr as [Hj Hin]. destruct HP as (?&?&?&?&?).
    rewrite (u32_small (i + j)), u32_small by lia.
    rewrite (first_fit_skip A count (Z.to_nat (j + 1)) i).
    + rewrite IH by (done || lia). do 2 f_equal; lia.
    + intros k Hk Hd. apply (Hd (i + j)); [apply elem_of_run; lia|done].
  - replace (Z.to_nat (last + 1 - i)) with (S (Z.to_nat (last - i))) by lia. simpl.
    by rewrite bool_decide_true.
Qed.

(** *** The loops that write bits *)

Lemma set_units_ok i : ∀ n s A j,
  bits P s A → 0 ≤ i → 0 ≤ j → i + j + Z.of_nat n ≤ MAX_UNITS P →
  ∃ s', set_units s i j n = Ok s' ∧ bits P s' (A ∪ run (i + j) (Z.of_nat n))
        ∧ allocated_units_ s' = allocated_units_ s.
Proof.
  induction n as [|n IH]; intros s A j Hs Hi Hj Hm; simpl.
  { exists s. split_and!; [done| |done]. by rewrite run_0, union_empty_r_L. }
  destruct HP as (?&?&?&?&?). rewrite (u32_small (i + j)) by lia.
  destruct (set_bit_ok s A (i + j)) as (s1 & -> & Hs1 & E1); [done|lia|]. simpl.
  rewrite u32_small by lia.
  destruct (IH s1 _ (j + 1) Hs1) as (s2 & -> & Hs2 & E2); [lia..|].
  exists s2. split_and!; [done| |congruence].
  rewrite Nat2Z.inj_succ, <- Z.add_1_r, run_cons by lia.
  by replace (i + (j + 1)) with (i + j + 1) in Hs2 by lia; rewrite <- union_assoc_L in Hs2.
Qed.

Lemma free_loop_ok start : ∀ n s A i,
  bits P s A → 0 ≤ start → 0 ≤ i → start + i + Z.of_nat n ≤ MAX_UNITS P →
  run (start + i) (Z.of_nat n) ⊆ A →
  ∃ s', free_loop s start i n = Ok s' ∧ bits P s' (A ∖ run (start + i) (Z.of_nat n))
        ∧ allocated_units_ s' = allocated_units_ s.
Proof.
  induction n as [|n IH]; intros s A i Hs Hst Hi Hm Hsub; simpl.
  { exists s. split_and!; [done| |done]. by rewrite run_0, difference_empty_L. }
  destruct HP as (?&?&?&?&?). rewrite (u32_small (start + i)) by lia.
  rewrite (test_bit_ok s A) by (done || lia). simpl.
  rewrite bool_decide_true by (apply Hsub, elem_of_run; lia). simpl.
  destruct (clear_bit_ok s A (start + i)) as (s1 & -> & Hs1 & E1); [done|lia|]. simpl.
  rewrite u32_small by lia.
  destruct (IH s1 _ (i + 1) Hs1) as (s2 & -> & Hs2 & E2); [lia..| |].
  { intros x Hx%elem_of_run. apply elem_of_difference. split; [apply Hsub, elem_of_run; lia|].
    rewrite elem_of_singleton. lia. }
  exists s2. split_and!; [done| |congruence].
  rewrite Nat2Z.inj_succ, <- Z.add_1_r, run_cons by lia.
  by replace (start + (i + 1)) with (start + i + 1) in Hs2 by lia; rewrite difference_difference_l_L in Hs2.
Qed.

Lemma free_loop_double start : ∀ n s A i x,
  bits P s A → 0 ≤ start → 0 ≤ i → start + i + Z.of_nat n ≤ MAX_UNITS P →
  x ∈ run (start + i) (Z.of_nat n) → x ∉ A →
  free_loop s start i n = Panic "free_units: double free".
Proof.
  induction n as [|n IH]; intros s A i x Hs Hst Hi Hm Hx HA; simpl.
  { apply elem_of_run in Hx. lia. }
  destruct HP as (?&?&?&?&?). rewrite (u32_small (start + i)) by lia.
  rewrite (test_bit_ok s A) by (done || lia). simpl. case_bool_decide as E; [|done]. simpl.
  destruct (clear_bit_ok s A (start + i)) as (s1 & -> & Hs1 & E1); [done|lia|]. simpl.
  rewrite u32_small by lia. apply elem_of_run in Hx.
  apply (IH s1 _ (i + 1) x Hs1); [lia..| |set_solver].
  apply elem_of_run. assert (x ≠ start + i) by congruence. lia.
Qed.

Lemma size_bound s A : bits P s A → 0 ≤ Z.of_nat (size A) ≤ MAX_UNITS P.
Proof.
  intros Hs. destruct HP as (?&?&?&?&?). pose proof (size_run 0 (MAX_UNITS P) ltac:(lia)).
  pose proof (subseteq_size _ _ (bits_dom _ _ _ Hs)). lia.
Qed.

Lemma mark_used_loop_ok start : ∀ n s A i,
  rep P s A → 0 ≤ start → 0 ≤ i → start + i + Z.of_nat n ≤ MAX_UNITS P →
  ∃ s', mark_used_loop s start i n = Ok s' ∧ rep P s' (A ∪ run (start + i) (Z.of_nat n)).
Proof.
  induction n as [|n IH]; intros s A i [Hs Hc] Hst Hi Hm; simpl.
  { exists s. split; [done|]. by rewrite run_0, union_empty_r_L. }
  destruct HP as (?&?&?&?&?). rewrite (u32_small (start + i)) by lia.
  rewrite (test_bit_ok s A) by (done || lia). simpl. rewrite (u32_small (i + 1)) by lia.
  assert (∃ s1, (if negb (bool_decide (start + i ∈ A))
                 then s ← set_bit s (start + i); Ok (add_allocated s 1) else Ok s) = Ok s1
                ∧ rep P s1 (A ∪ {[start + i]})) as (s1 & -> & Hs1).
  { case_bool_decide as E; simpl.
    - exists s. split; [done|]. replace (A ∪ {[start + i]}) with A by set_solver. by split.
    - destruct (set_bit_ok s A (start + i)) as (s1 & -> & Hs1 & E1); [done|lia|]. simpl.
      eexists. split; [done|]. split; [by apply bits_add_allocated|]. simpl.
      pose proof (size_bound _ _ Hs1). rewrite E1, Hc, size_union_Z in * by set_solver.
      rewrite size_singleton in *. rewrite u32_small; lia. }
  simpl. destruct (IH s1 _ (i + 1) Hs1) as (s2 & -> & Hs2); [lia..|].
  exists s2. split; [done|].
  rewrite Nat2Z.inj_succ, <- Z.add_1_r, run_cons by lia.
  by replace (start + (i + 1)) with (start + i + 1) in Hs2 by lia; rewrite <- union_assoc_L in Hs2.
Qed.

Lemma mark_free_loop_ok start : ∀ n s A i,
  rep P s A → 0 ≤ start → 0 ≤ i → start + i + Z.of_nat n ≤ MAX_UNITS P →
  ∃ s', mark_free_loop s start i n = Ok s' ∧ rep P s' (A ∖ run (start + i) (Z.of_nat n)).
Proof.
  induction n as [|n IH]; intros s A i [Hs Hc] Hst Hi Hm; simpl.
  { exists s. split; [done|]. by rewrite run_0, difference_empty_L. }
  destruct HP as (?&?&?&?&?). rewrite (u32_small (start + i)) by lia.
  rewrite (test_bit_ok s A) by (done || lia). simpl. rewrite (u32_small (i + 1)) by lia.
  assert (∃ s1, (if bool_decide (start + i ∈ A)
                 then s ← clear_bit s (start + i); Ok (add_allocated s (-1)) else Ok s) = Ok s1
                ∧ rep P s1 (A ∖ {[start + i]})) as (s1 & -> & Hs1).
  { case_bool_decide as E; simpl.
    - destruct (clear_bit_ok s A (start + i)) as (s1 & -> & Hs1 & E1); [done|lia|]. simpl.
      eexists. split; [done|]. split; [by apply bits_add_allocated|]. simpl.
      pose proof (size_bound _ _ Hs). pose proof (size_bound _ _ Hs1).
      rewrite E1, Hc, size_difference_Z in * by set_solver.
      rewrite size_singleton in *. rewrite u32_small; lia.
    - exists s. split; [done|]. replace (A ∖ {[start + i]}) with A by set_solver. by split. }
  simpl. destruct (IH s1 _ (i + 1) Hs1) as (s2 & -> & Hs2); [lia..|].
  exists s2. split; [done|].
  rewrite Nat2Z.inj_succ, <- Z.add_1_r, run_cons by lia.
  by replace (start + (i + 1)) with (start + i + 1) in Hs2 by lia; rewrite difference_difference_l_L in Hs2.
Qed.

(** *** The methods on the abstract state *)

(** The address of unit [k]. *)
Definition unit_addr (k : Z) : Z := BASE_ADDR P + k * UNIT_SIZE P.

Lemma unit_addr_offset k :
  0 ≤ k < MAX_UNITS P →
  BASE_ADDR P ≤ unit_addr k < 2 ^ 32 ∧
  u32 (unit_addr k - BASE_ADDR P) = k * UNIT_SIZE P.
Proof.
  intros Hk. destruct HP as (?&?&?&?&?). unfold unit_addr.
  assert (0 ≤ k * UNIT_SIZE P < MAX_UNITS P * UNIT_SIZE P) by nia.
  split; [lia|]. rewrite u32_small; lia.
Qed.

Lemma range_start_ok op k count :
  0 ≤ k → 0 < count → k + count ≤ MAX_UNITS P →
  range_start P op (unit_addr k) count = Ok k.
Proof.
  intros Hk Hc Hm. destruct (unit_addr_offset k) as [Ha Ho]; [lia|].
  destruct HP as (?&?&?&?&?). unfold range_start.
  rewrite (proj2 (Z.ltb_ge _ _)) by lia. rewrite Ho, Z.mod_mul, Z.div_mul by lia. simpl.
  rewrite u32_small by lia. rewrite Z.gtb_ltb, (proj2 (Z.ltb_ge _ _)) by lia. done.
Qed.

Lemma range_start_panic op base count r :
  0 ≤ base < 2 ^ 32 → 0 < count < 2 ^ 32 →
  range_start P op base count = Ok r →
  0 ≤ r ∧ base = unit_addr r ∧ (r + count < 2 ^ 32 → r + count ≤ MAX_UNITS P).
Proof.
  intros Hb Hc. destruct HP as (?&?&?&?&?). unfold range_start, unit_addr.
  destruct (Z.ltb_spec base (BASE_ADDR P)); [done|].
  rewrite (u32_small (base - _)) by lia.
  destruct (Z.eqb_spec ((base - BASE_ADDR P) mod UNIT_SIZE P) 0) as [E|]; [|done]. simpl.
  pose proof (Z.div_mod (base - BASE_ADDR P) (UNIT_SIZE P) ltac:(lia)) as D. rewrite E in D.
  assert (0 ≤ (base - BASE_ADDR P) / UNIT_SIZE P) by (apply Z.div_pos; lia).
  rewrite Z.gtb_ltb. destruct (Z.ltb_spec (MAX_UNITS P)
    (u32 ((base - BASE_ADDR P) / UNIT_SIZE P + count))) as [|Hle]; [done|].
  intros [= <-]. split_and!; [done|lia|]. intros Hlt. rewrite u32_small in Hle; lia.
Qed.

Lemma find_run_Some A count i :
  0 < count → find_run P A count = Some i →
  0 ≤ i ∧ i + count ≤ MAX_UNITS P ∧ run i count ## A ∧ (∀ k, 0 ≤ k < i → ¬ run k count ## A).
Proof.
  intros Hc H%first_fit_Some. destruct H as (?&?&Hk). split_and!; [lia|lia|done|].
  intros. apply Hk. lia.
Qed.

Lemma find_run_None A count k :
  find_run P A count = None → 0 ≤ k → k + count ≤ MAX_UNITS P → ¬ run k count ## A.
Proof. intros H ??. eapply first_fit_None; [exact H|lia]. Qed.

Lemma alloc_units_ok s A count :
  rep P s A → 0 < count ≤ MAX_UNITS P →
  match find_run P A count with
  | Some i => ∃ s', alloc_units P count s = Ok (unit_addr i, s') ∧ rep P s' (A ∪ run i count)
  | None => alloc_units P count s = Panic "alloc_units: out of memory"
  end.
Proof.
  intros [Hs Hn] Hc. destruct HP as (?&?&?&?&?). unfold alloc_units.
  rewrite (proj2 (Z.eqb_neq _ _)) by lia. rewrite Z.gtb_ltb, (proj2 (Z.ltb_ge _ _)) by lia.
  rewrite (u32_small (MAX_UNITS P - count)) by lia.
  rewrite (search_units_first_fit s A) by (done || lia). simpl.
  replace (Z.to_nat (MAX_UNITS P - count + 1 - 0))
    with (Z.to_nat (MAX_UNITS P - count + 1)) by lia.
  fold (find_run P A count). destruct (find_run P A count) as [i|] eqn:Hi; [|done].
  apply find_run_Some in Hi as (?&?&Hd&_); [|lia].
  destruct (set_units_ok i (Z.to_nat count) s A 0) as (s1 & -> & Hs1 & E1); [done|lia..|].
  rewrite Z.add_0_r, Z2Nat.id in Hs1 by lia.
  destruct (unit_addr_offset i) as [? Ho]; [lia|]. unfold unit_addr in *.
  eexists. simpl. rewrite (u32_small (i * _)), u32_small by lia. split; [done|].
  split; [by apply bits_add_allocated|]. simpl.
  pose proof (size_bound _ _ Hs1) as Hb. rewrite E1, Hn.
  rewrite size_union_Z, size_run in * by (set_solver || lia). rewrite u32_small; lia.
Qed.

Lemma free_units_ok s A k count :
  rep P s A → 0 ≤ k → 0 < count → k + count ≤ MAX_UNITS P → run k count ⊆ A →
  ∃ s', free_units P (unit_addr k) count s = Ok s' ∧ rep P s' (A ∖ run k count).
Proof.
  intros [Hs Hn] Hk Hc Hm Hsub. unfold free_units. rewrite (proj2 (Z.eqb_neq _ _)) by lia.
  rewrite range_start_ok by lia. simpl.
  destruct (free_loop_ok k (Z.to_nat count) s A 0) as (s1 & -> & Hs1 & E1); [done|lia..| |].
  { by rewrite Z.add_0_r, Z2Nat.id by lia. }
  rewrite Z.add_0_r, Z2Nat.id in Hs1 by lia. eexists. simpl. split; [done|].
  split; [by apply bits_add_allocated|]. simpl.
  pose proof (size_bound _ _ Hs). pose proof (size_bound _ _ Hs1). destruct HP as (?&?&?&?&?).
  rewrite E1, Hn. rewrite size_difference_Z, size_run in * by (done || lia).
  rewrite u32_small; lia.
Qed.

Lemma free_units_double s A k count :
  rep P s A → 0 ≤ k → 0 < count → k + count ≤ MAX_UNITS P → ¬ run k count ⊆ A →
  free_units P (unit_addr k) count s = Panic "free_units: double free".
Proof.
  intros [Hs Hn] Hk Hc Hm Hsub. unfold free_units. rewrite (proj2 (Z.eqb_neq _ _)) by lia.
  rewrite range_start_ok by lia. simpl.
  destruct (set_choose_or_empty (run k count ∖ A)) as [[x Hx]|He]; [|by destruct Hsub; apply empty_difference_subseteq].
  apply elem_of_difference in Hx as [Hx HA].
  rewrite (free_loop_double k _ s A 0 x); [done|done|lia..| |done].
  by rewrite Z.add_0_r, Z2Nat.id by lia.
Qed.

Lemma mark_units_used_ok s A k count :
  rep P s A → 0 ≤ k → 0 ≤ count → k + count ≤ MAX_UNITS P →
  ∃ s', mark_units_used P (unit_addr k) count s = Ok s' ∧ rep P s' (A ∪ run k count).
Proof.
  intros Hs Hk Hc Hm. unfold mark_units_used. destruct (Z.eqb_spec count 0) as [->|].
  { exists s. by rewrite run_0, union_empty_r_L. }
  rewrite range_start_ok by lia. simpl.
  destruct (mark_used_loop_ok k (Z.to_nat count) s A 0) as (s1 & -> & Hs1); [done|lia..|].
  rewrite Z.add_0_r, Z2Nat.id in Hs1 by lia. eauto.
Qed.

Lemma mark_units_free_ok s A k count :
  rep P s A → 0 ≤ k → 0 ≤ count → k + count ≤ MAX_UNITS P →
  ∃ s', mark_units_free P (unit_addr k) count s = Ok s' ∧ rep P s' (A ∖ run k count).
Proof.
  intros Hs Hk Hc Hm. unfold mark_units_free. destruct (Z.eqb_spec count 0) as [->|].
  { exists s. by rewrite run_0, difference_empty_L. }
  rewrite range_start_ok by lia. simpl.
  destruct (mark_free_loop_ok k (Z.to_nat count) s A 0) as (s1 & -> & Hs1); [done|lia..|].
  rewrite Z.add_0_r, Z2Nat.id in Hs1 by lia. eauto.
Qed.

Lemma allocated_ok s A k :
  rep P s A → 0 ≤ k < MAX_UNITS P → allocated P (unit_addr k) s = Ok (bool_decide (k ∈ A)).
Proof.
  intros [Hs _] Hk. destruct (unit_addr_offset k Hk) as [Ha Ho]. destruct HP as (?&?&?&?&?).
  unfold allocated, contains. rewrite (proj2 (Z.ltb_ge _ _)) by lia.
  rewrite Ho, Z.div_mul, Z.mod_mul by lia. rewrite (proj2 (Z.ltb_lt _ _)) by lia. simpl.
  by apply test_bit_ok.
Qed.

Lemma clear_ok s A : rep P s A → rep P (clear s) ∅.
Proof.
  intros [Hs _]. split; [|done]. split; simpl.
  - rewrite length_fmap. apply Hs.
  - intros i w. rewrite list_lookup_fmap_Some. intros (?&->&?). lia.
  - intros n w Hn. rewrite list_lookup_fmap_Some. intros (?&->&?).
    rewrite Z.bits_0. symmetry. by apply bool_decide_false.
  - set_solver.
Qed.

Lemma bitmap_init_rep : rep P (bitmap_init P) ∅.
Proof.
  pose proof BITMAP_SIZE_eq as E. destruct HP as (?&?&?&?&?).
  split; [|done]. split; simpl.
  - rewrite length_replicate. dlia.
  - intros i w [-> ?]%lookup_replicate. lia.
  - intros n w Hn [-> ?]%lookup_replicate. by rewrite Z.bits_0.
  - set_solver.
Qed.

Lemma set_ok s A : rep P s A → rep P (set P s) (run 0 (MAX_UNITS P)).
Proof.
  intros [Hs _]. destruct HP as (?&?&?&?&?). split; [|simpl; by rewrite size_run by lia].
  split; simpl.
  - rewrite length_fmap. apply Hs.
  - intros i w. rewrite list_lookup_fmap_Some. intros (?&->&?). lia.
  - intros n w Hn. rewrite list_lookup_fmap_Some. intros (?&->&?).
    change 4294967295 with (Z.ones 32). rewrite Z.testbit_ones_nonneg by dlia.
    rewrite (proj2 (Z.ltb_lt _ _)) by dlia. symmetry. apply bool_decide_true, elem_of_run. lia.
  - done.
Qed.

(** The range check adds in 32 bits: a [count] that wraps the sum is accepted,
    and the loop then leaves the bitmap. *)
Lemma mark_used_loop_fault start : ∀ n s i,
  0 ≤ start → 0 ≤ i → start + i ≤ 32 * Z.of_nat (length (bitmap s)) →
  32 * Z.of_nat (length (bitmap s)) < start + i + Z.of_nat n →
  32 * Z.of_nat (length (bitmap s)) + 1 < 2 ^ 32 →
  mark_used_loop s start i n = Fault (Z.of_nat (length (bitmap s))).
Proof.
  induction n as [|n IH]; intros s i Hst Hi Hle Hn Hl; simpl; [lia|].
  rewrite (u32_small (start + i)), (u32_small (i + 1)) by lia.
  unfold test_bit, set_bit.
  destruct (decide (start + i < 32 * Z.of_nat (length (bitmap s)))) as [Hin|].
  - destruct (lookup_lt_is_Some_2 (bitmap s) (Z.to_nat ((start + i) / 32))) as [w Hw]; [dlia|].
    rewrite Hw. simpl. destruct (Z.land _ _ =? 0); simpl.
    all: rewrite IH; simpl; rewrite ?length_insert; (done || lia).
  - assert (start + i = 32 * Z.of_nat (length (bitmap s))) as -> by lia.
    rewrite (Z.mul_comm 32), Z.div_mul, Nat2Z.id, lookup_ge_None_2 by lia. done.
Qed.

End Facts.

(** ** Reachable allocators *)

(** One call of a method that returned normally. *)
Inductive bitmap_step (P : params) : bitmap_t → bitmap_t → Prop :=
| step_alloc_units s count addr s' :
    0 ≤ count < 2 ^ 32 → alloc_units P count s = Ok (addr, s') → bitmap_step P s s'
| step_free_units s k count s' :
    0 ≤ k → 0 ≤ count → k + count ≤ MAX_UNITS P →
    free_units P (unit_addr P k) count s = Ok s' → bitmap_step P s s'
| step_mark_units_free s k count s' :
    0 ≤ k → 0 ≤ count → k + count ≤ MAX_UNITS P →
    mark_units_free P (unit_addr P k) count s = Ok s' → bitmap_step P s s'
| step_mark_units_used s k count s' :
    0 ≤ k → 0 ≤ count → k + count ≤ MAX_UNITS P →
    mark_units_used P (unit_addr P k) count s = Ok s' → bitmap_step P s s'
| step_clear s : bitmap_step P s (clear s)
| step_set s : bitmap_step P s (set P s).

Lemma bitmap_step_rep P s s' A :
  params_ok P → rep P s A → bitmap_step P s s' → ∃ A', rep P s' A'.
Proof.
  intros HP Hs Hstep. destruct Hstep as
    [s count addr s' Hc E|s k count s' ??? E|s k count s' ??? E|s k count s' ??? E|s|s].
  - destruct (decide (count = 0)) as [->|].
    { injection E as _ ->. eauto. }
    destruct (decide (count ≤ MAX_UNITS P)) as [|Hgt].
    + pose proof (alloc_units_ok P HP s A count Hs ltac:(lia)) as Ha. rewrite E in Ha.
      destruct (find_run P A count); [|done]. destruct Ha as (s1 & [= -> ->] & ?). eauto.
    + unfold alloc_units in E. rewrite (proj2 (Z.eqb_neq _ _)) in E by done.
      by rewrite Z.gtb_ltb, (proj2 (Z.ltb_lt _ _)) in E by lia.
  - destruct (decide (count = 0)) as [->|]; [injection E as ->; eauto|].
    destruct (decide (run k count ⊆ A)).
    + destruct (free_units_ok P HP s A k count) as (s1 & E1 & ?); [done|lia..|done|].
      rewrite E1 in E. injection E as ->. eauto.
    + rewrite (free_units_double P HP s A k count) in E by (done || lia). done.
  - destruct (mark_units_free_ok P HP s A k count) as (s1 & E1 & ?); [done|lia..|].
    rewrite E1 in E. injection E as ->. eauto.
  - destruct (mark_units_used_ok P HP s A k count) as (s1 & E1 & ?); [done|lia..|].
    rewrite E1 in E. injection E as ->. eauto.
  - exists ∅. by eapply clear_ok.
  - eexists. by eapply set_ok.
Qed.

(** The bitmap of the built-in self tests. *)
Definition TinyBitmap : params := Params 4096 64 4096.

Lemma TinyBitmap_ok : params_ok TinyBitmap.
Proof. repeat split; vm_compute; congruence. Qed.

(** ** Properties *)

(** C8: [alloc_units] implements first fit.  On an allocator that stores the set
    [A], a request for [count] units returns the address of the least unit from
    which [count] units are free, although the loop skips behind every
    collision; the units of the run, and no others, become allocated and the
    counter follows.  It panics with "out of memory" exactly when no run of
    [count] free units exists, and never leaves the bitmap array. *)
Theorem alloc_units_first_fit P s A count :
  params_ok P → rep P s A → 0 < count ≤ MAX_UNITS P →
  (∃ i s', alloc_units P count s = Ok (BASE_ADDR P + i * UNIT_SIZE P, s')
     ∧ 0 ≤ i ∧ i + count ≤ MAX_UNITS P ∧ run i count ## A
     ∧ (∀ k, 0 ≤ k < i → ¬ run k count ## A) ∧ rep P s' (A ∪ run i count))
  ∨ (alloc_units P count s = Panic "alloc_units: out of memory"
     ∧ ∀ k, 0 ≤ k → k + count ≤ MAX_UNITS P → ¬ run k count ## A).
Proof.
  intros HP Hs Hc. pose proof (alloc_units_ok P HP s A count Hs Hc) as H.
  destruct (find_run P A count) as [i|] eqn:Hi.
  - left. destruct H as (s' & E & Hs'). apply find_run_Some in Hi as (?&?&?&?); [|lia].
    exists i, s'. eauto 10.
  - right. split; [done|]. intros. by apply (find_run_None P).
Qed.

Lemma alloc_units_first_fit_witness :
  (∃ s', alloc_units TinyBitmap 3 (bitmap_init TinyBitmap) = Ok (4096, s')) ∧
  let s := bitmap_init TinyBitmap in
  (∃ i s', alloc_units TinyBitmap 3 s = Ok (4096 + i * 4096, s')
     ∧ 0 ≤ i ∧ i + 3 ≤ 64 ∧ run i 3 ## ∅
     ∧ (∀ k, 0 ≤ k < i → ¬ run k 3 ## ∅) ∧ rep TinyBitmap s' (∅ ∪ run i 3))
  ∨ (alloc_units TinyBitmap 3 s = Panic "alloc_units: out of memory"
     ∧ ∀ k, 0 ≤ k → k + 3 ≤ 64 → ¬ run k 3 ## ∅).
Proof.
  split; [eexists; vm_compute; reflexivity|].
  apply (alloc_units_first_fit TinyBitmap _ ∅ 3); [apply TinyBitmap_ok| |simpl; lia].
  apply bitmap_init_rep, TinyBitmap_ok.
Defined.

(** [free_units] on a range of managed units releases exactly that range
    when all its units are allocated, and panics with "double free" when one of
    them is not. *)
Theorem free_units_exact P s A k count :
  params_ok P → rep P s A → 0 ≤ k → 0 < count → k + count ≤ MAX_UNITS P →
  (run k count ⊆ A ∧ ∃ s', free_units P (BASE_ADDR P + k * UNIT_SIZE P) count s = Ok s'
     ∧ rep P s' (A ∖ run k count))
  ∨ (¬ run k count ⊆ A
     ∧ free_units P (BASE_ADDR P + k * UNIT_SIZE P) count s = Panic "free_units: double free").
Proof.
  intros HP Hs Hk Hc Hm. destruct (decide (run k count ⊆ A)).
  - left. split; [done|]. by apply (free_units_ok P HP).
  - right. split; [done|]. by apply (free_units_double P HP s A).
Qed.

Lemma free_units_exact_witness :
  free_units TinyBitmap 8192 1 (bitmap_init TinyBitmap) = Panic "free_units: double free" ∧
  ((run 1 1 ⊆ (∅ : gset Z) ∧ ∃ s', free_units TinyBitmap (4096 + 1 * 4096) 1 (bitmap_init TinyBitmap) = Ok s'
     ∧ rep TinyBitmap s' (∅ ∖ run 1 1))
  ∨ (¬ run 1 1 ⊆ (∅ : gset Z)
     ∧ free_units TinyBitmap (4096 + 1 * 4096) 1 (bitmap_init TinyBitmap)
       = Panic "free_units: double free")).
Proof.
  split; [reflexivity|].
  apply (free_units_exact TinyBitmap _ ∅ 1 1); [apply TinyBitmap_ok| |lia|lia|simpl; lia].
  apply bitmap_init_rep, TinyBitmap_ok.
Defined.

(** Freeing what was just allocated restores the set of allocated units:
    the round trip neither panics nor changes which units are free, nor the
    counter. *)
Theorem alloc_free_roundtrip P s A count addr s' :
  params_ok P → rep P s A → 0 < count ≤ MAX_UNITS P →
  alloc_units P count s = Ok (addr, s') →
  ∃ s'', free_units P addr count s' = Ok s'' ∧ rep P s'' A
         ∧ allocated_unit_count s'' = allocated_unit_count s.
Proof.
  intros HP Hs Hc E. pose proof (alloc_units_ok P HP s A count Hs Hc) as H.
  destruct (find_run P A count) as [i|] eqn:Hi; [|congruence].
  destruct H as (s1 & E1 & Hs1). rewrite E in E1. injection E1 as -> ->.
  apply find_run_Some in Hi as (?&?&Hd&_); [|lia].
  destruct (free_units_ok P HP s1 _ i count Hs1) as (s2 & -> & Hs2); [lia..|set_solver|].
  replace ((A ∪ run i count) ∖ run i count) with A in Hs2 by set_solver.
  exists s2. split_and!; [done|done|]. destruct Hs as [_ Ha], Hs2 as [_ Hb].
  unfold allocated_unit_count. congruence.
Qed.

Lemma alloc_free_roundtrip_witness :
  ∃ s' s'', alloc_units TinyBitmap 5 (bitmap_init TinyBitmap) = Ok (4096, s')
    ∧ free_units TinyBitmap 4096 5 s' = Ok s'' ∧ rep TinyBitmap s'' ∅
    ∧ allocated_unit_count s'' = allocated_unit_count (bitmap_init TinyBitmap).
Proof.
  exists (Bitmap [31; 0] 5).
  destruct (alloc_free_roundtrip TinyBitmap (bitmap_init TinyBitmap) ∅ 5 4096 (Bitmap [31; 0] 5))
    as (s'' & ?); [apply TinyBitmap_ok|apply bitmap_init_rep, TinyBitmap_ok|simpl; lia| |].
  { vm_compute. reflexivity. }
  exists s''. split; [vm_compute; reflexivity|done].
Defined.

(** In every state an allocator can reach from its constructor by calls on
    managed ranges that return, the counter [allocated_units_] is the number of
    allocated units, each of which lies in the managed range. *)
Theorem reachable_counter_exact P s :
  params_ok P → rtc (bitmap_step P) (bitmap_init P) s →
  ∃ A, rep P s A ∧ allocated_unit_count s + free_unit_count P s = MAX_UNITS P
       ∧ allocated_unit_count s = Z.of_nat (size A).
Proof.
  intros HP Hr.
  assert (∃ A, rep P s A) as [A HA].
  { remember (bitmap_init P) as s0 eqn:E0.
    assert (∃ A, rep P s0 A) as H0 by (exists ∅; subst; by apply bitmap_init_rep).
    clear E0. induction Hr as [|s0 s1 s2 Hstep _ IH]; [done|].
    destruct H0 as [A0 H0]. apply IH. by eapply bitmap_step_rep. }
  exists A. pose proof HA as [Hb Hc]. split_and!; [done| |done].
  pose proof (size_bound P HP s A Hb). destruct HP as (?&?&?&?&?).
  unfold free_unit_count, allocated_unit_count. rewrite Hc, u32_small; lia.
Qed.

Lemma reachable_counter_exact_witness :
  ∃ s A, alloc_units TinyBitmap 2 (bitmap_init TinyBitmap) = Ok (4096, s) ∧ rep TinyBitmap s A
    ∧ allocated_unit_count s + free_unit_count TinyBitmap s = 64
    ∧ allocated_unit_count s = Z.of_nat (size A).
Proof.
  exists (Bitmap [3; 0] 2).
  destruct (reachable_counter_exact TinyBitmap (Bitmap [3; 0] 2)) as (A & ?).
  - apply TinyBitmap_ok.
  - apply rtc_once, (step_alloc_units _ _ 2 4096); [lia|]. vm_compute. reflexivity.
  - exists A. split; [vm_compute; reflexivity|done].
Defined.

(** The range check of [mark_units_used] adds [start + count] in 32 bits, so
    the count [2^32 - start] is accepted for every managed unit [start] except
    the first, and the marking loop runs past the last word of the bitmap. *)
Theorem mark_range_check_wraps P s start :
  params_ok P → Z.of_nat (length (bitmap s)) = BITMAP_SIZE P → 0 < start < MAX_UNITS P →
  MAX_UNITS P ≤ 2 ^ 31 →
  mark_units_used P (BASE_ADDR P + start * UNIT_SIZE P) (2 ^ 32 - start) s
  = Fault (BITMAP_SIZE P).
Proof.
  intros HP Hl Hst Hmax. pose proof (BITMAP_SIZE_eq P HP) as Hsz. unfold mark_units_used.
  rewrite (proj2 (Z.eqb_neq _ _)) by lia.
  replace (range_start P "mark_units_used" (BASE_ADDR P + start * UNIT_SIZE P) (2 ^ 32 - start))
    with (Ok start : res Z).
  - simpl. rewrite mark_used_loop_fault, Hl; [done|lia|lia|dlia|dlia|dlia].
  - destruct (unit_addr_offset P HP start) as [? Ho]; [lia|]. fold (unit_addr P start).
    destruct HP as (?&?&?&?&?). unfold range_start. rewrite (proj2 (Z.ltb_ge _ _)) by lia.
    rewrite Ho, Z.mod_mul, Z.div_mul by lia. simpl.
    replace (start + (2 ^ 32 - start)) with (2 ^ 32) by lia. change (u32 (2 ^ 32)) with 0.
    by rewrite Z.gtb_ltb, (proj2 (Z.ltb_ge _ _)) by lia.
Qed.

Lemma mark_range_check_wraps_witness :
  mark_units_used TinyBitmap (4096 + 1 * 4096) (2 ^ 32 - 1) (bitmap_init TinyBitmap)
  = Fault (BITMAP_SIZE TinyBitmap).
Proof.
  apply (mark_range_check_wraps TinyBitmap); [apply TinyBitmap_ok|reflexivity|simpl; lia|simpl; lia].
Defined.
