(* ===== verification/Layout.v ===== *)
(** Page arithmetic (kernel/include/mm/pmm.hpp) and the map of the kernel's
    virtual address space (kernel/include/mm/layout.hpp).

    The regions of the source are a [constexpr] array checked by
    [static_assert(validate())]; here [REGIONS] is that array and [validate]
    the same pair of loops.  The theorems say what the check buys: every
    address lies in at most one region, and [find_region] finds it. *)
From S2P Require Import Prelude.

(** ** Pages *)

Definition PAGE_SIZE : Z := 4096.
Definition MAX_FRAMES : Z := Z.shiftl 1 20.

Definition align_down (val align : Z) : Z := Z.land val (not32 (u32 (align - 1))).
Definition align_up (val align : Z) : Z :=
  Z.land (u32 (u32 (val + align) - 1)) (not32 (u32 (align - 1))).

(** ** Boot-time addresses *)

Definition TRAMPOLINE_BASE : Z := 0x00008000.
Definition ACPI_SCAN_BASE : Z := 0x000E0000.
Definition ACPI_SCAN_END : Z := 0x00100000.
Definition LOW_USABLE_BASE : Z := 0x00100000.

(** ** Virtual regions *)

Inductive RegionId := BootstrapIdentity | KernelHeap | ModuleSpace | RecursivePageTables.
Inductive MapKind := Fixed | Identity | Reserved | Pool | Randomized.

#[export] Instance RegionId_eq_dec : EqDecision RegionId.
Proof. solve_decision. Defined.

Record RegionDesc := Region {
  r_id : RegionId; r_name : string; r_base : Z; r_size : Z; r_kind : MapKind
}.

(** [end()] and the comparisons are done in 64 bits. *)
Definition region_end (r : RegionDesc) : Z := u64 (r_base r + r_size r).
Definition region_contains (r : RegionDesc) (addr : Z) : bool :=
  (r_base r <=? addr) && (addr <? region_end r).
Definition region_contains_span (r : RegionDesc) (addr span : Z) : bool :=
  (span <=? r_size r) && (r_base r <=? addr) && (u64 (addr + span) <=? region_end r).

Definition IDENTITY_WINDOW_BASE : Z := 0x00000000.
Definition IDENTITY_WINDOW_SIZE : Z := 0x00400000.
Definition KERNEL_HEAP_BASE : Z := 0x01000000.
Definition KERNEL_HEAP_SIZE : Z := 0x01000000.
Definition KERNEL_HEAP_INITIAL_SIZE : Z := 0x00100000.
Definition MODULE_SPACE_BASE : Z := 0x0A000000.
Definition MODULE_SPACE_SIZE : Z := 0x00080000.
Definition MODULE_SPACE_PAGE_COUNT : Z := MODULE_SPACE_SIZE / PAGE_SIZE.
Definition RECURSIVE_PT_BASE : Z := 0xFFC00000.
Definition RECURSIVE_PT_SIZE : Z := 0x00400000.
Definition RECURSIVE_PD_BASE : Z := u32 (u32 (RECURSIVE_PT_BASE + RECURSIVE_PT_SIZE) - PAGE_SIZE).

Definition REGIONS : list RegionDesc := [
  Region BootstrapIdentity "bootstrap-identity" IDENTITY_WINDOW_BASE IDENTITY_WINDOW_SIZE Identity;
  Region KernelHeap "kernel-heap" KERNEL_HEAP_BASE KERNEL_HEAP_SIZE Pool;
  Region ModuleSpace "module-space" MODULE_SPACE_BASE MODULE_SPACE_SIZE Pool;
  Region RecursivePageTables "recursive-page-tables" RECURSIVE_PT_BASE RECURSIVE_PT_SIZE Reserved
].
Definition REGION_COUNT : nat := length REGIONS.

(** [RegionIndex<Id>::value]. *)
Definition RegionIndex (id : RegionId) : nat :=
  match id with
  | BootstrapIdentity => 0 | KernelHeap => 1 | ModuleSpace => 2 | RecursivePageTables => 3
  end.

Definition is_page_aligned (value : Z) : bool := Z.land value (PAGE_SIZE - 1) =? 0.

Definition overlaps (lhs rhs : RegionDesc) : bool :=
  (r_base lhs <? region_end rhs) && (r_base rhs <? region_end lhs).

Definition valid_region (r : RegionDesc) : bool :=
  (0 <? r_size r) && is_page_aligned (r_base r) && is_page_aligned (r_size r)
  && (r_base r <? region_end r).

(** The two nested loops of [validate] over the regions from index [i] on. *)
Fixpoint validate_regions (rs : list RegionDesc) : bool :=
  match rs with
  | [] => true
  | r :: rs =>
      if negb (valid_region r) then false
      else if existsb (overlaps r) rs then false
      else validate_regions rs
  end.
Definition validate : bool := validate_regions REGIONS.

Definition find_region_id (id : RegionId) : option RegionDesc :=
  List.find (λ r, bool_decide (r_id r = id)) REGIONS.
Definition find_region (addr : Z) : option RegionDesc :=
  List.find (λ r, region_contains r addr) REGIONS.
Definition region (id : RegionId) : option RegionDesc := REGIONS !! RegionIndex id.
Definition occupied (addr : Z) : bool :=
  match find_region addr with Some _ => true | None => false end.

(** ** Lemmas on alignment *)

Lemma align_down_spec val k :
  0 ≤ k < 32 → 0 ≤ val < 2 ^ 32 → align_down val (2 ^ k) = val - val mod 2 ^ k.
Proof.
  intros Hk Hv. unfold align_down. rewrite (u32_small (2 ^ k - 1)).
  - by apply land_not_mask.
  - pose proof (Z.pow_lt_mono_r 2 k 32). lia.
Qed.

Lemma align_up_spec val k :
  0 ≤ k < 32 → 0 ≤ val → val + 2 ^ k - 1 < 2 ^ 32 →
  align_up val (2 ^ k) = val + (- val) mod 2 ^ k.
Proof.
  intros Hk Hv Hb. unfold align_up.
  assert (0 < 2 ^ k) by lia. pose proof (Z.pow_lt_mono_r 2 k 32).
  rewrite (u32_small (2 ^ k - 1)) by lia.
  rewrite wrap_sub_l, (u32_small (val + 2 ^ k - 1)) by lia.
  rewrite land_not_mask by lia.
  assert ((val + 2 ^ k - 1) mod 2 ^ k = 2 ^ k - 1 - (- val) mod 2 ^ k) as ->; [|lia].
  symmetry. apply (Z.mod_unique_pos _ _ ((val + (- val) mod 2 ^ k) / 2 ^ k)).
  { pose proof (Z.mod_pos_bound (- val) (2 ^ k)). lia. }
  pose proof (Z.div_mod (- val) (2 ^ k) ltac:(lia)) as D.
  replace (val + (- val) mod 2 ^ k) with (- ((- val) / 2 ^ k) * 2 ^ k) at 1 by lia.
  rewrite Z.div_mul by lia. lia.
Qed.

Lemma align_down_page val :
  0 ≤ val < 2 ^ 32 → align_down val PAGE_SIZE = val / 4096 * 4096.
Proof.
  intros. change PAGE_SIZE with (2 ^ 12). rewrite align_down_spec by lia.
  change (2 ^ 12) with 4096. dlia.
Qed.

Lemma align_up_page val :
  0 ≤ val → val + 4095 < 2 ^ 32 → align_up val PAGE_SIZE = (val + 4095) / 4096 * 4096.
Proof.
  intros. change PAGE_SIZE with (2 ^ 12). rewrite align_up_spec by lia.
  change (2 ^ 12) with 4096. dlia.
Qed.

(** Rounding up at the top of the address space gives 0. *)
Lemma align_up_page_wraps val :
  2 ^ 32 - 4096 < val < 2 ^ 32 → align_up val PAGE_SIZE = 0.
Proof.
  intros. unfold align_up, PAGE_SIZE.
  replace (u32 (u32 (val + 4096) - 1)) with (val - (2 ^ 32 - 4095)) by (unfold wrap; dlia).
  change (u32 (4096 - 1)) with (2 ^ 12 - 1).
  rewrite land_not_mask by lia. rewrite (Z.mod_small _ (2 ^ 12)) by lia. lia.
Qed.

(** ** Lemmas on regions *)

Lemma overlaps_spec r1 r2 addr :
  region_contains r1 addr = true → region_contains r2 addr = true → overlaps r1 r2 = true.
Proof. unfold region_contains, overlaps. rewrite !andb_true_iff, !Z.leb_le, !Z.ltb_lt. lia. Qed.

Lemma validate_regions_disjoint rs : validate_regions rs = true →
  ∀ i j r1 r2 addr, rs !! i = Some r1 → rs !! j = Some r2 →
    region_contains r1 addr = true → region_contains r2 addr = true → i = j.
Proof.
  induction rs as [|r rs IH]; simpl; [done|].
  destruct (valid_region r); simpl; [|done].
  destruct (existsb (overlaps r) rs) eqn:Ho; [done|]. intros Hv.
  assert (∀ j r2 addr, rs !! j = Some r2 → region_contains r addr = true →
            region_contains r2 addr = true → False) as Hr.
  { intros j r2 addr Hj H1 H2. apply not_true_iff_false in Ho. apply Ho, existsb_exists.
    exists r2. split; [by eapply list_elem_of_In, list_elem_of_lookup_2|].
    by eapply overlaps_spec. }
  intros [|i] [|j] r1 r2 addr H1 H2 C1 C2; simplify_eq/=; [done|naive_solver..|].
  f_equal. eapply IH; eauto.
Qed.

Lemma find_region_Some addr r :
  find_region addr = Some r → r ∈ REGIONS ∧ region_contains r addr = true.
Proof. intros [Hin Hc]%List.find_some. split; [by apply list_elem_of_In|done]. Qed.

(** ** Properties *)

(** The virtual address map is unambiguous.  The [static_assert] of the
    source holds ([validate] returns true), and therefore an address belongs to
    a region of the map exactly when [find_region] returns that region: no two
    regions share an address, and an address is [occupied] exactly when some
    region contains it. *)
Theorem find_region_exact addr r :
  validate = true ∧
  (find_region addr = Some r ↔ r ∈ REGIONS ∧ region_contains r addr = true) ∧
  (occupied addr = true ↔ ∃ r', r' ∈ REGIONS ∧ region_contains r' addr = true).
Proof.
  assert (validate = true) as Hv by reflexivity.
  assert (∀ r', r' ∈ REGIONS → region_contains r' addr = true → find_region addr = Some r') as Hf.
  { intros r' Hin Hc. destruct (find_region addr) as [r0|] eqn:E.
    - apply find_region_Some in E as [Hin0 Hc0].
      apply list_elem_of_lookup in Hin as [i Hi], Hin0 as [j Hj].
      assert (j = i) by (by eapply (validate_regions_disjoint REGIONS)). congruence.
    - eapply List.find_none in E; [|by apply list_elem_of_In]. congruence. }
  split_and!; [done| |].
  - split; [apply find_region_Some|]. intros [??]. by apply Hf.
  - unfold occupied. split.
    + destruct (find_region addr) as [r'|] eqn:E; [|done]. intros _.
      exists r'. by apply find_region_Some.
    + intros (r' & Hin & Hc). by rewrite (Hf r').
Qed.

(** Rounding to pages.  For an address whose successor page is below 4 GiB,
    [align_up] is the least page boundary not below it and [align_down] the
    greatest not above it; within the last page of the address space [align_up]
    wraps to 0. *)
Theorem align_page_exact val :
  0 ≤ val < 2 ^ 32 →
  (align_down val PAGE_SIZE ≤ val < align_down val PAGE_SIZE + PAGE_SIZE
   ∧ align_down val PAGE_SIZE mod PAGE_SIZE = 0) ∧
  (val ≤ 2 ^ 32 - PAGE_SIZE →
     align_up val PAGE_SIZE mod PAGE_SIZE = 0
     ∧ val ≤ align_up val PAGE_SIZE < val + PAGE_SIZE) ∧
  (2 ^ 32 - PAGE_SIZE < val → align_up val PAGE_SIZE = 0).
Proof.
  intros Hv. rewrite align_down_page by done. split_and!; [unfold PAGE_SIZE; dlia..| |].
  - intros Hle. rewrite align_up_page by (unfold PAGE_SIZE in *; lia). unfold PAGE_SIZE. dlia.
  - intros. apply align_up_page_wraps. unfold PAGE_SIZE in *. lia.
Qed.

Lemma align_page_exact_witness :
  align_up 0x1234 PAGE_SIZE = 0x2000 ∧
  (align_down 0x1234 PAGE_SIZE ≤ 0x1234 < align_down 0x1234 PAGE_SIZE + PAGE_SIZE
   ∧ align_down 0x1234 PAGE_SIZE mod PAGE_SIZE = 0) ∧
  (0x1234 ≤ 2 ^ 32 - PAGE_SIZE →
     align_up 0x1234 PAGE_SIZE mod PAGE_SIZE = 0
     ∧ 0x1234 ≤ align_up 0x1234 PAGE_SIZE < 0x1234 + PAGE_SIZE) ∧
  (2 ^ 32 - PAGE_SIZE < 0x1234 → align_up 0x1234 PAGE_SIZE = 0).
Proof. split; [reflexivity|]. apply (align_page_exact 0x1234). lia. Defined.
