(* ===== verification/Pmm.v ===== *)
(** The physical memory manager: kernel/src/mm/pmm.cpp, kernel/include/mm/pmm.hpp,
    with the multiboot accessors of kernel/include/multiboot_utils.hpp.

    The state is the class's static fields: the frame bitmap [mem_mngr] (the
    allocator of [Bitmap.v] at the parameters [PMM]) and the two frame
    counters.  Each public call takes the lock for its whole body, so a call is
    one step of the model.  What the boot loader leaves in memory, the memory
    map entries and the module descriptors, are parameters ([mmap_at],
    [mod_at]) read at the addresses the source reads; [__kernel_start] and
    [__kernel_end] are set by the linker script and are parameters too. *)
From S2P Require Import Prelude Bitmap Layout.

(** ** Multiboot information *)

Definition MULTIBOOT_INFO_MODS : Z := 0x00000008.
Definition MULTIBOOT_INFO_MEM_MAP : Z := 0x00000040.
Definition MULTIBOOT_MEMORY_AVAILABLE : Z := 1.

Record multiboot_info := MultibootInfo {
  mb_flags : Z; mods_count : Z; mods_addr : Z; mmap_length : Z; mmap_addr : Z
}.
Record multiboot_mmap_entry := MmapEntry {
  mm_size : Z; mm_addr : Z; mm_len : Z; mm_type : Z
}.
Record multiboot_module := MultibootModule { mod_start : Z; mod_end : Z }.

Definition TEST_MASK (val mask : Z) : bool := Z.land val mask =? mask.

Definition has_modules (info : multiboot_info) : bool :=
  TEST_MASK (mb_flags info) MULTIBOOT_INFO_MODS
  && negb (mods_count info =? 0) && negb (mods_addr info =? 0).

Definition module_count (info : multiboot_info) : Z :=
  if has_modules info then mods_count info else 0.

(** [modules(info)[i]] for [i] from 0 to [mods_count - 1]; an array element
    takes 16 bytes. *)
Definition modules (mod_at : Z → multiboot_module) (info : multiboot_info) : list multiboot_module :=
  if has_modules info
  then (λ i, mod_at (u32 (mods_addr info + 16 * i))) <$> seqZ 0 (mods_count info)
  else [].

Definition max_module_end_aligned (mod_at : Z → multiboot_module) (info : multiboot_info) : Z :=
  foldl (λ end_ m, let aligned_end := align_up (mod_end m) PAGE_SIZE in
                   if aligned_end >? end_ then aligned_end else end_)
        0 (modules mod_at info).

(** ** Page ranges *)

Definition PMM : params := Params 0 MAX_FRAMES PAGE_SIZE.

Record PageRange := MkRange { pr_base : Z; pr_frames : Z }.
Definition pr_size (r : PageRange) : Z := u32 (pr_frames r * PAGE_SIZE).
Definition pr_empty (r : PageRange) : bool := pr_frames r =? 0.

Definition not64 (x : Z) : Z := u64 (Z.lnot x).

(** The whole pages of [base, base + size), not below [min_base]; computed in
    64 bits. *)
Definition freeable_page_range (base size min_base : Z) : PageRange :=
  if size =? 0 then MkRange 0 0
  else
    let start := base in
    let end_ := u64 (base + size) in
    let floor := min_base in
    let ceil := u64 (MAX_FRAMES * PAGE_SIZE) in
    if (end_ <=? floor) || (ceil <=? start) then MkRange 0 0
    else
      let start := if start <? floor then floor else start in
      let end_ := if ceil <? end_ then ceil else end_ in
      let start := Z.land (u64 (u64 (start + PAGE_SIZE) - 1)) (not64 (PAGE_SIZE - 1)) in
      let end_ := Z.land end_ (not64 (PAGE_SIZE - 1)) in
      if end_ <=? start then MkRange 0 0
      else MkRange (u32 start) (u32 ((end_ - start) / PAGE_SIZE)).

(** The pages that [base, base + size) touches; the bounds are rounded in 32
    bits. *)
Definition covered_page_range (base size : Z) : PageRange :=
  if size =? 0 then MkRange 0 0
  else
    let start := align_down base PAGE_SIZE in
    let end_ := align_up (u32 (base + size)) PAGE_SIZE in
    let ceil := u64 (MAX_FRAMES * PAGE_SIZE) in
    if ceil <=? start then MkRange 0 0
    else
      let end_ := if ceil <? end_ then ceil else end_ in
      if end_ <=? start then MkRange 0 0
      else MkRange (u32 start) (u32 ((end_ - start) / PAGE_SIZE)).

(** ** The manager *)

Record pmm := MkPmm { mem_mngr : bitmap_t; available_frames : Z; used_frames : Z }.

Definition typeNames : list string :=
  ["UNKNOWN"; "AVAILABLE"; "RESERVED"; "ACPI"; "NVS"; "BAD MEMORY"]%string.

Definition alloc_frames (count : Z) (s : pmm) : res (Z * pmm) :=
  '(addr, m) ← alloc_units PMM count (mem_mngr s);
  Ok (addr, MkPmm m (available_frames s) (u32 (used_frames s + count))).

Definition free_frames (base count : Z) (s : pmm) : res pmm :=
  m ← free_units PMM base count (mem_mngr s);
  Ok (MkPmm m (available_frames s) (u32 (used_frames s - count))).

Definition alloc_frame (s : pmm) : res (Z * pmm) := alloc_frames 1 s.
Definition free_frame (addr : Z) (s : pmm) : res pmm := free_frames addr 1 s.
Definition frame_used (addr : Z) (s : pmm) : res bool := allocated PMM addr (mem_mngr s).

Definition init_region (base size : Z) (s : pmm) : res pmm :=
  let range := freeable_page_range base size 0 in
  if pr_empty range then Ok s
  else
    m ← mark_units_free PMM (pr_base range) (pr_frames range) (mem_mngr s);
    Ok (MkPmm m (available_frames s) (used_frames s)).

(** The loop of [deinit_region] that counts the frames already in use. *)
Fixpoint count_used (s : bitmap_t) (base i acc : Z) (n : nat) : res Z :=
  match n with
  | O => Ok acc
  | S n => b ← allocated PMM (u32 (base + u32 (i * PAGE_SIZE))) s;
           count_used s base (u32 (i + 1)) (if (b : bool) then u32 (acc + 1) else acc) n
  end.

Definition deinit_region (base size : Z) (s : pmm) : res pmm :=
  let range := covered_page_range base size in
  if pr_empty range then Ok s
  else
    used_before ← count_used (mem_mngr s) (pr_base range) 0 0 (Z.to_nat (pr_frames range));
    m ← mark_units_used PMM (pr_base range) (pr_frames range) (mem_mngr s);
    Ok (MkPmm m (available_frames s) (u32 (used_frames s + (pr_frames range - used_before)))).

Definition free_memory (s : pmm) : Z := u32 (u32 (available_frames s - used_frames s) * PAGE_SIZE).
Definition used_memory (s : pmm) : Z := u32 (used_frames s * PAGE_SIZE).
Definition total_memory (s : pmm) : Z := u32 (available_frames s * PAGE_SIZE).

Section Init.
Context (mmap_at : Z → multiboot_mmap_entry) (mod_at : Z → multiboot_module).
Context (kernel_start kernel_end : Z).

(** The body of the memory-map loop: base and length are truncated to 32 bits,
    the type indexes the table of names for the log line. *)
Definition add_mmap_entry (e : multiboot_mmap_entry) (s : pmm) : res pmm :=
  let base := u32 (mm_addr e) in
  let length := u32 (mm_len e) in
  let type := mm_type e in
  match typeNames !! Z.to_nat type with
  | None => Fault type
  | Some _ =>
      if type =? MULTIBOOT_MEMORY_AVAILABLE then
        let range := freeable_page_range base length LOW_USABLE_BASE in
        if negb (pr_empty range) then
          init_region (pr_base range) (pr_size range)
            (MkPmm (mem_mngr s) (u32 (available_frames s + pr_frames range)) (used_frames s))
        else Ok s
      else Ok s
  end.

Fixpoint mmap_loop (fuel : nat) (mmap mmap_end : Z) (s : pmm) : res pmm :=
  if mmap <? mmap_end then
    match fuel with
    | O => NoFuel
    | S fuel =>
        let e := mmap_at mmap in
        s ← add_mmap_entry e s;
        mmap_loop fuel (u32 (u32 (mmap + mm_size e) + 4)) mmap_end s
    end
  else Ok s.

Definition low_boot_reserved_end (mboot : multiboot_info) : Z :=
  let low := align_up kernel_end PAGE_SIZE in
  let modules_end := max_module_end_aligned mod_at mboot in
  if modules_end >? low then modules_end else low.

Fixpoint reserve_modules (ms : list multiboot_module) (s : pmm) : res pmm :=
  match ms with
  | [] => Ok s
  | m :: ms =>
      let size := u32 (mod_end m - mod_start m) in
      let span := pr_size (covered_page_range (mod_start m) size) in
      s ← deinit_region (mod_start m) span s;
      reserve_modules ms s
  end.

Definition pmm_init (mboot : multiboot_info) (s : pmm) : res pmm :=
  if negb (TEST_MASK (mb_flags mboot) MULTIBOOT_INFO_MEM_MAP)
  then Panic "Bootloader can't store memory map!"
  else
    let mmap_end := u32 (mmap_addr mboot + mmap_length mboot) in
    m ← mark_units_used PMM 0 MAX_FRAMES (mem_mngr s);
    s ← mmap_loop (Z.to_nat (mmap_length mboot)) (mmap_addr mboot) mmap_end (MkPmm m 0 0);
    let low := low_boot_reserved_end mboot in
    let kernel_span := pr_size (covered_page_range kernel_start (u32 (kernel_end - kernel_start))) in
    s ← deinit_region kernel_start kernel_span s;
    s ← reserve_modules (modules mod_at mboot) s;
    if low >? LOW_USABLE_BASE
    then deinit_region LOW_USABLE_BASE (u32 (low - LOW_USABLE_BASE)) s
    else Ok s.

End Init.

(** ** Lemmas on page ranges *)

Lemma PMM_ok : params_ok PMM.
Proof. repeat split; vm_compute; congruence. Qed.

Lemma PMM_unit_addr k : unit_addr PMM k = 4096 * k.
Proof. unfold unit_addr, PMM, PAGE_SIZE. simpl. lia. Qed.

Lemma MAX_FRAMES_eq : MAX_FRAMES = 2 ^ 20.
Proof. reflexivity. Qed.

(** The frame numbers of a range. *)
Definition range_frames (r : PageRange) : gset Z := run (pr_base r / 4096) (pr_frames r).

(** A range names whole frames below 4 GiB. *)
Definition range_ok (r : PageRange) : Prop :=
  0 ≤ pr_frames r ∧ 0 ≤ pr_base r ∧ pr_base r = 4096 * (pr_base r / 4096)
  ∧ pr_base r / 4096 + pr_frames r ≤ MAX_FRAMES.

Lemma empty_range_ok : range_ok (MkRange 0 0).
Proof. repeat split; vm_compute; congruence. Qed.

Lemma land_not64_page v :
  0 ≤ v < 2 ^ 64 → Z.land v (not64 (PAGE_SIZE - 1)) = v / 4096 * 4096.
Proof.
  intros Hv. unfold not64. change (PAGE_SIZE - 1) with (2 ^ 12 - 1).
  rewrite land_lnot_mask by lia. change (2 ^ 12) with 4096. dlia.
Qed.

(** A range computed from page-aligned 64-bit bounds. *)
Lemma aligned_range_ok start end_ :
  0 ≤ start → start < end_ → end_ ≤ 2 ^ 32 → start mod 4096 = 0 → end_ mod 4096 = 0 →
  let r := MkRange (u32 start) (u32 ((end_ - start) / PAGE_SIZE)) in
  range_ok r ∧ ∀ f, f ∈ range_frames r ↔ start ≤ f * 4096 ∧ (f + 1) * 4096 ≤ end_.
Proof.
  intros H0 Hlt He Hs Hm r. unfold range_ok, range_frames, r, PAGE_SIZE. simpl.
  rewrite MAX_FRAMES_eq. rewrite (u32_small start) by lia.
  assert (0 < (end_ - start) / 4096 ≤ 2 ^ 20) by dlia.
  rewrite (u32_small ((end_ - start) / 4096)) by lia.
  split; [dlia|]. intros f. rewrite elem_of_run. dlia.
Qed.

Lemma freeable_spec base size min_base :
  0 ≤ base < 2 ^ 32 → 0 ≤ size < 2 ^ 32 → 0 ≤ min_base < 2 ^ 32 →
  let r := freeable_page_range base size min_base in
  range_ok r ∧
  ∀ f, f ∈ range_frames r ↔
    base ≤ f * 4096 ∧ min_base ≤ f * 4096 ∧ (f + 1) * 4096 ≤ base + size ∧ (f + 1) * 4096 ≤ 2 ^ 32.
Proof.
  intros Hb Hsz Hm. unfold freeable_page_range.
  change (u64 (MAX_FRAMES * PAGE_SIZE)) with (2 ^ 32).
  assert (∀ P : Z → Prop, (∀ f, ¬ P f) →
    range_ok (MkRange 0 0) ∧ ∀ f, f ∈ range_frames (MkRange 0 0) ↔ P f) as Hempty.
  { intros P HP. split; [apply empty_range_ok|]. intros f. unfold range_frames. simpl.
    rewrite run_0. specialize (HP f). set_solver. }
  destruct (Z.eqb_spec size 0) as [->|]; [apply Hempty; intros; lia|].
  rewrite (wrap_small 64 (base + size)) by lia.
  destruct (Z.leb_spec (base + size) min_base); simpl; [apply Hempty; intros; lia|].
  destruct (Z.leb_spec (2 ^ 32) base); simpl; [lia|].
  set (st := if base <? min_base then min_base else base).
  set (en := if 2 ^ 32 <? base + size then 2 ^ 32 else base + size).
  assert (st = Z.max base min_base) as Hst by (unfold st; destruct (Z.ltb_spec base min_base); lia).
  assert (en = Z.min (base + size) (2 ^ 32)) as Hen
    by (unfold en; destruct (Z.ltb_spec (2 ^ 32) (base + size)); lia).
  clearbody st en. change (st + PAGE_SIZE) with (st + 4096).
  rewrite wrap_sub_l, (wrap_small 64 (st + 4096 - 1)) by lia.
  rewrite !land_not64_page by lia.
  destruct (Z.leb_spec (en / 4096 * 4096) ((st + 4096 - 1) / 4096 * 4096)).
  { apply Hempty. intros f. dlia. }
  destruct (aligned_range_ok ((st + 4096 - 1) / 4096 * 4096) (en / 4096 * 4096)) as [Hok Hin];
    [dlia..|]. split; [exact Hok|]. intros f. rewrite Hin. clear - Hst Hen. dlia.
Qed.

Lemma covered_ok base size :
  0 ≤ base < 2 ^ 32 → 0 ≤ size < 2 ^ 32 → range_ok (covered_page_range base size).
Proof.
  intros Hb Hsz. unfold covered_page_range. change (u64 (MAX_FRAMES * PAGE_SIZE)) with (2 ^ 32).
  destruct (size =? 0); [apply empty_range_ok|].
  destruct (Z.leb_spec (2 ^ 32) (align_down base PAGE_SIZE)); [apply empty_range_ok|].
  set (e := align_up (u32 (base + size)) PAGE_SIZE).
  assert (0 ≤ e < 2 ^ 32 ∧ e mod 4096 = 0) as [He1 He2].
  { pose proof (u32_range (base + size)) as Hr. unfold e.
    destruct (decide (u32 (base + size) + 4095 < 2 ^ 32)).
    - rewrite align_up_page by lia. dlia.
    - rewrite align_up_page_wraps by lia. dlia. }
  clearbody e. destruct (Z.ltb_spec (2 ^ 32) e); [lia|].
  destruct (Z.leb_spec e (align_down base PAGE_SIZE)); [apply empty_range_ok|].
  rewrite align_down_page in * by lia. apply aligned_range_ok; dlia.
Qed.

Lemma covered_spec base size f :
  0 ≤ base → 0 < size → base + size + 4095 < 2 ^ 32 →
  f ∈ range_frames (covered_page_range base size) ↔ f * 4096 < base + size ∧ base < (f + 1) * 4096.
Proof.
  intros Hb Hsz Hm. unfold covered_page_range. change (u64 (MAX_FRAMES * PAGE_SIZE)) with (2 ^ 32).
  rewrite (proj2 (Z.eqb_neq _ _)) by lia. rewrite u32_small by lia.
  rewrite align_down_page, align_up_page by lia.
  rewrite (proj2 (Z.leb_gt _ _)) by dlia. rewrite (proj2 (Z.ltb_ge _ _)) by dlia.
  rewrite (proj2 (Z.leb_gt _ _)) by dlia.
  destruct (aligned_range_ok (base / 4096 * 4096) ((base + size + 4095) / 4096 * 4096)) as [_ ->];
    [dlia..|]. dlia.
Qed.

(** The byte size of a covered range is the span passed back to [deinit_region]. *)
Lemma covered_size base size :
  0 ≤ base → 0 < size → base + size + 4095 < 2 ^ 32 → base mod 4096 = 0 →
  pr_size (covered_page_range base size) = (base + size + 4095) / 4096 * 4096 - base.
Proof.
  intros Hb Hsz Hm Ha. unfold covered_page_range, pr_size.
  change (u64 (MAX_FRAMES * PAGE_SIZE)) with (2 ^ 32).
  rewrite (proj2 (Z.eqb_neq _ _)) by lia. rewrite (u32_small (base + size)) by lia.
  rewrite align_down_page, align_up_page by lia.
  rewrite (proj2 (Z.leb_gt _ _)) by dlia. rewrite (proj2 (Z.ltb_ge _ _)) by dlia.
  rewrite (proj2 (Z.leb_gt _ _)) by dlia. unfold PAGE_SIZE. simpl. unfold wrap. dlia.
Qed.

(** ** The accounting invariant *)

(** [pmm_inv s A]: [A] is the set of frames that are not free, and the two
    counters account for the free ones (modulo 2^32, as the code computes). *)
Definition pmm_inv (s : pmm) (A : gset Z) : Prop :=
  rep PMM (mem_mngr s) A
  ∧ u32 (available_frames s - used_frames s) = MAX_FRAMES - Z.of_nat (size A).

Lemma pmm_inv_size s A : pmm_inv s A → 0 ≤ Z.of_nat (size A) ≤ 2 ^ 20.
Proof. intros [[Hb _] _]. exact (size_bound PMM PMM_ok _ _ Hb). Qed.

(** A counter update by [d] that matches the change of the set. *)
Lemma account a u a' u' (A A' : gset Z) :
  u32 (a - u) = MAX_FRAMES - Z.of_nat (size A) →
  0 ≤ Z.of_nat (size A') ≤ 2 ^ 20 →
  u32 (a' - u') = u32 (a - u + (Z.of_nat (size A) - Z.of_nat (size A'))) →
  u32 (a' - u') = MAX_FRAMES - Z.of_nat (size A').
Proof.
  intros H Hs ->. rewrite <- wrap_add_l, H, MAX_FRAMES_eq. rewrite u32_small; lia.
Qed.

Lemma alloc_frames_ok s A count addr s' :
  pmm_inv s A → 0 < count ≤ MAX_FRAMES → alloc_frames count s = Ok (addr, s') →
  ∃ f, addr = 4096 * f ∧ 0 ≤ f ∧ f + count ≤ MAX_FRAMES ∧ run f count ## A
       ∧ (∀ k, 0 ≤ k < f → ¬ run k count ## A) ∧ pmm_inv s' (A ∪ run f count).
Proof.
  intros [Hr Ha] Hc E. unfold alloc_frames in E. res_inv. destruct r as [a m].
  pose proof (alloc_units_ok PMM PMM_ok _ A count Hr Hc) as H. rewrite E0 in H.
  destruct (find_run PMM A count) as [f|] eqn:Hf; [|done].
  destruct H as (m' & [= -> ->] & Hm). apply find_run_Some in Hf as (?&?&Hd&Hk); [|lia].
  injection E as <- <-. exists f. rewrite PMM_unit_addr. split_and!; [done..|].
  split; [done|]. simpl. eapply account; [exact Ha|exact (size_bound PMM PMM_ok _ _ (proj1 Hm))|].
  rewrite size_union_Z, size_run by (done || lia). rewrite wrap_sub_r. f_equal. lia.
Qed.

Lemma alloc_frames_total s A count :
  pmm_inv s A → 0 < count ≤ MAX_FRAMES →
  (∃ f, 0 ≤ f ∧ f + count ≤ MAX_FRAMES ∧ run f count ## A) →
  ∃ r, alloc_frames count s = Ok r.
Proof.
  intros [Hr Ha] Hc (f & ?&?&Hd). unfold alloc_frames.
  pose proof (alloc_units_ok PMM PMM_ok _ A count Hr Hc) as Hal.
  destruct (find_run PMM A count) as [i|] eqn:Hf.
  - destruct Hal as (m & -> & _). simpl. eauto.
  - by destruct (find_run_None PMM A count f).
Qed.

Lemma alloc_frames_none s A count :
  pmm_inv s A → 0 < count ≤ MAX_FRAMES → (∀ f, 0 ≤ f → f + count ≤ MAX_FRAMES → ¬ run f count ## A) →
  alloc_frames count s = Panic "alloc_units: out of memory".
Proof.
  intros [Hr Ha] Hc Hno. unfold alloc_frames. pose proof (alloc_units_ok PMM PMM_ok _ A count Hr Hc) as Hal.
  destruct (find_run PMM A count) as [i|] eqn:Hf; [|by rewrite Hal].
  apply find_run_Some in Hf as (? & ? & Hd & _); [|lia]. by destruct (Hno i).
Qed.

Lemma free_frames_ok s A f count :
  pmm_inv s A → 0 ≤ f → 0 < count → f + count ≤ MAX_FRAMES → run f count ⊆ A →
  ∃ s', free_frames (4096 * f) count s = Ok s' ∧ pmm_inv s' (A ∖ run f count).
Proof.
  intros [Hr Ha] Hf Hc Hm Hsub. unfold free_frames. rewrite <- PMM_unit_addr.
  destruct (free_units_ok PMM PMM_ok _ A f count Hr) as (m & -> & Hm'); [done..|]. simpl.
  eexists. split; [done|]. split; [done|]. simpl.
  eapply account; [exact Ha|exact (size_bound PMM PMM_ok _ _ (proj1 Hm'))|].
  rewrite size_difference_Z, size_run by (done || lia). rewrite wrap_sub_r. f_equal. lia.
Qed.

Lemma count_used_ok s A k : ∀ n i acc,
  rep PMM s A → 0 ≤ k → 0 ≤ i → k + i + Z.of_nat n ≤ MAX_FRAMES →
  0 ≤ acc → acc + Z.of_nat n < 2 ^ 32 →
  count_used s (4096 * k) i acc n
  = Ok (acc + Z.of_nat (size (A ∩ run (k + i) (Z.of_nat n)))).
Proof.
  induction n as [|n IH]; intros i acc Hr Hk Hi Hm Ha Hb; simpl.
  { rewrite run_0, intersection_empty_r_L, size_empty. f_equal. lia. }
  rewrite MAX_FRAMES_eq in *. unfold PAGE_SIZE.
  rewrite (u32_small (i * 4096)), (u32_small (4096 * k + i * 4096)), (u32_small (i + 1)) by lia.
  replace (4096 * k + i * 4096) with (unit_addr PMM (k + i)) by (rewrite PMM_unit_addr; lia).
  rewrite (allocated_ok PMM PMM_ok s A) by (done || (simpl; rewrite MAX_FRAMES_eq; lia)). simpl.
  rewrite Nat2Z.inj_succ, <- Z.add_1_r, run_cons by lia.
  replace (k + (i + 1)) with (k + i + 1) in IH by lia.
  rewrite IH; [|done|lia|lia|lia|case_bool_decide; [rewrite u32_small by lia|]; lia
              |case_bool_decide; [rewrite u32_small by lia|]; lia].
  replace (k + (i + 1)) with (k + i + 1) by lia.
  rewrite intersection_union_l_L. case_bool_decide as E.
  - replace (A ∩ {[k + i]}) with ({[k + i]} : gset Z) by set_solver.
    rewrite (u32_small (acc + 1)) by lia. rewrite size_union_Z, size_singleton; [f_equal; lia|].
    intros x Hx%elem_of_singleton [_ Hx']%elem_of_intersection.
    apply elem_of_run in Hx'. lia.
  - replace (A ∩ {[k + i]}) with (∅ : gset Z) by set_solver. by rewrite union_empty_l_L.
Qed.

Lemma range_ok_addr r : range_ok r → unit_addr PMM (pr_base r / 4096) = pr_base r.
Proof. intros (?&?&E&?). rewrite PMM_unit_addr. lia. Qed.

Lemma size_diff_inter (R A : gset Z) :
  Z.of_nat (size R) - Z.of_nat (size (A ∩ R)) = Z.of_nat (size (R ∖ A)).
Proof.
  replace (R ∖ A) with (R ∖ (A ∩ R)) by set_solver.
  rewrite size_difference_Z by set_solver. done.
Qed.

Lemma deinit_region_ok base size_ s A :
  pmm_inv s A → 0 ≤ base < 2 ^ 32 → 0 ≤ size_ < 2 ^ 32 →
  ∃ s', deinit_region base size_ s = Ok s' ∧ available_frames s' = available_frames s
        ∧ pmm_inv s' (A ∪ range_frames (covered_page_range base size_)).
Proof.
  intros [Hr Ha] Hb Hsz. pose proof (covered_ok base size_ Hb Hsz) as Hok.
  unfold deinit_region. set (r := covered_page_range base size_) in *. clearbody r.
  unfold pr_empty, range_frames. destruct (Z.eqb_spec (pr_frames r) 0) as [E|E].
  { exists s. rewrite E, run_0, union_empty_r_L. done. }
  destruct Hok as (?&?&Hk&?). remember (pr_base r / 4096) as k eqn:Ek.
  rewrite MAX_FRAMES_eq in *. rewrite Hk.
  rewrite (count_used_ok _ A) by (done || (rewrite ?MAX_FRAMES_eq; lia)). simpl.
  rewrite <- PMM_unit_addr.
  destruct (mark_units_used_ok PMM PMM_ok _ A k (pr_frames r) Hr)
    as (m & -> & Hm); [lia|lia|simpl; rewrite MAX_FRAMES_eq; lia|]. simpl.
  eexists. split; [done|]. split; [done|]. split; [done|]. simpl.
  eapply account; [exact Ha|exact (size_bound PMM PMM_ok _ _ (proj1 Hm))|].
  rewrite Z.add_0_r, Z2Nat.id, wrap_sub_r by lia.
  rewrite <- (size_run k (pr_frames r)) at 1 by lia.
  rewrite <- (union_diff_Z A).
  rewrite size_union_Z, <- size_diff_inter by set_solver. f_equal. lia.
Qed.

(** ** Boot *)

(** The whole pages of an available entry, from the first megabyte on. *)
Definition entry_frames (e : multiboot_mmap_entry) : gset Z :=
  if mm_type e =? MULTIBOOT_MEMORY_AVAILABLE then
    let first := Z.max 256 ((mm_addr e + 4095) / 4096) in
    run first (Z.min MAX_FRAMES ((mm_addr e + mm_len e) / 4096) - first)
  else ∅.

(** The memory map is read in 32 bits. *)
Definition as_read (e : multiboot_mmap_entry) : multiboot_mmap_entry :=
  MmapEntry (mm_size e) (u32 (mm_addr e)) (u32 (mm_len e)) (mm_type e).

Lemma elem_of_entry_frames e f :
  f ∈ entry_frames e ↔ mm_type e = MULTIBOOT_MEMORY_AVAILABLE ∧
    mm_addr e ≤ f * 4096 ∧ 2 ^ 20 ≤ f * 4096 ∧
    (f + 1) * 4096 ≤ mm_addr e + mm_len e ∧ (f + 1) * 4096 ≤ 2 ^ 32.
Proof.
  unfold entry_frames. destruct (Z.eqb_spec (mm_type e) MULTIBOOT_MEMORY_AVAILABLE) as [E|E].
  - rewrite elem_of_run, MAX_FRAMES_eq. dlia.
  - split; [intros H; by apply not_elem_of_empty in H|tauto].
Qed.

Lemma entry_range e : mm_type e = MULTIBOOT_MEMORY_AVAILABLE →
  range_frames (freeable_page_range (u32 (mm_addr e)) (u32 (mm_len e)) LOW_USABLE_BASE) = entry_frames (as_read e).
Proof.
  intros Ht. apply set_eq. intros f. rewrite elem_of_entry_frames. simpl.
  destruct (freeable_spec (u32 (mm_addr e)) (u32 (mm_len e)) LOW_USABLE_BASE) as [_ ->];
    [apply u32_range|apply u32_range|unfold LOW_USABLE_BASE; lia|].
  change LOW_USABLE_BASE with (2 ^ 20). tauto.
Qed.

Definition avail_frames (es : list multiboot_mmap_entry) : gset Z := ⋃ (entry_frames <$> es).

Lemma avail_nil : avail_frames [] = ∅.
Proof. reflexivity. Qed.

Lemma avail_cons e es : avail_frames (e :: es) = entry_frames e ∪ avail_frames es.
Proof. reflexivity. Qed.

Lemma init_region_same r s A :
  rep PMM (mem_mngr s) A → range_ok r → 0 < pr_frames r < MAX_FRAMES →
  ∃ m, init_region (pr_base r) (pr_size r) s = Ok (MkPmm m (available_frames s) (used_frames s))
       ∧ rep PMM m (A ∖ range_frames r).
Proof.
  intros Hr (H0&Hb0&Hb&Hm) Hlt. unfold init_region, pr_size, PAGE_SIZE.
  rewrite MAX_FRAMES_eq in *. rewrite (u32_small (pr_frames r * 4096)) by lia.
  destruct (freeable_spec (pr_base r) (pr_frames r * 4096) 0) as [Hok Hin]; [lia..|].
  set (r' := freeable_page_range (pr_base r) (pr_frames r * 4096) 0) in *. clearbody r'.
  assert (range_frames r' = range_frames r) as Eq.
  { apply set_eq. intros f. rewrite Hin. unfold range_frames. rewrite elem_of_run. lia. }
  rewrite <- Eq. unfold pr_empty. destruct (Z.eqb_spec (pr_frames r') 0) as [E|E].
  { exists (mem_mngr s). unfold range_frames. rewrite E, run_0, difference_empty_L.
    split; [by destruct s|done]. }
  pose proof (range_ok_addr r' Hok) as Hu. destruct Hok as (?&?&Hk&?). unfold range_frames.
  remember (pr_base r' / 4096) as k. rewrite <- Hu.
  destruct (mark_units_free_ok PMM PMM_ok _ A k (pr_frames r') Hr)
    as (m & -> & Hm'); [lia|lia|simpl; lia|]. simpl. eauto.
Qed.

Lemma add_mmap_entry_ok e s A :
  pmm_inv s A → 0 ≤ mm_type e < 6 → entry_frames (as_read e) ⊆ A →
  ∃ s', add_mmap_entry e s = Ok s' ∧ pmm_inv s' (A ∖ entry_frames (as_read e))
        ∧ used_frames s' = used_frames s
        ∧ u32 (available_frames s') = u32 (available_frames s + Z.of_nat (size (entry_frames (as_read e)))).
Proof.
  intros Hs Ht Hsub. unfold add_mmap_entry.
  destruct (lookup_lt_is_Some_2 typeNames (Z.to_nat (mm_type e))) as [nm ->]; [simpl; lia|].
  assert (∃ s', Ok s = Ok s' ∧ pmm_inv s' (A ∖ ∅) ∧ used_frames s' = used_frames s
    ∧ u32 (available_frames s') = u32 (available_frames s + Z.of_nat (size (∅ : gset Z)))) as Hnone.
  { exists s. rewrite difference_empty_L, size_empty, Z.add_0_r. done. }
  destruct (Z.eqb_spec (mm_type e) MULTIBOOT_MEMORY_AVAILABLE) as [Et|Et];
    [|replace (entry_frames (as_read e)) with (∅ : gset Z); [done|unfold entry_frames; simpl; by rewrite (proj2 (Z.eqb_neq _ _) Et)]].
  rewrite <- (entry_range e Et) in *.
  pose proof (u32_range (mm_addr e)). pose proof (u32_range (mm_len e)).
  destruct (freeable_spec (u32 (mm_addr e)) (u32 (mm_len e)) LOW_USABLE_BASE) as [Hok Hin];
    [lia|lia|unfold LOW_USABLE_BASE; lia|].
  set (r := freeable_page_range _ _ _) in *. clearbody r.
  unfold pr_empty. destruct (Z.eqb_spec (pr_frames r) 0) as [E|E]; simpl.
  { unfold range_frames. by rewrite E, run_0. }
  assert (0 < pr_frames r < MAX_FRAMES) as Hlt.
  { destruct Hok as (?&?&?&?). rewrite MAX_FRAMES_eq in *.
    destruct (proj1 (Hin (pr_base r / 4096))) as (_&Hlow&_);
      [unfold range_frames; apply elem_of_run; lia|]. unfold LOW_USABLE_BASE in Hlow. lia. }
  destruct Hs as [Hr Ha].
  destruct (init_region_same r (MkPmm (mem_mngr s) (u32 (available_frames s + pr_frames r))
    (used_frames s)) A Hr Hok Hlt) as (m & -> & Hm).
  assert (Z.of_nat (size (range_frames r)) = pr_frames r) as Hsz
    by (apply size_run; apply Hok).
  eexists. split; [done|]. simpl. split_and!; [split; [done|]|done|by rewrite wrap_wrap, Hsz by lia].
  simpl. eapply account; [exact Ha|exact (size_bound PMM PMM_ok _ _ (proj1 Hm))|].
  rewrite size_difference_Z, Hsz by done. rewrite wrap_sub_l. f_equal. lia.
Qed.

(** The memory map the boot loader describes: the entries found by following
    the [size] fields from [a] to [e]. *)
Inductive mmap_list (mmap_at : Z → multiboot_mmap_entry) (e : Z) :
  Z → list multiboot_mmap_entry → Prop :=
| mmap_done a : e ≤ a → mmap_list mmap_at e a []
| mmap_next a es :
    0 ≤ a < e → 0 ≤ mm_size (mmap_at a) → a + mm_size (mmap_at a) + 4 < 2 ^ 32 →
    mmap_list mmap_at e (a + mm_size (mmap_at a) + 4) es →
    mmap_list mmap_at e a (mmap_at a :: es).

Lemma mmap_loop_ok mmap_at e a es :
  mmap_list mmap_at e a es → ∀ fuel s A,
  e - a ≤ Z.of_nat fuel → pmm_inv s A → Forall (λ en, 0 ≤ mm_type en < 6) es →
  ForallOrdPairs (λ x y, entry_frames (as_read x) ## entry_frames (as_read y)) es → avail_frames (as_read <$> es) ⊆ A →
  ∃ s', mmap_loop mmap_at fuel a e s = Ok s' ∧ pmm_inv s' (A ∖ avail_frames (as_read <$> es))
        ∧ used_frames s' = used_frames s
        ∧ u32 (available_frames s')
          = u32 (available_frames s + Z.of_nat (size (avail_frames (as_read <$> es)))).
Proof.
  induction 1 as [a Ha|a es Ha Hsz Hb _ IH]; intros fuel s A Hf Hs Ht Hd Hsub.
  { exists s. destruct fuel; cbn [mmap_loop]; rewrite (proj2 (Z.ltb_ge _ _)) by lia;
      by rewrite fmap_nil, avail_nil, difference_empty_L, size_empty, Z.add_0_r. }
  destruct fuel as [|fuel]; [lia|]. simpl. rewrite (proj2 (Z.ltb_lt _ _)) by lia.
  inversion Ht as [|?? Ht1 Ht2]; inversion Hd as [|?? Hd1 Hd2]; subst.
  rewrite fmap_cons, avail_cons in *.
  destruct (add_mmap_entry_ok (mmap_at a) s A Hs Ht1) as (s1 & -> & Hs1 & Hu1 & Ha1);
    [set_solver|]. rewrite bind_Ok.
  rewrite (u32_small (a + mm_size _)), u32_small by lia.
  assert (entry_frames (as_read (mmap_at a)) ## avail_frames (as_read <$> es)) as Hdis.
  { intros x Hx Hy. apply elem_of_union_list in Hy as (X & HX & Hy).
    apply list_elem_of_fmap in HX as (en' & -> & Hen'). apply list_elem_of_fmap in Hen' as (en & -> & Hen). rewrite Forall_forall in Hd1.
    exact (Hd1 en Hen x Hx Hy). }
  destruct (IH fuel s1 _ ltac:(lia) Hs1 Ht2 Hd2) as (s2 & E2 & Hs2 & Hu2 & Ha2).
  { set_solver. }
  exists s2. rewrite E2. split_and!; [done| |congruence|].
  - by rewrite difference_difference_l_L in Hs2.
  - rewrite Ha2, <- wrap_add_l, Ha1, wrap_add_l, size_union_Z by done. f_equal. change (list_fmap _ _ as_read es) with (as_read <$> es). lia.
Qed.

(** An image in memory (the kernel, a module): page aligned, as the linker
    script and the multiboot header's page-align flag ask for, and not at the
    very top of the address space. *)
Definition image_ok (base end_ : Z) : Prop :=
  0 ≤ base ≤ end_ ∧ end_ + 8192 < 2 ^ 32 ∧ base mod 4096 = 0.

Definition image_frames (base end_ : Z) : gset Z :=
  range_frames (covered_page_range base (pr_size (covered_page_range base (u32 (end_ - base))))).

Lemma elem_of_image_frames base end_ f :
  image_ok base end_ → f ∈ image_frames base end_ → f * 4096 < end_.
Proof.
  intros (?&?&?). unfold image_frames. rewrite (u32_small (end_ - base)) by lia.
  destruct (decide (base = end_)) as [->|].
  { rewrite Z.sub_diag. change (pr_size (covered_page_range end_ 0)) with 0.
    unfold range_frames. simpl. rewrite run_0. set_solver. }
  rewrite covered_size by lia. replace (base + (end_ - base)) with end_ by lia.
  rewrite covered_spec by dlia. dlia.
Qed.

Lemma deinit_image_ok base end_ s A :
  pmm_inv s A → image_ok base end_ →
  ∃ s', deinit_region base (pr_size (covered_page_range base (u32 (end_ - base)))) s = Ok s'
        ∧ available_frames s' = available_frames s ∧ pmm_inv s' (A ∪ image_frames base end_).
Proof.
  intros Hs (?&?&?). apply deinit_region_ok; [done|lia|]. apply u32_range.
Qed.

Definition modules_frames (ms : list multiboot_module) : gset Z :=
  ⋃ ((λ m, image_frames (mod_start m) (mod_end m)) <$> ms).

Lemma reserve_modules_ok ms : ∀ s A,
  pmm_inv s A → Forall (λ m, image_ok (mod_start m) (mod_end m)) ms →
  ∃ s', reserve_modules ms s = Ok s' ∧ available_frames s' = available_frames s
        ∧ pmm_inv s' (A ∪ modules_frames ms).
Proof.
  induction ms as [|m ms IH]; intros s A Hs Hms.
  { exists s. split_and!; [done..|]. change (modules_frames []) with (∅ : gset Z).
    by rewrite union_empty_r_L. }
  inversion Hms as [|?? Hm Hms']; subst. cbn [reserve_modules].
  destruct (deinit_image_ok _ _ s A Hs Hm) as (s1 & -> & E1 & Hs1). simpl.
  destruct (IH s1 _ Hs1 Hms') as (s2 & -> & E2 & Hs2). exists s2.
  split_and!; [done|congruence|]. by rewrite <- union_assoc_L in Hs2.
Qed.

Lemma max_module_end_ge mod_at mboot m :
  m ∈ modules mod_at mboot →
  align_up (mod_end m) PAGE_SIZE ≤ max_module_end_aligned mod_at mboot.
Proof.
  unfold max_module_end_aligned. generalize (modules mod_at mboot) as ms. intros ms.
  set (step := λ end_ m, _). intros Hm.
  assert (∀ ms acc, acc ≤ foldl step acc ms) as Hge.
  { clear. intros ms. induction ms as [|x ms IH]; intros acc; simpl; [lia|].
    etrans; [|apply IH]. unfold step. rewrite Z.gtb_ltb. destruct (Z.ltb_spec acc (align_up (mod_end x) PAGE_SIZE)); lia. }
  generalize 0 as acc. induction Hm as [x ms|x y ms Hin IH]; intros acc; simpl; [|apply IH].
  etrans; [|apply Hge]. unfold step. rewrite Z.gtb_ltb.
  destruct (Z.ltb_spec acc (align_up (mod_end x) PAGE_SIZE)); lia.
Qed.

Lemma max_module_end_cases mod_at mboot :
  max_module_end_aligned mod_at mboot = 0 ∨
  ∃ m, m ∈ modules mod_at mboot ∧ max_module_end_aligned mod_at mboot = align_up (mod_end m) PAGE_SIZE.
Proof.
  unfold max_module_end_aligned. generalize (modules mod_at mboot) as ms. intros ms.
  set (step := λ end_ m, _).
  assert (∀ ms acc, foldl step acc ms = acc ∨
            ∃ m, m ∈ ms ∧ foldl step acc ms = align_up (mod_end m) PAGE_SIZE) as H; [|apply H].
  clear. induction ms as [|x ms IH]; intros acc; simpl; [by left|].
  destruct (IH (step acc x)) as [->|(m & Hm & ->)].
  - unfold step. destruct (_ >? _); [right|by left]. exists x. split; [by constructor|done].
  - right. exists m. split; [by constructor|done].
Qed.

(** The frames left free: those made available, less the reserved ones. *)
Lemma boot_free (full av im mo lo : gset Z) f (above : Prop) :
  f ∈ full → (above → f ∉ im) → (above → f ∉ mo) → (f ∈ av → (f ∉ lo ↔ above)) →
  (f ∉ (full ∖ av) ∪ im ∪ mo ∪ lo ↔ f ∈ av ∧ above).
Proof. rewrite !not_elem_of_union, not_elem_of_difference. tauto. Qed.

Section Boot.
Context (mmap_at : Z → multiboot_mmap_entry) (mod_at : Z → multiboot_module).
Context (kernel_start kernel_end : Z) (mboot : multiboot_info).
Context (Hkernel : image_ok kernel_start kernel_end).
Context (Hmods : Forall (λ m, image_ok (mod_start m) (mod_end m)) (modules mod_at mboot)).

Let low := low_boot_reserved_end mod_at kernel_end mboot.

Lemma align_up_image base end_ :
  image_ok base end_ →
  end_ ≤ align_up end_ PAGE_SIZE < 2 ^ 32 - 4096 ∧ align_up end_ PAGE_SIZE mod 4096 = 0.
Proof. intros (?&?&?). rewrite align_up_page by lia. dlia. Qed.

Lemma low_bounds :
  kernel_end ≤ low ∧ 0 ≤ low < 2 ^ 32 - 4096 ∧ low mod 4096 = 0
  ∧ ∀ m, m ∈ modules mod_at mboot → mod_end m ≤ low.
Proof.
  destruct (align_up_image _ _ Hkernel) as [Hk Hka]. pose proof Hkernel as (?&_&_).
  pose proof (max_module_end_ge mod_at mboot) as Hge.
  rewrite Forall_forall in Hmods.
  assert (0 ≤ max_module_end_aligned mod_at mboot < 2 ^ 32 - 4096
          ∧ max_module_end_aligned mod_at mboot mod 4096 = 0) as [Hm Hma].
  { destruct (max_module_end_cases mod_at mboot) as [->|(m & Hin & ->)]; [done|].
    pose proof (Hmods m Hin) as Hi. destruct (align_up_image _ _ Hi). destruct Hi. lia. }
  unfold low, low_boot_reserved_end. rewrite Z.gtb_ltb.
  assert (∀ m, m ∈ modules mod_at mboot → mod_end m ≤ max_module_end_aligned mod_at mboot) as Hme.
  { intros m Hin. destruct (align_up_image _ _ (Hmods m Hin)). pose proof (Hge m Hin). lia. }
  destruct (Z.ltb_spec (align_up kernel_end PAGE_SIZE) (max_module_end_aligned mod_at mboot)).
  - split_and!; [lia..|done]. 
  - split_and!; [lia..|]. intros m Hin. pose proof (Hme m Hin). lia.
Qed.

(** Behind the low bootstrap area is behind the kernel and every module. *)
Lemma low_iff f : low ≤ f * 4096 ↔ kernel_end ≤ 4096 * f ∧ ∀ m, m ∈ modules mod_at mboot → mod_end m ≤ 4096 * f.
Proof.
  destruct low_bounds as (Hlk & _ & _ & Hlm). split.
  - intros H. split; [lia|]. intros m Hm. specialize (Hlm m Hm). lia.
  - intros [Hk Hms]. assert (∀ x, 0 ≤ x < 2 ^ 32 - 8192 → x ≤ 4096 * f → align_up x PAGE_SIZE ≤ f * 4096) as Hup
      by (intros x Hx Hle; rewrite align_up_page by lia; dlia).
    pose proof Hkernel as (?&?&_). unfold low, low_boot_reserved_end. rewrite Z.gtb_ltb.
    destruct (Z.ltb_spec (align_up kernel_end PAGE_SIZE) (max_module_end_aligned mod_at mboot)); [|apply Hup; lia].
    destruct (max_module_end_cases mod_at mboot) as [E|(m & Hin & ->)]; [rewrite E; lia|]. apply Hup; [|by apply Hms].
    rewrite Forall_forall in Hmods. pose proof (Hmods m Hin) as (?&?&_). lia.
Qed.

Lemma elem_of_avail_bounds es f :
  f ∈ avail_frames es → LOW_USABLE_BASE ≤ f * 4096 ∧ (f + 1) * 4096 ≤ 2 ^ 32.
Proof using.
  clear - mmap_at.
  intros Hf. apply elem_of_union_list in Hf as (X & HX & Hf).
  apply list_elem_of_fmap in HX as (e & -> & _). apply elem_of_entry_frames in Hf.
  change LOW_USABLE_BASE with (2 ^ 20). lia.
Qed.

Lemma pmm_init_ok s A0 es :
  TEST_MASK (mb_flags mboot) MULTIBOOT_INFO_MEM_MAP = true → rep PMM (mem_mngr s) A0 →
  0 ≤ mmap_addr mboot → 0 ≤ mmap_length mboot → mmap_addr mboot + mmap_length mboot < 2 ^ 32 →
  mmap_list mmap_at (mmap_addr mboot + mmap_length mboot) (mmap_addr mboot) es →
  Forall (λ en, 0 ≤ mm_type en < 6) es →
  ForallOrdPairs (λ x y, entry_frames (as_read x) ## entry_frames (as_read y)) es →
  ∃ s' A, pmm_init mmap_at mod_at kernel_start kernel_end mboot s = Ok s' ∧ pmm_inv s' A
    ∧ u32 (available_frames s') = u32 (Z.of_nat (size (avail_frames (as_read <$> es))))
    ∧ ∀ f, 0 ≤ f < MAX_FRAMES → (f ∉ A ↔ f ∈ avail_frames (as_read <$> es) ∧ low ≤ f * 4096).
Proof.
  intros Hfl Hr Ha Hl Hb Hml Ht Hd. unfold pmm_init. rewrite Hfl. simpl negb. cbv iota.
  rewrite (u32_small (mmap_addr mboot + mmap_length mboot)) by lia.
  destruct (mark_units_used_ok PMM PMM_ok _ A0 0 MAX_FRAMES Hr) as (m & Em & Hm);
    [lia|vm_compute; congruence|simpl; lia|].
  rewrite PMM_unit_addr, Z.mul_0_r in Em. rewrite Em. simpl.
  rewrite (proj1 (subseteq_union_L A0 (run 0 MAX_FRAMES)) (bits_dom _ _ _ (proj1 Hr))) in Hm.
  assert (pmm_inv (MkPmm m 0 0) (run 0 MAX_FRAMES)) as H0.
  { split; [done|]. simpl. rewrite size_run by (vm_compute; congruence). by rewrite Z.sub_diag. }
  destruct (mmap_loop_ok mmap_at _ _ es Hml (Z.to_nat (mmap_length mboot)) _ _
    ltac:(lia) H0 Ht Hd) as (s1 & -> & Hs1 & _ & Ha1).
  { intros f Hf%elem_of_avail_bounds. apply elem_of_run. rewrite MAX_FRAMES_eq.
    unfold LOW_USABLE_BASE in Hf. lia. }
  simpl. destruct (deinit_image_ok _ _ s1 _ Hs1 Hkernel) as (s2 & -> & E2 & Hs2). simpl.
  destruct (reserve_modules_ok _ s2 _ Hs2 Hmods) as (s3 & -> & E3 & Hs3). simpl.
  destruct low_bounds as (Hlk & Hlow & Hla & Hlm). fold low.
  assert (LOW_USABLE_BASE = 2 ^ 20) as HL by done.
  assert (∀ f, low ≤ f * 4096 → f ∉ image_frames kernel_start kernel_end) as Hnk.
  { intros f Hf Hin%elem_of_image_frames; [lia|done]. }
  assert (∀ f, low ≤ f * 4096 → f ∉ modules_frames (modules mod_at mboot)) as Hnm.
  { intros f Hf Hin. apply elem_of_union_list in Hin as (X & HX & Hin).
    apply list_elem_of_fmap in HX as (mo & -> & Hmo).
    apply elem_of_image_frames in Hin; [pose proof (Hlm mo Hmo); lia|].
    rewrite Forall_forall in Hmods. by apply Hmods. }
  rewrite Z.gtb_ltb. destruct (Z.ltb_spec LOW_USABLE_BASE low) as [Hlt|Hge].
  - destruct (deinit_region_ok LOW_USABLE_BASE (u32 (low - LOW_USABLE_BASE)) s3 _ Hs3)
      as (s4 & -> & E4 & Hs4); [unfold LOW_USABLE_BASE; lia|apply u32_range|].
    exists s4. eexists. split_and!; [done|exact Hs4|by rewrite E4, E3, E2, Ha1|].
    intros f Hf. apply boot_free; [apply elem_of_run; lia|auto..|].
    intros Hin%elem_of_avail_bounds. rewrite (u32_small (low - LOW_USABLE_BASE)) by lia.
    rewrite covered_spec by lia. clear - Hin Hlt. lia.
  - exists s3. eexists. split_and!; [done|exact Hs3|by rewrite E3, E2, Ha1|].
    intros f Hf. rewrite <- (union_empty_r_L (_ ∪ modules_frames _)).
    apply boot_free; [apply elem_of_run; lia|auto..|].
    intros Hin%elem_of_avail_bounds. split; [intros _; lia|intros _; apply not_elem_of_empty].
Qed.
End Boot.

(** ** The interface to clients *)

(** The message of the frame allocator without a free frame. *)
Abbreviation out_of_frames := "alloc_units: out of memory"%string.

(** What a client of the frame allocator relies on: a call hands out a
    page-aligned frame that nobody holds, and takes back a frame somebody
    holds; without a free frame it panics. [fa_inv s A]: [A] is the set of frames that are not
    free. *)
Class FrameAllocator (S : Type) := {
  fa_alloc : S → res (Z * S);
  fa_free : Z → S → res S;
  fa_inv : S → gset Z → Prop;
  fa_alloc_ok s A a s' :
    fa_inv s A → fa_alloc s = Ok (a, s') →
    ∃ f, a = 4096 * f ∧ (0 ≤ f < 2 ^ 20) ∧ (f ∉ A) ∧ fa_inv s' (A ∪ {[f]});
  fa_alloc_total s A f :
    fa_inv s A → 0 ≤ f < 2 ^ 20 → f ∉ A → ∃ r, fa_alloc s = Ok r;
  fa_alloc_none s A :
    fa_inv s A → (∀ f, 0 ≤ f < 2 ^ 20 → f ∈ A) → fa_alloc s = Panic out_of_frames;
  fa_free_ok s A f :
    fa_inv s A → 0 ≤ f < 2 ^ 20 → f ∈ A →
    ∃ s', fa_free (4096 * f) s = Ok s' ∧ fa_inv s' (A ∖ {[f]})
}.

(* Conversion unfolds the one-frame wrappers before the allocator's loops. *)
#[global] Strategy 10 [alloc_frames free_frames].

Lemma run_1 i : run i 1 = {[i]}.
Proof. change 1 with (0 + 1). rewrite run_S, run_0, union_empty_l_L by lia. f_equal. lia. Qed.

#[export] Program Instance pmm_allocator : FrameAllocator pmm := {|
  fa_alloc := alloc_frame; fa_free := free_frame; fa_inv := pmm_inv
|}.
Next Obligation.
  intros s A a s' Hs E.
  destruct (alloc_frames_ok s A 1 a s' Hs) as (f&->&?&Hm&Hd&_&Hi);
    [rewrite MAX_FRAMES_eq; lia|exact E|].
  rewrite MAX_FRAMES_eq in Hm. rewrite run_1 in *. exists f. split_and!; [lia..|set_solver|done].
Qed.
Next Obligation.
  intros s A f Hs Hf Hn. apply (alloc_frames_total s A 1 Hs); [rewrite MAX_FRAMES_eq; lia|].
  exists f. rewrite MAX_FRAMES_eq, run_1. split_and!; [lia..|set_solver].
Qed.
Next Obligation.
  intros s A Hs Hall. apply (alloc_frames_none s A 1 Hs); [by rewrite MAX_FRAMES_eq|]. intros f Hf Hm Hd. rewrite MAX_FRAMES_eq in Hm.
  apply (Hd f); [rewrite run_1; set_solver|apply Hall; lia].
Qed.
Next Obligation.
  intros s A f Hs Hf Hin. rewrite <- (run_1 f).
  apply free_frames_ok; [done|lia..|rewrite MAX_FRAMES_eq; lia|rewrite run_1; set_solver].
Qed.

(** One public call of the manager after boot; the caller frees ranges it holds. *)
Inductive pmm_step : pmm * gset Z → pmm * gset Z → Prop :=
| step_alloc s H count addr s' :
    0 < count ≤ MAX_FRAMES → alloc_frames count s = Ok (addr, s') →
    pmm_step (s, H) (s', H ∪ run (addr / 4096) count)
| step_free s H f count s' :
    0 ≤ f → 0 < count → f + count ≤ MAX_FRAMES → run f count ⊆ H →
    free_frames (4096 * f) count s = Ok s' →
    pmm_step (s, H) (s', H ∖ run f count).

(** The frames that are not free are [R], reserved when the history began, and
    [H], held by the callers. *)
Definition held_inv (R : gset Z) (sh : pmm * gset Z) : Prop :=
  R ## sh.2 ∧ pmm_inv sh.1 (R ∪ sh.2).

Lemma pmm_step_held R x y : pmm_step x y → held_inv R x → held_inv R y.
Proof.
  intros [s H count addr s' Hc E|s H f count s' Hf Hc Hm Hsub E] [Hd Hi]; simpl in *.
  - destruct (alloc_frames_ok s _ count addr s' Hi Hc E) as (f&->&?&?&Hdf&_&Hi').
    rewrite (Z.mul_comm 4096), Z.div_mul by lia. split; simpl; [set_solver|].
    by rewrite union_assoc_L.
  - destruct (free_frames_ok s _ f count Hi Hf Hc Hm) as (s2&E2&Hi'); [set_solver|].
    rewrite E in E2. injection E2 as <-. split; simpl; [set_solver|].
    replace (R ∪ H ∖ run f count) with ((R ∪ H) ∖ run f count); [done|].
    apply set_eq. intros g. rewrite elem_of_difference, !elem_of_union, elem_of_difference.
    split; [tauto|]. intros [?|?]; [|tauto]. split; [tauto|]. set_solver.
Qed.

Lemma rtc_held R x y : rtc pmm_step x y → held_inv R x → held_inv R y.
Proof. induction 1; eauto using pmm_step_held. Qed.

(** What the boot loader describes: page [f] lies in an available region, as a whole. *)
Definition available_page (es : list multiboot_mmap_entry) (f : Z) : Prop :=
  ∃ e, e ∈ es ∧ mm_type e = 1 ∧ mm_addr e ≤ 4096 * f ∧ 4096 * f + 4096 ≤ mm_addr e + mm_len e.
(** The available regions are below 4 GiB and apart from each other. *)
Definition below_4g (e : multiboot_mmap_entry) : Prop :=
  mm_type e = 1 → 0 ≤ mm_addr e < 2 ^ 32 ∧ 0 ≤ mm_len e < 2 ^ 32 ∧ mm_addr e + mm_len e ≤ 2 ^ 32.
Definition regions_apart (x y : multiboot_mmap_entry) : Prop :=
  mm_type x = 1 → mm_type y = 1 → mm_addr x + mm_len x ≤ mm_addr y ∨ mm_addr y + mm_len y ≤ mm_addr x.

Lemma as_read_below e f : below_4g e →
  f ∈ entry_frames (as_read e) ↔ mm_type e = 1 ∧ 2 ^ 20 ≤ 4096 * f ∧ mm_addr e ≤ 4096 * f ∧ 4096 * f + 4096 ≤ mm_addr e + mm_len e.
Proof.
  intros Hb. rewrite elem_of_entry_frames. simpl. unfold MULTIBOOT_MEMORY_AVAILABLE. split.
  - intros (Ht & H). destruct (Hb Ht) as (Ha & Hl & Hs). rewrite !u32_small in H by done. lia.
  - intros (Ht & H). destruct (Hb Ht) as (Ha & Hl & Hs). rewrite !u32_small by done. lia.
Qed.

Lemma avail_below es f : Forall below_4g es →
  f ∈ avail_frames (as_read <$> es) ↔ available_page es f ∧ 2 ^ 20 ≤ 4096 * f.
Proof.
  intros Hb. rewrite Forall_forall in Hb. unfold avail_frames. rewrite elem_of_union_list. split.
  - intros (X & HX & Hf). apply list_elem_of_fmap in HX as (e' & -> & He'). apply list_elem_of_fmap in He' as (e & -> & He).
    apply as_read_below in Hf; [|by apply Hb]. split; [|lia]. exists e. split; [done|lia].
  - intros [(e & He & Hf) Hlow]. exists (entry_frames (as_read e)). split; [by do 2 apply list_elem_of_fmap_2|].
    apply as_read_below; [by apply Hb|lia].
Qed.

Lemma regions_apart_frames es : Forall below_4g es → ForallOrdPairs regions_apart es →
  ForallOrdPairs (λ x y, entry_frames (as_read x) ## entry_frames (as_read y)) es.
Proof.
  intros Hb Ha. induction Ha as [|x es Hx Ha IH]; [constructor|]. apply Forall_cons in Hb as [Hbx Hb]. constructor; [|by apply IH].
  rewrite Forall_forall in *. intros y Hy f. rewrite !as_read_below by auto. pose proof (Hx y Hy) as Hxy. unfold regions_apart in Hxy. lia.
Qed.

(** C12: boot. After [init] on a memory map whose available regions are below 4 GiB and do not
    overlap, with page-aligned kernel and module images, the free frames are exactly the pages
    that lie as a whole in an available region, from 1 MiB on and behind the kernel and every
    module; in particular no frame of the kernel, of a module or below 1 MiB can be handed
    out. The reported total and free memory match: [total_memory] counts the available frames
    from 1 MiB on, and [free_memory] the free ones. *)
Theorem pmm_init_exact mmap_at mod_at kernel_start kernel_end mboot s A0 es :
  image_ok kernel_start kernel_end →
  Forall (λ m, image_ok (mod_start m) (mod_end m)) (modules mod_at mboot) →
  TEST_MASK (mb_flags mboot) MULTIBOOT_INFO_MEM_MAP = true → rep PMM (mem_mngr s) A0 →
  0 ≤ mmap_addr mboot → 0 ≤ mmap_length mboot → mmap_addr mboot + mmap_length mboot < 2 ^ 32 →
  mmap_list mmap_at (mmap_addr mboot + mmap_length mboot) (mmap_addr mboot) es →
  Forall (λ en, 0 ≤ mm_type en < 6) es → Forall below_4g es → ForallOrdPairs regions_apart es →
  ∃ s' (total free : gset Z), pmm_init mmap_at mod_at kernel_start kernel_end mboot s = Ok s'
    ∧ (∀ f, f ∈ total ↔ available_page es f ∧ 2 ^ 20 ≤ 4096 * f)
    ∧ (∀ f, f ∈ free ↔ available_page es f ∧ 2 ^ 20 ≤ 4096 * f ∧ kernel_end ≤ 4096 * f
         ∧ ∀ m, m ∈ modules mod_at mboot → mod_end m ≤ 4096 * f)
    ∧ (∀ f, 0 ≤ f < 2 ^ 20 → frame_used (4096 * f) s' = Ok (bool_decide (f ∉ free)))
    ∧ total_memory s' = u32 (4096 * Z.of_nat (size total))
    ∧ free_memory s' = u32 (4096 * Z.of_nat (size free))
    ∧ pmm_inv s' (run 0 (2 ^ 20) ∖ free).
Proof.
  intros Hk Hm Hfl Hr Ha Hl Hb Hml Ht Hb4 Hd%(regions_apart_frames es Hb4).
  destruct (pmm_init_ok mmap_at mod_at kernel_start kernel_end mboot Hk Hm s A0 es)
    as (s' & A & E & Hi & Hav & Hf); [done..|]. rewrite MAX_FRAMES_eq in Hf.
  assert (A ⊆ run 0 (2 ^ 20)) as HA by (exact (bits_dom _ _ _ (proj1 (proj1 Hi)))).
  assert (∀ f, f ∈ run 0 (2 ^ 20) ↔ 0 ≤ f < 2 ^ 20) as HU by (intros f; rewrite elem_of_run; lia).
  assert (Z.of_nat (size (run 0 (2 ^ 20))) = 2 ^ 20) as HsU by (by apply size_run).
  generalize dependent (run 0 (2 ^ 20)). intros U HA HU HsU.
  assert (U ∖ (U ∖ A) = A) as EA.
  { apply set_eq. intros f. rewrite !elem_of_difference. specialize (HA f). destruct (decide (f ∈ A)); tauto. }
  assert (∀ f, f ∈ avail_frames (as_read <$> es) → 0 ≤ f < 2 ^ 20) as Hrange
    by (intros f Hx%elem_of_avail_bounds; change LOW_USABLE_BASE with (2 ^ 20) in Hx; clear - Hx; lia).
  exists s', (avail_frames (as_read <$> es)), (U ∖ A). split; [done|]. split_and!.
  - intros f. by apply avail_below.
  - intros f. rewrite elem_of_difference, HU. assert (low_boot_reserved_end mod_at kernel_end mboot ≤ f * 4096 ↔
      kernel_end ≤ 4096 * f ∧ ∀ m, m ∈ modules mod_at mboot → mod_end m ≤ 4096 * f) as Hlow by (by eapply low_iff).
    pose proof (avail_below es f Hb4) as Hiff. specialize (Hrange f). specialize (Hf f). tauto.
  - intros f Hrng. unfold frame_used. rewrite <- PMM_unit_addr.
    rewrite (allocated_ok PMM PMM_ok _ A) by (apply Hi || done). f_equal. apply bool_decide_ext.
    rewrite elem_of_difference, HU. destruct (decide (f ∈ A)); tauto.
  - unfold total_memory, PAGE_SIZE. rewrite <- wrap_mul_l, Hav, wrap_mul_l. f_equal. lia.
  - unfold free_memory, PAGE_SIZE. rewrite (proj2 Hi), size_difference_Z, HsU by done. change MAX_FRAMES with (2 ^ 20). f_equal. lia.
  - by rewrite EA.
Qed.

(** A machine with 128 MiB of memory and a one-page kernel image at 1 MiB. *)
Module SmallMachine.
Definition mmap_at (a : Z) : multiboot_mmap_entry :=
  if a =? 0x9000 then MmapEntry 20 0 0x9FC00 1
  else if a =? 0x9018 then MmapEntry 20 0x9FC00 0x400 2
  else MmapEntry 20 0x100000 0x7F00000 1.
Definition mod_at (a : Z) : multiboot_module := MultibootModule 0 0.
Definition mboot : multiboot_info := MultibootInfo MULTIBOOT_INFO_MEM_MAP 0 0 72 0x9000.
Definition entries := [mmap_at 0x9000; mmap_at 0x9018; mmap_at 0x9030].
Definition boot_pmm : pmm := MkPmm (bitmap_init PMM) 0 0.
End SmallMachine.

Lemma small_entries :
  mmap_list SmallMachine.mmap_at (0x9000 + 72) 0x9000 SmallMachine.entries.
Proof.
  unfold SmallMachine.entries. do 3 (apply mmap_next; [vm_compute; (done || (split; congruence))..|]).
  apply mmap_done. vm_compute. congruence.
Qed.

Lemma entries_apart e1 e2 :
  mm_addr e1 + mm_len e1 ≤ Z.max (2 ^ 20) (mm_addr e2) → entry_frames e1 ## entry_frames e2.
Proof. intros H f. rewrite !elem_of_entry_frames. lia. Qed.

Lemma small_disjoint :
  ForallOrdPairs (λ x y, entry_frames (as_read x) ## entry_frames (as_read y)) SmallMachine.entries.
Proof.
  unfold SmallMachine.entries.
  repeat first [apply FOP_nil|apply FOP_cons|apply Forall_nil_2|apply Forall_cons_2
               |apply entries_apart; vm_compute; congruence].
Qed.

Lemma pmm_init_exact_witness :
  ∃ s' (total free : gset Z), pmm_init SmallMachine.mmap_at SmallMachine.mod_at 0x100000 0x101000 SmallMachine.mboot
      SmallMachine.boot_pmm = Ok s'
    ∧ (∀ f, f ∈ free ↔ 0x101 ≤ f < 0x8000)
    ∧ (∀ f, 0 ≤ f < 2 ^ 20 → frame_used (4096 * f) s' = Ok (bool_decide (f ∉ free))).
Proof.
  destruct (pmm_init_exact SmallMachine.mmap_at SmallMachine.mod_at 0x100000 0x101000
    SmallMachine.mboot SmallMachine.boot_pmm ∅ SmallMachine.entries) as (s' & total & free & E & _ & Hfree & Hu & _).
  - unfold image_ok. split_and!; done.
  - apply Forall_nil_2.
  - reflexivity.
  - apply (bitmap_init_rep PMM PMM_ok).
  - done.
  - done.
  - done.
  - exact small_entries.
  - repeat apply Forall_cons_2; [vm_compute; split; congruence..|apply Forall_nil_2].
  - repeat apply Forall_cons_2; [intros _; vm_compute; repeat split; congruence|by intros [=]|intros _; vm_compute; repeat split; congruence|apply Forall_nil_2].
  - repeat first [apply FOP_nil|apply FOP_cons|apply Forall_nil_2|apply Forall_cons_2]; intros ? ?; left; vm_compute; congruence.
  - exists s', total, free. split; [exact E|]. split; [|exact Hu]. intros f. rewrite Hfree. split.
    + intros ((e & He & Ht & Hlo & Hhi) & Hlow & Hker & _). unfold SmallMachine.entries in He. rewrite !elem_of_cons in He. destruct He as [->|[->|[->|[]%elem_of_nil]]].
      * change (mm_addr _) with 0 in *. change (mm_len _) with 0x9FC00 in *. lia.
      * done.
      * change (mm_addr _) with 0x100000 in *. change (mm_len _) with 0x7F00000 in *. lia.
    + intros Hf. split; [|split; [lia|]; split; [lia|]; change (modules _ _) with (@nil multiboot_module); intros m []%elem_of_nil]. exists (SmallMachine.mmap_at 0x9030).
      split; [do 2 right; left|]. split; [done|].
      change (mm_addr _) with 0x100000. change (mm_len _) with 0x7F00000. lia.
Defined.

(** C32: accounting. Along every sequence of allocations and releases by
    well-behaved callers the frames in use are the ones reserved at the start
    plus the ones the callers hold, these stay disjoint (a frame has one owner),
    and [free_memory] is the size of the rest. *)
Theorem pmm_accounting R s s' H' :
  pmm_inv s R → rtc pmm_step (s, ∅) (s', H') →
  R ## H' ∧ free_memory s' = u32 (4096 * (MAX_FRAMES - Z.of_nat (size R) - Z.of_nat (size H')))
  ∧ ∀ f, 0 ≤ f < MAX_FRAMES → frame_used (4096 * f) s' = Ok (bool_decide (f ∈ R ∪ H')).
Proof.
  intros Hs Hrtc.
  assert (held_inv R (s', H')) as [Hd Hi].
  { apply (rtc_held R _ _ Hrtc). split; [set_solver|]. simpl. by rewrite union_empty_r_L. }
  simpl in *. split_and!; [done| |].
  - unfold free_memory, PAGE_SIZE. rewrite (proj2 Hi), size_union_Z by done. f_equal. lia.
  - intros f Hf. unfold frame_used. rewrite <- PMM_unit_addr.
    apply allocated_ok; [exact PMM_ok|apply Hi|done].
Qed.

Lemma pmm_accounting_witness :
  ∃ s', rtc pmm_step (MkPmm (bitmap_init PMM) MAX_FRAMES 0, ∅) (s', ∅ ∪ run 0 3)
    ∧ free_memory s' = u32 (4096 * (MAX_FRAMES - Z.of_nat (size (∅ : gset Z))
                                    - Z.of_nat (size (∅ ∪ run 0 3)))).
Proof.
  set (s := MkPmm (bitmap_init PMM) MAX_FRAMES 0).
  assert (pmm_inv s ∅) as Hs.
  { split; [apply (bitmap_init_rep PMM PMM_ok)|]. reflexivity. }
  destruct (alloc_frames_total s ∅ 3 Hs) as [[a s'] E];
    [rewrite MAX_FRAMES_eq; lia|exists 0; rewrite MAX_FRAMES_eq; split_and!; [lia..|apply disjoint_empty_r]|].
  destruct (alloc_frames_ok s ∅ 3 a s' Hs ltac:(rewrite MAX_FRAMES_eq; lia) E)
    as (f & -> & Hf & _ & _ & Hmin & _).
  assert (f = 0) as ->.
  { destruct (decide (f = 0)) as [|Hne]; [done|]. destruct (Hmin 0); [lia|apply disjoint_empty_r]. }
  assert (rtc pmm_step (s, ∅) (s', ∅ ∪ run 0 3)) as Hrtc.
  { apply rtc_once, (step_alloc s ∅ 3 (4096 * 0) s'); [rewrite MAX_FRAMES_eq; lia|exact E]. }
  exists s'. split; [exact Hrtc|]. apply (pmm_accounting ∅ s s' _ Hs Hrtc).
Defined.

(** The memory map is read in 32 bits. An available entry at or above
    4 GiB, which the 32-bit manager cannot use, is folded onto low addresses:
    an entry at 4 GiB with 4080 MiB behind it frees the frame of the local APIC
    registers (0xFEE00000), which no entry describes as memory. *)
Theorem high_memory_frees_mmio :
  ∃ s', add_mmap_entry (MmapEntry 20 (2 ^ 32) 0xFF000000 MULTIBOOT_MEMORY_AVAILABLE)
          (MkPmm (set PMM (bitmap_init PMM)) 0 0) = Ok s'
    ∧ frame_used 0xFEE00000 (MkPmm (set PMM (bitmap_init PMM)) 0 0) = Ok true
    ∧ frame_used 0xFEE00000 s' = Ok false.
Proof.
  set (s := MkPmm (set PMM (bitmap_init PMM)) 0 0).
  pose proof (set_ok PMM PMM_ok _ _ (bitmap_init_rep PMM PMM_ok)) as Hset.
  change (MAX_UNITS PMM) with MAX_FRAMES in Hset.
  assert (pmm_inv s (run 0 MAX_FRAMES)) as Hs.
  { split; [done|]. unfold s. cbn [available_frames used_frames].
    rewrite size_run by (rewrite MAX_FRAMES_eq; lia). by rewrite Z.sub_diag. }
  set (e := MmapEntry _ _ _ _).
  assert (∀ f, f ∈ entry_frames (as_read e) ↔ 2 ^ 8 ≤ f < 0xFF000) as He.
  { intros f. rewrite elem_of_entry_frames. change (mm_type (as_read e)) with 1.
    change (mm_addr (as_read e)) with 0. change (mm_len (as_read e)) with 0xFF000000.
    unfold MULTIBOOT_MEMORY_AVAILABLE. lia. }
  assert (0 ≤ mm_type e < 6) as Hty by (vm_compute; split; congruence).
  assert (entry_frames (as_read e) ⊆ run 0 MAX_FRAMES) as Hsub.
  { intros f Hf%He. apply elem_of_run. rewrite MAX_FRAMES_eq. lia. }
  assert (rep PMM (mem_mngr s) (run 0 MAX_FRAMES)) as Hr by exact Hset.
  clear Hset. clearbody e s.
  destruct (add_mmap_entry_ok e s _ Hs Hty Hsub) as (s' & E & [Hr' _] & _).
  assert (0 ≤ 0xFEE00 < MAX_UNITS PMM) as Hk by (vm_compute; split; congruence).
  exists s'. split_and!; [exact E| |].
  - etrans; [apply (allocated_ok PMM PMM_ok _ _ _ Hr Hk)|].
    rewrite bool_decide_true; [reflexivity|]. apply elem_of_run. rewrite MAX_FRAMES_eq. lia.
  - etrans; [apply (allocated_ok PMM PMM_ok _ _ _ Hr' Hk)|].
    rewrite bool_decide_false; [reflexivity|]. rewrite elem_of_difference, He. lia.
Qed.

(** The log line of [init] indexes the table of type names with the type
    the boot loader gives: a type behind the table (the multiboot specification
    says unknown types are reserved) reads behind the array. *)
Theorem unknown_type_faults e s :
  6 ≤ mm_type e → add_mmap_entry e s = Fault (mm_type e).
Proof.
  intros H. unfold add_mmap_entry.
  rewrite (proj2 (lookup_ge_None typeNames (Z.to_nat (mm_type e)))); [done|simpl; lia].
Qed.

Lemma unknown_type_faults_witness :
  add_mmap_entry (MmapEntry 20 0 4096 7) SmallMachine.boot_pmm = Fault 7.
Proof. apply (unknown_type_faults (MmapEntry 20 0 4096 7)). vm_compute. congruence. Defined.
