(* ===== verification/Vmm.v ===== *)
(** The virtual memory manager: kernel/include/mm/vmm.hpp, kernel/src/mm/vmm.cpp.

    The machine the manager works on is explicit: physical memory as bytes, the
    paging registers, the translation cache (TLB) of the running core and those
    of the other cores, and the frame allocator, any instance of the interface
    [FrameAllocator].  The code reads and writes page tables through virtual
    pointers, so [load32] and [store32] translate: a cached translation is used
    as it is, stale or not, and a missing one is taken from the page tables and
    cached.  An access to a page that is not mapped is [Fault].  Supervisor
    writes ignore the writable flag (CR0.WP is never set).

    A public call holds [lock_] for its whole body, so it is one step; the
    interrupt handshake of [flush_remote_tlbs] is modelled in [Concurrency.v]. *)
From S2P Require Import Prelude Bitmap Layout Pmm Memory.

Definition PDE_BASE : Z := RECURSIVE_PD_BASE.
Definition PT_BASE : Z := RECURSIVE_PT_BASE.
Definition PAGE_MASK : Z := 0xFFFFF000.

Module Flags.
Definition Present : Z := Z.shiftl 1 0.
Definition Writable : Z := Z.shiftl 1 1.
Definition User : Z := Z.shiftl 1 2.
Definition WriteThrough : Z := Z.shiftl 1 3.
Definition CacheDisabled : Z := Z.shiftl 1 4.
End Flags.

(** ** Page-table entries *)
Module Entry.
Definition ADDRESS_MASK : Z := 0xFFFFF000.
Definition FLAGS_MASK : Z := 0x00000FFF.

Definition address (value : Z) : Z := Z.land value ADDRESS_MASK.
Definition set_address (physical_addr value : Z) : Z :=
  Z.lor (Z.land value FLAGS_MASK) (Z.land physical_addr ADDRESS_MASK).
Definition invalidate (value : Z) : Z := 0.
Definition has_flag (flag value : Z) : bool := Z.land (Z.land value FLAGS_MASK) flag =? flag.
Definition update_flags (flags value : Z) : Z := Z.lor value (Z.land flags FLAGS_MASK).
End Entry.

Definition align_address (address : Z) : Z * Z :=
  (Z.land address PAGE_MASK, Z.land address (PAGE_SIZE - 1)).

Definition pde_index (virt_addr : Z) : Z := Z.land (Z.shiftr virt_addr 22) 0x3FF.
Definition pte_index (virt_addr : Z) : Z := Z.land (Z.shiftr virt_addr 12) 0x3FF.

(** The virtual addresses of the entries behind [pde_entry(v)], [pte_entry(v)]. *)
Definition pde_entry (virt_addr : Z) : Z := u32 (PDE_BASE + u32 (pde_index virt_addr * 4)).
Definition pt_virtual_base (virt_addr : Z) : Z :=
  u32 (PT_BASE + u32 (Z.shiftl (pde_index virt_addr) 12)).
Definition pte_entry (virt_addr : Z) : Z :=
  let pt_virt := u32 (PT_BASE + u32 (Z.shiftl (pde_index virt_addr) 12)) in
  u32 (pt_virt + u32 (pte_index virt_addr * 4)).

(** The handlers [init] registers. *)
Inductive isr := page_fault | tlb_shootdown_handler.
Definition TLB_SHOOTDOWN_VECTOR : Z := 49.

(** The text [page_fault] panics with, by the error code of the exception. *)
Definition page_fault_reason (err_code : Z) : string :=
  if Z.land err_code 1 =? 0 then "Page not present"
  else if negb (Z.land err_code 2 =? 0) then "Page is read-only"
  else if negb (Z.land err_code 4 =? 0) then "Processor in user-mode"
  else if negb (Z.land err_code 8 =? 0) then "Overwrite CPU-reserved bits"
  else "Unknown".

Abbreviation tlb_t := (gmap Z Z).

Section Vmm.
Context {S : Type} `{FA : FrameAllocator S}.

Record machine := Machine {
  mem : ram;                      (* physical memory *)
  cr3 : Z;
  paging : bool;                  (* CR0.PG *)
  tlb : tlb_t;                    (* page number to frame number *)
  remote : list (bool * tlb_t);   (* other cores: initialized, TLB *)
  isrs : gmap Z isr;
  frames : S;                     (* the pmm *)
  kernel_dir_phys : Z
}.

Definition with_mem (x : ram) (m : machine) : machine :=
  Machine x (cr3 m) (paging m) (tlb m) (remote m) (isrs m) (frames m) (kernel_dir_phys m).
Definition with_tlb (x : tlb_t) (m : machine) : machine :=
  Machine (mem m) (cr3 m) (paging m) x (remote m) (isrs m) (frames m) (kernel_dir_phys m).
Definition with_remote (x : list (bool * tlb_t)) (m : machine) : machine :=
  Machine (mem m) (cr3 m) (paging m) (tlb m) x (isrs m) (frames m) (kernel_dir_phys m).
Definition with_isrs (x : gmap Z isr) (m : machine) : machine :=
  Machine (mem m) (cr3 m) (paging m) (tlb m) (remote m) x (frames m) (kernel_dir_phys m).
Definition with_frames (x : S) (m : machine) : machine :=
  Machine (mem m) (cr3 m) (paging m) (tlb m) (remote m) (isrs m) x (kernel_dir_phys m).
Definition with_dir (x : Z) (m : machine) : machine :=
  Machine (mem m) (cr3 m) (paging m) (tlb m) (remote m) (isrs m) (frames m) x.

(** ** The processor *)

(** The two-level walk the processor does for a virtual address. *)
Definition walk (m : ram) (dir virt_addr : Z) : option Z :=
  let pde := rd32 m (Entry.address dir + 4 * pde_index virt_addr) in
  if Z.testbit pde 0 then
    let pte := rd32 m (Entry.address pde + 4 * pte_index virt_addr) in
    if Z.testbit pte 0 then Some (Entry.address pte) else None
  else None.

Definition translate (va : Z) (m : machine) : res (Z * machine) :=
  if paging m then
    match tlb m !! (va / 4096) with
    | Some f => Ok (4096 * f + va mod 4096, m)
    | None =>
        match walk (mem m) (cr3 m) va with
        | Some pa => Ok (pa + va mod 4096, with_tlb (<[va / 4096 := pa / 4096]> (tlb m)) m)
        | None => Fault va
        end
    end
  else Ok (va, m).

Definition load32 (va : Z) (m : machine) : res (Z * machine) :=
  '(pa, m) ← translate va m; Ok (rd32 (mem m) pa, m).

Definition store32 (va v : Z) (m : machine) : res machine :=
  '(pa, m) ← translate va m; Ok (with_mem (wr32 (mem m) pa v) m).

Definition store8 (va v : Z) (m : machine) : res machine :=
  '(pa, m) ← translate va m; Ok (with_mem (wr8 (mem m) pa v) m).

(** [memset]: a byte at a time. *)
Fixpoint memset (va v : Z) (n : nat) (m : machine) : res machine :=
  match n with
  | O => Ok m
  | Datatypes.S n => m ← store8 va v m; memset (va + 1) v n m
  end.

(** [mov %0, %%cr3] loads the directory and empties the TLB. *)
Definition load_directory (phys_addr : Z) (m : machine) : machine :=
  Machine (mem m) phys_addr (paging m) ∅ (remote m) (isrs m) (frames m) (kernel_dir_phys m).
Definition enable_paging (m : machine) : machine :=
  Machine (mem m) (cr3 m) true (tlb m) (remote m) (isrs m) (frames m) (kernel_dir_phys m).
(** [invlpg] *)
Definition flush_tlb (virt_addr : Z) (m : machine) : machine :=
  with_tlb (delete (virt_addr / 4096) (tlb m)) m.

(** A method of [Entry] called through a reference: load, change, store. *)
Definition update_entry (ptr : Z) (f : Z → Z) (m : machine) : res machine :=
  '(v, m) ← load32 ptr m; store32 ptr (f v) m.

Definition register_isr (vector : Z) (handler : isr) (m : machine) : machine :=
  with_isrs (<[vector := handler]> (isrs m)) m.

(** The effect of a completed shootdown: every initialized remote core ran
    [flush_current_tlb]. *)
Definition flush_remote_tlbs (m : machine) : machine :=
  with_remote ((λ c : bool * tlb_t, if c.1 then (c.1, ∅) else c) <$> remote m) m.

(** ** The manager *)

Fixpoint init_identity (pt i : Z) (n : nat) (m : machine) : res machine :=
  match n with
  | O => Ok m
  | Datatypes.S n =>
      m ← update_entry (u32 (pt + u32 (i * 4))) (Entry.set_address (u32 (i * PAGE_SIZE))) m;
      m ← update_entry (u32 (pt + u32 (i * 4)))
            (Entry.update_flags (Z.lor Flags.Present Flags.Writable)) m;
      init_identity pt (i + 1) n m
  end.

(** The writes of [vmm::init] to the two fresh frames. *)
Definition init_directory (pd_phys pt_phys : Z) (m : machine) : res machine :=
  m ← memset pd_phys 0 (Z.to_nat PAGE_SIZE) m;
  m ← memset pt_phys 0 (Z.to_nat PAGE_SIZE) m;
  m ← init_identity pt_phys 0 (Z.to_nat (IDENTITY_WINDOW_SIZE / PAGE_SIZE)) m;
  m ← update_entry pd_phys (Entry.set_address pt_phys) m;
  m ← update_entry pd_phys (Entry.update_flags (Z.lor Flags.Present Flags.Writable)) m;
  m ← update_entry (pd_phys + 1023 * 4) (Entry.set_address pd_phys) m;
  update_entry (pd_phys + 1023 * 4) (Entry.update_flags (Z.lor Flags.Present Flags.Writable)) m.

Definition init (m : machine) : res machine :=
  '(pd_phys, fs) ← fa_alloc (frames m);
  '(pt_phys, fs) ← fa_alloc fs;
  let m := with_frames fs m in
  if (pd_phys =? 0) || (pt_phys =? 0) then Panic "vmm::init: out of physical memory"
  else
    m ← init_directory pd_phys pt_phys m;
    let m := register_isr 14 page_fault m in
    let m := register_isr TLB_SHOOTDOWN_VECTOR tlb_shootdown_handler m in
    let m := with_dir pd_phys m in
    Ok (enable_paging (load_directory (kernel_dir_phys m) m)).

Definition ensure_page_table (virt_addr flags : Z) (m : machine) : res machine :=
  let pde := pde_entry virt_addr in
  '(v, m) ← load32 pde m;
  if Entry.has_flag Flags.Present v then update_entry pde (Entry.update_flags flags) m
  else
    '(pt_phys, fs) ← fa_alloc (frames m);
    let m := with_frames fs m in
    if pt_phys =? 0 then Panic "ensure_page_table: out of physical memory"
    else
      m ← store32 pde (Entry.invalidate v) m;
      m ← update_entry pde (Entry.set_address pt_phys) m;
      m ← update_entry pde (Entry.update_flags
            (Z.lor (Z.lor Flags.Present Flags.Writable) (Z.land flags Flags.User))) m;
      memset (pt_virtual_base virt_addr) 0 (Z.to_nat PAGE_SIZE) m.

Definition map_page_locked (virt_addr phys_addr flags : Z) (m : machine) : res machine :=
  let virt_addr := (align_address virt_addr).1 in
  let phys_addr := (align_address phys_addr).1 in
  m ← ensure_page_table virt_addr flags m;
  let pte := pte_entry virt_addr in
  m ← store32 pte 0 m;
  m ← update_entry pte (Entry.set_address phys_addr) m;
  m ← update_entry pte (Entry.update_flags flags) m;
  Ok (flush_tlb virt_addr m).

Definition unmap_page_locked (virt_addr : Z) (m : machine) : res machine :=
  let virt_addr := (align_address virt_addr).1 in
  '(pde, m) ← load32 (pde_entry virt_addr) m;
  if negb (Entry.has_flag Flags.Present pde) then Ok m
  else
    '(pte, m) ← load32 (pte_entry virt_addr) m;
    if negb (Entry.has_flag Flags.Present pte) then Ok m
    else
      fs ← fa_free (Entry.address pte) (frames m);
      let m := with_frames fs m in
      m ← store32 (pte_entry virt_addr) 0 m;
      Ok (flush_tlb virt_addr m).

Definition map_page (virt_addr phys_addr flags : Z) (m : machine) : res machine :=
  m ← map_page_locked virt_addr phys_addr flags m; Ok (flush_remote_tlbs m).

Fixpoint map_loop (virt_addr phys_addr flags i : Z) (n : nat) (m : machine) : res machine :=
  match n with
  | O => Ok m
  | Datatypes.S n =>
      m ← map_page_locked (u32 (virt_addr + u32 (i * PAGE_SIZE)))
            (u32 (phys_addr + u32 (i * PAGE_SIZE))) flags m;
      map_loop virt_addr phys_addr flags (u32 (i + 1)) n m
  end.

Definition map_pages (virt_addr phys_addr pages flags : Z) (m : machine) : res machine :=
  let virt_addr := (align_address virt_addr).1 in
  let phys_addr := (align_address phys_addr).1 in
  m ← map_loop virt_addr phys_addr flags 0 (Z.to_nat pages) m;
  Ok (flush_remote_tlbs m).

Definition map_identity_page (addr flags : Z) : machine → res machine := map_page addr addr flags.
Definition map_identity_pages (addr pages flags : Z) : machine → res machine :=
  map_pages addr addr pages flags.
Definition map_identity_span (addr size flags : Z) (m : machine) : res machine :=
  if size =? 0 then Ok m
  else
    let aligned := align_address addr in
    let span := align_up (u32 (aligned.2 + size)) PAGE_SIZE in
    map_identity_pages aligned.1 (span / PAGE_SIZE) flags m.

Definition unmap_page (virt_addr : Z) (m : machine) : res machine :=
  m ← unmap_page_locked virt_addr m; Ok (flush_remote_tlbs m).

Fixpoint unmap_loop (virt_addr i : Z) (n : nat) (m : machine) : res machine :=
  match n with
  | O => Ok m
  | Datatypes.S n =>
      m ← unmap_page_locked (u32 (virt_addr + u32 (i * PAGE_SIZE))) m;
      unmap_loop virt_addr (u32 (i + 1)) n m
  end.

Definition unmap_pages (virt_addr pages : Z) (m : machine) : res machine :=
  let virt_addr := (align_address virt_addr).1 in
  m ← unmap_loop virt_addr 0 (Z.to_nat pages) m; Ok (flush_remote_tlbs m).

Definition virt_to_phys (virt_addr : Z) (m : machine) : res (Z * machine) :=
  '(pde, m) ← load32 (pde_entry virt_addr) m;
  if negb (Entry.has_flag Flags.Present pde) then Ok (0xFFFFFFFF, m)
  else
    '(pte, m) ← load32 (pte_entry virt_addr) m;
    if negb (Entry.has_flag Flags.Present pte) then Ok (0xFFFFFFFF, m)
    else Ok (Z.lor (Entry.address pte) (Z.land virt_addr (PAGE_SIZE - 1)), m).

Definition is_mapped (virt_addr : Z) (m : machine) : res (bool * machine) :=
  '(pde, m) ← load32 (pde_entry virt_addr) m;
  if negb (Entry.has_flag Flags.Present pde) then Ok (false, m)
  else
    '(pte, m) ← load32 (pte_entry virt_addr) m;
    Ok (Entry.has_flag Flags.Present pte, m).
End Vmm.
Arguments machine : clear implicits.

(** ** Entries and indices, arithmetically *)

Lemma address_eq v : 0 ≤ v < 2 ^ 32 → Entry.address v = 4096 * (v / 4096).
Proof.
  intros Hv. unfold Entry.address. change Entry.ADDRESS_MASK with (not32 (2 ^ 12 - 1)).
  rewrite land_not_mask by lia. change (2 ^ 12) with 4096. dlia.
Qed.

Lemma aligned_eq v : 0 ≤ v < 2 ^ 32 → (align_address v).1 = 4096 * (v / 4096).
Proof. exact (address_eq v). Qed.

Lemma has_present v : Entry.has_flag Flags.Present v = Z.testbit v 0.
Proof.
  unfold Entry.has_flag. change Entry.FLAGS_MASK with (2 ^ 12 - 1). rewrite land_mask by lia.
  change Flags.Present with (2 ^ 1 - 1). rewrite land_mask by lia.
  rewrite <- Z.bit0_mod, <- (Z.mod_pow2_bits_low v 12 0) by lia.
  rewrite Z.bit0_mod. change (2 ^ 1) with 2.
  destruct (Z.testbit _ 0) eqn:E; rewrite Z.bit0_odd in E.
  - by rewrite Zmod_odd, E.
  - by rewrite Zmod_odd, E.
Qed.

Lemma set_address_0 a : 0 ≤ a < 2 ^ 32 → Entry.set_address a 0 = 4096 * (a / 4096).
Proof. intros Ha. unfold Entry.set_address. rewrite Z.land_0_l, Z.lor_0_l. by apply address_eq. Qed.

(** An entry is its frame and its flags. *)
Lemma update_flags_frame f v :
  0 ≤ v → Entry.update_flags f v / 4096 = v / 4096.
Proof.
  intros Hv. unfold Entry.update_flags. change Entry.FLAGS_MASK with (2 ^ 12 - 1).
  rewrite land_mask by lia. change 4096 with (2 ^ 12). rewrite <- !Z.shiftr_div_pow2 by lia.
  rewrite Z.shiftr_lor, (Z.shiftr_div_pow2 (f mod 2 ^ 12)), (Z.div_small (f mod 2 ^ 12)), Z.lor_0_r by
    (try apply Z.mod_pos_bound; lia). done.
Qed.

Lemma update_flags_present f v :
  Z.testbit (Entry.update_flags f v) 0 = Z.testbit v 0 || Z.testbit f 0.
Proof.
  unfold Entry.update_flags. rewrite Z.lor_spec, Z.land_spec. by rewrite andb_true_r.
Qed.

Lemma update_flags_range f v : 0 ≤ v < 2 ^ 32 → 0 ≤ Entry.update_flags f v < 2 ^ 32.
Proof.
  intros Hv. apply lor_range; [lia..|]. change Entry.FLAGS_MASK with (2 ^ 12 - 1).
  rewrite land_mask by lia. dlia.
Qed.

Lemma pde_index_eq va : 0 ≤ va < 2 ^ 32 → pde_index va = va / 4096 / 1024.
Proof.
  intros. unfold pde_index. change 0x3FF with (2 ^ 10 - 1).
  rewrite land_mask, Z.shiftr_div_pow2 by lia. change (2 ^ 22) with 4194304. change (2 ^ 10) with 1024. dlia.
Qed.

Lemma pte_index_eq va : 0 ≤ va < 2 ^ 32 → pte_index va = va / 4096 mod 1024.
Proof.
  intros. unfold pte_index. change 0x3FF with (2 ^ 10 - 1).
  rewrite land_mask, Z.shiftr_div_pow2 by lia. done.
Qed.

Lemma pde_entry_eq va :
  0 ≤ va < 2 ^ 32 → pde_entry va = 4096 * 0xFFFFF + 4 * (va / 4096 / 1024).
Proof.
  intros. unfold pde_entry. rewrite pde_index_eq by lia. change PDE_BASE with (4096 * 0xFFFFF).
  rewrite (u32_small (_ * 4)) by dlia. rewrite u32_small by dlia. lia.
Qed.

Lemma pt_virtual_base_eq va :
  0 ≤ va < 2 ^ 32 → pt_virtual_base va = 4096 * (0xFFC00 + va / 4096 / 1024).
Proof.
  intros. unfold pt_virtual_base. rewrite pde_index_eq, Z.shiftl_mul_pow2 by lia.
  change PT_BASE with (4096 * 0xFFC00). change (2 ^ 12) with 4096.
  rewrite (u32_small (_ * 4096)) by dlia. rewrite u32_small by dlia. lia.
Qed.

Lemma pte_entry_eq va :
  0 ≤ va < 2 ^ 32 →
  pte_entry va = 4096 * (0xFFC00 + va / 4096 / 1024) + 4 * (va / 4096 mod 1024).
Proof.
  intros. unfold pte_entry. fold (pt_virtual_base va). rewrite pt_virtual_base_eq, pte_index_eq by lia.
  rewrite (u32_small (_ * 4)) by dlia. rewrite u32_small by dlia. lia.
Qed.

(** ** The translation, page by page *)

(** The directory entry [i] and the table entry of page [p], for the directory
    in frame [D]; the frame page [p] is mapped to. *)
Definition pd (m : ram) (D i : Z) : Z := rd32 m (4096 * D + 4 * i).
Definition pt (m : ram) (D p : Z) : Z :=
  rd32 m (4096 * (pd m D (p / 1024) / 4096) + 4 * (p mod 1024)).
Definition page_of (m : ram) (D p : Z) : option Z :=
  if Z.testbit (pd m D (p / 1024)) 0
  then if Z.testbit (pt m D p) 0 then Some (pt m D p / 4096) else None
  else None.

Lemma walk_page_of m D va :
  bytes_ok m → 0 ≤ D < 2 ^ 20 → 0 ≤ va < 2 ^ 32 →
  walk m (4096 * D) va = (λ f, 4096 * f) <$> page_of m D (va / 4096).
Proof.
  intros Hm HD Hva. unfold walk, page_of, pt. rewrite pde_index_eq, pte_index_eq by lia.
  rewrite (address_eq (4096 * D)) by lia. replace (4096 * D / 4096) with D by dlia.
  fold (pd m D (va / 4096 / 1024)).
  destruct (Z.testbit (pd m D _) 0); [|done].
  rewrite address_eq by (apply rd32_range; done).
  set (pte := rd32 m _). destruct (Z.testbit pte 0); [|done]. simpl. f_equal.
  apply address_eq, rd32_range, Hm.
Qed.

Lemma page_of_ext m m' D p :
  pd m' D (p / 1024) = pd m D (p / 1024) → pt m' D p = pt m D p → page_of m' D p = page_of m D p.
Proof. intros E1 E2. unfold page_of. by rewrite E1, E2. Qed.

(** Cached translations: a page of [N] is not cached; a cached page outside [E]
    is the one in the tables. *)
Definition coherent (N E : Z → Prop) (t : tlb_t) (m : ram) (D : Z) : Prop :=
  ∀ q f, t !! q = Some f → 0 ≤ q < 2 ^ 20 ∧ ¬ N q ∧ (E q ∨ page_of m D q = Some f).

Definition nowhere : Z → Prop := λ _, False.

Lemma coherent_mono N E E' t m m' D :
  coherent N E t m D →
  (∀ q, E q → E' q) →
  (∀ q f, 0 ≤ q < 2 ^ 20 → ¬ N q → page_of m D q = Some f → E' q ∨ page_of m' D q = Some f) →
  coherent N E' t m' D.
Proof.
  intros H HE Hp q f Hq. destruct (H q f Hq) as (?&?&[?|?]); split_and!; auto; lia.
Qed.

Section Access.
Context {S : Type} `{FA : FrameAllocator S}.
Implicit Types m : machine S.

(** What an access needs: paging on, the directory in frame [D], caches coherent. *)
Record view (N E : Z → Prop) (D : Z) m : Prop := {
  view_paging : paging m = true;
  view_cr3 : cr3 m = 4096 * D;
  view_D : 0 ≤ D < 2 ^ 20;
  view_bytes : bytes_ok (mem m);
  view_tlb : coherent N E (tlb m) (mem m) D
}.

Lemma translate_page N E D m p f off :
  view N E D m → 0 ≤ p < 2 ^ 20 → 0 ≤ off < 4096 → ¬ N p → ¬ E p →
  page_of (mem m) D p = Some f →
  ∃ t, translate (4096 * p + off) m = Ok (4096 * f + off, with_tlb t m)
       ∧ coherent N E t (mem m) D.
Proof.
  intros [Hpg Hcr HD Hb Ht] Hp Hoff HN HE Hf.
  assert ((4096 * p + off) / 4096 = p) as E1 by dlia.
  assert ((4096 * p + off) mod 4096 = off) as E2 by dlia.
  unfold translate. rewrite Hpg, E1, E2.
  destruct (tlb m !! p) as [g|] eqn:Hg.
  - destruct (Ht p g Hg) as (_&_&[?|Hg']); [done|]. exists (tlb m).
    rewrite Hf in Hg'. injection Hg' as <-. split; [by destruct m|done].
  - rewrite Hcr, walk_page_of by (done || lia). rewrite E1, Hf. simpl.
    exists (<[p := f]> (tlb m)). rewrite (Z.mul_comm 4096 f), Z.div_mul by lia. split; [done|].
    intros q g. destruct (decide (q = p)) as [->|Hne].
    + rewrite lookup_insert_eq. intros [= <-]. auto.
    + rewrite lookup_insert_ne by done. apply Ht.
Qed.

(** Accesses change the memory and the cache only. *)
Definition upd (M : ram) (t : tlb_t) m : machine S := with_mem M (with_tlb t m).

Section Page.
Context (N E : Z → Prop) (D : Z) (m : machine S) (p f off : Z).
Context (Hv : view N E D m) (Hp : 0 ≤ p < 2 ^ 20) (Hoff : 0 ≤ off < 4096).
Context (HN : ¬ N p) (HE : ¬ E p) (Hf : page_of (mem m) D p = Some f).

Lemma load32_page :
  ∃ t, load32 (4096 * p + off) m = Ok (rd32 (mem m) (4096 * f + off), upd (mem m) t m)
       ∧ coherent N E t (mem m) D.
Proof.
  destruct (translate_page N E D m p f off) as (t & E1 & Ht); [done..|].
  exists t. unfold load32. rewrite E1. done.
Qed.

Lemma store32_page v :
  ∃ t, store32 (4096 * p + off) v m = Ok (upd (wr32 (mem m) (4096 * f + off) v) t m)
       ∧ coherent N E t (mem m) D.
Proof.
  destruct (translate_page N E D m p f off) as (t & E1 & Ht); [done..|].
  exists t. unfold store32. rewrite E1. done.
Qed.

Lemma store8_page v :
  ∃ t, store8 (4096 * p + off) v m = Ok (upd (wr8 (mem m) (4096 * f + off) v) t m)
       ∧ coherent N E t (mem m) D.
Proof.
  destruct (translate_page N E D m p f off) as (t & E1 & Ht); [done..|].
  exists t. unfold store8. rewrite E1. done.
Qed.
End Page.

Lemma view_upd N E D m M t :
  view N E D m → bytes_ok M → coherent N E t M D → view N E D (upd M t m).
Proof. intros [] ? ?. by split. Qed.

Lemma update_entry_page N E D m p f off g :
  view N E D m → 0 ≤ p < 2 ^ 20 → 0 ≤ off < 4096 → ¬ N p → ¬ E p →
  page_of (mem m) D p = Some f →
  ∃ t, update_entry (4096 * p + off) g m
       = Ok (upd (wr32 (mem m) (4096 * f + off) (g (rd32 (mem m) (4096 * f + off)))) t m)
       ∧ coherent N E t (mem m) D.
Proof.
  intros Hv Hp Hoff HN HE Hf. unfold update_entry.
  destruct (load32_page N E D m p f off) as (t & -> & Ht); [done..|]. simpl.
  destruct (store32_page N E D (upd (mem m) t m) p f off) with (v := g (rd32 (mem m) (4096 * f + off)))
    as (t' & -> & Ht'); [|done..|eauto]. by apply view_upd; [|apply Hv|].
Qed.

(** [M'] differs from [M] in frame [T] only. *)
Definition agree_outside (T : Z) (M M' : ram) : Prop :=
  ∀ b, b < 4096 * T ∨ 4096 * T + 4096 ≤ b → M' b = M b.

(** [memset] within a page mapped to a frame whose contents do not matter for
    the pages outside [N]. *)
Lemma memset_page N E D f p v M0 : ∀ n off m,
  (∀ M, agree_outside f M0 M → ∀ q, 0 ≤ q < 2 ^ 20 → ¬ N q → page_of M D q = page_of M0 D q) →
  view N E D m → agree_outside f M0 (mem m) →
  0 ≤ p < 2 ^ 20 → 0 ≤ off → off + Z.of_nat n ≤ 4096 → ¬ N p → ¬ E p →
  page_of M0 D p = Some f →
  ∃ t, memset (4096 * p + off) v n m = Ok (upd (fill8 (mem m) (4096 * f + off) v n) t m)
       ∧ view N E D (upd (fill8 (mem m) (4096 * f + off) v n) t m).
Proof.
  induction n as [|n IH]; intros off m Hpriv Hv Hag Hp Ho Hn HN HE Hf; cbn [memset fill8].
  { exists (tlb m). split; [by destruct m|]. apply view_upd; [done|apply Hv..]. }
  assert (page_of (mem m) D p = Some f) as Hf' by (by rewrite Hpriv).
  destruct (store8_page N E D m p f off) with (v := v) as (t & -> & Ht); [done|lia..|done|done|done|].
  cbn [mbind res_bind].
  assert (agree_outside f M0 (wr8 (mem m) (4096 * f + off) v)) as Hag'.
  { intros b Hb. rewrite wr8_other by lia. by apply Hag. }
  set (m1 := upd (wr8 (mem m) (4096 * f + off) v) t m).
  assert (view N E D m1) as Hv1.
  { apply view_upd; [done|apply wr8_bytes, Hv|]. eapply coherent_mono; [exact Ht|done|].
    intros q g Hq HNq Hg. right. rewrite Hpriv by done. by rewrite <- (Hpriv (mem m)). }
  destruct (IH (off + 1) m1) as (t' & E1 & Hv'); [done..|lia|lia|done|done|done|].
  exists t'. replace (4096 * p + off + 1) with (4096 * p + (off + 1)) by lia. rewrite E1.
  replace (4096 * f + off + 1) with (4096 * f + (off + 1)) by lia. done.
Qed.
End Access.

(** ** Well-formed page tables *)

(** The directory in frame [D] maps itself at entry 1023; the other present
    entries name distinct tables in frames that are in use. *)
Record tables (M : ram) (D : Z) (A : gset Z) : Prop := {
  tb_self : Z.testbit (pd M D 1023) 0 = true ∧ pd M D 1023 / 4096 = D;
  tb_held i : 0 ≤ i < 1023 → Z.testbit (pd M D i) 0 = true →
              pd M D i / 4096 ∈ A ∧ pd M D i / 4096 ≠ D;
  tb_distinct i j : 0 ≤ i < 1023 → 0 ≤ j < 1023 → i ≠ j →
    Z.testbit (pd M D i) 0 = true → Z.testbit (pd M D j) 0 = true →
    pd M D i / 4096 ≠ pd M D j / 4096
}.

Lemma page_of_ext_present M M' D p :
  pd M' D (p / 1024) = pd M D (p / 1024) →
  (Z.testbit (pd M D (p / 1024)) 0 = true → pt M' D p = pt M D p) →
  page_of M' D p = page_of M D p.
Proof.
  intros E1 E2. unfold page_of. rewrite E1.
  destruct (Z.testbit (pd M D (p / 1024)) 0); [by rewrite E2|done].
Qed.

(** The recursive window: page [0xFFC00 + i] is table [i], the last page the
    directory. *)
Lemma page_of_window M D A i :
  tables M D A → 0 ≤ i < 1024 →
  page_of M D (0xFFC00 + i) = if Z.testbit (pd M D i) 0 then Some (pd M D i / 4096) else None.
Proof.
  intros HT Hi. destruct (tb_self _ _ _ HT) as [E1 E2].
  assert ((0xFFC00 + i) / 1024 = 1023) as Ea by dlia.
  assert ((0xFFC00 + i) mod 1024 = i) as Eb by dlia.
  unfold page_of, pt. rewrite Ea, Eb, E1, E2. done.
Qed.

Lemma page_of_dir M D A : tables M D A → page_of M D 0xFFFFF = Some D.
Proof.
  intros HT. change 0xFFFFF with (0xFFC00 + 1023). rewrite (page_of_window M D A) by (done || lia).
  destruct (tb_self _ _ _ HT) as [-> ->]. done.
Qed.

Lemma rd32_agree T M M' F off :
  agree_outside T M M' → F ≠ T → 0 ≤ off → off + 4 ≤ 4096 →
  rd32 M' (4096 * F + off) = rd32 M (4096 * F + off).
Proof. intros H HF ? ?. apply rd32_ext. intros b Hb. apply H. lia. Qed.

(** Writing into the frame of table [i] changes the pages of table [i] only. *)
Lemma table_write M M' D A T i :
  tables M D A → T ≠ D → agree_outside T M M' →
  (∀ j, 0 ≤ j < 1023 → j ≠ i → Z.testbit (pd M D j) 0 = true → pd M D j / 4096 ≠ T) →
  (∀ j, 0 ≤ j < 1024 → pd M' D j = pd M D j)
  ∧ ∀ q, 0 ≤ q < 2 ^ 20 → q / 1024 ≠ i → page_of M' D q = page_of M D q.
Proof.
  intros HT HD Hag Hother.
  assert (∀ j, 0 ≤ j < 1024 → pd M' D j = pd M D j) as Hpd.
  { intros j Hj. unfold pd. apply (rd32_agree T); [done|congruence|lia..]. }
  split; [done|]. intros q Hq Hqi. apply page_of_ext_present; [apply Hpd; dlia|].
  intros Hpres. unfold pt. rewrite Hpd by dlia.
  apply (rd32_agree T); [done| |dlia..].
  destruct (decide (q / 1024 = 1023)) as [E|E].
  - rewrite E. rewrite (proj2 (tb_self _ _ _ HT)). congruence.
  - apply Hother; [dlia|done|done].
Qed.

(** Writing directory entry [i] changes the pages of table [i] and the page of
    the window that shows it. *)
Lemma dir_write M D A i v :
  tables M D A → 0 ≤ i < 1023 → 0 ≤ v < 2 ^ 32 →
  let M' := wr32 M (4096 * D + 4 * i) v in
  pd M' D i = v
  ∧ (∀ j, 0 ≤ j < 1024 → j ≠ i → pd M' D j = pd M D j)
  ∧ ∀ q, 0 ≤ q < 2 ^ 20 → q / 1024 ≠ i → q ≠ 0xFFC00 + i → page_of M' D q = page_of M D q.
Proof.
  intros HT Hi Hv M'.
  assert (∀ j, 0 ≤ j < 1024 → j ≠ i → pd M' D j = pd M D j) as Hpd.
  { intros j Hj Hne. apply rd32_wr32_other. lia. }
  split; [by apply rd32_wr32_same|]. split; [done|].
  intros q Hq Hqi Hw. apply page_of_ext_present; [apply Hpd; [dlia|done]|].
  intros Hpres. unfold pt. rewrite Hpd by (done || dlia). apply rd32_wr32_other.
  destruct (decide (q / 1024 = 1023)) as [E|E].
  - rewrite E, (proj2 (tb_self _ _ _ HT)). dlia.
  - destruct (tb_held _ _ _ HT (q / 1024)) as [_ Hne]; [dlia|done|]. dlia.
Qed.

Section Manager.
Context {S : Type} `{FA : FrameAllocator S}.
Implicit Types m : machine S.

(** The manager's invariant: [A] is the set of frames in use, frame 0 among
    them (it is never handed out). *)
Record wf (m : machine S) (D : Z) (A : gset Z) : Prop := {
  wf_view : view nowhere nowhere D m;
  wf_tables : tables (mem m) D A;
  wf_dir : kernel_dir_phys m = 4096 * D;
  wf_frames : fa_inv (frames m) A;
  wf_zero : 0 ∈ A;
  wf_D : D ∈ A
}.

Lemma coherent_nowhere N t M D :
  coherent nowhere nowhere t M D → (∀ q, 0 ≤ q < 2 ^ 20 → N q → page_of M D q = None) →
  coherent N nowhere t M D.
Proof.
  intros H HN q f Hq. destruct (H q f Hq) as (?&?&[[]|Hf]). split_and!; [lia..| |by right].
  intros Hn. rewrite HN in Hf by done. done.
Qed.

Lemma coherent_weaken N t M D : coherent N nowhere t M D → coherent nowhere nowhere t M D.
Proof. intros H q f Hq. destruct (H q f Hq) as (?&?&?). split_and!; [lia..|by intros []|done]. Qed.

(** The directory page accepts accesses as long as it is neither excluded nor stale. *)
Lemma load_pde N m D A va :
  view N nowhere D m → tables (mem m) D A → ¬ N 0xFFFFF → 0 ≤ va < 2 ^ 32 →
  ∃ t, load32 (pde_entry va) m = Ok (pd (mem m) D (va / 4096 / 1024), upd (mem m) t m)
       ∧ view N nowhere D (upd (mem m) t m).
Proof.
  intros Hv HT HN Hva. rewrite pde_entry_eq by done.
  destruct (load32_page N nowhere D m 0xFFFFF D (4 * (va / 4096 / 1024))) as (t & E & Ht);
    [done|lia|dlia|done|by intros []|by eapply page_of_dir|].
  exists t. split; [done|]. by apply view_upd; [|apply Hv|].
Qed.

Lemma update_pde N m D A va g :
  view N nowhere D m → tables (mem m) D A → ¬ N 0xFFFFF → 0 ≤ va < 2 ^ 32 →
  ∃ t, update_entry (pde_entry va) g m
       = Ok (upd (wr32 (mem m) (4096 * D + 4 * (va / 4096 / 1024))
                       (g (pd (mem m) D (va / 4096 / 1024)))) t m)
       ∧ coherent N nowhere t (mem m) D.
Proof.
  intros Hv HT HN Hva. rewrite pde_entry_eq by done.
  apply update_entry_page; [done|lia|dlia|done|by intros []|by eapply page_of_dir].
Qed.

(** Changing the flags of a directory entry keeps the frame and the present bit. *)
Lemma pde_flags_ok M D A i v :
  tables M D A → 0 ≤ i < 1023 → 0 ≤ v < 2 ^ 32 → v / 4096 = pd M D i / 4096 →
  Z.testbit v 0 = Z.testbit (pd M D i) 0 →
  tables (wr32 M (4096 * D + 4 * i) v) D A
  ∧ (∀ q, 0 ≤ q < 2 ^ 20 → page_of (wr32 M (4096 * D + 4 * i) v) D q = page_of M D q)
  ∧ pd (wr32 M (4096 * D + 4 * i) v) D i = v.
Proof.
  intros HT Hi Hv Hfr Hpr. destruct (dir_write M D A i v HT Hi Hv) as (E1 & E2 & E3).
  set (M' := wr32 _ _ _) in *.
  assert (∀ j, 0 ≤ j < 1024 → pd M' D j / 4096 = pd M D j / 4096
                            ∧ Z.testbit (pd M' D j) 0 = Z.testbit (pd M D j) 0) as Hsame.
  { intros j Hj. destruct (decide (j = i)) as [->|]; [by rewrite E1|by rewrite E2]. }
  assert (tables M' D A) as HT'.
  { split.
    - destruct (Hsame 1023) as [-> ->]; [lia|]. apply (tb_self _ _ _ HT).
    - intros j Hj. destruct (Hsame j) as [-> ->]; [lia|]. by apply (tb_held _ _ _ HT).
    - intros j k Hj Hk. destruct (Hsame j) as [-> ->]; [lia|].
      destruct (Hsame k) as [-> ->]; [lia|]. by apply (tb_distinct _ _ _ HT). }
  split_and!; [done| |done]. intros q Hq.
  destruct (decide (q = 0xFFC00 + i)) as [->|Hw].
  { rewrite (page_of_window M' D A), (page_of_window M D A) by (done || lia).
    destruct (Hsame i) as [-> ->]; [lia|done]. }
  destruct (decide (q / 1024 = i)) as [Hqi|]; [|by apply E3].
  unfold page_of, pt. rewrite Hqi. destruct (Hsame i) as [-> ->]; [lia|].
  destruct (Z.testbit (pd M D i) 0) eqn:Hp; [|done].
  replace (rd32 M' _) with (rd32 M (4096 * (pd M D i / 4096) + 4 * (q mod 1024))); [done|].
  symmetry. apply rd32_wr32_other. destruct (tb_held _ _ _ HT i Hi Hp) as [_ ?]. dlia.
Qed.

(** While entry [i] is not present, writing it without the present bit, or
    pointing it at a frame no other table uses, disturbs no mapped page. *)
Lemma pde_fresh M D A i v :
  tables M D A → 0 ≤ i < 1023 → 0 ≤ v < 2 ^ 32 → Z.testbit (pd M D i) 0 = false →
  (Z.testbit v 0 = true → v / 4096 ∉ A) → D ∈ A →
  tables (wr32 M (4096 * D + 4 * i) v) D (if Z.testbit v 0 then A ∪ {[v / 4096]} else A)
  ∧ (∀ q f, 0 ≤ q < 2 ^ 20 → page_of M D q = Some f →
       page_of (wr32 M (4096 * D + 4 * i) v) D q = Some f)
  ∧ pd (wr32 M (4096 * D + 4 * i) v) D i = v
  ∧ (∀ q, 0 ≤ q < 2 ^ 20 → q / 1024 ≠ i → q ≠ 0xFFC00 + i →
       page_of (wr32 M (4096 * D + 4 * i) v) D q = page_of M D q)
  ∧ (∀ j, 0 ≤ j < 1024 → j ≠ i → pd (wr32 M (4096 * D + 4 * i) v) D j = pd M D j).
Proof.
  intros HT Hi Hv Habs Hnew HD. destruct (dir_write M D A i v HT Hi Hv) as (E1 & E2 & E3).
  set (M' := wr32 _ _ _) in *. split_and!; [split| |done..].
  - rewrite E2 by lia. apply (tb_self _ _ _ HT).
  - intros j Hj. destruct (decide (j = i)) as [->|Hne].
    + rewrite E1. intros Hb. rewrite Hb. specialize (Hnew Hb). set_solver.
    + rewrite E2 by lia. intros Hb. destruct (tb_held _ _ _ HT j Hj Hb).
      destruct (Z.testbit v 0); set_solver.
  - intros j k Hj Hk Hjk.
    destruct (decide (j = i)) as [->|Hne]; destruct (decide (k = i)) as [->|Hne']; [done| | |].
    + rewrite E1, E2 by lia. intros Hb Hb'. destruct (tb_held _ _ _ HT k Hk Hb').
      intros Eq. apply (Hnew Hb). by rewrite Eq.
    + rewrite E1, E2 by lia. intros Hb Hb'. destruct (tb_held _ _ _ HT j Hj Hb).
      intros Eq. apply (Hnew Hb'). by rewrite <- Eq.
    + rewrite !E2 by lia. by apply (tb_distinct _ _ _ HT).
  - intros q f Hq Hf. rewrite E3; [done|done| |].
    + intros Hqi. unfold page_of in Hf. by rewrite Hqi, Habs in Hf.
    + intros ->. rewrite (page_of_window M D A) in Hf by (done || lia). by rewrite Habs in Hf.
Qed.

Lemma tables_ext M M' D A :
  tables M D A → (∀ j, 0 ≤ j < 1024 → pd M' D j = pd M D j) → tables M' D A.
Proof.
  intros HT Hpd. split.
  - rewrite Hpd by lia. apply (tb_self _ _ _ HT).
  - intros i Hi. rewrite Hpd by lia. by apply (tb_held _ _ _ HT).
  - intros i j Hi Hj. rewrite !Hpd by lia. by apply (tb_distinct _ _ _ HT).
Qed.

Lemma view_frames N E D m fs : view N E D m → view N E D (with_frames fs m).
Proof. by intros []. Qed.

(** One write of a directory entry that is not present, in the middle of
    [ensure_page_table]. *)
Definition pde_written N m D A va v (r : res (machine S)) : Prop :=
  ∃ t, let M := wr32 (mem m) (4096 * D + 4 * (va / 4096 / 1024)) v in
    r = Ok (upd M t m) ∧ view N nowhere D (upd M t m)
    ∧ tables M D (if Z.testbit v 0 then A ∪ {[v / 4096]} else A)
    ∧ pd M D (va / 4096 / 1024) = v
    ∧ (∀ q, 0 ≤ q < 2 ^ 20 → q / 1024 ≠ va / 4096 / 1024 → q ≠ 0xFFC00 + va / 4096 / 1024 →
         page_of M D q = page_of (mem m) D q)
    ∧ ∀ j, 0 ≤ j < 1024 → j ≠ va / 4096 / 1024 → pd M D j = pd (mem m) D j.

Section AbsentPde.
Context (N : Z → Prop) (m : machine S) (D : Z) (A : gset Z) (va v : Z).
Context (Hv : view N nowhere D m) (HT : tables (mem m) D A) (HN : ¬ N 0xFFFFF) (HD : D ∈ A).
Context (Hva : 0 ≤ va < 2 ^ 32) (Hi : va / 4096 / 1024 < 1023).
Context (Habs : Z.testbit (pd (mem m) D (va / 4096 / 1024)) 0 = false).
Context (Hr : 0 ≤ v < 2 ^ 32) (Hnew : Z.testbit v 0 = true → v / 4096 ∉ A).

Lemma absent_pde_written t r :
  r = Ok (upd (wr32 (mem m) (4096 * D + 4 * (va / 4096 / 1024)) v) t m) →
  coherent N nowhere t (mem m) D → pde_written N m D A va v r.
Proof.
  intros -> Ht.
  destruct (pde_fresh (mem m) D A (va / 4096 / 1024) v) as (HT' & Hmono & Hpd & Hother & Hdir);
    [done|dlia|done..|].
  exists t. split_and!; [done| |done..]. apply view_upd; [done|apply wr32_bytes, Hv|].
  eapply coherent_mono; [exact Ht|done|]. intros q f Hq _ Hf. right. by apply Hmono.
Qed.

Lemma update_absent_pde g :
  g (pd (mem m) D (va / 4096 / 1024)) = v →
  pde_written N m D A va v (update_entry (pde_entry va) g m).
Proof.
  intros Hg. destruct (update_pde N m D A va g) as (t & E & Ht); [done..|].
  rewrite Hg in E. by eapply absent_pde_written.
Qed.

Lemma store_absent_pde : pde_written N m D A va v (store32 (pde_entry va) v m).
Proof.
  rewrite pde_entry_eq by done.
  destruct (store32_page N nowhere D m 0xFFFFF D (4 * (va / 4096 / 1024))) with (v := v)
    as (t & E & Ht); [done|lia|dlia|done|by intros []|by eapply page_of_dir|].
  by eapply absent_pde_written.
Qed.
End AbsentPde.

(** At most one more frame is in use. *)
Definition grown (A A' : gset Z) : Prop := A ⊆ A' ∧ (size A' ≤ 1 + size A)%nat.

Lemma grown_refl A : grown A A.
Proof. split; [done|lia]. Qed.

Lemma grown_one A T : grown A (A ∪ {[T]}).
Proof.
  split; [apply union_subseteq_l|]. rewrite size_union_alt, size_difference_alt, size_singleton. lia.
Qed.

(** A page table is there, or it takes one frame that was free. *)
Definition one_table (present : bool) (A A' : gset Z) : Prop :=
  if present then A' = A else ∃ T, (T ∉ A) ∧ A' = A ∪ {[T]}.

Lemma one_table_grown b A A' : one_table b A A' → grown A A'.
Proof. destruct b; simpl; [intros ->; apply grown_refl|intros (T & _ & ->); apply grown_one]. Qed.

(** A frame that holds data: in use, and no part of the page tables. *)
Definition data_frame (M : ram) (D : Z) (A : gset Z) (f : Z) : Prop :=
  f ∈ A ∧ f ≠ 0 ∧ f ≠ D ∧ ∀ i, 0 ≤ i < 1023 → Z.testbit (pd M D i) 0 = true → pd M D i / 4096 ≠ f.

Definition in_frame (f b : Z) : Prop := 4096 * f ≤ b < 4096 * f + 4096.

(** Data frames stay so, and so do their bytes. *)
Definition keeps (M : ram) (D : Z) (A : gset Z) (M' : ram) (A' : gset Z) : Prop :=
  ∀ f, data_frame M D A f → data_frame M' D A' f ∧ ∀ b, in_frame f b → M' b = M b.

Lemma keeps_refl M D A : keeps M D A M A.
Proof. by intros f Hf. Qed.

Lemma keeps_trans D M1 A1 M2 A2 M3 A3 : keeps M1 D A1 M2 A2 → keeps M2 D A2 M3 A3 → keeps M1 D A1 M3 A3.
Proof.
  intros H12 H23 f (H2 & Hb2)%H12. destruct (H23 f H2) as [H3 Hb3]. split; [done|]. intros b Hb. by rewrite Hb3, Hb2.
Qed.

(** A write into the frame of a present table is outside every data frame. *)
Lemma pte_keeps M D A i o v : 0 ≤ i < 1023 → Z.testbit (pd M D i) 0 = true → 0 ≤ o < 1024 →
  (∀ j, 0 ≤ j < 1024 → pd (wr32 M (4096 * (pd M D i / 4096) + 4 * o) v) D j = pd M D j) →
  keeps M D A (wr32 M (4096 * (pd M D i / 4096) + 4 * o) v) A.
Proof.
  intros Hi Hpr Ho Hpd f (HA & H0 & HD & Hn). split.
  - split_and!; [done..|]. intros j Hj. rewrite Hpd by lia. by apply Hn.
  - intros b Hb. unfold in_frame in Hb. apply wr32_other8. specialize (Hn i Hi Hpr). lia.
Qed.

(** The effect of [ensure_page_table]: a table is there afterwards, and no page
    outside the recursive window moved. *)
Definition table_ready m D A va m' A' : Prop :=
  wf m' D A' ∧ one_table (Z.testbit (pd (mem m) D (va / 4096 / 1024)) 0) A A'
  ∧ Z.testbit (pd (mem m') D (va / 4096 / 1024)) 0 = true
  ∧ (∀ q, 0 ≤ q < 2 ^ 20 → q ≠ 0xFFC00 + va / 4096 / 1024 →
       page_of (mem m') D q = page_of (mem m) D q)
  ∧ keeps (mem m) D A (mem m') A'
  ∧ remote m' = remote m ∧ isrs m' = isrs m.

Lemma clear_table_ok m D A T va :
  view (λ q, q / 1024 = va / 4096 / 1024) nowhere D m → tables (mem m) D (A ∪ {[T]}) →
  0 ≤ va < 2 ^ 32 → va / 4096 / 1024 < 1023 → T ∉ A → D ∈ A →
  pd (mem m) D (va / 4096 / 1024) / 4096 = T →
  Z.testbit (pd (mem m) D (va / 4096 / 1024)) 0 = true →
  ∃ t, let M := fill8 (mem m) (4096 * T) 0 (Z.to_nat PAGE_SIZE) in
    memset (pt_virtual_base va) 0 (Z.to_nat PAGE_SIZE) m = Ok (upd M t m)
    ∧ view nowhere nowhere D (upd M t m) ∧ tables M D (A ∪ {[T]})
    ∧ (∀ j, 0 ≤ j < 1024 → pd M D j = pd (mem m) D j)
    ∧ ∀ q, 0 ≤ q < 2 ^ 20 →
        page_of M D q = if decide (q / 1024 = va / 4096 / 1024) then None else page_of (mem m) D q.
Proof.
  set (i := va / 4096 / 1024). intros Hv HT Hva Hi HTA HD Hfr Hpr.
  assert (0 ≤ i) by (unfold i; dlia).
  assert (∀ M', agree_outside T (mem m) M' →
    (∀ j, 0 ≤ j < 1024 → pd M' D j = pd (mem m) D j)
    ∧ ∀ q, 0 ≤ q < 2 ^ 20 → q / 1024 ≠ i → page_of M' D q = page_of (mem m) D q) as Hpriv.
  { intros M' Hag. apply (table_write _ _ _ (A ∪ {[T]}) T); [done|congruence|done|].
    intros j Hj Hne Hb. rewrite <- Hfr. by apply (tb_distinct _ _ _ HT); [lia|lia| | |]. }
  rewrite pt_virtual_base_eq by done. fold i.
  replace (4096 * (0xFFC00 + i)) with (4096 * (0xFFC00 + i) + 0) by lia.
  destruct (memset_page (λ q, q / 1024 = i) nowhere D T (0xFFC00 + i) 0 (mem m)
    (Z.to_nat PAGE_SIZE) 0 m) as (t & E & Hv');
    [intros M' Hag q Hq HN; by apply Hpriv|done|done|lia|lia|by rewrite Z2Nat.id|dlia|by intros []| |].
  { rewrite (page_of_window _ _ (A ∪ {[T]})) by (done || lia). by rewrite Hpr, Hfr. }
  rewrite !Z.add_0_r in *.
  assert (Z.of_nat (Z.to_nat PAGE_SIZE) = 4096) as HP by (by rewrite Z2Nat.id).
  set (n := Z.to_nat PAGE_SIZE) in *. clearbody n.
  assert (agree_outside T (mem m) (fill8 (mem m) (4096 * T) 0 n)) as Hag.
  { intros b Hb. apply fill8_other. lia. }
  destruct (Hpriv _ Hag) as [Hpd Hpg].
  exists t. split_and!; [done| | |done|].
  - destruct Hv' as [? ? ? ? Ht]. split; try done. by eapply coherent_weaken.
  - by eapply tables_ext.
  - intros q Hq. destruct (decide (q / 1024 = i)) as [Eq|Hne]; [|by apply Hpg].
    unfold page_of, pt. rewrite Eq, !Hpd by lia. rewrite Hpr, Hfr.
    rewrite rd32_fill8_0 by dlia. done.
Qed.


Lemma frame_absent T : Z.testbit (4096 * T) 0 = false.
Proof. replace (4096 * T) with (2 * (2048 * T)) by lia. apply Z.testbit_even_0. Qed.

(** The branch of [ensure_page_table] that adds a table. *)
Lemma alloc_table_ok m D A T v va flags :
  let i := va / 4096 / 1024 in
  view (λ q, q / 1024 = i) nowhere D m → tables (mem m) D A → 0 ∈ A → D ∈ A →
  0 ≤ va < 2 ^ 32 → i < 1023 → Z.testbit (pd (mem m) D i) 0 = false →
  0 ≤ T < 2 ^ 20 → T ∉ A →
  ∃ t M, (m ← store32 (pde_entry va) (Entry.invalidate v) m;
          m ← update_entry (pde_entry va) (Entry.set_address (4096 * T)) m;
          m ← update_entry (pde_entry va) (Entry.update_flags
                (Z.lor (Z.lor Flags.Present Flags.Writable) (Z.land flags Flags.User))) m;
          memset (pt_virtual_base va) 0 (Z.to_nat PAGE_SIZE) m) = Ok (upd M t m)
    ∧ view nowhere nowhere D (upd M t m) ∧ tables M D (A ∪ {[T]})
    ∧ Z.testbit (pd M D i) 0 = true
    ∧ (∀ q, 0 ≤ q < 2 ^ 20 → q ≠ 0xFFC00 + i → page_of M D q = page_of (mem m) D q)
    ∧ (∀ j, 0 ≤ j < 1024 → if decide (j = i) then pd M D j / 4096 = T else pd M D j = pd (mem m) D j)
    ∧ ∀ b, ¬ in_frame D b → ¬ in_frame T b → M b = mem m b.
Proof.
  intros i Hv HT H0 HD Hva Hi Habs HTr HTA. assert (0 ≤ i) by (unfold i; dlia).
  set (N := λ q, q / 1024 = i) in *.
  assert (¬ N 0xFFFFF) as HN by (unfold N; change (0xFFFFF / 1024) with 1023; lia).
  change (Entry.invalidate v) with 0.
  destruct (store_absent_pde N m D A va 0) as (t1 & E1 & Hv1 & HT1 & Hpd1 & Hpg1 & Hjd1); [done..|].
  rewrite E1. clear E1. cbn [mbind res_bind]. rewrite Z.bits_0 in HT1. fold i in Hpd1, Hpg1, Hjd1.
  set (m1 := upd _ t1 m) in *.
  change (wr32 (mem m) _ _) with (mem m1) in HT1, Hpd1, Hpg1, Hjd1.
  destruct (update_absent_pde N m1 D A va (4096 * T)) with (g := Entry.set_address (4096 * T))
    as (t2 & E2 & Hv2 & HT2 & Hpd2 & Hpg2 & Hjd2); fold i;
    [done..|by rewrite Hpd1|lia|by rewrite frame_absent| |].
  { rewrite Hpd1, set_address_0 by lia. f_equal. dlia. }
  rewrite E2. clear E2. cbn [mbind res_bind]. rewrite frame_absent in HT2. fold i in Hpd2, Hpg2, Hjd2.
  set (m2 := upd _ t2 m1) in *.
  change (wr32 (mem m1) _ _) with (mem m2) in HT2, Hpd2, Hpg2, Hjd2.
  set (fl := Z.lor _ _). set (v3 := Entry.update_flags fl (4096 * T)).
  assert (v3 / 4096 = T) as Hv3 by (unfold v3; rewrite update_flags_frame by lia; dlia).
  assert (Z.testbit v3 0 = true) as Hb3.
  { unfold v3, fl. rewrite update_flags_present, Z.lor_spec. apply orb_true_r. }
  destruct (update_absent_pde N m2 D A va v3) with (g := Entry.update_flags fl)
    as (t3 & E3 & Hv3' & HT3 & Hpd3 & Hpg3 & Hjd3); fold i;
    [done..|by rewrite Hpd2, frame_absent|apply update_flags_range; lia
    |by rewrite Hv3|by rewrite Hpd2|].
  rewrite E3. clear E3. cbn [mbind res_bind]. rewrite Hb3, Hv3 in HT3. fold i in Hpd3, Hpg3, Hjd3.
  set (m3 := upd _ t3 m2) in *.
  change (wr32 (mem m2) _ _) with (mem m3) in HT3, Hpd3, Hpg3, Hjd3.
  destruct (clear_table_ok m3 D A T va) as (t4 & E4 & Hv4 & HT4 & Hpd4 & Hpg4);
    [done..|by fold i; rewrite Hpd3|by fold i; rewrite Hpd3|].
  exists t4, (fill8 (mem m3) (4096 * T) 0 (Z.to_nat PAGE_SIZE)). fold i in Hpg4.
  split_and!; [exact E4|exact Hv4|done|by rewrite Hpd4, Hpd3 by lia| | |].
  - intros q Hq Hw. rewrite Hpg4 by done. destruct (decide (q / 1024 = i)) as [Eq|Hne].
    + unfold page_of. by rewrite Eq, Habs.
    + by rewrite Hpg3, Hpg2, Hpg1.
  - intros j Hj. rewrite Hpd4 by done. destruct (decide (j = i)) as [->|Hne].
    + by rewrite Hpd3.
    + by rewrite Hjd3, Hjd2, Hjd1.
  - unfold in_frame. intros b HbD HbT. fold i. assert (Z.of_nat (Z.to_nat PAGE_SIZE) = 4096) as HP by (by rewrite Z2Nat.id).
    rewrite fill8_other by lia. cbn [mem m3 m2 m1 upd with_mem with_tlb]. fold i. by rewrite !wr32_other8 by lia.
Qed.

Lemma ensure_page_table_ok m D A va flags :
  wf m D A → 0 ≤ va < 2 ^ 32 → va / 4096 / 1024 < 1023 →
  Z.testbit (pd (mem m) D (va / 4096 / 1024)) 0 = true ∨ (∃ r, fa_alloc (frames m) = Ok r) →
  ∃ m' A', ensure_page_table va flags m = Ok m' ∧ table_ready m D A va m' A'.
Proof.
  intros [Hv HT Hdir Hfr H0 HD] Hva Hi Hres. set (i := va / 4096 / 1024) in *.
  assert (0 ≤ i) by (unfold i; dlia). unfold ensure_page_table.
  destruct (load_pde nowhere m D A va) as (t & -> & Hv0); [done|done|by intros []|done|].
  cbn [mbind res_bind]. rewrite has_present. fold i.
  set (m0 := upd (mem m) t m). pose proof (rd32_range (mem m) (4096 * D + 4 * i) (view_bytes _ _ _ _ Hv)) as Hr.
  fold (pd (mem m) D i) in Hr. destruct (Z.testbit (pd (mem m) D i) 0) eqn:Hpr.
  - destruct (update_pde nowhere m0 D A va (Entry.update_flags flags)) as (t1 & -> & Ht1);
      [done|done|by intros []|done|]. fold i. change (mem m0) with (mem m) in *.
    destruct (pde_flags_ok (mem m) D A i (Entry.update_flags flags (pd (mem m) D i)))
      as (HT' & Hpg & Hpd); [done|lia|by apply update_flags_range|by apply update_flags_frame; lia
        |by rewrite update_flags_present, Hpr|].
    exists (upd (wr32 (mem m) (4096 * D + 4 * i) (Entry.update_flags flags (pd (mem m) D i))) t1 m0), A.
    split; [done|]. unfold table_ready. fold i. split_and!; [split|by rewrite Hpr| | | |done..]; try done.
    + apply view_upd; [done|apply wr32_bytes, Hv|]. eapply coherent_mono; [exact Ht1|done|].
      intros q f Hq _ Hf. right. by rewrite Hpg.
    + cbn [mem upd with_mem with_tlb]. by rewrite Hpd, update_flags_present, Hpr.
    + intros q Hq _. by apply Hpg.
    + intros f (?&?&?&Hn). cbn [mem upd with_mem with_tlb]. split; [split_and!; [done..|]; intros j Hj|].
      * destruct (decide (j = i)) as [->|Hne]; [rewrite Hpd, update_flags_frame by lia; intros _; by apply Hn|].
        unfold pd. rewrite rd32_wr32_other by lia. by apply Hn.
      * unfold in_frame. intros b Hb. apply wr32_other8. lia.
  - destruct Hres as [Habs|[[a fs] Ea]]; [congruence|].
    change (frames m0) with (frames m). rewrite Ea. cbn [mbind res_bind].
    destruct (fa_alloc_ok _ _ _ _ Hfr Ea) as (T & -> & HTr & HTA & Hfs).
    destruct (Z.eqb_spec (4096 * T) 0) as [?|_]; [assert (T = 0) as -> by lia; done|].
    set (N := λ q, q / 1024 = i).
    set (m1 := with_frames fs m0).
    assert (view N nowhere D m1) as Hv1.
    { apply view_frames. destruct Hv0 as [? ? ? ? Ht]. split; try done.
      apply coherent_nowhere; [done|]. intros q Hq Hn. unfold page_of. unfold N in Hn.
      change (mem m0) with (mem m). by rewrite Hn, Hpr. }
    destruct (alloc_table_ok m1 D A T (pd (mem m) D i) va flags)
      as (t4 & M & E4 & Hv4 & HT4 & Hpr4 & Hpg4 & Hjd4 & Hb4); [done..|].
    exists (upd M t4 m1), (A ∪ {[T]}). split; [exact E4|].
    split_and!; [|fold i; rewrite Hpr; by exists T|exact Hpr4|exact Hpg4| |reflexivity|reflexivity].
    + split; [exact Hv4|exact HT4|exact Hdir|exact Hfs|by apply elem_of_union_l..].
    + intros f (HfA&?&?&Hn). split.
      2:{ unfold in_frame in *. intros b Hb. apply Hb4; [lia|]. intros Hb'. assert (f = T) as -> by lia. done. }
      split_and!; [by apply elem_of_union_l|done..|].
      intros j Hj. cbn [mem upd with_mem with_tlb]. specialize (Hjd4 j ltac:(lia)). fold i in Hjd4.
      destruct (decide (j = i)) as [->|Hne]; cbn iota in Hjd4; [intros _ Heq; apply HTA; by rewrite <- Hjd4, Heq|].
      rewrite Hjd4. by apply Hn.
Qed.

(** Writing the table entry of page [p] changes page [p] only. *)
Lemma pte_write M D A p v :
  tables M D A → 0 ≤ p < 2 ^ 20 → p / 1024 < 1023 → Z.testbit (pd M D (p / 1024)) 0 = true →
  0 ≤ v < 2 ^ 32 →
  let M' := wr32 M (4096 * (pd M D (p / 1024) / 4096) + 4 * (p mod 1024)) v in
  tables M' D A ∧ (∀ j, 0 ≤ j < 1024 → pd M' D j = pd M D j) ∧ pt M' D p = v
  ∧ ∀ q, 0 ≤ q < 2 ^ 20 → q ≠ p → page_of M' D q = page_of M D q.
Proof.
  intros HT Hp Hi Hpr Hv M'. set (T := pd M D (p / 1024) / 4096) in *.
  destruct (tb_held _ _ _ HT (p / 1024)) as [_ HTD]; [dlia|done|]. fold T in HTD.
  destruct (table_write M M' D A T (p / 1024)) as [Hpd Hpg].
  { done. } { done. } { intros b Hb. apply wr32_other8. dlia. }
  { intros j Hj Hne Hb. by apply (tb_distinct _ _ _ HT); [lia|dlia| | |]. }
  split_and!; [by eapply tables_ext|done| |].
  - unfold pt. rewrite Hpd by dlia. by apply rd32_wr32_same.
  - intros q Hq Hne. destruct (decide (q / 1024 = p / 1024)) as [Eq|]; [|by apply Hpg].
    apply page_of_ext_present; [rewrite Eq; apply Hpd; dlia|]. intros _.
    unfold pt. rewrite Eq, Hpd by dlia. apply rd32_wr32_other. fold T. dlia.
Qed.

Section PteWrite.
Context (m : machine S) (D : Z) (A : gset Z) (va v : Z).
Let p := va / 4096.
Let E q := q = p.
Context (Hv : view nowhere E D m) (HT : tables (mem m) D A).
Context (Hva : 0 ≤ va < 2 ^ 32) (Hi : p / 1024 < 1023).
Context (Hpr : Z.testbit (pd (mem m) D (p / 1024)) 0 = true) (Hr : 0 ≤ v < 2 ^ 32).
Let M := wr32 (mem m) (4096 * (pd (mem m) D (p / 1024) / 4096) + 4 * (p mod 1024)) v.

Definition pte_written (r : res (machine S)) : Prop :=
  ∃ t, r = Ok (upd M t m) ∧ view nowhere E D (upd M t m) ∧ tables M D A
    ∧ (∀ j, 0 ≤ j < 1024 → pd M D j = pd (mem m) D j) ∧ pt M D p = v
    ∧ ∀ q, 0 ≤ q < 2 ^ 20 → q ≠ p → page_of M D q = page_of (mem m) D q.

Lemma page_range : 0 ≤ p < 2 ^ 20.
Proof. unfold p. dlia. Qed.

Lemma window_page : page_of (mem m) D (0xFFC00 + p / 1024) = Some (pd (mem m) D (p / 1024) / 4096).
Proof.
  pose proof page_range. rewrite (page_of_window _ _ A) by (done || dlia). by rewrite Hpr.
Qed.

Lemma window_not_stale : ¬ E (0xFFC00 + p / 1024).
Proof. pose proof page_range. unfold E. dlia. Qed.

Lemma pte_written_intro t r :
  r = Ok (upd M t m) → coherent nowhere E t (mem m) D → pte_written r.
Proof.
  intros -> Ht. pose proof page_range.
  destruct (pte_write (mem m) D A p v) as (HT' & Hpd & Hpt & Hpg); [done..|].
  exists t. split_and!; [done| |done..]. apply view_upd; [done|apply wr32_bytes, Hv|].
  eapply coherent_mono; [exact Ht|done|]. intros q f Hq _ Hf.
  destruct (decide (q = p)); [by left|right; by rewrite Hpg].
Qed.

Lemma store_pte : pte_written (store32 (pte_entry va) v m).
Proof.
  pose proof page_range. rewrite pte_entry_eq by done. fold p.
  destruct (store32_page nowhere E D m (0xFFC00 + p / 1024) (pd (mem m) D (p / 1024) / 4096)
    (4 * (p mod 1024))) with (v := v) as (t & Eq & Ht);
    [done|dlia|dlia|by intros []|exact window_not_stale|exact window_page|].
  by eapply pte_written_intro.
Qed.

Lemma update_pte g : g (pt (mem m) D p) = v → pte_written (update_entry (pte_entry va) g m).
Proof.
  intros Hg. pose proof page_range. rewrite pte_entry_eq by done. fold p.
  destruct (update_entry_page nowhere E D m (0xFFC00 + p / 1024) (pd (mem m) D (p / 1024) / 4096)
    (4 * (p mod 1024)) g) as (t & Eq & Ht);
    [done|dlia|dlia|by intros []|exact window_not_stale|exact window_page|].
  fold (pt (mem m) D p) in Eq. rewrite Hg in Eq. by eapply pte_written_intro.
Qed.
End PteWrite.

Lemma view_stale D m p : view nowhere nowhere D m → view nowhere (λ q, q = p) D m.
Proof.
  intros [? ? ? ? Ht]. split; try done. eapply coherent_mono; [exact Ht|by intros ? []|auto].
Qed.

Lemma view_flush D m va :
  view nowhere (λ q, q = va / 4096) D m → view nowhere nowhere D (flush_tlb va m).
Proof.
  intros [? ? ? ? Ht]. split; try done. intros q f. simpl.
  rewrite lookup_delete_Some. intros [Hne Hq].
  destruct (Ht q f Hq) as (?&?&[->|?]); [done|]. split_and!; [lia..|by intros []|by right].
Qed.

Lemma aligned_page va : 0 ≤ va < 2 ^ 32 →
  let va' := (align_address va).1 in 0 ≤ va' < 2 ^ 32 ∧ va' / 4096 = va / 4096.
Proof. intros Hva va'. unfold va'. rewrite aligned_eq by done. dlia. Qed.

(** What mapping and unmapping do to the translation. *)
Definition remapped m D m' p (f : option Z) : Prop :=
  page_of (mem m') D p = f
  ∧ (∀ q, 0 ≤ q < 2 ^ 20 → q ≠ p → q ≠ 0xFFC00 + p / 1024 →
       page_of (mem m') D q = page_of (mem m) D q)
  ∧ remote m' = remote m ∧ isrs m' = isrs m.

Lemma map_page_locked_ok m D A va pa flags :
  wf m D A → 0 ≤ va < 2 ^ 32 → va / 4096 / 1024 < 1023 → 0 ≤ pa < 2 ^ 32 →
  Z.testbit (pd (mem m) D (va / 4096 / 1024)) 0 = true ∨ (∃ r, fa_alloc (frames m) = Ok r) →
  ∃ m' A', map_page_locked va pa flags m = Ok m' ∧ wf m' D A'
    ∧ (one_table (Z.testbit (pd (mem m) D (va / 4096 / 1024)) 0) A A'
       ∧ Z.testbit (pd (mem m') D (va / 4096 / 1024)) 0 = true)
    ∧ remapped m D m' (va / 4096) (if Z.testbit flags 0 then Some (pa / 4096) else None)
    ∧ keeps (mem m) D A (mem m') A'.
Proof.
  intros Hwf Hva Hi Hpa Hres. unfold map_page_locked.
  destruct (aligned_page va Hva) as [Hva' Ep]. destruct (aligned_page pa Hpa) as [Hpa' Epa].
  revert Hva' Ep Hpa' Epa. generalize (align_address va).1 as v, (align_address pa).1 as a.
  intros v a Hv Ep Ha Epa. rewrite <- Ep, <- Epa in *. clear va pa Hva Hpa Ep Epa.
  destruct (ensure_page_table_ok m D A v flags) 
    as (m1 & A1 & -> & [Hv1 HT1 Hdir Hfr H0 HD] & HA & Hpr & Hpg & Hdf & Hrem & Hisr);
    [done..|]. cbn [mbind res_bind].
  destruct (store_pte m1 D A1 v 0) as (t2 & E2 & Hv2 & HT2 & Hpd2 & Hpt2 & Hpg2);
    [by apply view_stale|done..|].
  rewrite E2. clear E2. cbn [mbind res_bind]. set (m2 := upd _ t2 m1) in *.
  change (wr32 (mem m1) _ _) with (mem m2) in HT2, Hpd2, Hpt2, Hpg2.
  assert (0 ≤ v / 4096 / 1024 < 1024) as Hj by dlia.
  destruct (update_pte m2 D A1 v (4096 * (a / 4096))) with (g := Entry.set_address a)
    as (t3 & E3 & Hv3 & HT3 & Hpd3 & Hpt3 & Hpg3);
    [done..|by rewrite Hpd2|dlia|by rewrite Hpt2, set_address_0|].
  rewrite E3. clear E3. cbn [mbind res_bind]. set (m3 := upd _ t3 m2) in *.
  change (wr32 (mem m2) _ _) with (mem m3) in HT3, Hpd3, Hpt3, Hpg3.
  set (w := Entry.update_flags flags (4096 * (a / 4096))).
  destruct (update_pte m3 D A1 v w) with (g := Entry.update_flags flags)
    as (t4 & E4 & Hv4 & HT4 & Hpd4 & Hpt4 & Hpg4);
    [done..|by rewrite Hpd3, Hpd2|apply update_flags_range; dlia|by rewrite Hpt3|].
  rewrite E4. clear E4. cbn [mbind res_bind]. set (m4 := upd _ t4 m3) in *.
  change (wr32 (mem m3) _ _) with (mem m4) in HT4, Hpd4, Hpt4, Hpg4.
  exists (flush_tlb v m4), A1. split_and!; [done| |done|by cbn [mem flush_tlb with_tlb]; rewrite Hpd4, Hpd3, Hpd2| |].
  - split; [by apply view_flush|exact HT4|exact Hdir|exact Hfr|exact H0|exact HD].
  - split_and!; [| |exact Hrem|exact Hisr]; cbn [mem flush_tlb with_tlb].
    + unfold page_of. rewrite Hpd4, Hpd3, Hpd2, Hpr, Hpt4 by done. unfold w.
      rewrite update_flags_present, frame_absent, update_flags_frame
        by (clear - Ha; dlia). simpl.
      replace (4096 * (a / 4096) / 4096) with (a / 4096) by (clear; dlia). done.
    + intros q Hq Hne Hw. by rewrite Hpg4, Hpg3, Hpg2, Hpg.
  - change (mem (flush_tlb v m4)) with (mem m4). eapply keeps_trans; [exact Hdf|].
    eapply keeps_trans; [apply (pte_keeps _ D A1 (v / 4096 / 1024) (v / 4096 mod 1024) 0); [lia|done|dlia|exact Hpd2]|].
    eapply keeps_trans; [eapply pte_keeps; [|by rewrite Hpd2| |exact Hpd3]; [lia|dlia]|].
    eapply pte_keeps; [|by rewrite Hpd3, Hpd2| |exact Hpd4]; [lia|dlia].
Qed.

(** Reading an entry only fills the cache. *)
Lemma wf_upd_tlb m D A t : wf m D A → view nowhere nowhere D (upd (mem m) t m) → wf (upd (mem m) t m) D A.
Proof. intros [] ?. by split. Qed.

Lemma load_pde_wf m D A va :
  wf m D A → 0 ≤ va < 2 ^ 32 →
  ∃ t, load32 (pde_entry va) m = Ok (pd (mem m) D (va / 4096 / 1024), upd (mem m) t m)
       ∧ wf (upd (mem m) t m) D A.
Proof.
  intros Hwf Hva. destruct (load_pde nowhere m D A va) as (t & E & Hv);
    [apply Hwf|apply Hwf|by intros []|done|]. exists t. split; [done|]. by apply wf_upd_tlb.
Qed.

Lemma load_pte_wf m D A va :
  wf m D A → 0 ≤ va < 2 ^ 32 → Z.testbit (pd (mem m) D (va / 4096 / 1024)) 0 = true →
  ∃ t, load32 (pte_entry va) m = Ok (pt (mem m) D (va / 4096), upd (mem m) t m)
       ∧ wf (upd (mem m) t m) D A.
Proof.
  intros Hwf Hva Hpr. rewrite pte_entry_eq by done. pose proof (wf_view _ _ _ Hwf) as Hv.
  destruct (load32_page nowhere nowhere D m (0xFFC00 + va / 4096 / 1024)
    (pd (mem m) D (va / 4096 / 1024) / 4096) (4 * (va / 4096 mod 1024))) as (t & E & Ht);
    [done|dlia|dlia|by intros []|by intros []| |].
  { rewrite (page_of_window _ _ A) by (apply Hwf || dlia). by rewrite Hpr. }
  exists t. split; [done|]. apply wf_upd_tlb; [done|]. by apply view_upd; [|apply Hv|].
Qed.

Lemma pt_range m D A p : wf m D A → 0 ≤ pt (mem m) D p < 2 ^ 32.
Proof. intros Hwf. apply rd32_range, Hwf. Qed.

Lemma virt_to_phys_ok m D A va :
  wf m D A → 0 ≤ va < 2 ^ 32 →
  ∃ t, virt_to_phys va m
       = Ok (from_option (λ f, 4096 * f + va mod 4096) 0xFFFFFFFF (page_of (mem m) D (va / 4096)),
             upd (mem m) t m) ∧ wf (upd (mem m) t m) D A.
Proof.
  intros Hwf Hva. unfold virt_to_phys.
  destruct (load_pde_wf m D A va Hwf Hva) as (t & -> & Hwf1). cbn [mbind res_bind].
  rewrite has_present. unfold page_of. destruct (Z.testbit (pd _ _ _) 0) eqn:Hpr; [|by exists t].
  destruct (load_pte_wf (upd (mem m) t m) D A va Hwf1 Hva Hpr) as (t1 & -> & Hwf2).
  cbn [mbind res_bind negb]. rewrite has_present. change (mem (upd _ _ _)) with (mem m) in *.
  pose proof (pt_range m D A (va / 4096) Hwf) as Hr.
  destruct (Z.testbit (pt _ _ _) 0); [|by exists t1].
  exists t1. split; [|done]. simpl. do 2 f_equal. rewrite address_eq by done.
  change (PAGE_SIZE - 1) with (2 ^ 12 - 1). rewrite land_mask by lia. change 4096 with (2 ^ 12).
  apply lor_low; [lia|]. apply Z.mod_pos_bound. lia.
Qed.

Lemma is_mapped_ok m D A va :
  wf m D A → 0 ≤ va < 2 ^ 32 →
  ∃ t, is_mapped va m = Ok (bool_decide (is_Some (page_of (mem m) D (va / 4096))), upd (mem m) t m)
       ∧ wf (upd (mem m) t m) D A.
Proof.
  intros Hwf Hva. unfold is_mapped.
  destruct (load_pde_wf m D A va Hwf Hva) as (t & -> & Hwf1). cbn [mbind res_bind].
  rewrite has_present. unfold page_of. destruct (Z.testbit (pd _ _ _) 0) eqn:Hpr; [|by exists t].
  destruct (load_pte_wf (upd (mem m) t m) D A va Hwf1 Hva Hpr) as (t1 & -> & Hwf2).
  cbn [mbind res_bind negb]. rewrite has_present. change (mem (upd _ _ _)) with (mem m) in *.
  exists t1. split; [|done]. by destruct (Z.testbit (pt _ _ _) 0).
Qed.

Lemma tables_release M D A f : tables M D A → data_frame M D A f → tables M D (A ∖ {[f]}).
Proof.
  intros [? Hh ?] (_&_&_&Hf). split; [done| |done]. intros i Hi Hb.
  destruct (Hh i Hi Hb). pose proof (Hf i Hi Hb). set_solver.
Qed.

Lemma unmap_absent_ok m D A va :
  wf m D A → 0 ≤ va < 2 ^ 32 → page_of (mem m) D (va / 4096) = None →
  ∃ t, unmap_page_locked va m = Ok (upd (mem m) t m) ∧ wf (upd (mem m) t m) D A.
Proof.
  intros Hwf Hva Hn. unfold unmap_page_locked. destruct (aligned_page va Hva) as [Hv Ep].
  revert Hv Ep. generalize (align_address va).1 as v. intros v Hv Ep. rewrite <- Ep in Hn.
  destruct (load_pde_wf m D A v Hwf Hv) as (t & -> & Hwf1). cbn [mbind res_bind].
  rewrite has_present. unfold page_of in Hn.
  destruct (Z.testbit (pd _ _ _) 0) eqn:Hpr; [|by exists t].
  destruct (load_pte_wf (upd (mem m) t m) D A v Hwf1 Hv Hpr) as (t1 & -> & Hwf2).
  cbn [mbind res_bind negb]. rewrite has_present. change (mem (upd _ _ _)) with (mem m) in *.
  destruct (Z.testbit (pt _ _ _) 0); [done|]. by exists t1.
Qed.

Lemma unmap_page_locked_ok m D A va f :
  wf m D A → 0 ≤ va < 2 ^ 32 → va / 4096 / 1024 < 1023 →
  page_of (mem m) D (va / 4096) = Some f → data_frame (mem m) D A f →
  ∃ m', unmap_page_locked va m = Ok m' ∧ wf m' D (A ∖ {[f]}) ∧ remapped m D m' (va / 4096) None
    ∧ keeps (mem m) D (A ∖ {[f]}) (mem m') (A ∖ {[f]})
    ∧ ∀ j, 0 ≤ j < 1024 → pd (mem m') D j = pd (mem m) D j.
Proof.
  intros Hwf Hva Hi Hf Hdf. unfold unmap_page_locked. destruct (aligned_page va Hva) as [Hv Ep].
  revert Hv Ep. generalize (align_address va).1 as v. intros v Hv Ep. rewrite <- Ep in *.
  destruct (load_pde_wf m D A v Hwf Hv) as (t & -> & Hwf1). cbn [mbind res_bind].
  rewrite has_present. pose proof Hf as Hf'. unfold page_of in Hf'.
  destruct (Z.testbit (pd _ _ _) 0) eqn:Hpr; [|done]. cbn [negb].
  destruct (load_pte_wf (upd (mem m) t m) D A v Hwf1 Hv Hpr) as (t1 & -> & Hwf2).
  cbn [mbind res_bind]. change (mem (upd (mem m) t m)) with (mem m) in *. rewrite has_present.
  destruct (Z.testbit (pt _ _ _) 0); [|done]. injection Hf' as Hf'. cbn [negb].
  rewrite address_eq, Hf' by (by eapply pt_range).
  pose proof (pt_range m D A (v / 4096) Hwf) as Hr.
  destruct (fa_free_ok (frames m) A f) as (fs & Ef & Hfs); [apply Hwf|dlia|apply Hdf|].
  change (frames (upd _ _ _)) with (frames m). rewrite Ef. cbn [mbind res_bind].
  set (m2 := with_frames fs _).
  destruct (store_pte m2 D A v 0) as (t3 & E3 & Hv3 & HT3 & Hpd3 & Hpt3 & Hpg3);
    [apply view_stale, view_frames, Hwf2|apply Hwf|done..|].
  rewrite E3. clear E3. cbn [mbind res_bind]. set (m3 := upd _ t3 m2) in *.
  change (wr32 (mem m2) _ _) with (mem m3) in HT3, Hpd3, Hpt3, Hpg3.
  change (mem m2) with (mem m) in Hpd3, Hpg3.
  exists (flush_tlb v m3). destruct Hwf as [_ _ Hdir _ H0 HD].
  split_and!; [done|split; [by apply view_flush| |exact Hdir|exact Hfs| |]|split_and!; [| |done..]| |exact Hpd3].
  - apply tables_release; [exact HT3|]. destruct Hdf as (?&?&?&Hn). split_and!; [done..|].
    intros i Hb. cbn [mem flush_tlb with_tlb]. rewrite Hpd3 by lia. by apply Hn.
  - destruct Hdf as (?&?&?&_). set_solver.
  - destruct Hdf as (?&?&?&_). set_solver.
  - unfold page_of. cbn [mem flush_tlb with_tlb]. rewrite Hpd3, Hpr, Hpt3 by dlia. done.
  - intros q Hq Hne _. by apply Hpg3.
  - change (mem (flush_tlb v m3)) with (mem m3). apply (pte_keeps (mem m) D _ (v / 4096 / 1024) (v / 4096 mod 1024) 0); [dlia|done|dlia|].
    exact Hpd3.
Qed.

Lemma free_frame_exists (A : gset Z) :
  Z.of_nat (size A) < 2 ^ 20 → ∃ f, 0 ≤ f < 2 ^ 20 ∧ f ∉ A.
Proof.
  intros Hs. destruct (set_choose_or_empty (run 0 (2 ^ 20) ∖ A)) as [[f Hf]|He].
  - apply elem_of_difference in Hf as [Hin Hf]. apply elem_of_run in Hin.
    exists f. split; [lia|done].
  - assert (run 0 (2 ^ 20) ⊆ A) as Hsub%subseteq_size.
    { by apply empty_difference_subseteq. }
    pose proof (size_run 0 (2 ^ 20)). lia.
Qed.

Lemma alloc_possible m D A :
  wf m D A → Z.of_nat (size A) < 2 ^ 20 → ∃ r, fa_alloc (frames m) = Ok r.
Proof.
  intros Hwf (f & Hf & HA)%free_frame_exists. eapply fa_alloc_total; [apply Hwf|exact Hf|done].
Qed.

Lemma alloc_or_full m D A : wf m D A →
  (∃ r, fa_alloc (frames m) = Ok r) ∨ fa_alloc (frames m) = Panic out_of_frames ∧ 2 ^ 20 ≤ Z.of_nat (size A).
Proof.
  intros Hwf. destruct (set_choose_or_empty (run 0 (2 ^ 20) ∖ A)) as [[f [Hf HA]%elem_of_difference]|He].
  - left. apply elem_of_run in Hf. eapply fa_alloc_total; [apply Hwf|exact Hf|done].
  - right. assert (run 0 (2 ^ 20) ⊆ A) as Hsub by (by apply empty_difference_subseteq).
    split.
    + eapply fa_alloc_none; [apply Hwf|]. intros f Hf. apply Hsub, elem_of_run. lia.
    + apply subseteq_size in Hsub. pose proof (size_run 0 (2 ^ 20)). lia.
Qed.

(** A missing page table and no frame for it. *)
Lemma map_page_full m D A va pa flags t : wf m D A → 0 ≤ va < 2 ^ 32 →
  Z.testbit (pd (mem m) D (va / 4096 / 1024)) 0 = false → fa_alloc (frames m) = Panic t →
  map_page_locked va pa flags m = Panic t.
Proof.
  intros Hwf Hva Hpr Ea. unfold map_page_locked, ensure_page_table. destruct (aligned_page va Hva) as [Hva' Ep].
  revert Hva' Ep. generalize (align_address va).1 as v. intros v Hv Ep. rewrite <- Ep in Hpr. clear va Hva Ep. cbv zeta.
  destruct (load_pde_wf m D A v Hwf Hv) as (t1 & -> & _). cbn [mbind res_bind]. rewrite has_present, Hpr.
  change (frames (upd (mem m) t1 m)) with (frames m). by rewrite Ea.
Qed.

(** The [n] pages from [p] are in table [j]. *)
Definition in_table (j p n : Z) : Prop := ∀ q, p ≤ q < p + n → q / 1024 = j.

(** The loop of [map_pages]: [n] consecutive pages below the recursive window. It succeeds, or
    stops where a page table is missing and no frame is left. *)
Lemma map_loop_or_full D flags va pa : ∀ n i m A,
  wf m D A → 0 ≤ i → 0 ≤ va → va mod 4096 = 0 → 0 ≤ pa → pa mod 4096 = 0 →
  va + 4096 * (i + Z.of_nat n) ≤ 4096 * 0xFFC00 → pa + 4096 * (i + Z.of_nat n) ≤ 2 ^ 32 →
  Z.testbit flags 0 = true →
  (∃ m' A', map_loop va pa flags i n m = Ok m' ∧ wf m' D A' ∧ A ⊆ A'
    ∧ (∀ k, i ≤ k < i + Z.of_nat n → page_of (mem m') D (va / 4096 + k) = Some (pa / 4096 + k))
    ∧ (∀ q, 0 ≤ q < 0xFFC00 → q < va / 4096 + i ∨ va / 4096 + i + Z.of_nat n ≤ q →
         page_of (mem m') D q = page_of (mem m) D q)
    ∧ remote m' = remote m ∧ isrs m' = isrs m ∧ keeps (mem m) D A (mem m') A'
    ∧ ∀ j, in_table j (va / 4096 + i) (Z.of_nat n) →
        match n with
        | O => A' = A ∧ m' = m
        | _ => one_table (Z.testbit (pd (mem m) D j) 0) A A' ∧ Z.testbit (pd (mem m') D j) 0 = true
        end)
  ∨ map_loop va pa flags i n m = Panic out_of_frames ∧ 2 ^ 20 < Z.of_nat (size A) + Z.of_nat n
    ∧ ∀ j, in_table j (va / 4096 + i) (Z.of_nat n) → Z.testbit (pd (mem m) D j) 0 = false ∧ 2 ^ 20 ≤ Z.of_nat (size A).
Proof.
  induction n as [|n IH]; intros i m A Hwf Hi Hva Hvm Hpa Hpm Hvb Hpb Hfl; cbn [map_loop].
  { left. exists m, A. split_and!; [done|done|done|intros; lia|done..|apply keeps_refl|done]. }
  unfold PAGE_SIZE. rewrite (u32_small (i * 4096)), (u32_small (i + 1)) by lia.
  rewrite (u32_small (va + i * 4096)), (u32_small (pa + i * 4096)) by lia.
  assert ((va + i * 4096) / 4096 = va / 4096 + i) as Ev by dlia.
  assert ((pa + i * 4096) / 4096 = pa / 4096 + i) as Epa by dlia.
  assert (Z.testbit (pd (mem m) D ((va + i * 4096) / 4096 / 1024)) 0 = true ∨ (∃ r, fa_alloc (frames m) = Ok r)
    ∨ map_page_locked (va + i * 4096) (pa + i * 4096) flags m = Panic out_of_frames ∧ 2 ^ 20 ≤ Z.of_nat (size A)
      ∧ Z.testbit (pd (mem m) D ((va + i * 4096) / 4096 / 1024)) 0 = false) as Hcase.
  { destruct (Z.testbit (pd (mem m) D ((va + i * 4096) / 4096 / 1024)) 0) eqn:Hpr; [by left|right]. destruct (alloc_or_full m D A Hwf) as [?|[Ea ?]]; [by left|right].
    split_and!; [|done|done]. eapply map_page_full; [done|lia|done|done]. }
  apply or_assoc in Hcase. destruct Hcase as [Hres|(-> & ? & Hno)].
  2:{ right. split_and!; [done|lia|]. intros j Hj. rewrite <- (Hj (va / 4096 + i)), <- Ev by lia. done. }
  destruct (map_page_locked_ok m D A (va + i * 4096) (pa + i * 4096) flags)
    as (m1 & A1 & -> & Hwf1 & [Ht1 Hb1] & (Hp1 & Ho1 & Hr1 & Hi1) & Hk1); [done|lia|dlia|lia|done|].
  cbn [mbind res_bind]. rewrite Ev in *. rewrite Epa, Hfl in Hp1. pose proof (one_table_grown _ _ _ Ht1) as [Hs1 Hc1].
  assert (∀ j, in_table j (va / 4096 + i) (Z.of_nat (Datatypes.S n)) →
    (va / 4096 + i) / 1024 = j ∧ in_table j (va / 4096 + (i + 1)) (Z.of_nat n)) as Hin.
  { intros j Hj. split; [apply Hj; lia|]. intros q Hq. apply Hj. lia. }
  destruct (IH (i + 1) m1 A1) as [(m2 & A2 & E2 & Hwf2 & Hs2 & Hp2 & Ho2 & Hr2 & Hi2 & Hk2 & Ht2)|(E2 & ? & Ht2)];
    [done|lia|lia|done|lia|done|lia|lia|done| |].
  2:{ right. split_and!; [done|lia|]. intros j [E Hj]%Hin. rewrite E in Hb1. destruct (Ht2 j Hj). congruence. }
  left. exists m2, A2. split_and!; [done|done|by etrans| | |congruence..|by eapply keeps_trans|].
  - intros k Hk. destruct (decide (k = i)) as [->|]; [|apply Hp2; lia].
    rewrite Ho2; [done|dlia|lia].
  - intros q Hq Hout. rewrite Ho2 by lia. apply Ho1; [lia|lia|dlia].
  - intros j [E Hj]%Hin. rewrite E in *. specialize (Ht2 j Hj). destruct n as [|n]; [by destruct Ht2 as [-> ->]|].
    destruct Ht2 as [Ho Hb2]. rewrite Hb1 in Ho. cbn in Ho. by subst A2.
Qed.

(** The frames [A'] are those of [A] without the ones that the [n] pages from [p] map. *)
Definition without_pages (M : ram) (D p n : Z) (A A' : gset Z) : Prop :=
  (∀ g, g ∈ A' ↔ g ∈ A ∧ ∀ k, 0 ≤ k < n → page_of M D (p + k) ≠ Some g) ∧ Z.of_nat (size A') + n = Z.of_nat (size A).

Lemma without_subset M D p n A A' : without_pages M D p n A A' → A' ⊆ A.
Proof. intros [H _] g Hg. by apply H. Qed.

Lemma without_none M D p A : without_pages M D p 0 A A.
Proof. split; [|lia]. intros g. split; [intros; split; [done|lia]|tauto]. Qed.

Lemma without_first M M1 D p n f A A' : page_of M D p = Some f → f ∈ A → 0 ≤ n →
  (∀ k, 1 ≤ k < n + 1 → page_of M1 D (p + k) = page_of M D (p + k)) →
  without_pages M1 D (p + 1) n (A ∖ {[f]}) A' → without_pages M D p (n + 1) A A'.
Proof.
  intros Hf HfA Hn Hsame [Hin Hsz]. split.
  - intros g. rewrite Hin, elem_of_difference, elem_of_singleton. split.
    + intros ([Hg Hne] & Hno). split; [done|]. intros k Hk. destruct (decide (k = 0)) as [->|]; [rewrite Z.add_0_r; congruence|].
      rewrite <- Hsame by lia. replace (p + k) with (p + 1 + (k - 1)) by lia. apply Hno. lia.
    + intros [Hg Hno]. split; [split; [done|]|].
      * intros ->. apply (Hno 0); [lia|]. by rewrite Z.add_0_r.
      * intros k Hk. replace (p + 1 + k) with (p + (k + 1)) by lia. rewrite Hsame by lia. apply Hno. lia.
  - assert (Z.of_nat (size (A ∖ {[f]})) = Z.of_nat (size A) - 1); [|lia].
    rewrite size_difference_Z, size_singleton by set_solver. done.
Qed.

(** The loop of [unmap_pages] over pages that map distinct data frames. *)
Lemma unmap_loop_ok D va : ∀ n i m A,
  wf m D A → 0 ≤ i → 0 ≤ va → va mod 4096 = 0 → va + 4096 * (i + Z.of_nat n) ≤ 4096 * 0xFFC00 →
  (∀ k, i ≤ k < i + Z.of_nat n → ∃ f, page_of (mem m) D (va / 4096 + k) = Some f ∧ data_frame (mem m) D A f) →
  (∀ k l f, i ≤ k < i + Z.of_nat n → i ≤ l < i + Z.of_nat n → page_of (mem m) D (va / 4096 + k) = Some f →
     page_of (mem m) D (va / 4096 + l) = Some f → k = l) →
  ∃ m' A', unmap_loop va i n m = Ok m' ∧ wf m' D A' ∧ without_pages (mem m) D (va / 4096 + i) (Z.of_nat n) A A'
    ∧ (∀ q, 0 ≤ q < 0xFFC00 → page_of (mem m') D q
         = if decide (va / 4096 + i ≤ q < va / 4096 + i + Z.of_nat n) then None else page_of (mem m) D q)
    ∧ (∀ g, data_frame (mem m) D A g → (∀ k, i ≤ k < i + Z.of_nat n → page_of (mem m) D (va / 4096 + k) ≠ Some g) →
        data_frame (mem m') D A' g ∧ ∀ b, in_frame g b → mem m' b = mem m b)
    ∧ ∀ j, 0 ≤ j < 1024 → pd (mem m') D j = pd (mem m) D j.
Proof.
  induction n as [|n IH]; intros i m A Hwf Hi Hva Hvm Hvb Hfr Hinj; cbn [unmap_loop].
  { exists m, A. split_and!; [done|done|apply without_none| |done|done]. intros q Hq. by rewrite decide_False by lia. }
  unfold PAGE_SIZE. rewrite (u32_small (i * 4096)), (u32_small (i + 1)) by lia. rewrite (u32_small (va + i * 4096)) by lia.
  assert ((va + i * 4096) / 4096 = va / 4096 + i) as Ev by dlia.
  destruct (Hfr i ltac:(lia)) as (f & Hf & Hdf).
  destruct (unmap_page_locked_ok m D A (va + i * 4096) f) as (m1 & -> & Hwf1 & (Hp1 & Ho1 & _) & Hk1 & Hd1);
    [done|lia|dlia|by rewrite Ev|done|].
  rewrite Ev in *. cbn [mbind res_bind].
  assert (∀ g, data_frame (mem m) D A g → g ≠ f → data_frame (mem m) D (A ∖ {[f]}) g) as Hdown.
  { intros g (Hg & ? & ? & ?) Hne. split_and!; [set_solver|done..]. }
  assert (∀ q, 0 ≤ q < 0xFFC00 → q ≠ va / 4096 + i → page_of (mem m1) D q = page_of (mem m) D q) as Hsame.
  { intros q Hq Hne. apply Ho1; [lia|done|dlia]. }
  assert (∀ k, i + 1 ≤ k < i + 1 + Z.of_nat n → page_of (mem m1) D (va / 4096 + k) = page_of (mem m) D (va / 4096 + k)) as Hnext.
  { intros k Hk. apply Hsame; [dlia|lia]. }
  destruct (IH (i + 1) m1 (A ∖ {[f]})) as (m2 & A2 & E2 & Hwf2 & Hs2 & Hp2 & Hk2 & Hd2); [done|lia|done|done|lia| | |].
  - intros k Hk. rewrite Hnext by done. destruct (Hfr k ltac:(lia)) as (g & Hg & Hdg). exists g. split; [done|].
    apply Hk1, Hdown; [done|]. intros ->. assert (i = k) by (eapply (Hinj i k f); [lia|lia|done|done]). lia.
  - intros k l g Hk Hl. rewrite !Hnext by done. apply Hinj; lia.
  - exists m2, A2. split_and!; [done|done| | | |intros j Hj; by rewrite Hd2, Hd1].
    + rewrite Nat2Z.inj_succ, <- Z.add_1_r. eapply without_first; [exact Hf|apply Hdf|lia| |].
      * intros k Hk. rewrite <- !Z.add_assoc. apply Hnext. lia.
      * by rewrite <- Z.add_assoc.
    + intros q Hq. rewrite Hp2 by done. destruct (decide (q = va / 4096 + i)) as [->|Hne].
      * rewrite decide_False, decide_True by lia. done.
      * rewrite Hsame by done. destruct (decide (va / 4096 + (i + 1) ≤ q < _)); [rewrite decide_True by lia|rewrite decide_False by lia]; done.
    + intros g Hg Hno. destruct (Hk1 g) as [Hg1 Hb1]; [apply Hdown; [done|intros ->; by apply (Hno i ltac:(lia))]|].
      destruct (Hk2 g Hg1) as [Hg2 Hb2]; [intros k Hk; rewrite Hnext by done; apply Hno; lia|].
      split; [done|]. intros b Hb. by rewrite Hb2, Hb1.
Qed.

(** Writing into a data frame changes no table. *)
Lemma data_write M M' D A f : tables M D A → data_frame M D A f → (∀ b, ¬ in_frame f b → M' b = M b) →
  tables M' D A ∧ (∀ q, 0 ≤ q < 2 ^ 20 → page_of M' D q = page_of M D q) ∧ ∀ g, data_frame M D A g → data_frame M' D A g.
Proof.
  intros HT (_ & _ & HfD & Hn) Hag.
  destruct (table_write M M' D A f 2000) as [Hpd Hpg]; [done|done|intros b Hb; apply Hag; unfold in_frame; lia|intros; by apply Hn|].
  split_and!; [by eapply tables_ext|intros q Hq; apply Hpg; dlia|].
  intros g (? & ? & ? & Hg). split_and!; [done..|]. intros j Hj. rewrite Hpd by lia. by apply Hg.
Qed.

(** ** Start-up, before paging is on *)

Lemma update_entry_off a g m :
  paging m = false → update_entry a g m = Ok (with_mem (wr32 (mem m) a (g (rd32 (mem m) a))) m).
Proof. intros H. unfold update_entry, load32, store32, translate. by rewrite H; simpl; rewrite H. Qed.

Lemma memset_off v n : ∀ a m,
  paging m = false → memset a v n m = Ok (with_mem (fill8 (mem m) a v n) m).
Proof.
  induction n as [|n IH]; intros a m H; cbn [memset fill8]; [by destruct m|].
  unfold store8, translate. rewrite H. cbn [mbind res_bind]. rewrite IH by done. done.
Qed.

Lemma entry_value a : 0 ≤ a < 2 ^ 20 →
  Entry.update_flags (Z.lor Flags.Present Flags.Writable) (Entry.set_address (4096 * a) 0)
  = 4096 * a + 3.
Proof.
  intros Ha. rewrite set_address_0 by lia. replace (4096 * a / 4096) with a by dlia.
  unfold Entry.update_flags. change (Z.land _ Entry.FLAGS_MASK) with 3. change 4096 with (2 ^ 12).
  by apply lor_low.
Qed.

Lemma entry_value_present a : Z.testbit (4096 * a + 3) 0 = true.
Proof. replace (4096 * a + 3) with (2 * (2048 * a + 1) + 1) by lia. apply Z.testbit_odd_0. Qed.

(** Two updates that fill an entry known to be 0. *)
Lemma set_entry_off addr a m :
  paging m = false → 0 ≤ a < 2 ^ 20 → rd32 (mem m) addr = 0 →
  ∃ M, (m ← update_entry addr (Entry.set_address (4096 * a)) m;
        update_entry addr (Entry.update_flags (Z.lor Flags.Present Flags.Writable)) m)
       = Ok (with_mem M m)
    ∧ rd32 M addr = 4096 * a + 3
    ∧ (∀ b, b < addr ∨ addr + 4 ≤ b → M b = mem m b) ∧ (bytes_ok (mem m) → bytes_ok M).
Proof.
  intros Hp Ha H0. rewrite update_entry_off by done. cbn [mbind res_bind].
  rewrite update_entry_off by done. cbn [mem with_mem].
  assert (0 ≤ Entry.set_address (4096 * a) 0 < 2 ^ 32) as Hr by (rewrite set_address_0; dlia).
  rewrite H0, rd32_wr32_same by done. rewrite entry_value by done.
  eexists. split; [done|]. split_and!.
  - apply rd32_wr32_same. lia.
  - intros b Hb. by rewrite !wr32_other8 by lia.
  - intros Hb. by do 2 apply wr32_bytes.
Qed.

Lemma init_identity_ok T : ∀ n i m,
  paging m = false → 0 ≤ T < 2 ^ 20 → 0 ≤ i → i + Z.of_nat n ≤ 1024 → bytes_ok (mem m) →
  (∀ k, i ≤ k < 1024 → rd32 (mem m) (4096 * T + 4 * k) = 0) →
  ∃ M, init_identity (4096 * T) i n m = Ok (with_mem M m) ∧ bytes_ok M
    ∧ (∀ k, i ≤ k < i + Z.of_nat n → rd32 M (4096 * T + 4 * k) = 4096 * k + 3)
    ∧ (∀ b, b < 4096 * T + 4 * i ∨ 4096 * T + 4096 ≤ b → M b = mem m b).
Proof.
  induction n as [|n IH]; intros i m Hp HT Hi Hn Hb H0; cbn [init_identity].
  { exists (mem m). split_and!; [by destruct m|done|intros; lia|done]. }
  unfold PAGE_SIZE. rewrite (u32_small (i * 4)), (u32_small (4096 * T + i * 4)) by lia.
  rewrite (u32_small (i * 4096)), (Z.mul_comm i 4096), (Z.mul_comm i 4) by lia.
  destruct (set_entry_off (4096 * T + 4 * i) i m) as (M & E & HM & Ho & HbM); [done|lia|apply H0; lia|].
  destruct (IH (i + 1) (with_mem M m)) as (M' & E' & HbM' & HM' & Ho');
    [done|done|lia|lia|by apply HbM| |].
  { intros k Hk. rewrite <- (H0 k) by lia. apply rd32_ext. intros b Hbk. apply Ho. lia. }
  apply bind_Ok_inv in E as (m1 & -> & E1). cbn [mbind res_bind]. rewrite E1. cbn [mbind res_bind].
  exists M'. split_and!; [done|done| |].
  - intros k Hk. destruct (decide (k = i)) as [->|]; [|apply HM'; lia].
    rewrite <- HM. apply rd32_ext. intros b Hbk. apply Ho'. lia.
  - intros b Hbo. rewrite Ho' by lia. apply Ho. lia.
Qed.

(** The directory and the first table as [init] leaves them. *)
Lemma init_tables M D T A :
  (∀ i, 0 ≤ i < 1024 → pd M D i = if decide (i = 0) then 4096 * T + 3
                                  else if decide (i = 1023) then 4096 * D + 3 else 0) →
  (∀ k, 0 ≤ k < 1024 → rd32 M (4096 * T + 4 * k) = 4096 * k + 3) → T ≠ D → T ∈ A →
  tables M D A ∧ (∀ p, 0 ≤ p < 1024 → page_of M D p = Some p)
  ∧ (∀ p, 1024 ≤ p < 0xFFC00 → page_of M D p = None)
  ∧ ∀ i, 0 ≤ i < 1023 → Z.testbit (pd M D i) 0 = true → pd M D i / 4096 = T.
Proof.
  intros Hpd Hpt HTD HTA.
  assert (∀ a, (4096 * a + 3) / 4096 = a) as Hdiv by (intros; dlia).
  assert (pd M D 0 = 4096 * T + 3) as E0 by (rewrite Hpd by lia; done).
  assert (pd M D 1023 = 4096 * D + 3) as E1 by (rewrite Hpd by lia; done).
  assert (∀ i, 0 < i < 1023 → pd M D i = 0) as E2.
  { intros i Hi. rewrite Hpd by lia. destruct (decide (i = 0)), (decide (i = 1023)); (done || lia). }
  split_and!; [split|..].
  - by rewrite E1, entry_value_present, Hdiv.
  - intros i Hi. destruct (decide (i = 0)) as [->|]; [by rewrite E0, Hdiv|].
    rewrite E2 by lia. done.
  - intros i j Hi Hj Hij. destruct (decide (i = 0)) as [->|]; [|rewrite (E2 i) by lia; done].
    rewrite (E2 j) by lia. done.
  - intros p Hp. unfold page_of, pt. rewrite Z.div_small, E0, entry_value_present, Hdiv by lia.
    rewrite Z.mod_small, Hpt, entry_value_present, Hdiv by lia. done.
  - intros p Hp. unfold page_of. rewrite E2 by dlia. done.
  - intros i Hi. destruct (decide (i = 0)) as [->|]; [by rewrite E0, Hdiv|]. by rewrite E2 by lia.
Qed.

Lemma clear_frames_off D T n m :
  paging m = false → Z.of_nat n = 4096 → D ≠ T → bytes_ok (mem m) →
  ∃ M, (m ← memset (4096 * D) 0 n m; memset (4096 * T) 0 n m) = Ok (with_mem M m) ∧ bytes_ok M
    ∧ ∀ F k, F = D ∨ F = T → 0 ≤ k < 1024 → rd32 M (4096 * F + 4 * k) = 0.
Proof.
  intros Hp Hn HDT Hb. rewrite memset_off by done. cbn [mbind res_bind].
  rewrite memset_off by done. eexists. split; [reflexivity|]. split; [by do 2 apply fill8_bytes|].
  intros F k [->| ->] Hk; [|apply rd32_fill8_0; lia].
  rewrite rd32_fill8_other by lia. apply rd32_fill8_0; lia.
Qed.

(** The frames of the page directory and of the first page table. *)
Lemma two_frames fs A : fa_inv fs A → 0 ∈ A → Z.of_nat (size A) + 2 ≤ 2 ^ 20 →
  ∃ D T fs1 fs2, fa_alloc fs = Ok (4096 * D, fs1) ∧ fa_alloc fs1 = Ok (4096 * T, fs2)
    ∧ 0 < D < 2 ^ 20 ∧ 0 < T < 2 ^ 20 ∧ T ≠ D ∧ (D ∉ A) ∧ (T ∉ A) ∧ fa_inv fs2 (A ∪ {[D]} ∪ {[T]}).
Proof.
  intros Hfa H0 Hsz. destruct (free_frame_exists A) as (f1 & Hf1 & HA1); [lia|].
  destruct (fa_alloc_total _ _ f1 Hfa Hf1 HA1) as [[a1 fs1] E1].
  destruct (fa_alloc_ok _ _ _ _ Hfa E1) as (D & -> & HDr & HDA & Hfs1).
  destruct (free_frame_exists (A ∪ {[D]})) as (f2 & Hf2 & HA2).
  { pose proof (proj2 (grown_one A D)). lia. }
  destruct (fa_alloc_total _ _ f2 Hfs1 Hf2 HA2) as [[a2 fs2] E2].
  destruct (fa_alloc_ok _ _ _ _ Hfs1 E2) as (T & -> & HTr & HTA & Hfs2).
  apply not_elem_of_union in HTA as [HTA HTD]. rewrite not_elem_of_singleton in HTD.
  assert (D ≠ 0 ∧ T ≠ 0) by (split; intros ->; done). exists D, T, fs1, fs2. split_and!; (done || lia).
Qed.

(** The first directory and its one table, written with paging off. *)
Lemma init_directory_ok D T m :
  paging m = false → bytes_ok (mem m) → 0 < D < 2 ^ 20 → 0 < T < 2 ^ 20 → T ≠ D →
  ∃ M, init_directory (4096 * D) (4096 * T) m = Ok (with_mem M m) ∧ bytes_ok M
    ∧ (∀ i, 0 ≤ i < 1024 → pd M D i = if decide (i = 0) then 4096 * T + 3
                                      else if decide (i = 1023) then 4096 * D + 3 else 0)
    ∧ ∀ k, 0 ≤ k < 1024 → rd32 M (4096 * T + 4 * k) = 4096 * k + 3.
Proof.
  intros Hp Hb HDr HTr HTD. unfold init_directory.
  assert (Z.of_nat (Z.to_nat PAGE_SIZE) = 4096) as Hn by (by rewrite Z2Nat.id).
  revert Hn. generalize (Z.to_nat PAGE_SIZE) as n. intros n Hn.
  destruct (clear_frames_off D T n m) as (M1 & E1 & HbM1 & HM1); [done..|].
  apply bind_Ok_inv in E1 as (m1 & -> & E1). cbn [mbind res_bind]. rewrite E1. cbn [mbind res_bind].
  assert (Z.of_nat (Z.to_nat (IDENTITY_WINDOW_SIZE / PAGE_SIZE)) = 1024) as Hn' by (by rewrite Z2Nat.id).
  revert Hn'. generalize (Z.to_nat (IDENTITY_WINDOW_SIZE / PAGE_SIZE)) as n'. intros n' Hn'.
  destruct (init_identity_ok T n' 0 (with_mem M1 m)) as (M2 & E2 & HbM2 & HM2 & Ho2);
    [done|lia|lia|lia|done|intros k Hk; apply HM1; auto|].
  rewrite E2. cbn [mbind res_bind].
  destruct (set_entry_off (4096 * D) T (with_mem M2 m)) as (M3 & E3 & HM3 & Ho3 & HbM3); [done|lia| |].
  { rewrite <- (HM1 D 0) by (auto || lia). replace (4096 * D + 4 * 0) with (4096 * D) by lia.
    apply rd32_ext. intros b Hbk. apply Ho2. lia. }
  apply bind_Ok_inv in E3 as (m3 & E3a & E3). change (with_mem M2 (with_mem M1 m)) with (with_mem M2 m).
  rewrite E3a. cbn [mbind res_bind]. rewrite E3. cbn [mbind res_bind].
  destruct (set_entry_off (4096 * D + 1023 * 4) D (with_mem M3 m)) as (M4 & E4 & HM4 & Ho4 & HbM4); [done|lia| |].
  { rewrite <- (HM1 D 1023) by (auto || lia). replace (4096 * D + 4 * 1023) with (4096 * D + 1023 * 4) by lia.
    apply rd32_ext. intros b Hbk. cbn [mem with_mem] in *. rewrite Ho3 by lia. apply Ho2. lia. }
  exists M4. cbn [mem with_mem] in *. split; [exact E4|]. split; [by apply HbM4, HbM3|]. split.
  - intros i Hi. destruct (decide (i = 0)) as [->|Hi0].
    { rewrite <- HM3. unfold pd. replace (4096 * D + 4 * 0) with (4096 * D) by lia.
      apply rd32_ext. intros b Hbk. apply Ho4. lia. }
    destruct (decide (i = 1023)) as [->|Hi1]; [rewrite <- HM4; unfold pd; f_equal; lia|].
    rewrite <- (HM1 D i) by (auto || lia). apply rd32_ext. intros b Hbk.
    rewrite Ho4 by lia. rewrite Ho3 by lia. apply Ho2. lia.
  - intros k Hk. rewrite <- (HM2 k) by lia. apply rd32_ext. intros b Hbk. rewrite Ho4 by lia. apply Ho3. lia.
Qed.

Lemma init_ok m A :
  paging m = false → bytes_ok (mem m) → fa_inv (frames m) A → 0 ∈ A →
  Z.of_nat (size A) + 2 ≤ 2 ^ 20 →
  ∃ m' D A', init m = Ok m' ∧ wf m' D A' ∧ A ⊆ A' ∧ (size A' ≤ 2 + size A)%nat
    ∧ (∀ p, 0 ≤ p < 1024 → page_of (mem m') D p = Some p)
    ∧ (∀ p, 1024 ≤ p < 0xFFC00 → page_of (mem m') D p = None)
    ∧ remote m' = remote m
    ∧ isrs m' = <[TLB_SHOOTDOWN_VECTOR := tlb_shootdown_handler]> (<[14 := page_fault]> (isrs m))
    ∧ ∀ f, f ∈ A → f ≠ 0 → data_frame (mem m') D A' f.
Proof.
  intros Hp Hb Hfa H0 Hsz. unfold init.
  destruct (two_frames _ _ Hfa H0 Hsz) as (D & T & fs1 & fs2 & E1 & E2 & HDr & HTr & HTD & HDA & HTA & Hfs2).
  rewrite E1. cbn [mbind res_bind]. rewrite E2. cbn [mbind res_bind].
  rewrite (proj2 (Z.eqb_neq (4096 * D) 0)), (proj2 (Z.eqb_neq (4096 * T) 0)) by lia. cbn [orb].
  destruct (init_directory_ok D T (with_frames fs2 m)) as (M & E & HbM & Hpd & Hpt); [done..|].
  rewrite E. cbn [mbind res_bind].
  destruct (init_tables M D T (A ∪ {[D]} ∪ {[T]})) as (HT & Hid & Hno & Hpds); [done..|set_solver|].
  eexists _, D, (A ∪ {[D]} ∪ {[T]}). split; [reflexivity|].
  split_and!; [split; [split|..]|set_solver| |exact Hid|exact Hno|reflexivity|reflexivity|].
  - reflexivity.
  - reflexivity.
  - lia.
  - exact HbM.
  - intros q f Hq. change (tlb _) with (∅ : tlb_t) in Hq. by rewrite lookup_empty in Hq.
  - exact HT.
  - reflexivity.
  - exact Hfs2.
  - set_solver.
  - set_solver.
  - pose proof (proj2 (grown_one A D)). pose proof (proj2 (grown_one (A ∪ {[D]}) T)). lia.
  - intros f Hf Hf0. split_and!; [set_solver|done|by intros ->|]. intros i Hi Hpr. cbn [mem enable_paging load_directory with_dir register_isr with_isrs with_mem].
    rewrite (Hpds i Hi Hpr). by intros ->.
Qed.
End Manager.

(** ** Properties *)

(** A machine right after the boot loader: memory cleared, paging off, and a
    frame allocator that has reserved frame 0. *)
(** An allocator with its first frames in use. *)
Lemma first_frames n : 0 < n ≤ 2 ^ 20 → ∃ s : pmm, pmm_inv s (run 0 n).
Proof.
  intros Hn. set (s := MkPmm (bitmap_init PMM) MAX_FRAMES 0). assert (0 < n ≤ MAX_FRAMES) as Hn' by (by rewrite MAX_FRAMES_eq).
  assert (pmm_inv s ∅) as Hs by (split; [apply (bitmap_init_rep PMM PMM_ok)|reflexivity]).
  destruct (alloc_frames_total s ∅ n Hs) as [[a s'] E]; [done|exists 0; split_and!; [lia|lia|apply disjoint_empty_r]|].
  destruct (alloc_frames_ok s ∅ n a s' Hs Hn' E) as (f & -> & Hf & _ & _ & Hmin & Hi). rewrite union_empty_l_L in Hi.
  exists s'. replace 0 with f; [done|]. destruct (decide (f = 0)) as [|Hne]; [done|]. destruct (Hmin 0); [lia|apply disjoint_empty_r].
Qed.

Lemma boot_allocator : ∃ (s : pmm) A, pmm_inv s A ∧ 0 ∈ A ∧ (size A ≤ 1)%nat.
Proof.
  destruct (first_frames 1) as [s Hs]; [lia|]. exists s, (run 0 1). split_and!; [done|apply elem_of_run; lia|by rewrite run_1, size_singleton].
Qed.

Lemma started :
  ∃ (m : machine pmm) D A, wf m D A ∧ (size A ≤ 3)%nat ∧ remote m = [(true, {[1 := 1]})]
    ∧ (∀ p, 0 ≤ p < 1024 → page_of (mem m) D p = Some p)
    ∧ (∀ p, 1024 ≤ p < 0xFFC00 → page_of (mem m) D p = None).
Proof.
  destruct boot_allocator as (s & A & Hs & H0 & Hsz).
  destruct (init_ok (Machine (λ _, 0) 0 false ∅ [(true, {[1 := 1]})] ∅ s 0) A)
    as (m & D & A' & E & Hwf & _ & Hsz' & Hid & Hno & Hr & _);
    [done|by intros a|done|done|lia|].
  exists m, D, A'. split_and!; [done|lia|exact Hr|done|done].
Qed.

(** A page the machine translates: the outcome of an access on this core. *)
Lemma access_page {S} `{FrameAllocator S} (m : machine S) D A p f off :
  wf m D A → 0 ≤ p < 2 ^ 20 → 0 ≤ off < 4096 → page_of (mem m) D p = Some f →
  ∃ m', translate (4096 * p + off) m = Ok (4096 * f + off, m').
Proof.
  intros Hwf Hp Hoff Hf. destruct (translate_page nowhere nowhere D m p f off) as (t & E & _);
    [apply Hwf|done|done|by intros []|by intros []|done|]. eauto.
Qed.

Lemma access_fault {S} `{FrameAllocator S} (m : machine S) D A p off :
  wf m D A → 0 ≤ p < 2 ^ 20 → 0 ≤ off < 4096 → page_of (mem m) D p = None →
  translate (4096 * p + off) m = Fault (4096 * p + off).
Proof.
  intros [[Hpg Hcr HD Hb Ht] _ _ _ _ _] Hp Hoff Hf. unfold translate. rewrite Hpg.
  assert ((4096 * p + off) / 4096 = p) as E1 by dlia. rewrite E1.
  destruct (tlb m !! p) as [g|] eqn:Hg.
  { destruct (Ht p g Hg) as (_&_&[[]|?]). congruence. }
  rewrite Hcr, walk_page_of by (done || lia). by rewrite E1, Hf.
Qed.

Lemma flush_remote_wf {S} `{FrameAllocator S} (m : machine S) D A :
  wf m D A → wf (flush_remote_tlbs m) D A.
Proof. intros [[] HT ? ? ? ?]. split; [by split|exact HT|done..]. Qed.

Lemma flush_remote_empty {S} `{FrameAllocator S} (m : machine S) :
  Forall (λ c : bool * tlb_t, c.1 = true → c.2 = ∅) (remote (flush_remote_tlbs m)).
Proof.
  apply Forall_forall. intros c. simpl. rewrite list_elem_of_fmap. intros (d & -> & _).
  by destruct d as [[] t].
Qed.

(** A frame fresh from the allocator is a data frame. *)
Lemma wf_alloc {S} `{FrameAllocator S} (m : machine S) D A a fs :
  wf m D A → fa_alloc (frames m) = Ok (a, fs) →
  ∃ f, a = 4096 * f ∧ 0 ≤ f < 2 ^ 20 ∧ wf (with_frames fs m) D (A ∪ {[f]})
       ∧ data_frame (mem m) D (A ∪ {[f]}) f.
Proof.
  intros [Hv HT Hdir Hfr H0 HD] E. destruct (fa_alloc_ok _ _ _ _ Hfr E) as (f & -> & Hf & HA & Hi).
  exists f. split_and!; [done|lia|lia| |split_and!].
  - split; [by apply view_frames| |done|done|set_solver|set_solver].
    destruct HT as [? Hh ?]. split; [done| |done]. intros i Hr Hb. destruct (Hh i Hr Hb). set_solver.
  - set_solver.
  - by intros ->.
  - by intros ->.
  - intros i Hr Hb. destruct (tb_held _ _ _ HT i Hr Hb) as [Hin _]. by intros <-.
Qed.

Lemma alloc_frame_low s A f s' :
  pmm_inv s A → alloc_frame s = Ok (4096 * f, s') → f ≤ Z.of_nat (size A).
Proof.
  intros Hs E. destruct (alloc_frames_ok s A 1 (4096 * f) s' Hs ltac:(rewrite MAX_FRAMES_eq; lia) E)
    as (g & Eg & Hg & _ & _ & Hmin & _). assert (f = g) as -> by lia.
  assert (run 0 g ⊆ A) as Hsub%subseteq_size.
  { intros k Hk%elem_of_run. specialize (Hmin k ltac:(lia)). rewrite run_1 in Hmin.
    destruct (decide (k ∈ A)); [done|]. exfalso. apply Hmin. set_solver. }
  pose proof (size_run 0 g). lia.
Qed.

(** A started machine with a data frame, mapped at 0x1000000. *)
Lemma started_data :
  ∃ (m : machine pmm) D A f, wf m D A ∧ Z.of_nat (size A) < 100 ∧ 0 ≤ f < 100
    ∧ data_frame (mem m) D A f ∧ page_of (mem m) D 0x1000 = Some f.
Proof.
  destruct started as (m & D & A & Hwf & Hsz & _).
  destruct (alloc_possible m D A Hwf) as [[a fs] E]; [lia|].
  destruct (wf_alloc m D A a fs Hwf E) as (f & -> & Hf & Hwf1 & Hdf1).
  pose proof (alloc_frame_low _ _ _ _ (wf_frames _ _ _ Hwf) E).
  pose proof (proj2 (grown_one A f)).
  destruct (map_page_locked_ok (with_frames fs m) D (A ∪ {[f]}) 0x1000000 (4096 * f) 3)
    as (m1 & A1 & _ & Hwf2 & [[_ Hsz2]%one_table_grown _] & (Hp & _) & Hdf2);
    [done|lia|done|lia|right; eapply alloc_possible; [done|lia]|].
  exists m1, D, A1, f. split_and!; [done|lia|lia|lia|by apply Hdf2|].
  change (0x1000000 / 4096) with 0x1000 in Hp. rewrite Hp. simpl. f_equal. dlia.
Qed.

(** Start-up. From any memory contents with paging off and two free
    frames, [init] returns with well-formed page tables: the first 4 MiB are
    mapped to themselves, nothing else is mapped below the recursive window, the
    two frames are in use, and the page-fault and shootdown handlers are
    registered. *)
Theorem vmm_init_exact {S} `{FrameAllocator S} (m : machine S) A :
  paging m = false → bytes_ok (mem m) → fa_inv (frames m) A → 0 ∈ A →
  Z.of_nat (size A) + 2 ≤ 2 ^ 20 →
  ∃ m' D A', init m = Ok m' ∧ wf m' D A' ∧ A ⊆ A'
    ∧ (∀ va, 0 ≤ va < IDENTITY_WINDOW_SIZE → ∃ m'', translate va m' = Ok (va, m''))
    ∧ (∀ va, IDENTITY_WINDOW_SIZE ≤ va < RECURSIVE_PT_BASE → translate va m' = Fault va)
    ∧ isrs m' = <[TLB_SHOOTDOWN_VECTOR := tlb_shootdown_handler]> (<[14 := page_fault]> (isrs m)).
Proof.
  intros Hp Hb Hfa H0 Hsz.
  destruct (init_ok m A) as (m' & D & A' & E & Hwf & HA & _ & Hid & Hno & _ & Hisr & _); [done..|].
  exists m', D, A'. split_and!; [done..| | |done]; unfold IDENTITY_WINDOW_SIZE, RECURSIVE_PT_BASE.
  - intros va Hva. replace va with (4096 * (va / 4096) + va mod 4096) by dlia.
    eapply access_page; [done|dlia|dlia|]. apply Hid. dlia.
  - intros va Hva. replace va with (4096 * (va / 4096) + va mod 4096) by dlia.
    eapply access_fault; [done|dlia|dlia|]. apply Hno. dlia.
Qed.

Lemma vmm_init_exact_witness :
  ∃ (m m' : machine pmm) D A', init m = Ok m' ∧ wf m' D A'
    ∧ ∀ va, 0 ≤ va < IDENTITY_WINDOW_SIZE → ∃ m'', translate va m' = Ok (va, m'').
Proof.
  destruct boot_allocator as (s & A & Hs & H0 & Hsz).
  destruct (vmm_init_exact (Machine (λ _, 0) 0 false ∅ [] ∅ s 0) A)
    as (m' & D & A' & E & Hwf & _ & Hid & _); [done|by intros a|done|done|lia|].
  exists (Machine (λ _, 0) 0 false ∅ [] ∅ s 0), m', D, A'. done.
Defined.

(** C20: [virt_to_phys] and [is_mapped] read the page tables through the
    recursive window, and report what the processor's own walk finds: the
    physical address, or 0xFFFFFFFF / false exactly when the page is not
    mapped; they change no memory. *)
Theorem virt_to_phys_is_walk {S} `{FrameAllocator S} (m : machine S) D A va :
  wf m D A → 0 ≤ va < 2 ^ 32 →
  ∃ m1 m2,
    virt_to_phys va m
    = Ok (from_option (λ pa, pa + va mod 4096) 0xFFFFFFFF (walk (mem m) (cr3 m) va), m1)
    ∧ is_mapped va m = Ok (bool_decide (is_Some (walk (mem m) (cr3 m) va)), m2)
    ∧ mem m1 = mem m ∧ mem m2 = mem m ∧ wf m1 D A ∧ wf m2 D A.
Proof.
  intros Hwf Hva. destruct (virt_to_phys_ok m D A va Hwf Hva) as (t1 & -> & Hwf1).
  destruct (is_mapped_ok m D A va Hwf Hva) as (t2 & -> & Hwf2).
  destruct (wf_view _ _ _ Hwf) as [_ Hcr HD Hb _]. rewrite Hcr, walk_page_of by done.
  exists (upd (mem m) t1 m), (upd (mem m) t2 m). split_and!; [| |done|done|exact Hwf1|exact Hwf2].
  - by destruct (page_of _ _ _).
  - do 2 f_equal. apply bool_decide_ext. by rewrite fmap_is_Some.
Qed.

Lemma virt_to_phys_is_walk_witness :
  ∃ (m m1 : machine pmm), virt_to_phys 0x1234 m
    = Ok (from_option (λ pa, pa + 0x1234 mod 4096) 0xFFFFFFFF (walk (mem m) (cr3 m) 0x1234), m1).
Proof.
  destruct started as (m & D & A & Hwf & _).
  destruct (virt_to_phys_is_walk m D A 0x1234 Hwf) as (m1 & m2 & E & _); [lia|].
  exists m, m1. exact E.
Defined.

(** [map_pages] and [unmap_pages], page by page. *)
Lemma map_pages_or_full {S} `{FrameAllocator S} (m : machine S) D A va pa n flags :
  wf m D A → 0 ≤ va → va mod 4096 = 0 → 0 ≤ pa < 2 ^ 32 → pa mod 4096 = 0 → 0 ≤ n →
  va + 4096 * n ≤ RECURSIVE_PT_BASE → pa + 4096 * n ≤ 2 ^ 32 → Entry.has_flag Flags.Present flags = true →
  (∃ m' A', map_pages va pa n flags m = Ok m' ∧ wf m' D A' ∧ A ⊆ A'
    ∧ (∀ k, 0 ≤ k < n → page_of (mem m') D (va / 4096 + k) = Some (pa / 4096 + k))
    ∧ (∀ q, 0 ≤ q < 0xFFC00 → q < va / 4096 ∨ va / 4096 + n ≤ q → page_of (mem m') D q = page_of (mem m) D q)
    ∧ keeps (mem m) D A (mem m') A' ∧ Forall (λ c : bool * tlb_t, c.1 = true → c.2 = ∅) (remote m')
    ∧ ∀ j, 0 < n → in_table j (va / 4096) n →
        one_table (Z.testbit (pd (mem m) D j) 0) A A' ∧ Z.testbit (pd (mem m') D j) 0 = true)
  ∨ map_pages va pa n flags m = Panic out_of_frames ∧ 2 ^ 20 < Z.of_nat (size A) + n
    ∧ ∀ j, in_table j (va / 4096) n → Z.testbit (pd (mem m) D j) 0 = false ∧ 2 ^ 20 ≤ Z.of_nat (size A).
Proof.
  unfold RECURSIVE_PT_BASE. intros Hwf Hva Hvm Hpa Hpm Hn Hvb Hpb Hfl.
  rewrite has_present in Hfl. unfold map_pages. rewrite !aligned_eq by lia.
  replace (4096 * (va / 4096)) with va by dlia. replace (4096 * (pa / 4096)) with pa by dlia.
  cbv zeta. destruct (map_loop_or_full D flags va pa (Z.to_nat n) 0 m A)
    as [(m' & A' & -> & Hwf' & HA & Hin & Hout & _ & _ & Hk & Ht)|(-> & ? & Ht)]; rewrite ?Z2Nat.id, ?Z.add_0_r in * by lia;
    [done|lia|done|done|lia|done|lia|lia|done| |right; split_and!; [done|lia|exact Ht]].
  left. cbn [mbind res_bind]. exists (flush_remote_tlbs m'), A'.
  split_and!; [done|by apply flush_remote_wf|done| | |done|apply flush_remote_empty|].
  - intros k Hkr. apply Hin. lia.
  - intros q Hq Ho. apply Hout; lia.
  - intros j Hn0 Hj. specialize (Ht j Hj). destruct (Z.to_nat n) eqn:En; [lia|done].
Qed.

Lemma map_pages_ok {S} `{FrameAllocator S} (m : machine S) D A va pa n flags :
  wf m D A → 0 ≤ va → va mod 4096 = 0 → 0 ≤ pa < 2 ^ 32 → pa mod 4096 = 0 → 0 ≤ n →
  va + 4096 * n ≤ RECURSIVE_PT_BASE → pa + 4096 * n ≤ 2 ^ 32 →
  Entry.has_flag Flags.Present flags = true → Z.of_nat (size A) + n ≤ 2 ^ 20 →
  ∃ m' A', map_pages va pa n flags m = Ok m' ∧ wf m' D A' ∧ A ⊆ A'
    ∧ (∀ k, 0 ≤ k < n → page_of (mem m') D (va / 4096 + k) = Some (pa / 4096 + k))
    ∧ (∀ q, 0 ≤ q < 0xFFC00 → q < va / 4096 ∨ va / 4096 + n ≤ q → page_of (mem m') D q = page_of (mem m) D q)
    ∧ keeps (mem m) D A (mem m') A' ∧ Forall (λ c : bool * tlb_t, c.1 = true → c.2 = ∅) (remote m').
Proof.
  intros Hwf Hva Hvm Hpa Hpm Hn Hvb Hpb Hfl Hsz.
  destruct (map_pages_or_full m D A va pa n flags) as [(m' & A' & Hok)|(_ & ? & _)]; [done..| |lia]. exists m', A'. tauto.
Qed.

Lemma unmap_pages_ok {S} `{FrameAllocator S} (m : machine S) D A va n :
  wf m D A → 0 ≤ va → va mod 4096 = 0 → 0 ≤ n → va + 4096 * n ≤ RECURSIVE_PT_BASE →
  (∀ k, 0 ≤ k < n → ∃ f, page_of (mem m) D (va / 4096 + k) = Some f ∧ data_frame (mem m) D A f) →
  (∀ k l f, 0 ≤ k < n → 0 ≤ l < n → page_of (mem m) D (va / 4096 + k) = Some f →
     page_of (mem m) D (va / 4096 + l) = Some f → k = l) →
  ∃ m' A', unmap_pages va n m = Ok m' ∧ wf m' D A' ∧ without_pages (mem m) D (va / 4096) n A A'
    ∧ (∀ q, 0 ≤ q < 0xFFC00 → page_of (mem m') D q
         = if decide (va / 4096 ≤ q < va / 4096 + n) then None else page_of (mem m) D q)
    ∧ (∀ g, data_frame (mem m) D A g → (∀ k, 0 ≤ k < n → page_of (mem m) D (va / 4096 + k) ≠ Some g) →
        data_frame (mem m') D A' g ∧ ∀ b, in_frame g b → mem m' b = mem m b)
    ∧ ∀ j, 0 ≤ j < 1024 → pd (mem m') D j = pd (mem m) D j.
Proof.
  unfold RECURSIVE_PT_BASE. intros Hwf Hva Hvm Hn Hvb Hfr Hinj. unfold unmap_pages. rewrite aligned_eq by lia.
  replace (4096 * (va / 4096)) with va by dlia. cbv zeta.
  destruct (unmap_loop_ok D va (Z.to_nat n) 0 m A) as (m' & A' & -> & Hwf' & HA & Hp & Hk & Hd); [done|lia|done|done|lia| | |].
  - intros k Hkr. apply Hfr. lia.
  - intros k l f Hkr Hl. apply Hinj; lia.
  - cbn [mbind res_bind]. exists (flush_remote_tlbs m'), A'. rewrite Z2Nat.id, Z.add_0_r in * by lia.
    split_and!; [done|by apply flush_remote_wf|done|exact Hp|exact Hk|exact Hd].
Qed.

(** C7: [map_pages] maps every page of the range to the matching physical page,
    with the tables it needs: each address of the range translates to its image
    at once, even if this core had cached an older translation; no page outside
    the range (below the recursive window) changes; the tables stay well formed
    and no frame that was in use is released; every initialized core drops its
    cached translations. *)
Theorem map_pages_exact {S} `{FrameAllocator S} (m : machine S) D A va pa n flags :
  wf m D A → 0 ≤ va → va mod 4096 = 0 → 0 ≤ pa < 2 ^ 32 → pa mod 4096 = 0 → 0 ≤ n →
  va + 4096 * n ≤ RECURSIVE_PT_BASE → pa + 4096 * n ≤ 2 ^ 32 →
  Entry.has_flag Flags.Present flags = true → Z.of_nat (size A) + n ≤ 2 ^ 20 →
  ∃ m' A', map_pages va pa n flags m = Ok m' ∧ wf m' D A' ∧ A ⊆ A'
    ∧ (∀ d, 0 ≤ d < 4096 * n → ∃ m'', translate (va + d) m' = Ok (pa + d, m''))
    ∧ (∀ v, 0 ≤ v < RECURSIVE_PT_BASE → v < va ∨ va + 4096 * n ≤ v →
         walk (mem m') (cr3 m') v = walk (mem m) (cr3 m) v)
    ∧ Forall (λ c : bool * tlb_t, c.1 = true → c.2 = ∅) (remote m').
Proof.
  intros Hwf Hva Hvm Hpa Hpm Hn Hvb Hpb Hfl Hsz.
  destruct (map_pages_ok m D A va pa n flags) as (m' & A' & E & Hwf' & HA & Hin & Hout & _ & Hr); [done..|].
  unfold RECURSIVE_PT_BASE in *. exists m', A'. split_and!; [done|done|done| | |done].
  - intros d Hd. replace (va + d) with (4096 * (va / 4096 + d / 4096) + d mod 4096) by dlia.
    replace (pa + d) with (4096 * (pa / 4096 + d / 4096) + d mod 4096) by dlia.
    eapply access_page; [done|dlia|dlia|]. apply Hin. dlia.
  - intros v Hv Ho. destruct (wf_view _ _ _ Hwf) as [_ -> HD Hb _].
    destruct (wf_view _ _ _ Hwf') as [_ -> _ Hb2 _].
    rewrite !walk_page_of by (done || lia). f_equal. apply Hout; dlia.
Qed.

Lemma map_pages_exact_witness :
  ∃ (m m' : machine pmm), map_pages 0x1000000 0x200000 2 3 m = Ok m'
    ∧ ∀ d, 0 ≤ d < 4096 * 2 → ∃ m'', translate (0x1000000 + d) m' = Ok (0x200000 + d, m'').
Proof.
  destruct started as (m & D & A & Hwf & Hsz & _).
  destruct (map_pages_exact m D A 0x1000000 0x200000 2 3 Hwf)
    as (m' & A' & E & _ & _ & Ht & _); [lia|done|lia|done|lia|done|lia|done|lia|].
  exists m, m'. split; [exact E|exact Ht].
Defined.

(** C19: [unmap_page] on a page that maps a data frame releases exactly that
    frame, after which the page faults and all other pages below the recursive
    window translate as before; on a page that is not mapped it does nothing. *)
Theorem unmap_page_exact {S} `{FrameAllocator S} (m : machine S) D A va :
  wf m D A → 0 ≤ va < RECURSIVE_PT_BASE →
  match page_of (mem m) D (va / 4096) with
  | Some f => data_frame (mem m) D A f →
      ∃ m', unmap_page va m = Ok m' ∧ wf m' D (A ∖ {[f]}) ∧ translate va m' = Fault va
        ∧ ∀ q, 0 ≤ q < 0xFFC00 → q ≠ va / 4096 → page_of (mem m') D q = page_of (mem m) D q
  | None => ∃ m', unmap_page va m = Ok m' ∧ wf m' D A ∧ mem m' = mem m
  end.
Proof.
  unfold RECURSIVE_PT_BASE. intros Hwf Hva. unfold unmap_page.
  destruct (page_of (mem m) D (va / 4096)) as [f|] eqn:Hf.
  - intros Hdf. destruct (unmap_page_locked_ok m D A va f) as (m' & -> & Hwf' & (Hn & Ho & _) & _);
      [done|lia|dlia|done|done|].
    pose proof (flush_remote_wf _ _ _ Hwf') as Hwf2. cbn [mbind res_bind].
    exists (flush_remote_tlbs m'). split_and!; [done|done| |].
    + replace va with (4096 * (va / 4096) + va mod 4096) by dlia.
      eapply access_fault; [done|dlia|dlia|done].
    + intros q Hq Hne. apply Ho; [lia|done|dlia].
  - destruct (unmap_absent_ok m D A va) as (t & -> & Hwf'); [done|lia|done|].
    cbn [mbind res_bind]. eexists. split_and!; [done|by apply flush_remote_wf|done].
Qed.

Lemma unmap_page_exact_witness :
  ∃ (m m' : machine pmm) D A f, page_of (mem m) D 0x1000 = Some f ∧ f ∈ A
    ∧ unmap_page 0x1000000 m = Ok m' ∧ wf m' D (A ∖ {[f]}) ∧ translate 0x1000000 m' = Fault 0x1000000.
Proof.
  destruct started_data as (m & D & A & f & Hwf & _ & _ & Hdf & Hp).
  pose proof (unmap_page_exact m D A 0x1000000 Hwf ltac:(vm_compute; split; congruence)) as Hu.
  change (0x1000000 / 4096) with 0x1000 in Hu. rewrite Hp in Hu.
  destruct (Hu Hdf) as (m' & E & Hwf' & Ht & _).
  exists m, m', D, A, f. split_and!; [done|apply Hdf|done..].
Defined.

(** Unmapping an identity mapping gives the frame to the allocator. The
    ACPI and APIC code maps firmware pages with [map_identity_page] and drops
    them with [unmap_page]; afterwards the firmware's frame, reserved and never
    allocated by the kernel, is free and can be handed out. *)
Theorem unmap_identity_frees_reserved {S} `{FrameAllocator S} (m : machine S) D A f :
  wf m D A → data_frame (mem m) D A f → 0 ≤ f < 0xFFC00 → Z.of_nat (size A) < 2 ^ 20 →
  ∃ m1 m2 A2, map_identity_page (4096 * f) 3 m = Ok m1
    ∧ unmap_page (4096 * f) m1 = Ok m2 ∧ fa_inv (frames m2) A2 ∧ f ∈ A ∧ f ∉ A2.
Proof.
  intros Hwf Hdf Hf Hsz. unfold map_identity_page, map_page.
  assert (4096 * f / 4096 = f) as Ef by dlia.
  destruct (map_page_locked_ok m D A (4096 * f) (4096 * f) 3)
    as (m1 & A1 & -> & Hwf1 & _ & (Hp & _) & Hdf1);
    [done|lia|dlia|lia|right; by eapply alloc_possible|]. cbn [mbind res_bind].
  rewrite Ef in *. change (Z.testbit 3 0) with true in Hp. cbv iota in Hp.
  pose proof (flush_remote_wf _ _ _ Hwf1) as Hwf1'. unfold unmap_page.
  destruct (unmap_page_locked_ok (flush_remote_tlbs m1) D A1 (4096 * f) f)
    as (m2 & E2 & Hwf2 & _); [done|lia|dlia|by rewrite Ef|by apply Hdf1|].
  exists (flush_remote_tlbs m1), (flush_remote_tlbs m2), (A1 ∖ {[f]}).
  rewrite E2. split_and!; [done|done|apply Hwf2|apply Hdf|set_solver].
Qed.

Lemma unmap_identity_frees_reserved_witness :
  ∃ (m m1 m2 : machine pmm) (A A2 : gset Z) f, map_identity_page (4096 * f) 3 m = Ok m1
    ∧ unmap_page (4096 * f) m1 = Ok m2 ∧ fa_inv (frames m2) A2 ∧ f ∈ A ∧ f ∉ A2.
Proof.
  destruct started_data as (m & D & A & f & Hwf & Hsz & Hf & Hdf & _).
  destruct (unmap_identity_frees_reserved m D A f Hwf Hdf) as (m1 & m2 & A2 & H);
    [lia|lia|]. exists m, m1, m2, A, A2, f. exact H.
Defined.
