(* ===== verification/Slots.v ===== *)
(** Fixed-capacity containers: klibcpp/static_slot.hpp, static_array.hpp and
    slot_iterator.hpp.

    A slot is its two fields: [ptr_], here the object it points to ([None] is
    [nullptr]), and the flag [constructed_].  References and pointers into a
    [StaticArray] are slot indices, since an object lives in the storage of its
    slot.  Destroyed objects are returned, so that theorems can speak of the
    destructor calls. *)
From S2P Require Import Prelude.

Record StaticSlot (T : Type) := Slot { ptr_ : option T; constructed_ : bool }.
Arguments Slot {T} _ _.
Arguments ptr_ {T} _.
Arguments constructed_ {T} _.

(** ** StaticSlot *)
Module Slot_.
Section Slot.
Context {T : Type}.

Definition fresh : StaticSlot T := Slot None false.

Definition construct (v : T) (s : StaticSlot T) : res (StaticSlot T) :=
  if constructed_ s then Panic "StaticSlot::construct(): already constructed"
  else Ok (Slot (Some v) true).

(** [ptr_->~T()] needs an object behind the pointer. *)
Definition destroy (s : StaticSlot T) : res (T * StaticSlot T) :=
  match ptr_ s with
  | Some v => Ok (v, Slot None false)
  | None => Fault 0
  end.

Definition destruct (s : StaticSlot T) : res (T * StaticSlot T) :=
  if constructed_ s then destroy s else Panic "StaticSlot::destruct(): not constructed".

Definition try_destruct (s : StaticSlot T) : res (bool * StaticSlot T) :=
  if constructed_ s then '(_, s) ← destroy s; Ok (true, s) else Ok (false, s).

Definition reconstruct (v : T) (s : StaticSlot T) : res (StaticSlot T) :=
  if constructed_ s then '(_, s) ← destruct s; construct v s else construct v s.

Definition get (s : StaticSlot T) : res T :=
  if constructed_ s then match ptr_ s with Some v => Ok v | None => Fault 0 end
  else Panic "StaticSlot::get(): not constructed".

Definition ptr_if_constructed (s : StaticSlot T) : option T :=
  if constructed_ s then ptr_ s else None.
End Slot.
End Slot_.

(** ** StaticArray *)

Record StaticArray (T : Type) := SArray { slots_ : list (StaticSlot T); live_count_ : Z }.
Arguments SArray {T} _ _.
Arguments slots_ {T} _.
Arguments live_count_ {T} _.

Definition npos : Z := u32 (-1).

Section Array.
Context {T : Type}.
Implicit Types a : StaticArray T.

(** The template parameter [N] is the length of [slots_]. *)
Definition capacity a : Z := Z.of_nat (length (slots_ a)).
Definition array_init (N : Z) : StaticArray T :=
  SArray (replicate (Z.to_nat N) Slot_.fresh) 0.

Definition slot_at a (i : Z) : option (StaticSlot T) :=
  if i <? 0 then None else slots_ a !! Z.to_nat i.

Definition live_count a : Z := live_count_ a.
Definition empty a : bool := live_count_ a =? 0.
Definition full a : bool := live_count_ a =? capacity a.

Definition occupied a (index : Z) : bool :=
  if capacity a <=? index then false
  else match slot_at a index with Some s => constructed_ s | None => false end.

Definition ptr a (index : Z) : option T :=
  if capacity a <=? index then None
  else match slot_at a index with Some s => Slot_.ptr_if_constructed s | None => None end.

Definition get a (index : Z) : res T :=
  match ptr a index with
  | Some v => Ok v
  | None => Panic "StaticArray::get: invalid slot"
  end.

Fixpoint free_slot_from (ss : list (StaticSlot T)) (i : Z) : Z :=
  match ss with
  | [] => npos
  | s :: ss => if constructed_ s then free_slot_from ss (i + 1) else i
  end.
Definition find_free_slot a : Z := free_slot_from (slots_ a) 0.
Definition first_free_slot a : Z := free_slot_from (slots_ a) 0.

(** [slots_[idx].construct(..)], [++live_count_]; the result is the index. *)
Definition construct_at a (idx : Z) (v : T) : res (Z * StaticArray T) :=
  match slot_at a idx with
  | Some s => s ← Slot_.construct v s;
              Ok (idx, SArray (<[Z.to_nat idx := s]> (slots_ a)) (u32 (live_count_ a + 1)))
  | None => Fault idx
  end.

Definition emplace (v : T) a : res (Z * StaticArray T) :=
  let idx := find_free_slot a in
  if capacity a <=? idx then Panic "StaticArray full" else construct_at a idx v.

Definition emplace_at (index : Z) (v : T) a : res (Z * StaticArray T) :=
  if capacity a <=? index then Panic "StaticArray::emplace_at: index out of range"
  else match slot_at a index with
       | None => Fault index
       | Some s =>
           if constructed_ s then Panic "StaticArray::emplace_at: slot already occupied"
           else construct_at a index v
       end.

Definition erase (index : Z) a : res (bool * StaticArray T) :=
  if capacity a <=? index then Ok (false, a)
  else match slot_at a index with
       | None => Fault index
       | Some s =>
           if negb (constructed_ s) then Ok (false, a)
           else '(_, s) ← Slot_.destruct s;
                Ok (true, SArray (<[Z.to_nat index := s]> (slots_ a)) (u32 (live_count_ a - 1)))
       end.

(** The loop of [clear]; [dead] are the objects destroyed, in order. *)
Fixpoint clear_slots (ss : list (StaticSlot T)) : res (list T * list (StaticSlot T)) :=
  match ss with
  | [] => Ok ([], [])
  | s :: ss =>
      if constructed_ s then
        '(v, s) ← Slot_.destruct s; '(dead, ss) ← clear_slots ss; Ok (v :: dead, s :: ss)
      else '(dead, ss) ← clear_slots ss; Ok (dead, s :: ss)
  end.

Definition clear a : res (list T * StaticArray T) :=
  '(dead, ss) ← clear_slots (slots_ a); Ok (dead, SArray ss 0).

(** [obj] points to the object of slot [j], or elsewhere ([j] is no slot). *)
Fixpoint index_from (ss : list (StaticSlot T)) (i j : Z) : Z :=
  match ss with
  | [] => npos
  | s :: ss => if constructed_ s && (i =? j) then i else index_from ss (i + 1) j
  end.
Definition index_of (obj : option Z) a : Z :=
  match obj with
  | None => npos
  | Some j => index_from (slots_ a) 0 j
  end.
Definition contains (obj : option Z) a : bool := negb (index_of obj a =? npos).

(** ** Iterators: the index of the slot *)

Fixpoint skip_invalid (fuel : nat) a (index : Z) : res Z :=
  if (index <? capacity a) && negb (occupied a index) then
    match fuel with
    | O => NoFuel
    | S fuel => skip_invalid fuel a (u32 (index + 1))
    end
  else Ok index.

(** The bound on the steps: no more than the capacity. *)
Definition skip a (index : Z) : res Z := skip_invalid (length (slots_ a)) a index.

Definition begin a : res Z := skip a 0.
Definition end_ a : res Z := skip a (capacity a).
Definition next a (index : Z) : res Z := skip a (u32 (index + 1)).
(** [*it]: [ptr] may be null only for the end iterator. *)
Definition deref a (index : Z) : res T :=
  match ptr a index with Some v => Ok v | None => Fault index end.

(** [for (T& x : array)]: what the loop visits. *)
Fixpoint visit (fuel : nat) a (it stop : Z) : res (list T) :=
  if it =? stop then Ok []
  else match fuel with
       | O => NoFuel
       | S fuel => v ← deref a it; it ← next a it; vs ← visit fuel a it stop; Ok (v :: vs)
       end.

Definition for_each a : res (list T) :=
  b ← begin a; e ← end_ a; visit (length (slots_ a)) a b e.

(** ** Specification: a partial map from indices *)

Definition slot_ok (s : StaticSlot T) : Prop := constructed_ s = bool_decide (is_Some (ptr_ s)).

(** The objects by slot. *)
Definition view a : list (option T) := ptr_ <$> slots_ a.

Fixpoint live (os : list (option T)) : nat :=
  match os with [] => 0 | o :: os => (if o is Some _ then 1 else 0) + live os end.

Record array_ok (N : Z) a : Prop := {
  ok_slots : Forall slot_ok (slots_ a);
  ok_len : length (slots_ a) = Z.to_nat N;
  ok_live : live_count_ a = Z.of_nat (live (view a));
  ok_cap : 0 ≤ N < 2 ^ 32 - 1
}.

Fixpoint first_none (os : list (option T)) : option nat :=
  match os with
  | [] => None
  | None :: _ => Some 0%nat
  | Some _ :: os => S <$> first_none os
  end.
End Array.

Section Lemmas.
Context {T : Type}.
Implicit Types a : StaticArray T.
Implicit Types os : list (option T).

Lemma live_le os : (live os ≤ length os)%nat.
Proof. induction os as [|[?|] os IH]; simpl; lia. Qed.

Lemma live_insert os i o : os !! i = Some None →
  live (<[i := Some o]> os) = S (live os).
Proof.
  revert i. induction os as [|x os IH]; intros [|i] H; simpl in *; try done.
  - by injection H as ->.
  - rewrite IH by done. lia.
Qed.

Lemma live_delete os i o : os !! i = Some (Some o) → S (live (<[i := None]> os)) = live os.
Proof.
  revert i. induction os as [|x os IH]; intros [|i] H; simpl in *; try done.
  - by injection H as ->.
  - rewrite <- (IH i H). lia.
Qed.

Lemma first_none_None os : first_none os = None ↔ live os = length os.
Proof.
  induction os as [|[?|] os IH]; simpl; [done| |].
  - rewrite fmap_None. rewrite IH. lia.
  - pose proof (live_le os). split; [done|lia].
Qed.

Lemma first_none_Some os i : first_none os = Some i →
  os !! i = Some None ∧ ∀ j, (j < i)%nat → ∃ v, os !! j = Some (Some v).
Proof.
  revert i. induction os as [|[v|] os IH]; intros i H; simpl in *; [done| |].
  - apply fmap_Some in H as (k & Hk & ->). destruct (IH k Hk) as [H1 H2]. split; [done|].
    intros [|j] Hj; [by exists v|]. apply H2. lia.
  - injection H as <-. split; [done|]. intros j Hj. lia.
Qed.

Lemma view_lookup a i s : slots_ a !! i = Some s → view a !! i = Some (ptr_ s).
Proof. intros H. unfold view. by rewrite list_lookup_fmap, H. Qed.

Lemma free_slot_from_spec (ss : list (StaticSlot T)) : ∀ i,
  Forall slot_ok ss →
  free_slot_from ss i = match first_none (ptr_ <$> ss) with Some k => i + Z.of_nat k | None => npos end.
Proof.
  induction ss as [|s ss IH]; intros i H; simpl; [done|].
  inversion H as [|?? Hs Hss]; subst. red in Hs. rewrite Hs. destruct (ptr_ s); simpl.
  - rewrite IH by done. destruct (first_none _); simpl; [lia|done].
  - lia.
Qed.

Section Ok.
Context (N : Z) (a : StaticArray T) (Ha : array_ok N a).

Lemma capacity_eq : capacity a = N.
Proof. destruct Ha. unfold capacity. rewrite ok_len0. lia. Qed.

Lemma view_length : length (view a) = Z.to_nat N.
Proof. unfold view. rewrite length_fmap. apply Ha. Qed.

Lemma slot_at_in i : 0 ≤ i < N → ∃ s, slot_at a i = Some s ∧ slots_ a !! Z.to_nat i = Some s
  ∧ slot_ok s ∧ view a !! Z.to_nat i = Some (ptr_ s).
Proof.
  intros Hi. destruct (lookup_lt_is_Some_2 (slots_ a) (Z.to_nat i)) as [s Hs].
  { rewrite (ok_len _ _ Ha). lia. }
  exists s. unfold slot_at. rewrite (proj2 (Z.ltb_ge _ _)) by lia. split_and!; [done..| |].
  - eapply Forall_lookup_1; [apply Ha|done].
  - by apply view_lookup.
Qed.

Lemma array_ok_update i s' d :
  0 ≤ i < N → slot_ok s' →
  Z.of_nat (live (<[Z.to_nat i := ptr_ s']> (view a))) = live_count_ a + d →
  let a' := SArray (<[Z.to_nat i := s']> (slots_ a)) (u32 (live_count_ a + d)) in
  array_ok N a' ∧ view a' = <[Z.to_nat i := ptr_ s']> (view a).
Proof.
  intros Hi Hs Hl. pose proof (live_le (<[Z.to_nat i := ptr_ s']> (view a))) as Hle.
  rewrite length_insert, view_length in Hle. pose proof (ok_cap _ _ Ha).
  assert (view (SArray (<[Z.to_nat i := s']> (slots_ a)) (u32 (live_count_ a + d)))
          = <[Z.to_nat i := ptr_ s']> (view a)) as Hv.
  { unfold view. simpl. by rewrite list_fmap_insert. }
  split; [|done]. split; simpl; [| | |done].
  - apply Forall_insert; [apply Ha|done].
  - rewrite length_insert. apply Ha.
  - rewrite Hv, Hl, u32_small by lia. done.
Qed.

Lemma construct_at_ok i v :
  0 ≤ i < N → view a !! Z.to_nat i = Some None →
  ∃ a', construct_at a i v = Ok (i, a') ∧ array_ok N a' ∧ view a' = <[Z.to_nat i := Some v]> (view a).
Proof.
  intros Hi Hv. destruct (slot_at_in i Hi) as (s & E & Es & Hok & Hvs). unfold construct_at.
  rewrite E. assert (ptr_ s = None) as Hp by congruence. red in Hok. rewrite Hp in Hok.
  unfold Slot_.construct. rewrite Hok. simpl. eexists. split; [done|].
  apply (array_ok_update i (Slot (Some v) true)); [done|done|].
  cbn [ptr_]. rewrite live_insert by done. rewrite (ok_live _ _ Ha). lia.
Qed.

Lemma full_iff : full a = true ↔ first_none (view a) = None.
Proof.
  unfold full. rewrite Z.eqb_eq, first_none_None, view_length, capacity_eq, (ok_live _ _ Ha).
  pose proof (ok_cap _ _ Ha). lia.
Qed.

Lemma emplace_ok v :
  match first_none (view a) with
  | Some i => ∃ a', emplace v a = Ok (Z.of_nat i, a') ∧ array_ok N a'
                ∧ view a' = <[i := Some v]> (view a)
  | None => emplace v a = Panic "StaticArray full"
  end.
Proof.
  unfold emplace, find_free_slot. rewrite free_slot_from_spec, capacity_eq by apply Ha.
  fold (view a). pose proof (ok_cap _ _ Ha). destruct (first_none (view a)) as [i|] eqn:E.
  - apply first_none_Some in E as [Hi _]. pose proof (lookup_lt_Some _ _ _ Hi) as Hlt.
    rewrite view_length in Hlt. rewrite Z.add_0_l, (proj2 (Z.leb_gt _ _)) by lia.
    destruct (construct_at_ok (Z.of_nat i) v) as (a' & Ea & Hok & Hv); [lia|by rewrite Nat2Z.id|].
    rewrite Nat2Z.id in Hv. eauto.
  - unfold npos. change (u32 (-1)) with (2 ^ 32 - 1). by rewrite (proj2 (Z.leb_le _ _)) by lia.
Qed.

Lemma emplace_at_ok i v :
  0 ≤ i < N → view a !! Z.to_nat i = Some None →
  ∃ a', emplace_at i v a = Ok (i, a') ∧ array_ok N a' ∧ view a' = <[Z.to_nat i := Some v]> (view a).
Proof.
  intros Hi Hv. destruct (slot_at_in i Hi) as (s & E & Es & Hok & Hvs).
  unfold emplace_at. rewrite capacity_eq, (proj2 (Z.leb_gt _ _)), E by lia.
  assert (ptr_ s = None) as Hp by congruence. red in Hok. rewrite Hok, Hp. simpl.
  by apply construct_at_ok.
Qed.

Lemma erase_ok i :
  0 ≤ i →
  match view a !! Z.to_nat i with
  | Some (Some _) => ∃ a', erase i a = Ok (true, a') ∧ array_ok N a'
                       ∧ view a' = <[Z.to_nat i := None]> (view a)
  | _ => erase i a = Ok (false, a)
  end.
Proof.
  intros Hi. unfold erase. rewrite capacity_eq. pose proof (ok_cap _ _ Ha).
  destruct (Z.leb_spec N i).
  { rewrite (proj2 (lookup_ge_None _ _)); [done|]. rewrite view_length. lia. }
  destruct (slot_at_in i) as (s & E & Es & Hok & Hvs); [lia|]. rewrite E, Hvs.
  red in Hok. rewrite Hok. destruct (ptr_ s) as [v|] eqn:Hp; [|done]. simpl.
  unfold Slot_.destruct, Slot_.destroy. rewrite Hok, Hp. simpl.
  eexists. split; [done|]. replace (live_count_ a - 1) with (live_count_ a + -1) by lia.
  apply (array_ok_update i (Slot None false)); [lia|done|]. simpl.
  rewrite (ok_live _ _ Ha), <- (live_delete _ _ _ Hvs). lia.
Qed.

Lemma ptr_view i : 0 ≤ i → ptr a i = mjoin (view a !! Z.to_nat i).
Proof.
  intros Hi. unfold ptr. rewrite capacity_eq. pose proof (ok_cap _ _ Ha).
  destruct (Z.leb_spec N i).
  { rewrite (proj2 (lookup_ge_None _ _)); [done|]. rewrite view_length. lia. }
  destruct (slot_at_in i) as (s & E & Es & Hok & Hvs); [lia|]. rewrite E, Hvs.
  unfold Slot_.ptr_if_constructed. red in Hok. rewrite Hok. by destruct (ptr_ s).
Qed.

Lemma occupied_view i : 0 ≤ i → occupied a i = bool_decide (is_Some (mjoin (view a !! Z.to_nat i))).
Proof.
  intros Hi. unfold occupied. rewrite capacity_eq. pose proof (ok_cap _ _ Ha).
  destruct (Z.leb_spec N i).
  { rewrite (proj2 (lookup_ge_None _ _)); [done|]. rewrite view_length. lia. }
  destruct (slot_at_in i) as (s & E & Es & Hok & Hvs); [lia|]. rewrite E, Hvs. exact Hok.
Qed.
End Ok.

Lemma clear_slots_ok (ss : list (StaticSlot T)) :
  Forall slot_ok ss →
  ∃ ss', clear_slots ss = Ok (omap id (ptr_ <$> ss), ss') ∧ Forall slot_ok ss'
         ∧ ptr_ <$> ss' = replicate (length ss) None.
Proof.
  induction 1 as [|s ss Hs Hss (ss' & E & Hok & Hv)]; simpl; [by exists []|].
  red in Hs. rewrite Hs. destruct (ptr_ s) as [v|] eqn:Hp; simpl.
  - unfold Slot_.destruct, Slot_.destroy. rewrite Hs, Hp. simpl. rewrite E. simpl.
    eexists. split; [done|]. split; [by constructor|]. by rewrite fmap_cons, Hv.
  - rewrite E. simpl. eexists. split; [done|]. split; [constructor; [|done]|].
    + red. by rewrite Hs, Hp.
    + by rewrite fmap_cons, Hp, Hv.
Qed.

Lemma live_replicate n : live (replicate n (None : option T)) = 0%nat.
Proof. induction n; simpl; lia. Qed.

Lemma array_clear_ok N a :
  array_ok N a →
  ∃ a', clear a = Ok (omap id (view a), a') ∧ array_ok N a' ∧ view a' = replicate (Z.to_nat N) None.
Proof.
  intros Ha. destruct (clear_slots_ok (slots_ a)) as (ss' & E & Hok & Hv); [apply Ha|].
  unfold clear. rewrite E. simpl. eexists. split; [done|]. rewrite (ok_len _ _ Ha) in Hv.
  split; [|exact Hv]. split; simpl; [done| | |apply Ha].
  - rewrite <- (length_fmap ptr_), Hv, length_replicate. done.
  - unfold view. simpl. by rewrite Hv, live_replicate.
Qed.

Lemma array_init_ok N : 0 ≤ N < 2 ^ 32 - 1 →
  array_ok N (array_init N : StaticArray T) ∧ view (array_init N : StaticArray T) = replicate (Z.to_nat N) None.
Proof.
  intros HN. assert (view (array_init N : StaticArray T) = replicate (Z.to_nat N) None) as Hv.
  { unfold view. simpl. by rewrite fmap_replicate. }
  split; [|done]. split; [|simpl; by rewrite length_replicate|by rewrite Hv, live_replicate|done].
  apply Forall_replicate. done.
Qed.
End Lemmas.

(** ** Iteration *)
Section Iteration.
Context {T : Type} (N : Z) (a : StaticArray T) (Ha : array_ok N a).

(** The objects from slot [i] on. *)
Let rest (i : Z) : list T := omap id (drop (Z.to_nat i) (view a)).

Lemma rest_end i : N ≤ i → rest i = [].
Proof.
  intros Hi. unfold rest. rewrite drop_ge; [done|]. rewrite (view_length N a Ha). lia.
Qed.

Lemma rest_step i o :
  0 ≤ i → view a !! Z.to_nat i = Some o →
  rest i = match o with Some v => v :: rest (i + 1) | None => rest (i + 1) end.
Proof.
  intros Hi Ho. unfold rest. rewrite (drop_S _ _ _ Ho), Z2Nat.inj_add by lia.
  rewrite Nat.add_1_r. by destruct o.
Qed.

Lemma view_at i : 0 ≤ i < N → ∃ o, view a !! Z.to_nat i = Some o.
Proof. intros Hi. apply lookup_lt_is_Some_2. rewrite (view_length N a Ha). lia. Qed.

(** [skip_invalid] stops at the next object, or at the end. *)
Lemma skip_invalid_ok : ∀ fuel i,
  0 ≤ i ≤ N → N - i ≤ Z.of_nat fuel →
  ∃ j, skip_invalid fuel a i = Ok j ∧ i ≤ j ≤ N ∧ rest i = rest j
       ∧ (j < N → ∃ v, view a !! Z.to_nat j = Some (Some v)).
Proof.
  pose proof (ok_cap _ _ Ha) as Hcap.
  induction fuel as [|fuel IH]; intros i Hi Hf; cbn [skip_invalid];
    rewrite (capacity_eq N a Ha), (occupied_view N a Ha) by lia.
  { rewrite (proj2 (Z.ltb_ge _ _)) by lia. exists i. split_and!; [done|lia..|done|lia]. }
  destruct (Z.ltb_spec i N) as [Hlt|Hge]; [|exists i; split_and!; [done|lia..|done|lia]].
  destruct (view_at i) as [o Ho]; [lia|]. rewrite Ho. destruct o as [v|]; simpl.
  { exists i. split_and!; [done|lia..|done|by exists v]. }
  rewrite u32_small by lia. destruct (IH (i + 1)) as (j & -> & Hj & Hr & Hv); [lia..|].
  exists j. split_and!; [done|lia..| |done]. rewrite <- Hr. apply (rest_step i None); [lia|done].
Qed.

Lemma skip_ok i :
  0 ≤ i ≤ N →
  ∃ j, skip a i = Ok j ∧ i ≤ j ≤ N ∧ rest i = rest j
       ∧ (j < N → ∃ v, view a !! Z.to_nat j = Some (Some v)).
Proof.
  intros Hi. apply skip_invalid_ok; [done|]. rewrite (ok_len _ _ Ha). lia.
Qed.

Lemma visit_ok : ∀ fuel i,
  0 ≤ i ≤ N → N - i ≤ Z.of_nat fuel → (i < N → ∃ v, view a !! Z.to_nat i = Some (Some v)) →
  visit fuel a i N = Ok (rest i).
Proof.
  pose proof (ok_cap _ _ Ha) as Hcap.
  induction fuel as [|fuel IH]; intros i Hi Hf Hv; cbn [visit].
  { destruct (Z.eqb_spec i N) as [->|]; [by rewrite rest_end|lia]. }
  destruct (Z.eqb_spec i N) as [->|]; [by rewrite rest_end|].
  destruct Hv as [v Hv]; [lia|]. unfold deref. rewrite (ptr_view N a Ha), Hv by lia. simpl.
  unfold next. rewrite u32_small by lia.
  destruct (skip_ok (i + 1)) as (j & -> & Hj & Hr & Hv'); [lia|]. simpl.
  rewrite IH by (done || lia). simpl. by rewrite (rest_step i (Some v)), Hr by (done || lia).
Qed.

Lemma for_each_ok : for_each a = Ok (omap id (view a)).
Proof.
  pose proof (ok_cap _ _ Ha). unfold for_each, begin, end_. rewrite (capacity_eq N a Ha).
  destruct (skip_ok 0) as (j & -> & Hj & Hr & Hv); [lia|]. simpl.
  destruct (skip_ok N) as (e & -> & He & _ & _); [lia|]. simpl. assert (e = N) as -> by lia.
  rewrite visit_ok; [by rewrite <- Hr|lia|rewrite (ok_len _ _ Ha); lia|done].
Qed.
End Iteration.

(** ** The container as a partial map *)

Inductive array_op (T : Type) := Emplace (v : T) | EmplaceAt (i : Z) (v : T) | Erase (i : Z) | Clear.
Arguments Emplace {T} _. Arguments EmplaceAt {T} _ _. Arguments Erase {T} _. Arguments Clear {T}.

Definition op_ok {T} (o : array_op T) : Prop :=
  match o with EmplaceAt i _ | Erase i => 0 ≤ i | _ => True end.

Definition run_op {T} (o : array_op T) (a : StaticArray T) : res (StaticArray T) :=
  match o with
  | Emplace v => '(_, a) ← emplace v a; Ok a
  | EmplaceAt i v => '(_, a) ← emplace_at i v a; Ok a
  | Erase i => '(_, a) ← erase i a; Ok a
  | Clear => '(_, a) ← clear a; Ok a
  end.

Fixpoint run_ops {T} (ops : list (array_op T)) (a : StaticArray T) : res (StaticArray T) :=
  match ops with [] => Ok a | o :: ops => a ← run_op o a; run_ops ops a end.

(** The same operations on a list of optional objects; [None] is a panic. *)
Definition spec_op {T} (o : array_op T) (os : list (option T)) : option (list (option T)) :=
  match o with
  | Emplace v => i ← first_none os; Some (<[i := Some v]> os)
  | EmplaceAt i v =>
      match os !! Z.to_nat i with Some None => Some (<[Z.to_nat i := Some v]> os) | _ => None end
  | Erase i => Some (<[Z.to_nat i := None]> os)
  | Clear => Some (replicate (length os) None)
  end.

Fixpoint spec_ops {T} (ops : list (array_op T)) (os : list (option T)) : option (list (option T)) :=
  match ops with [] => Some os | o :: ops => os ← spec_op o os; spec_ops ops os end.

Lemma run_op_refines {T} N (o : array_op T) a :
  array_ok N a → op_ok o →
  match spec_op o (view a) with
  | Some os => ∃ a', run_op o a = Ok a' ∧ array_ok N a' ∧ view a' = os
  | None => ∃ msg, run_op o a = Panic msg
  end.
Proof.
  intros Ha Ho. destruct o as [v|i v|i|]; simpl in *.
  - pose proof (emplace_ok N a Ha v) as He. destruct (first_none (view a)) as [i|]; simpl.
    + destruct He as (a' & -> & Hok & Hv). simpl. eauto.
    + rewrite He. simpl. eauto.
  - destruct (view a !! Z.to_nat i) as [[w|]|] eqn:Hi.
    + assert (i < N) by (apply lookup_lt_Some in Hi; rewrite (view_length N a Ha) in Hi; lia).
      destruct (slot_at_in N a Ha i) as (s & E & Es & Hok & Hvs); [lia|].
      unfold emplace_at. rewrite (capacity_eq N a Ha), (proj2 (Z.leb_gt _ _)), E by lia.
      assert (ptr_ s = Some w) as Hp by congruence. red in Hok. rewrite Hok, Hp. simpl. eauto.
    + assert (i < N) by (apply lookup_lt_Some in Hi; rewrite (view_length N a Ha) in Hi; lia).
      destruct (emplace_at_ok N a Ha i v) as (a' & -> & Hok & Hv); [lia|done|]. simpl. eauto.
    + apply lookup_ge_None in Hi. rewrite (view_length N a Ha) in Hi.
      unfold emplace_at. rewrite (capacity_eq N a Ha), (proj2 (Z.leb_le _ _)) by lia. simpl. eauto.
  - pose proof (erase_ok N a Ha i Ho) as He. destruct (view a !! Z.to_nat i) as [[w|]|] eqn:Hi.
    + destruct He as (a' & -> & Hok & Hv). simpl. eauto.
    + rewrite He. simpl. exists a. by rewrite list_insert_id.
    + rewrite He. simpl. exists a. split_and!; [done..|]. symmetry. apply list_insert_ge.
      by apply lookup_ge_None.
  - destruct (array_clear_ok N a Ha) as (a' & -> & Hok & Hv). simpl. exists a'.
    rewrite (view_length N a Ha). done.
Qed.

Lemma run_ops_refines {T} N (ops : list (array_op T)) : ∀ a,
  array_ok N a → Forall op_ok ops →
  match spec_ops ops (view a) with
  | Some os => ∃ a', run_ops ops a = Ok a' ∧ array_ok N a' ∧ view a' = os
  | None => ∃ msg, run_ops ops a = Panic msg
  end.
Proof.
  induction ops as [|o ops IH]; intros a Ha Ho; simpl; [eauto|].
  inversion Ho as [|?? Ho1 Ho2]; subst.
  pose proof (run_op_refines N o a Ha Ho1) as H. destruct (spec_op o (view a)) as [os|]; simpl.
  - destruct H as (a1 & -> & Ha1 & <-). simpl. by apply IH.
  - destruct H as [msg ->]. simpl. eauto.
Qed.

(** C21: a [StaticArray] implements a bounded partial map: after any sequence of
    [emplace], [emplace_at], [erase] and [clear] from a fresh array, the objects
    by slot are those of the specification (first free slot on [emplace]),
    [live_count] and [full] agree with them, [ptr] returns them, and the
    sequence panics exactly when the specification does (no free slot, an
    occupied or missing index). *)
Theorem static_array_refines {T} N (ops : list (array_op T)) :
  0 ≤ N < 2 ^ 32 - 1 → Forall op_ok ops →
  match spec_ops ops (replicate (Z.to_nat N) None) with
  | Some os => ∃ a, run_ops ops (array_init N) = Ok a
      ∧ (∀ i, 0 ≤ i → ptr a i = mjoin (os !! Z.to_nat i))
      ∧ live_count a = Z.of_nat (live os)
      ∧ full a = bool_decide (first_none os = None)
  | None => ∃ msg, run_ops ops (array_init N) = Panic msg
  end.
Proof.
  intros HN Ho. destruct (array_init_ok (T := T) N HN) as [Ha Hv].
  pose proof (run_ops_refines N ops _ Ha Ho) as H. rewrite Hv in H.
  destruct (spec_ops ops _) as [os|]; [|done]. destruct H as (a & E & Hok & <-).
  exists a. split_and!; [done| |apply Hok|].
  - intros i Hi. by apply (ptr_view N a Hok).
  - apply eq_bool_prop_intro. rewrite bool_decide_spec, <- (full_iff N a Hok). by rewrite Is_true_true.
Qed.

Lemma static_array_refines_witness :
  ∃ a, run_ops [Emplace 7; Emplace 8; Erase 0; EmplaceAt 3 9; Emplace 5] (array_init 4) = Ok a
    ∧ (∀ i, 0 ≤ i → ptr a i = mjoin ([Some 5; Some 8; None; Some 9] !! Z.to_nat i))
    ∧ live_count a = 3 ∧ full a = false.
Proof.
  apply (static_array_refines 4 [Emplace 7; Emplace 8; Erase 0; EmplaceAt 3 9; Emplace 5]).
  - lia.
  - repeat constructor; simpl; lia.
Defined.

(** A range-for over a [StaticArray] terminates and visits every live
    object exactly once, in slot order, skipping the holes. *)
Theorem iteration_visits_live {T} N (a : StaticArray T) :
  array_ok N a → for_each a = Ok (omap id (view a)).
Proof. apply for_each_ok. Qed.

Lemma iteration_visits_live_witness :
  array_ok 2 (SArray [Slot None false; Slot (Some 4) true] 1)
  ∧ for_each (SArray [Slot None false; Slot (Some 4) true] 1) = Ok [4].
Proof.
  assert (array_ok 2 (SArray [Slot None false; Slot (Some 4) true] 1)) as H.
  { split; [repeat constructor|done|done|lia]. }
  split; [exact H|]. exact (iteration_visits_live 2 _ H).
Defined.
