(* ===== verification/Interrupts.v ===== *)
(** Descriptor tables and interrupt dispatch: kernel/include/int/gdt.hpp,
    kernel/src/int/gdt.cpp, kernel/include/int/idt.hpp, kernel/src/int/idt.cpp
    and the interrupt controller of kernel/include/driver/pic.hpp.

    What an interrupt does to the outside is a world [W] with the operations of
    the class [Board]: a write to an I/O port, the end-of-interrupt of the
    local APIC, and a call of a registered handler.  Handlers are addresses. *)
From S2P Require Import Prelude Memory Stacks.

(** ** Segment descriptors *)
Module Gdt.
Record Entry := MkEntry {
  limit_low : Z; base_low : Z; base_middle : Z; access : Z; limit_high_flags : Z; base_high : Z
}.

(** The constructor: each field at its width. *)
Definition entry (base limit acc flags : Z) : Entry := {|
  limit_low := u16 (Z.land limit 0xFFFF);
  base_low := u16 (Z.land base 0xFFFF);
  base_middle := u8 (Z.land (Z.shiftr base 16) 0xFF);
  access := u8 acc;
  limit_high_flags := u8 (Z.lor (Z.land (Z.shiftr limit 16) 0x0F) (Z.shiftl flags 4));
  base_high := u8 (Z.land (Z.shiftr base 24) 0xFF)
|}.

Definition b2z (b : bool) : Z := if b then 1 else 0.

Definition KERNEL : Z := 0.
Definition USER : Z := 3.

Definition pack_access (is_code rw dc exec : bool) (dpl : Z) (present : bool) : Z :=
  u8 (Z.lor (Z.lor (Z.lor (Z.lor (Z.lor (Z.lor
    (Z.shiftl (b2z present) 7) (Z.shiftl dpl 5)) (Z.shiftl 1 4)) (Z.shiftl (b2z exec) 3))
    (Z.shiftl (b2z dc) 2)) (Z.shiftl (b2z rw) 1)) (b2z is_code)).

Definition pack_system_access (type dpl : Z) (present : bool) : Z :=
  u8 (Z.lor (Z.lor (Z.shiftl (b2z present) 7) (Z.shiftl dpl 5)) type).

Definition pack_flags (avail is_32bit granularity : bool) : Z :=
  u8 (Z.lor (Z.lor (Z.shiftl (b2z granularity) 3) (Z.shiftl (b2z is_32bit) 2)) (b2z avail)).

(** [sizeof(TSS)]: 25 words and two halves. *)
Definition TSS_size : Z := 25 * 4 + 2 * 2.

Definition bsp_gdt (bsp_tss : Z) : list Entry := [
  entry 0 0 0 0;
  entry 0 0xFFFFF (pack_access true true false true KERNEL true) (pack_flags false true true);
  entry 0 0xFFFFF (pack_access true true false false KERNEL true) (pack_flags false true true);
  entry 0 0xFFFFF (pack_access true true false true USER true) (pack_flags false true true);
  entry 0 0xFFFFF (pack_access true true false false USER true) (pack_flags false true true);
  entry bsp_tss (TSS_size - 1) (pack_system_access 0x9 USER true) (pack_flags false true true)].

(** [sizeof(bsp_gdt) - 1], 8 bytes per entry. *)
Definition ptr_limit (gdt : list Entry) : Z := u16 (8 * Z.of_nat (length gdt) - 1).

(** Selectors: byte offsets into the table. *)
Definition KERNEL_CODE : Z := Z.shiftl 1 3.
Definition KERNEL_DATA : Z := Z.shiftl 2 3.

(** What the processor reads from a descriptor. *)
Definition seg_base (e : Entry) : Z := base_low e + 2 ^ 16 * base_middle e + 2 ^ 24 * base_high e.
Definition seg_limit (e : Entry) : Z := limit_low e + 2 ^ 16 * (limit_high_flags e mod 16).
Definition seg_flags (e : Entry) : Z := limit_high_flags e / 16.
End Gdt.

(** ** Interrupt gates *)

Inductive InterruptFrameKind := Base | ContextSwitch.
Record ISRDescriptor := IsrDesc { isr_entry : Z; isr_kind : InterruptFrameKind; has_error_code : bool }.

Record IdtEntry := MkGate {
  offset_low : Z; selector : Z; zero : Z; type_attr : Z; offset_high : Z
}.

Definition set_offset (offset : Z) (e : IdtEntry) : IdtEntry :=
  MkGate (Z.land offset 0xFFFF) (selector e) (zero e) (type_attr e)
         (Z.land (Z.shiftr offset 16) 0xFFFF).

Definition PRESENT : Z := 0x80.
Definition INTERRUPT_GATE : Z := 0x0E.

Section Gates.
(** The addresses of the compiled wrappers, by vector. *)
Context (context_switch isr_wrapper_err isr_wrapper_no_err : Z → Z).

Definition get_isr_wrapper (N : Z) : ISRDescriptor :=
  if (N =? 32) || (N =? 48) then IsrDesc (context_switch N) ContextSwitch false
  else if existsb (Z.eqb N) [8; 10; 11; 12; 13; 14; 17; 21]
  then IsrDesc (isr_wrapper_err N) Base true
  else IsrDesc (isr_wrapper_no_err N) Base false.

Definition isr_table : list ISRDescriptor := get_isr_wrapper <$> seqZ 0 256.

Definition set_entry (vector handler flags sel : Z) (es : list IdtEntry) : list IdtEntry :=
  alter (λ e, let e := set_offset handler e in
              MkGate (offset_low e) sel (zero e) flags (offset_high e)) (Z.to_nat vector) es.

Fixpoint init_loop (i : Z) (n : nat) (es : list IdtEntry) : list IdtEntry :=
  match n with
  | O => es
  | S n =>
      let es := alter (λ e, MkGate (offset_low e) (selector e) 0 (type_attr e) (offset_high e))
                      (Z.to_nat i) es in
      let es := match isr_table !! Z.to_nat i with
                | Some d => set_entry i (isr_entry d) (Z.lor PRESENT INTERRUPT_GATE) 0x08 es
                | None => es
                end in
      init_loop (i + 1) n es
  end.

Definition idt_init (es : list IdtEntry) : list IdtEntry := init_loop 0 256 es.

(** Where the processor jumps for a gate. *)
Definition gate_target (e : IdtEntry) : Z := offset_low e + 2 ^ 16 * offset_high e.
End Gates.

(** ** The interrupt controller *)

Class Board (W : Type) := {
  outb : Z → Z → W → W;                (* write a byte to an I/O port *)
  lapic_eoi : W → W;                   (* EOI of the running core's local APIC *)
  call_isr : Z → Z → W → res W;        (* handler(err, ctx) *)
  call_irq : Z → W → res W             (* handler(ctx) *)
}.

Module Pic.
Definition PIC1_COMMAND : Z := 0x20.
Definition PIC1_DATA : Z := 0x21.
Definition PIC2_COMMAND : Z := 0xA0.
Definition PIC2_DATA : Z := 0xA1.
Definition ICW1_INIT : Z := 0x10.
Definition ICW1_ICW4 : Z := 0x01.
Definition ICW4_8086 : Z := 0x01.

Section Pic.
Context {W : Type} `{Board W}.

Definition io_wait (w : W) : W := outb 0x80 0 w.
Definition out_wait (port v : Z) (w : W) : W := io_wait (outb port v w).

(** [a1], [a2]: the masks read from the data ports. *)
Definition remap (offset1 offset2 a1 a2 : Z) (w : W) : W :=
  let w := out_wait PIC1_COMMAND (Z.lor ICW1_INIT ICW1_ICW4) w in
  let w := out_wait PIC2_COMMAND (Z.lor ICW1_INIT ICW1_ICW4) w in
  let w := out_wait PIC1_DATA offset1 w in
  let w := out_wait PIC2_DATA offset2 w in
  let w := out_wait PIC1_DATA 0x04 w in
  let w := out_wait PIC2_DATA 0x02 w in
  let w := out_wait PIC1_DATA ICW4_8086 w in
  let w := out_wait PIC2_DATA ICW4_8086 w in
  outb PIC2_DATA a2 (outb PIC1_DATA a1 w).

Definition EOI (irq : Z) (w : W) : W :=
  let w := if 8 <=? irq then outb PIC2_COMMAND 0x20 w else w in
  outb PIC1_COMMAND 0x20 w.

Definition disable (w : W) : W := outb PIC2_DATA 0xFF (outb PIC1_DATA 0xFF w).
End Pic.
End Pic.

(** ** Dispatch *)

Definition exception_messages : list string := [
  "Division by zero"; "Debug"; "Non-maskable interrupt"; "Breakpoint"; "Detected overflow";
  "Out of bounds"; "Invalid opcode"; "No coprocessor"; "Double fault";
  "Coprocessor segment overrun"; "Bad TSS"; "Segment not present"; "Stack fault";
  "General protection fault"; "Page fault"; "Unknown interrupt"; "Coprocessor fault";
  "Alignment check"; "Machine check"]%string.

Definition irq_messages : list string := [
  "PIT"; "Keyboard"; "Cascade"; "COM2/COM4"; "COM1/COM3"; "LPT2"; "Floppy"; "LPT1"; "RTC";
  "Not used"; "Not used"; "Not used"; "Mouse"; "Math coprocessor"; "ATA1"; "ATA2"]%string.

(** The two handler tables; 0 is [nullptr]. *)
Record handlers := Handlers { isr_handlers : list Z; irq_handlers : list Z }.

Definition no_handlers : handlers := Handlers (replicate 256 0) (replicate 16 0).

Definition register_isr (vector handler : Z) (h : handlers) : res handlers :=
  if decide (Z.to_nat vector < length (isr_handlers h))%nat
  then Ok (Handlers (<[Z.to_nat vector := handler]> (isr_handlers h)) (irq_handlers h))
  else Fault vector.
Definition register_irq (irq handler : Z) (h : handlers) : res handlers :=
  if decide (Z.to_nat irq < length (irq_handlers h))%nat
  then Ok (Handlers (isr_handlers h) (<[Z.to_nat irq := handler]> (irq_handlers h)))
  else Fault irq.
Definition unregister_isr (vector : Z) (h : handlers) : res handlers := register_isr vector 0 h.
Definition unregister_irq (irq : Z) (h : handlers) : res handlers := register_irq irq 0 h.

(** An array read with the index the code uses. *)
Definition index {A} (l : list A) (i : Z) : res A :=
  match l !! Z.to_nat i with Some x => Ok x | None => Fault i end.

(** [isr_handler] with its stack pointer [esp] in the memory [mem]: the anchor of the stack names the
    running core, if that is known. *)
Definition isr_handler {W} `{Board W} (h : handlers) (mem : ram) (esp no err : Z) (w : W) : res W :=
  anchor ← current_anchor mem esp;
  let current_core := anchor_core mem anchor in
  w ← (if (32 <=? no) && (no <? 48) then
         let irq := no - 32 in
         handler ← index (irq_handlers h) irq;
         w ← (if negb (handler =? 0) then call_irq handler w
              else _ ← index irq_messages irq; Ok w);
         Ok (Pic.EOI irq w)
       else
         handler ← index (isr_handlers h) no;
         if negb (handler =? 0) then call_isr handler err w
         else if no <? 32 then
           msg ← index exception_messages no; Panic ("Unhandled critical ISR: " +:+ msg)
         else Ok w);
  Ok (if negb (current_core =? 0) then lapic_eoi w else w).

(** ** Lemmas *)

Lemma land_FF v : Z.land v 0xFF = v mod 2 ^ 8.
Proof. exact (land_mask v 8 ltac:(lia)). Qed.
Lemma land_FFFF v : Z.land v 0xFFFF = v mod 2 ^ 16.
Proof. exact (land_mask v 16 ltac:(lia)). Qed.

Lemma seg_decode base limit acc flags :
  0 ≤ base < 2 ^ 32 → 0 ≤ limit < 2 ^ 20 → 0 ≤ acc < 256 → 0 ≤ flags < 16 →
  let e := Gdt.entry base limit acc flags in
  Gdt.seg_base e = base ∧ Gdt.seg_limit e = limit ∧ Gdt.access e = acc ∧ Gdt.seg_flags e = flags.
Proof.
  intros Hb Hl Ha Hf e. unfold e, Gdt.seg_base, Gdt.seg_limit, Gdt.seg_flags, Gdt.entry. simpl.
  rewrite !land_FFFF, !land_FF, !Z.shiftr_div_pow2, Z.shiftl_mul_pow2 by lia.
  change (Z.land (limit / 2 ^ 16) 15) with (Z.land (limit / 2 ^ 16) (2 ^ 4 - 1)).
  rewrite land_mask by lia. rewrite Z.lor_comm, (Z.mul_comm flags), lor_low by (try apply Z.mod_pos_bound; lia).
  unfold wrap. split_and!; dlia.
Qed.

Lemma gate_decode a e : 0 ≤ a < 2 ^ 32 → gate_target (set_offset a e) = a.
Proof.
  intros Ha. unfold gate_target, set_offset. simpl.
  rewrite !land_FFFF, Z.shiftr_div_pow2 by lia. dlia.
Qed.

Section Init.
Context (cs we wn : Z → Z).
Let tbl := isr_table cs we wn.

Definition gate_for (v : Z) : IdtEntry :=
  MkGate (Z.land (isr_entry (get_isr_wrapper cs we wn v)) 0xFFFF) 0x08 0 0x8E
         (Z.land (Z.shiftr (isr_entry (get_isr_wrapper cs we wn v)) 16) 0xFFFF).

Lemma isr_table_lookup v : 0 ≤ v < 256 → tbl !! Z.to_nat v = Some (get_isr_wrapper cs we wn v).
Proof.
  intros Hv. unfold tbl, isr_table. rewrite list_lookup_fmap, lookup_seqZ_lt by lia. simpl.
  do 2 f_equal. lia.
Qed.

Lemma init_loop_lookup : ∀ n i es v,
  0 ≤ i → i + Z.of_nat n ≤ 256 → length es = 256%nat → 0 ≤ v < 256 →
  init_loop cs we wn i n es !! Z.to_nat v
  = if decide (i ≤ v < i + Z.of_nat n) then Some (gate_for v) else es !! Z.to_nat v.
Proof.
  induction n as [|n IH]; intros i es v Hi Hn Hl Hv; cbn [init_loop].
  { rewrite decide_False by lia. done. }
  fold tbl. rewrite isr_table_lookup by lia. unfold set_entry.
  rewrite IH; [|lia|lia|by rewrite !length_alter|done].
  destruct (decide (v = i)) as [->|Hne].
  - rewrite (decide_False (P := i + 1 ≤ i < _)), decide_True by lia.
    rewrite !list_lookup_alter_eq. destruct (lookup_lt_is_Some_2 es (Z.to_nat i)) as [e ->]; [lia|reflexivity].
  - rewrite !list_lookup_alter_ne by lia.
    destruct (decide (i + 1 ≤ v < i + 1 + Z.of_nat n)); [rewrite decide_True by lia; done|].
    rewrite decide_False by lia. done.
Qed.
End Init.

(** Every gate of the interrupt table leads to the wrapper compiled for its
    vector: after [idt::init] the gate of vector [v] is a present ring-0
    interrupt gate in the kernel code segment whose offset decodes to the
    wrapper's address; the timer and the reschedule vector use the
    context-switch wrapper, and exactly the vectors for which the processor
    pushes an error code use the wrapper that pops one. *)
Theorem idt_init_gates cs we wn es v :
  (∀ n, 0 ≤ cs n < 2 ^ 32 ∧ 0 ≤ we n < 2 ^ 32 ∧ 0 ≤ wn n < 2 ^ 32) →
  length es = 256%nat → 0 ≤ v < 256 →
  ∃ g, idt_init cs we wn es !! Z.to_nat v = Some g
    ∧ gate_target g = (if decide (v = 32 ∨ v = 48) then cs v
                       else if decide (v ∈ [8; 10; 11; 12; 13; 14; 17; 21]) then we v else wn v)
    ∧ selector g = Gdt.KERNEL_CODE ∧ type_attr g = Z.lor PRESENT INTERRUPT_GATE ∧ zero g = 0.
Proof.
  intros Haddr Hl Hv. exists (gate_for cs we wn v). unfold idt_init.
  rewrite init_loop_lookup by lia. rewrite decide_True by lia. split_and!; [done| |done..].
  change (gate_target (gate_for cs we wn v)) with
    (gate_target (set_offset (isr_entry (get_isr_wrapper cs we wn v)) (MkGate 0 0x08 0 0x8E 0))).
  rewrite gate_decode.
  - unfold get_isr_wrapper. destruct (Z.eqb_spec v 32) as [->|]; [done|].
    destruct (Z.eqb_spec v 48) as [->|]; [done|]. cbn [orb].
    rewrite decide_False by tauto. destruct (existsb (Z.eqb v) _) eqn:E.
    + rewrite decide_True; [done|]. apply existsb_exists in E as (x & Hx & ->%Z.eqb_eq).
      by apply list_elem_of_In.
    + rewrite decide_False; [done|]. intros Hin%list_elem_of_In.
      rewrite (proj2 (existsb_exists _ _)) in E; [done|]. exists v. by rewrite Z.eqb_refl.
  - unfold get_isr_wrapper. destruct (_ || _); [apply Haddr|].
    destruct (existsb _ _); apply Haddr.
Qed.

Lemma idt_init_gates_witness :
  ∃ g, idt_init (λ v, 0xC0000000 + v) (λ v, 0xC0001000 + v) (λ v, 0xC0002000 + v)
         (replicate 256 (MkGate 0 0 0 0 0)) !! Z.to_nat 14 = Some g ∧ gate_target g = 0xC0001000 + 14.
Proof.
  destruct (idt_init_gates (λ v, 0xC0000000 + v mod 256) (λ v, 0xC0001000 + v mod 256)
    (λ v, 0xC0002000 + v mod 256) (replicate 256 (MkGate 0 0 0 0 0)) 14) as (g & Hg & Ht & _).
  - intros n. dlia.
  - reflexivity.
  - lia.
  - exists g. split; [exact Hg|exact Ht].
Defined.

(** The segment descriptors. The packed base and limit fields decode to the
    values the constructor was given, so the flat kernel and user segments of
    the table cover 4 GiB from 0, and the task-state descriptor points at the
    TSS. *)
Theorem gdt_roundtrip base limit acc flags :
  0 ≤ base < 2 ^ 32 → 0 ≤ limit < 2 ^ 20 → 0 ≤ acc < 256 → 0 ≤ flags < 16 →
  let e := Gdt.entry base limit acc flags in
  Gdt.seg_base e = base ∧ Gdt.seg_limit e = limit ∧ Gdt.access e = acc ∧ Gdt.seg_flags e = flags
  ∧ Gdt.ptr_limit (Gdt.bsp_gdt base) = 47
  ∧ ∃ t, Gdt.bsp_gdt base !! 5%nat = Some t ∧ Gdt.seg_base t = base
         ∧ Gdt.seg_limit t = Gdt.TSS_size - 1.
Proof.
  intros Hb Hl Ha Hf e. destruct (seg_decode base limit acc flags) as (?&?&?&?); [done..|].
  split_and!; [done..|]. eexists. split; [reflexivity|].
  destruct (seg_decode base (Gdt.TSS_size - 1) (Gdt.pack_system_access 0x9 Gdt.USER true)
    (Gdt.pack_flags false true true)) as (?&?&_); [done|vm_compute; split; congruence..|]. done.
Qed.

Lemma gdt_roundtrip_witness :
  Gdt.seg_base (Gdt.entry 0x00123456 0xABCDE 0x9A 0xC) = 0x00123456
  ∧ Gdt.seg_limit (Gdt.entry 0x00123456 0xABCDE 0x9A 0xC) = 0xABCDE.
Proof.
  destruct (gdt_roundtrip 0x00123456 0xABCDE 0x9A 0xC) as (H1 & H2 & _); [lia..|].
  split; [exact H1|exact H2].
Defined.

(** What an interrupt does, as a sequence of events. *)
Inductive event := Out (port v : Z) | LapicEoi | RunIsr (handler err : Z) | RunIrq (handler : Z).

#[export] Instance trace_board : Board (list event) := {|
  outb := λ port v w, w ++ [Out port v];
  lapic_eoi := λ w, w ++ [LapicEoi];
  call_isr := λ h err w, Ok (w ++ [RunIsr h err]);
  call_irq := λ h w, Ok (w ++ [RunIrq h])
|}.

(** C38: every interrupt is acknowledged. A hardware interrupt runs its handler
    (if any) and is then acknowledged at the master controller, and first at
    the slave exactly for lines 8 to 15; other vectors run their handler and
    never touch the controllers; the local APIC is acknowledged last, if the anchor of the
    stack names a core. On a stack without a valid anchor nothing runs: a panic. *)
Theorem dispatch_acknowledges h mem esp b c no err :
  stack_at b → b ≤ esp < b + 4096 →
  length (isr_handlers h) = 256%nat → length (irq_handlers h) = 16%nat → 0 ≤ no < 256 →
  (no < 32 → isr_handlers h !! Z.to_nat no ≠ Some 0) →
  (anchor_magic mem b ≠ MAGIC →
   isr_handler h mem esp no err ([] : list event) = Panic "invalid current core stack anchor") ∧
  (anchored mem b c →
  ∃ run, isr_handler h mem esp no err [] = Ok (run
    ++ (if decide (40 ≤ no < 48) then [Out Pic.PIC2_COMMAND 0x20] else [])
    ++ (if decide (32 ≤ no < 48) then [Out Pic.PIC1_COMMAND 0x20] else [])
    ++ (if c =? 0 then [] else [LapicEoi]))
  ∧ run = (if decide (32 ≤ no < 48)
           then match irq_handlers h !! Z.to_nat (no - 32) with
                | Some g => if g =? 0 then [] else [RunIrq g] | None => [] end
           else match isr_handlers h !! Z.to_nat no with
                | Some g => if g =? 0 then [] else [RunIsr g err] | None => [] end)).
Proof.
  intros Hb Hesp Hi Hq Hno Hexc. split.
  { intros Hm. unfold isr_handler, current_anchor, anchor_from_sp. rewrite (from_sp_ok b) by done.
    by rewrite (proj2 (Z.eqb_neq _ _) Hm). }
  intros Ha. unfold isr_handler, index. rewrite (current_anchor_ok mem b c esp Hb Ha Hesp), bind_Ok, (proj2 Ha). destruct (decide (32 ≤ no < 48)) as [Hirq|Hirq].
  - rewrite (proj2 (Z.leb_le _ _)), (proj2 (Z.ltb_lt _ _)) by lia. cbn [andb].
    destruct (lookup_lt_is_Some_2 (irq_handlers h) (Z.to_nat (no - 32))) as [g Eg]; [lia|].
    rewrite Eg. simpl. eexists. split; [|reflexivity].
    assert ((if decide (40 ≤ no < 48) then [Out Pic.PIC2_COMMAND 32] else [])
            = if 8 <=? no - 32 then [Out Pic.PIC2_COMMAND 32] else []) as ->.
    { destruct (Z.leb_spec 8 (no - 32)); [rewrite decide_True by lia|rewrite decide_False by lia]; done. }
    destruct (lookup_lt_is_Some_2 irq_messages (Z.to_nat (no - 32))) as [msg Em]; [simpl; lia|].
    unfold Pic.EOI. destruct (g =? 0); simpl; [rewrite Em; simpl|];
      destruct (8 <=? no - 32), (c =? 0); simpl; done.
  - assert ((32 <=? no) && (no <? 48) = false) as ->.
    { destruct (Z.leb_spec 32 no), (Z.ltb_spec no 48); (done || lia). }
    rewrite (decide_False (P := 40 ≤ no < 48)) by lia.
    destruct (lookup_lt_is_Some_2 (isr_handlers h) (Z.to_nat no)) as [g Eg]; [lia|].
    rewrite Eg in *. simpl. eexists. split; [|reflexivity].
    destruct (Z.eqb_spec g 0) as [->|]; simpl; [|by destruct (c =? 0)].
    destruct (Z.ltb_spec no 32); [by destruct Hexc|by destruct (c =? 0)].
Qed.

Lemma dispatch_acknowledges_witness :
  ∃ run, isr_handler (Handlers (replicate 256 0) (<[12%nat := 77]> (replicate 16 0)))
           (init_stack_anchor 0x200000 0 0x300000 (λ _, 0)) 0x200F00 44 0 []
         = Ok (run ++ [Out Pic.PIC2_COMMAND 0x20] ++ [Out Pic.PIC1_COMMAND 0x20] ++ [LapicEoi])
         ∧ run = [RunIrq 77].
Proof.
  destruct (dispatch_acknowledges (Handlers (replicate 256 0) (<[12%nat := 77]> (replicate 16 0)))
    (init_stack_anchor 0x200000 0 0x300000 (λ _, 0)) 0x200F00 0x200000 0x300000 44 0) as [_ H];
    [split; [|split]; vm_compute; congruence|lia|reflexivity|reflexivity|lia|lia|].
  destruct H as (run & E & Hr); [apply init_anchor_ok; lia|].
  rewrite !decide_True in E by lia. rewrite decide_True in Hr by lia. exists run. split; [exact E|exact Hr].
Defined.

(** An unhandled exception panics with its name, but the table of names has
    19 entries and the code admits every vector below 32: from vector 19 on
    (SIMD, virtualization, control-protection exceptions) the report itself
    reads behind the table. *)
Theorem exception_report_overruns {W} `{Board W} h mem esp b c no err (w : W) :
  stack_at b → b ≤ esp < b + 4096 → anchored mem b c →
  0 ≤ no < 32 → isr_handlers h !! Z.to_nat no = Some 0 →
  isr_handler h mem esp no err w
  = match exception_messages !! Z.to_nat no with
    | Some msg => Panic ("Unhandled critical ISR: " +:+ msg)
    | None => Fault no
    end
  ∧ (exception_messages !! Z.to_nat no = None ↔ 19 ≤ no).
Proof.
  intros Hb Hesp Ha Hno Hh. unfold isr_handler, index. rewrite (current_anchor_ok mem b c esp Hb Ha Hesp), bind_Ok.
  rewrite (proj2 (Z.leb_gt _ _)) by lia. cbn [andb]. rewrite Hh. simpl.
  rewrite (proj2 (Z.ltb_lt _ _)) by lia. split.
  - by destruct (exception_messages !! Z.to_nat no).
  - rewrite lookup_ge_None. change (length exception_messages) with 19%nat. lia.
Qed.

Lemma exception_report_overruns_witness :
  isr_handler no_handlers (init_stack_anchor 0x200000 0 0 (λ _, 0)) 0x200F00 19 0 ([] : list event) = Fault 19.
Proof.
  apply (exception_report_overruns no_handlers _ _ 0x200000 0 19 0);
    [split; [|split]; vm_compute; congruence|lia|apply init_anchor_ok; lia|lia|reflexivity].
Defined.
