(* ===== verification/Pit.v ===== *)
(** The programmable interval timer: kernel/include/driver/pit.hpp,
    kernel/src/driver/pit.cpp.

    Callbacks and their arguments are addresses (0 is [nullptr]).  The effect
    of a callback on the rest of the kernel is a parameter [call] on a world
    [W]; the timer's own state is not reachable from it.  The bytes written to
    the device are recorded in the state. *)
From S2P Require Import Prelude Interrupts.

Inductive TimerTrigger := EveryTick | Interval | OneShot.
#[export] Instance TimerTrigger_eq_dec : EqDecision TimerTrigger.
Proof. solve_decision. Defined.

Record TimerHandler := Handler {
  callback : Z; arg : Z; trigger : TimerTrigger;
  h_interval_us : Z; last_triggered_us : Z; active : bool
}.

Definition PIT_CHANNEL_0 : Z := 0x40.
Definition PIT_COMMAND : Z := 0x43.
Definition PIT_BASE_FREQUENCY : Z := 1193182.
Definition MAX_HANDLERS : Z := 8.

Definition calculate_pit_divisor_us (target_microseconds : Z) : Z :=
  u16 (u32 (u32 (PIT_BASE_FREQUENCY * target_microseconds) + 500000) / 1000000).

Record pit := Pit {
  tick_count : Z;                 (* uint64_t *)
  interval_us : Z;                (* uint32_t *)
  handlers : list TimerHandler;   (* MAX_HANDLERS of them *)
  handler_count : Z;              (* size_t *)
  port_writes : list (Z * Z)
}.

Definition with_handlers (hs : list TimerHandler) (count : Z) (s : pit) : pit :=
  Pit (tick_count s) (interval_us s) hs count (port_writes s).

Definition set_active (b : bool) (h : TimerHandler) : TimerHandler :=
  Handler (callback h) (arg h) (trigger h) (h_interval_us h) (last_triggered_us h) b.
Definition set_last (t : Z) (h : TimerHandler) : TimerHandler :=
  Handler (callback h) (arg h) (trigger h) (h_interval_us h) t (active h).

(** The loop of [register_handler]: the first inactive slot is filled. *)
Fixpoint fill_slot (new : TimerHandler) (hs : list TimerHandler) : option (list TimerHandler) :=
  match hs with
  | [] => None
  | h :: hs => if negb (active h) then Some (new :: hs) else cons h <$> fill_slot new hs
  end.

Definition register_handler (cb a : Z) (trig : TimerTrigger) (interval : Z) (s : pit) : bool * pit :=
  if (MAX_HANDLERS <=? handler_count s) || (cb =? 0) then (false, s)
  else
    let new := Handler cb a trig
                 (if decide (trig = EveryTick) then interval_us s else interval)
                 (u64 (tick_count s * interval_us s)) true in
    match fill_slot new (handlers s) with
    | Some hs => (true, with_handlers hs (u32 (handler_count s + 1)) s)
    | None => (false, s)
    end.

Fixpoint drop_slot (cb a : Z) (hs : list TimerHandler) : option (list TimerHandler) :=
  match hs with
  | [] => None
  | h :: hs => if active h && (callback h =? cb) && (arg h =? a) then Some (set_active false h :: hs)
               else cons h <$> drop_slot cb a hs
  end.

Definition unregister_handler (cb a : Z) (s : pit) : bool * pit :=
  if cb =? 0 then (false, s)
  else match drop_slot cb a (handlers s) with
       | Some hs => (true, with_handlers hs (u32 (handler_count s - 1)) s)
       | None => (false, s)
       end.

(** The body of the locked block for one handler: whether it fires, the handler
    afterwards, and the change of [handler_count]. *)
Definition service (now : Z) (h : TimerHandler) : bool * TimerHandler * Z :=
  if negb (active h) then (false, h, 0)
  else match trigger h with
       | EveryTick => (true, h, 0)
       | Interval => if h_interval_us h <=? u64 (now - last_triggered_us h)
                     then (true, set_last now h, 0) else (false, h, 0)
       | OneShot => if h_interval_us h <=? u64 (now - last_triggered_us h)
                    then (true, set_active false h, -1) else (false, h, 0)
       end.

Section Tick.
Context {W : Type} (call : Z → Z → W → res W).

Fixpoint tick_loop (now i : Z) (n : nat) (s : pit) (w : W) : res (pit * W) :=
  match n with
  | O => Ok (s, w)
  | S n =>
      match handlers s !! Z.to_nat i with
      | None => Fault i
      | Some h =>
          let '(fires, h', d) := service now h in
          let s := with_handlers (<[Z.to_nat i := h']> (handlers s)) (u32 (handler_count s + d)) s in
          w ← (if fires && negb (callback h =? 0) then call (callback h) (arg h) w else Ok w);
          tick_loop now (i + 1) n s w
      end
  end.

(** The frame kind of IRQ 0 decides whether the handlers may run at all. *)
Definition irq0_frame_kind : InterruptFrameKind :=
  isr_kind (get_isr_wrapper (λ _, 0) (λ _, 0) (λ _, 0) (32 + 0)).

Definition tick_handler (s : pit) (w : W) : res (pit * W) :=
  let current_ticks := u64 (tick_count s + 1) in
  let current_time_us := u64 (current_ticks * interval_us s) in
  let s := Pit current_ticks (interval_us s) (handlers s) (handler_count s) (port_writes s) in
  match irq0_frame_kind with
  | Base => Ok (s, w)
  | ContextSwitch => tick_loop current_time_us 0 (Z.to_nat MAX_HANDLERS) s w
  end.

Fixpoint run_ticks (n : nat) (s : pit) (w : W) : res (pit * W) :=
  match n with
  | O => Ok (s, w)
  | S n => '(s, w) ← tick_handler s w; run_ticks n s w
  end.
End Tick.

Definition pit_init (interval : Z) (s : pit) : pit :=
  let divisor := calculate_pit_divisor_us interval in
  Pit 0 interval (handlers s) 0
      (port_writes s ++ [(PIT_COMMAND, 0x36); (PIT_CHANNEL_0, Z.land divisor 0xFF);
                         (PIT_CHANNEL_0, Z.land (Z.shiftr divisor 8) 0xFF)]).

Definition ticks (s : pit) : Z := tick_count s.
Definition interval (s : pit) : Z := interval_us s.

(** [sleep_ticks]: each turn of the loop waits for one timer interrupt; the
    result is the number of interrupts waited for. *)
Fixpoint sleep_loop (fuel : nat) (start now target : Z) : res Z :=
  if u64 (now - start) <? target then
    match fuel with
    | O => NoFuel
    | S fuel => n ← sleep_loop fuel start (u64 (now + 1)) target; Ok (n + 1)
    end
  else Ok 0.
Definition sleep_ticks (target_ticks : Z) (s : pit) : res Z :=
  sleep_loop (Z.to_nat target_ticks) (ticks s) (ticks s) target_ticks.
Definition sleep_us (target_us : Z) (s : pit) : res Z :=
  if interval_us s =? 0 then Fault 0
  else let target_ticks := target_us / interval_us s in
       sleep_ticks (if target_ticks =? 0 then 1 else target_ticks) s.

(** ** Lemmas *)

Definition no_handler : TimerHandler := Handler 0 0 EveryTick 0 0 false.
Definition power_on : pit := Pit 0 0 (replicate 8 no_handler) 0 [].

Fixpoint count_active (hs : list TimerHandler) : nat :=
  match hs with [] => 0 | h :: hs => (if active h then 1 else 0) + count_active hs end.

Record pit_ok (s : pit) : Prop := {
  ok_len : length (handlers s) = 8%nat;
  ok_count : handler_count s = Z.of_nat (count_active (handlers s))
}.

Lemma count_active_le hs : (count_active hs ≤ length hs)%nat.
Proof. induction hs as [|h hs IH]; simpl; [lia|]. destruct (active h); lia. Qed.

Lemma fill_slot_spec new hs : active new = true →
  match fill_slot new hs with
  | Some hs' => length hs' = length hs ∧ count_active hs' = S (count_active hs)
                ∧ (∃ i h, hs !! i = Some h ∧ active h = false ∧ hs' = <[i := new]> hs)
  | None => count_active hs = length hs
  end.
Proof.
  intros Hn. induction hs as [|h hs IH]; simpl; [done|].
  destruct (active h) eqn:E; simpl.
  - destruct (fill_slot new hs) as [hs'|]; simpl; [|lia].
    destruct IH as (Hl & Hc & i & x & Hi & Hx & ->). rewrite E. split_and!; [lia|lia|].
    exists (S i), x. done.
  - rewrite Hn. split_and!; [done|done|]. by exists 0%nat, h.
Qed.

Lemma drop_slot_spec cb a hs :
  match drop_slot cb a hs with
  | Some hs' => length hs' = length hs ∧ S (count_active hs') = count_active hs
  | None => ∀ h, h ∈ hs → ¬ (active h = true ∧ callback h = cb ∧ arg h = a)
  end.
Proof.
  induction hs as [|h hs IH]; simpl; [intros h H; inversion H|].
  destruct (active h) eqn:E, (Z.eqb_spec (callback h) cb), (Z.eqb_spec (arg h) a); simpl;
    try (destruct (drop_slot cb a hs) as [hs'|]; simpl; [rewrite E; destruct IH; lia|]);
    try (intros x [->|Hx]%elem_of_cons; [naive_solver congruence|by apply IH]).
  split; lia.
Qed.

Lemma count_active_insert hs i h h' : hs !! i = Some h →
  (count_active (<[i := h']> hs) + (if active h then 1 else 0)
   = count_active hs + (if active h' then 1 else 0))%nat.
Proof.
  revert i. induction hs as [|x hs IH]; intros [|i] H; simpl in *; try done.
  - injection H as ->. lia.
  - specialize (IH i H). lia.
Qed.

Lemma service_active now h b h' d : service now h = (b, h', d) →
  (if active h' then 1 else 0) = (if active h then 1 else 0) + d
  ∧ (active h = false → h' = h ∧ b = false).
Proof.
  unfold service. destruct (active h) eqn:E; simpl.
  - destruct (trigger h); [|destruct (_ <=? _)|destruct (_ <=? _)]; intros [= <- <- <-]; simpl;
      rewrite ?E; done.
  - intros [= <- <- <-]. rewrite E. done.
Qed.

(** ** A tick, as a function on the handlers *)

Definition serviced (now : Z) (hs : list TimerHandler) : list TimerHandler :=
  (λ h, (service now h).1.2) <$> hs.

(** The calls of a tick, in slot order. *)
Definition calls (now : Z) (hs : list TimerHandler) : list (Z * Z) :=
  omap (λ h, if (service now h).1.1 && negb (callback h =? 0) then Some (callback h, arg h) else None) hs.

(** The world that records the calls. *)
Definition log_call (cb a : Z) (w : list (Z * Z)) : res (list (Z * Z)) := Ok (w ++ [(cb, a)]).

Lemma service_keeps now h :
  let h' := (service now h).1.2 in
  callback h' = callback h ∧ arg h' = arg h ∧ trigger h' = trigger h ∧ h_interval_us h' = h_interval_us h.
Proof.
  unfold service. destruct (active h); [|done]. simpl.
  destruct (trigger h) eqn:E; [done|destruct (_ <=? _); simpl; done|destruct (_ <=? _); simpl; done].
Qed.

Section Calls.
Context {W : Type} (call : Z → Z → W → res W).

Fixpoint run_calls (l : list (Z * Z)) (w : W) : res W :=
  match l with [] => Ok w | (cb, a) :: l => w ← call cb a w; run_calls l w end.

(** The handlers that fire are called in slot order; what they do changes nothing in the table. *)
Lemma tick_loop_calls now : ∀ n pre suf s w,
  handlers s = pre ++ suf → length suf = n →
  handler_count s = Z.of_nat (count_active (handlers s)) → (length (handlers s) ≤ 8)%nat →
  tick_loop call now (Z.of_nat (length pre)) n s w
  = (w ← run_calls (calls now suf) w;
     Ok (with_handlers (pre ++ serviced now suf) (Z.of_nat (count_active (pre ++ serviced now suf))) s, w)).
Proof.
  induction n as [|n IH]; intros pre suf s w Hh Hn Hc Hl.
  { destruct suf; [|done]. simpl. rewrite !app_nil_r in *. rewrite <- Hh, <- Hc. by destruct s. }
  destruct suf as [|h suf]; [done|]. cbn [tick_loop]. rewrite Nat2Z.id.
  assert (handlers s !! length pre = Some h) as Hk.
  { rewrite Hh. by apply list_lookup_middle. }
  rewrite Hk. destruct (service now h) as [[b h'] d] eqn:Es.
  destruct (service_active now h b h' d Es) as [Hd _].
  set (s1 := with_handlers _ _ s).
  assert (handlers s1 = (pre ++ [h']) ++ suf) as Hh1.
  { unfold s1. simpl. rewrite Hh, insert_app_r_alt, Nat.sub_diag by lia. simpl. by rewrite <- app_assoc. }
  assert (handler_count s1 = Z.of_nat (count_active (handlers s1))) as Hc1.
  { pose proof (count_active_insert _ _ _ h' Hk) as Hins. unfold s1. simpl.
    pose proof (count_active_le (<[length pre := h']> (handlers s))) as Hle.
    rewrite length_insert in Hle.
    rewrite Hc, u32_small; destruct (active h), (active h'); lia. }
  assert (length (handlers s1) = length (handlers s)) as Hl1 by (unfold s1; simpl; by rewrite length_insert).
  assert (run_calls (calls now (h :: suf)) w
          = (w ← (if b && negb (callback h =? 0) then call (callback h) (arg h) w else Ok w); run_calls (calls now suf) w)) as ->.
  { unfold calls. cbn [omap list_omap]. rewrite Es. cbn [fst]. by destruct (b && _). }
  destruct (if b && _ then _ else _) as [w1|m|x|]; [|done..]. cbn [mbind res_bind].
  pose proof (IH (pre ++ [h']) suf s1 w1 Hh1) as E. rewrite length_app, Nat2Z.inj_add in E.
  change (Z.of_nat (length [h'])) with 1 in E. rewrite E by (simpl in Hn; lia || done). rewrite <- app_assoc.
  assert (serviced now (h :: suf) = h' :: serviced now suf) as -> by (unfold serviced; simpl; by rewrite Es). done.
Qed.

(** The timer after a tick. *)
Definition ticked (s : pit) : pit :=
  let t := u64 (tick_count s + 1) in
  let hs := serviced (u64 (t * interval_us s)) (handlers s) in
  Pit t (interval_us s) hs (Z.of_nat (count_active hs)) (port_writes s).

Lemma tick_handler_calls s w : pit_ok s →
  tick_handler call s w
  = (w ← run_calls (calls (u64 (u64 (tick_count s + 1) * interval_us s)) (handlers s)) w; Ok (ticked s, w)).
Proof.
  intros [Hl Hc]. unfold tick_handler. change irq0_frame_kind with ContextSwitch. cbv iota.
  set (s0 := Pit (u64 (tick_count s + 1)) _ _ _ _).
  apply (tick_loop_calls _ 8 [] (handlers s) s0); [done|done|done|simpl; lia].
Qed.
End Calls.

Lemma ticked_ok s : pit_ok s → pit_ok (ticked s).
Proof. intros [Hl _]. split; [|done]. unfold ticked, serviced. simpl. by rewrite length_fmap. Qed.

Lemma run_calls_log l : ∀ w, run_calls log_call l w = Ok (w ++ l).
Proof.
  induction l as [|[cb a] l IH]; intros w; simpl; [by rewrite app_nil_r|]. by rewrite IH, <- app_assoc.
Qed.

Lemma tick_handler_log s w :
  pit_ok s →
  let t := u64 (tick_count s + 1) in
  let now := u64 (t * interval_us s) in
  ∃ s', tick_handler log_call s w = Ok (s', w ++ calls now (handlers s))
    ∧ handlers s' = serviced now (handlers s) ∧ tick_count s' = t
    ∧ interval_us s' = interval_us s ∧ pit_ok s'.
Proof.
  intros Hok t now. exists (ticked s). rewrite tick_handler_calls, run_calls_log by done. split_and!; try done. by apply ticked_ok.
Qed.

(** The calls of [(cb, a)] made by the handlers of a list that own that pair. *)
Definition count_calls (cb a : Z) (l : list (Z * Z)) : Z :=
  Z.of_nat (length (filter (λ p, p = (cb, a)) l)).

Lemma count_calls_app cb a l1 l2 : count_calls cb a (l1 ++ l2) = count_calls cb a l1 + count_calls cb a l2.
Proof. unfold count_calls. rewrite filter_app, length_app. lia. Qed.

Lemma calls_cons now h hs :
  calls now (h :: hs)
  = (if (service now h).1.1 && negb (callback h =? 0) then [(callback h, arg h)] else []) ++ calls now hs.
Proof. unfold calls. cbn [omap list_omap]. by destruct (_ && _). Qed.

Lemma count_calls_one cb a cb' a' :
  count_calls cb a [(cb', a')] = if decide ((cb', a') = (cb, a)) then 1 else 0.
Proof. unfold count_calls. by destruct (decide ((cb', a') = (cb, a))) as [E|E];
  [rewrite filter_cons_True|rewrite filter_cons_False]. Qed.

(** No other slot has the pair of slot [k]. *)
Definition unique_slot (k : nat) (h : TimerHandler) (hs : list TimerHandler) : Prop :=
  hs !! k = Some h ∧ ∀ j g, j ≠ k → hs !! j = Some g → (callback g, arg g) ≠ (callback h, arg h).

Lemma count_calls_slot now hs : ∀ k h,
  unique_slot k h hs → callback h ≠ 0 →
  count_calls (callback h) (arg h) (calls now hs) = if (service now h).1.1 then 1 else 0.
Proof.
  assert (∀ cb a hs, (∀ j g, hs !! j = Some g → (callback g, arg g) ≠ (cb, a)) →
            count_calls cb a (calls now hs) = 0) as Hnone.
  { clear. intros cb a hs. induction hs as [|x hs IH]; intros Hall; [done|].
    rewrite calls_cons, count_calls_app, (IH (λ j g Hj, Hall (S j) g Hj)).
    pose proof (Hall 0%nat x eq_refl) as Hx.
    destruct (_ && _); [rewrite count_calls_one, decide_False by done|]; done. }
  induction hs as [|x hs IH]; intros k h [Hk Hu] Hcb; [done|].
  rewrite calls_cons, count_calls_app. destruct k as [|k]; simpl in Hk.
  - injection Hk as ->. rewrite (Hnone (callback h) (arg h) hs (λ j g Hj, Hu (S j) g ltac:(done) Hj)).
    rewrite (proj2 (Z.eqb_neq _ _) Hcb), andb_true_r.
    destruct (service now h).1.1; [rewrite count_calls_one, decide_True by done|]; done.
  - rewrite (IH k h); [|split; [done|]|done].
    + pose proof (Hu 0%nat x ltac:(done) eq_refl) as Hx.
      destruct (_ && _); [rewrite count_calls_one, decide_False by done|]; done.
    + intros j g Hj Hg. apply (Hu (S j) g); [congruence|done].
Qed.

Lemma unique_slot_serviced now k h hs :
  unique_slot k h hs → unique_slot k (service now h).1.2 (serviced now hs).
Proof.
  intros [Hk Hu]. split; [unfold serviced; by rewrite list_lookup_fmap, Hk|].
  intros j g Hj Hg. unfold serviced in Hg. rewrite list_lookup_fmap in Hg.
  destruct (hs !! j) as [g0|] eqn:Ej; [|done]. injection Hg as <-.
  destruct (service_keeps now g0) as (-> & -> & _). destruct (service_keeps now h) as (-> & -> & _).
  by apply (Hu j).
Qed.

(** An interval handler that fired at tick [l] is due from [p] ticks later on. *)
Lemma service_interval h l T u p :
  active h = true → trigger h = Interval → last_triggered_us h = l * u → 0 < u → 0 ≤ l ≤ T →
  p = (h_interval_us h + u - 1) / u → (T + 1) * u < 2 ^ 64 →
  service ((T + 1) * u) h = if decide (p ≤ T + 1 - l) then (true, set_last ((T + 1) * u) h, 0) else (false, h, 0).
Proof.
  intros Hact Htr Hlast Hu Hl Hp Hno. unfold service. rewrite Hact, Htr. simpl. rewrite Hlast.
  replace ((T + 1) * u - l * u) with ((T + 1 - l) * u) by lia. rewrite wrap_small by nia.
  assert (h_interval_us h ≤ (T + 1 - l) * u ↔ p ≤ T + 1 - l) as Hiff.
  { rewrite Hp. split; intros H.
    - apply Z.lt_succ_r, Z.div_lt_upper_bound; [lia|]. nia.
    - pose proof (Z.mul_succ_div_gt (h_interval_us h + u - 1) u ltac:(lia)). nia. }
  destruct (Z.leb_spec (h_interval_us h) ((T + 1 - l) * u)); [rewrite decide_True by lia|rewrite decide_False by lia]; done.
Qed.

(** An interval handler after [n] ticks: [l] is the tick of its last call. *)
Lemma interval_run n : ∀ s w k h l p,
  pit_ok s → unique_slot k h (handlers s) → active h = true → trigger h = Interval → callback h ≠ 0 →
  0 < interval_us s → p = (h_interval_us h + interval_us s - 1) / interval_us s → 0 < p →
  last_triggered_us h = l * interval_us s → 0 ≤ l ≤ tick_count s → tick_count s - l < p →
  (tick_count s + Z.of_nat n) * interval_us s < 2 ^ 64 →
  ∃ s' L, run_ticks log_call n s w = Ok (s', w ++ L)
    ∧ count_calls (callback h) (arg h) L = (tick_count s - l + Z.of_nat n) / p.
Proof.
  induction n as [|n IH]; intros s w k h l p Hok Hu Hact Htr Hcb Hiu Hp Hp0 Hlast Hl Hph Hno.
  { exists s, []. simpl. rewrite app_nil_r. split; [done|]. unfold count_calls. simpl.
    rewrite Z.add_0_r, Z.div_small by lia. done. }
  set (u := interval_us s) in *. set (T := tick_count s) in *.
  cbn [run_ticks]. destruct (tick_handler_log s w Hok) as (s1 & -> & Hh1 & Ht1 & Hi1 & Hok1).
  fold u T in Hh1, Ht1, Hi1 |- *. cbn [mbind res_bind].
  assert (0 ≤ T + 1 < 2 ^ 64 ∧ 0 ≤ (T + 1) * u < 2 ^ 64) as [Hr1 Hr2] by nia.
  rewrite (wrap_small 64 (T + 1)) in * by lia. rewrite (wrap_small 64 ((T + 1) * u)) in * by lia.
  set (now := (T + 1) * u) in *.
  pose proof (unique_slot_serviced now k h _ Hu) as Hu1. rewrite <- Hh1 in Hu1.
  pose proof (count_calls_slot now _ k h Hu Hcb) as Hcnt.
  assert (service now h = if decide (T + 1 - l = p) then (true, set_last now h, 0) else (false, h, 0)) as Es.
  { unfold now. rewrite (service_interval h l T u p) by (done || lia).
    destruct (decide (p ≤ T + 1 - l)); [rewrite decide_True by lia|rewrite decide_False by lia]; done. }
  rewrite Es in Hu1, Hcnt. destruct (decide (T + 1 - l = p)) as [Ep|Ep]; simpl in Hu1, Hcnt.
  - destruct (IH s1 (w ++ calls now (handlers s)) k (set_last now h) (T + 1) p)
      as (s2 & L & E2 & HL); [done|done|done|done|done|by rewrite Hi1|by rewrite Hi1|done
        |by rewrite Hi1|rewrite Ht1; lia|rewrite Ht1; lia
        |rewrite Hi1, Ht1; by replace (T + 1 + Z.of_nat n) with (T + Z.of_nat (S n)) by lia|].
    exists s2, (calls now (handlers s) ++ L). rewrite app_assoc. split; [done|].
    rewrite count_calls_app, Hcnt. simpl in HL. rewrite HL, Ht1.
    replace (T - l + Z.of_nat (S n)) with (1 * p + (T + 1 - (T + 1) + Z.of_nat n)) by lia.
    rewrite Z.div_add_l by lia. done.
  - destruct (IH s1 (w ++ calls now (handlers s)) k h l p)
      as (s2 & L & E2 & HL); [done|done|done|done|done|by rewrite Hi1|by rewrite Hi1|done
        |by rewrite Hi1|rewrite Ht1; lia|rewrite Ht1; lia
        |rewrite Hi1, Ht1; by replace (T + 1 + Z.of_nat n) with (T + Z.of_nat (S n)) by lia|].
    exists s2, (calls now (handlers s) ++ L). rewrite app_assoc. split; [done|].
    rewrite count_calls_app, Hcnt, HL, Ht1, Z.add_0_l. f_equal. lia.
Qed.

(** ** Reachable states *)

Lemma register_ok s cb a trig i :
  pit_ok s →
  let '(b, s') := register_handler cb a trig i s in
  pit_ok s' ∧ (b = true ↔ cb ≠ 0 ∧ handler_count s < MAX_HANDLERS) ∧ (b = false → s' = s)
  ∧ (b = true → ∃ k h, handlers s !! k = Some h ∧ active h = false
       ∧ handlers s' = <[k := Handler cb a trig
           (if decide (trig = EveryTick) then interval_us s else i)
           (u64 (tick_count s * interval_us s)) true]> (handlers s)).
Proof.
  intros [Hl Hc]. unfold register_handler, MAX_HANDLERS.
  destruct (Z.eqb_spec cb 0) as [->|Hcb]; [rewrite orb_true_r; split_and!; [by split|naive_solver..]|].
  destruct (Z.leb_spec 8 (handler_count s)); simpl; [split_and!; [by split|split; [done|lia]|done..]|].
  set (new := Handler _ _ _ _ _ _). pose proof (fill_slot_spec new (handlers s) eq_refl) as Hf.
  destruct (fill_slot new (handlers s)) as [hs|]; [|lia]. destruct Hf as (Hl' & Hc' & k & h & Hk & Ha & ->).
  split_and!; [split; simpl; [lia|]|split; [auto|done]|done|].
  - rewrite Hc', Hc, u32_small; lia.
  - intros _. exists k, h. done.
Qed.

Lemma unregister_ok s cb a :
  pit_ok s →
  let '(b, s') := unregister_handler cb a s in
  pit_ok s' ∧ (b = false → s' = s)
  ∧ (b = false → ∀ h, h ∈ handlers s → ¬ (active h = true ∧ callback h = cb ∧ arg h = a) ∨ cb = 0).
Proof.
  intros [Hl Hc]. unfold unregister_handler.
  destruct (Z.eqb_spec cb 0) as [->|Hcb]; [split_and!; [by split|done|intros; by right]|].
  pose proof (drop_slot_spec cb a (handlers s)) as Hd.
  destruct (drop_slot cb a (handlers s)) as [hs|].
  - destruct Hd as [Hl' Hc']. split_and!; [|done..]. split; simpl; [lia|].
    pose proof (count_active_le (handlers s)). rewrite Hc, u32_small; lia.
  - split_and!; [by split|done|]. intros _ h Hh. left. by apply Hd.
Qed.

Inductive pit_step : pit → pit → Prop :=
| step_register s cb a trig i b s' : register_handler cb a trig i s = (b, s') → pit_step s s'
| step_unregister s cb a b s' : unregister_handler cb a s = (b, s') → pit_step s s'
| step_tick s w s' w' : tick_handler log_call s w = Ok (s', w') → pit_step s s'.

Lemma pit_step_ok s s' : pit_step s s' → pit_ok s → pit_ok s'.
Proof.
  intros [? cb a trig i b s2 E|? cb a b s2 E|? w s2 w' E] Hok.
  - pose proof (register_ok s0 cb a trig i Hok) as H. rewrite E in H. apply H.
  - pose proof (unregister_ok s0 cb a Hok) as H. rewrite E in H. apply H.
  - destruct (tick_handler_log s0 w Hok) as (s3 & E3 & _ & _ & _ & Hok3). congruence.
Qed.

(** The table of handlers never leaks or overflows. In every state reached
    from [init] by registering, unregistering and timer ticks (one-shot handlers
    retire on their own), [handler_count] is the number of active handlers, and
    registration succeeds exactly when a slot is free and the callback is not
    null. *)
Theorem timer_slots_consistent interval s cb a trig i :
  rtc pit_step (pit_init interval power_on) s →
  handler_count s = Z.of_nat (count_active (handlers s)) ∧ 0 ≤ handler_count s ≤ MAX_HANDLERS
  ∧ ((register_handler cb a trig i s).1 = true ↔ cb ≠ 0 ∧ handler_count s < MAX_HANDLERS).
Proof.
  intros Hr. assert (pit_ok s) as Hok.
  { assert (pit_ok (pit_init interval power_on)) as H0 by (by split).
    clear cb a trig i. induction Hr as [|x y z Hxy _ IH]; [done|]. apply IH. by eapply pit_step_ok. }
  pose proof (count_active_le (handlers s)) as Hle. pose proof (register_ok s cb a trig i Hok) as Hreg.
  destruct (register_handler cb a trig i s) as [b s'] eqn:E. destruct Hok as [Hl Hc].
  unfold MAX_HANDLERS in *. split_and!; [done|lia|lia|]. apply Hreg.
Qed.

Lemma timer_slots_consistent_witness :
  ∃ s, rtc pit_step (pit_init 1000 power_on) s ∧ handler_count s = Z.of_nat (count_active (handlers s)).
Proof.
  set (s1 := (register_handler 5 6 OneShot 2000 (pit_init 1000 power_on)).2).
  assert (rtc pit_step (pit_init 1000 power_on) s1) as Hr.
  { apply rtc_once. apply (step_register _ 5 6 OneShot 2000 true). reflexivity. }
  exists s1. split; [exact Hr|].
  exact (proj1 (timer_slots_consistent 1000 s1 1 1 OneShot 1 Hr)).
Defined.

(** Periodic handlers are periodic. A handler registered with [Interval] is
    called exactly once every [ceil(interval / tick length)] ticks: over the next
    [n] ticks it is called [n / p] times, whatever other handlers do (as long as
    none of them shares its callback and argument, and the 64-bit clock does not
    run out). *)
Theorem interval_handler_period s cb a i s' n w :
  pit_ok s → (∀ h, h ∈ handlers s → (callback h, arg h) ≠ (cb, a)) →
  register_handler cb a Interval i s = (true, s') →
  0 < interval_us s → 0 < i → 0 ≤ tick_count s →
  (tick_count s + Z.of_nat n) * interval_us s < 2 ^ 64 →
  let p := (i + interval_us s - 1) / interval_us s in
  ∃ s2 L, run_ticks log_call n s' w = Ok (s2, w ++ L) ∧ count_calls cb a L = Z.of_nat n / p.
Proof.
  intros Hok Huniq Hreg Hu Hi Ht Hno p. pose proof (register_ok s cb a Interval i Hok) as H.
  rewrite Hreg in H. destruct H as (Hok' & Hb & _ & Hslot).
  destruct (Hslot eq_refl) as (k & h & Hk & Hact & Hhs). destruct (proj1 Hb eq_refl) as [Hcb _].
  assert (tick_count s' = tick_count s ∧ interval_us s' = interval_us s) as [Et Ei].
  { unfold register_handler in Hreg. destruct (_ || _); [congruence|].
    destruct (fill_slot _ _); [|congruence]. injection Hreg as <-. done. }
  rewrite decide_False in Hhs by done.
  rewrite (wrap_small 64 (tick_count s * interval_us s)) in Hhs by nia.
  set (new := Handler _ _ _ _ _ _) in Hhs.
  assert (0 < p) as Hp by (apply Z.div_str_pos; lia).
  destruct (interval_run n s' w k new (tick_count s) p) as (s2 & L & E & HL);
    rewrite ?Ei, ?Et; [done| |done|done|done|done|done|done|done|lia|lia|done|].
  - rewrite Hhs. split; [apply list_lookup_insert_eq; by eapply lookup_lt_Some|].
    intros j g Hj. rewrite list_lookup_insert_ne by done. intros Hg. apply Huniq.
    by eapply list_elem_of_lookup_2.
  - exists s2, L. split; [done|]. rewrite Et, Z.sub_diag, Z.add_0_l in HL. exact HL.
Qed.

Lemma interval_handler_period_witness :
  ∃ s' s2 L, register_handler 0x1000 7 Interval 10000 (pit_init 1193 power_on) = (true, s')
    ∧ run_ticks log_call 100 s' [] = Ok (s2, [] ++ L) ∧ count_calls 0x1000 7 L = 11.
Proof.
  set (s := pit_init 1193 power_on).
  destruct (register_handler 0x1000 7 Interval 10000 s) as [b s'] eqn:E.
  assert (b = true) as -> by (vm_compute in E; congruence).
  destruct (interval_handler_period s 0x1000 7 10000 s' 100 []) as (s2 & L & E2 & HL).
  - by split.
  - apply Forall_forall. repeat (apply Forall_cons_2; [vm_compute; congruence|]). apply Forall_nil_2.
  - exact E.
  - reflexivity.
  - reflexivity.
  - vm_compute. congruence.
  - reflexivity.
  - exists s', s2, L. split_and!; [reflexivity|exact E2|exact HL].
Defined.

(** [sleep_ticks] returns, after exactly the requested number of interrupts,
    also across the wrap-around of the 64-bit counter. *)
Lemma sleep_loop_ok start target : 0 ≤ target < 2 ^ 32 → ∀ fuel k,
  0 ≤ k ≤ target → target - k ≤ Z.of_nat fuel →
  sleep_loop fuel start (u64 (start + k)) target = Ok (target - k).
Proof.
  intros Ht. induction fuel as [|fuel IH]; intros k Hk Hf; cbn [sleep_loop].
  - rewrite wrap_sub_l. replace (start + k - start) with k by lia. rewrite wrap_small by lia.
    rewrite (proj2 (Z.ltb_ge _ _)) by lia. f_equal. lia.
  - rewrite wrap_sub_l, wrap_add_l. replace (start + k - start) with k by lia.
    rewrite wrap_small by lia. destruct (Z.ltb_spec k target); [|f_equal; lia].
    replace (start + k + 1) with (start + (k + 1)) by lia. rewrite IH by lia. simpl. f_equal. lia.
Qed.

(** The divisor is the tick length in timer clocks rounded to nearest, for
    tick lengths up to 3599 us; at 3600 us the 32-bit product overflows and the
    function returns 0 (which the device reads as 65536).  A sleep lasts exactly
    the requested number of ticks. *)
Theorem pit_divisor_and_sleep t s target :
  1 ≤ t ≤ 3599 → 0 ≤ target < 2 ^ 32 → 0 ≤ tick_count s < 2 ^ 64 →
  Z.abs (1000000 * calculate_pit_divisor_us t - PIT_BASE_FREQUENCY * t) ≤ 500000
  ∧ 1 ≤ calculate_pit_divisor_us t < 2 ^ 16
  ∧ calculate_pit_divisor_us 3600 = 0
  ∧ sleep_ticks target s = Ok target.
Proof.
  intros Ht Htg Htc. unfold calculate_pit_divisor_us, PIT_BASE_FREQUENCY.
  rewrite (u32_small (1193182 * t)), u32_small by lia. rewrite (wrap_small 16) by dlia.
  split_and!; [dlia|dlia|dlia|reflexivity|]. unfold sleep_ticks, ticks.
  pose proof (sleep_loop_ok (tick_count s) target Htg (Z.to_nat target) 0) as H.
  rewrite Z.add_0_r, (wrap_small 64), Z.sub_0_r in H by lia. apply H; lia.
Qed.

Lemma pit_divisor_and_sleep_witness :
  1 ≤ calculate_pit_divisor_us 1000 < 2 ^ 16 ∧ sleep_ticks 20 power_on = Ok 20.
Proof.
  destruct (pit_divisor_and_sleep 1000 power_on 20) as (_ & H1 & _ & H2); [lia|lia|simpl; lia|].
  split; [exact H1|exact H2].
Defined.
