(* ===== verification/Scheduler.v ===== *)
(** The task scheduler: kernel/include/sched/scheduler.hpp,
    kernel/src/sched/scheduler.cpp, with the core stacks of
    kernel/include/sys/smp.hpp.

    The tasks are the [StaticArray] of [Slots.v].  [schedule] exchanges the
    interrupted context [ctx] with the saved context of the next task; its
    state is passed explicitly, and the frame on the interrupt stack (address
    [ctx_at], contents [ctx]) is an argument and a result.  Addresses fixed by
    the linker and stacks obtained from the heap are parameters. *)
From S2P Require Import Prelude Memory Stacks Slots.

(** ** Interrupt frames *)

Record BaseInterruptFrame := BaseFrame { eip : Z; cs : Z; eflags : Z; user_esp : Z; user_ss : Z }.
Record InterruptFrame := Frame {
  ds : Z; es : Z; fs : Z; gs : Z;
  edi : Z; esi : Z; ebp : Z; esp : Z; ebx : Z; edx : Z; ecx : Z; eax : Z;
  int_no : Z; err_code : Z;
  base_frame : BaseInterruptFrame
}.
(** [sizeof(InterruptFrame)]: 14 words and a [BaseInterruptFrame] of 5. *)
Definition FRAME_SIZE : Z := 14 * 4 + 5 * 4.

Definition with_eax (v : Z) (f : InterruptFrame) : InterruptFrame :=
  Frame (ds f) (es f) (fs f) (gs f) (edi f) (esi f) (ebp f) (esp f) (ebx f) (edx f) (ecx f) v
        (int_no f) (err_code f) (base_frame f).

(** ** Tasks *)

Inductive TaskState := READY | RUNNING | BLOCKED | TERMINATED.
#[export] Instance TaskState_eq_dec : EqDecision TaskState.
Proof. solve_decision. Defined.

Record Task := MkTask {
  id : Z; ctx : InterruptFrame; stack_ptr : Z; stack : Z; own_stack : bool;
  state : TaskState; name : string
}.

Definition with_state (st : TaskState) (t : Task) : Task :=
  MkTask (id t) (ctx t) (stack_ptr t) (stack t) (own_stack t) st (name t).
Definition with_ctx (c : InterruptFrame) (t : Task) : Task :=
  MkTask (id t) c (stack_ptr t) (stack t) (own_stack t) (state t) (name t).
Definition with_stack_ptr (sp : Z) (t : Task) : Task :=
  MkTask (id t) (ctx t) sp (stack t) (own_stack t) (state t) (name t).

Definition CAPACITY : Z := 256.

Record Scheduler := Sched {
  tasks : StaticArray Task;
  current_task_index : Z;
  next_task_id : Z;
  initialized : bool;
  time_slice_ms : Z
}.

Definition with_tasks (ts : StaticArray Task) (s : Scheduler) : Scheduler :=
  Sched ts (current_task_index s) (next_task_id s) (initialized s) (time_slice_ms s).
Definition with_current (i : Z) (s : Scheduler) : Scheduler :=
  Sched (tasks s) i (next_task_id s) (initialized s) (time_slice_ms s).

(** [tasks[i].f(..)] on an occupied slot: the object is updated in place. *)
Definition update_task (i : Z) (f : Task → Task) (ts : StaticArray Task) : res (StaticArray Task) :=
  t ← get ts i;
  Ok (SArray (<[Z.to_nat i := Slot (Some (f t)) true]> (slots_ ts)) (live_count_ ts)).

Section Sched.
(** [&Task::_crt_task_entry], [dummy_func], the boot stack, and the values of the
    frame fields a constructor leaves unset. *)
Context (crt_task_entry dummy_func boot_stack : Z) (junk : BaseInterruptFrame).

(** The fields the constructor sets; [new_stack] is what [new BaseCoreStack] returned when no
    stack is given. *)
Definition task_fields (tid : Z) (nm : string) (task_stack : option Z) (new_stack : Z) : Task :=
  let base e := BaseFrame e 0x8 0x202 (user_esp junk) (user_ss junk) in
  match task_stack with
  | Some st =>
      MkTask tid (Frame 0x10 0x10 0x10 0x10 0 0 0 0 0 0 0 0 0 0 (base (eip junk)))
             (initial_sp st) st false READY nm
  | None =>
      MkTask tid (Frame 0x10 0x10 0x10 0x10 0 0 0 0 (initial_sp new_stack) 0 0 dummy_func 0 0
                        (base crt_task_entry))
             (initial_sp new_stack) new_stack true READY nm
  end.

(** The constructor in the memory [m], run with the stack pointer [esp]: a stack of its own gets the
    anchor of the stack the constructor runs on. *)
Definition task_new (tid : Z) (nm : string) (task_stack : option Z) (new_stack esp : Z) (m : ram) : Task * ram :=
  (task_fields tid nm task_stack new_stack,
   match task_stack with Some _ => m | None => copy_anchor_from new_stack (from_sp esp) m end).

Definition create_task (nm : string) (entry_point new_stack esp : Z) (s : Scheduler) (m : ram) : res (Z * Scheduler * ram) :=
  let '(t, m) := task_new (next_task_id s) nm None new_stack esp m in
  '(i, ts) ← emplace t (tasks s);
  ts ← update_task i (λ t, with_ctx (with_eax entry_point (ctx t)) t) ts;
  Ok (i, Sched ts (current_task_index s) (u32 (next_task_id s + 1)) (initialized s) (time_slice_ms s), m).

(** The constructor: its own state only; it also registers the timer callback
    and the vector 48, and creates the idle task. *)
Definition scheduler_new (slice idle_entry new_stack esp : Z) (m : ram) : res (Scheduler * ram) :=
  let s := Sched (array_init CAPACITY) 0 1 false slice in
  '(_, s, m) ← create_task "idle" idle_entry new_stack esp s m;
  Ok (Sched (tasks s) (current_task_index s) (next_task_id s) true (time_slice_ms s), m).

(** The first part of [schedule]: save the interrupted context. The task "kernel" has the boot stack,
    whose anchor its constructor leaves alone. *)
Definition save_current (ctx_at : Z) (c : InterruptFrame) (s : Scheduler) : res Scheduler :=
  if live_count (tasks s) <=? 1 then
    '(i, ts) ← emplace (task_fields (next_task_id s) "kernel" (Some boot_stack) 0) (tasks s);
    ts ← update_task i (with_ctx c) ts;
    Ok (Sched ts 1 (u32 (next_task_id s + 1)) (initialized s) (time_slice_ms s))
  else if occupied (tasks s) (current_task_index s) then
    t ← get (tasks s) (current_task_index s);
    if decide (state t = RUNNING) then
      ts ← update_task (current_task_index s)
             (λ t, with_state (if (eax c =? 0xDEADDEAD) && (ebp c =? 0) then TERMINATED else READY)
                     (with_ctx c (with_stack_ptr (u32 (ctx_at + FRAME_SIZE)) t))) (tasks s);
      Ok (with_tasks ts s)
    else Ok s
  else Ok s.

(** The do-while loop: [Some c'] when it returned from [schedule] with the
    context of the chosen task. *)
Fixpoint pick_next (fuel : nat) (start_index : Z) (s : Scheduler) : res (option InterruptFrame * Scheduler) :=
  match fuel with
  | O => NoFuel
  | S fuel =>
      let i := u32 (current_task_index s + 1) mod capacity (tasks s) in
      let s := with_current i s in
      let again s := if negb (i =? start_index) then pick_next fuel start_index s else Ok (None, s) in
      if negb (occupied (tasks s) i) then again s
      else
        t ← get (tasks s) i;
        if decide (state t = READY) then
          ts ← update_task i (with_state RUNNING) (tasks s);
          Ok (Some (ctx t), with_tasks ts s)
        else again s
  end.

Definition schedule (ctx_at : Z) (c : InterruptFrame) (s : Scheduler) : res (InterruptFrame * Scheduler) :=
  if negb (initialized s) || empty (tasks s) then Ok (c, s)
  else
    s ← save_current ctx_at c s;
    '(r, s) ← pick_next (Z.to_nat CAPACITY) (current_task_index s) s;
    match r with
    | Some c' => Ok (c', s)
    | None =>
        if occupied (tasks s) (current_task_index s) then
          ts ← update_task (current_task_index s) (with_state RUNNING) (tasks s);
          Ok (c, with_tasks ts s)
        else Ok (c, s)
    end.

(** [yield] raises vector 48, whose handler calls [schedule] on the frame. *)
Definition yield (ctx_at : Z) (c : InterruptFrame) (s : Scheduler) : res (InterruptFrame * Scheduler) :=
  if negb (initialized s) then Ok (c, s) else schedule ctx_at c s.

Definition current_task (s : Scheduler) : res Task := get (tasks s) (current_task_index s).
End Sched.

(** ** Lemmas *)

Section Lemmas.
Context (crt dummy boot : Z) (junk : BaseInterruptFrame).

Lemma update_task_ok N ts i t f :
  array_ok N ts → 0 ≤ i → view ts !! Z.to_nat i = Some (Some t) →
  ∃ ts', update_task i f ts = Ok ts' ∧ array_ok N ts'
         ∧ view ts' = <[Z.to_nat i := Some (f t)]> (view ts).
Proof.
  intros Ha Hi Ht. unfold update_task, get. rewrite (ptr_view N ts Ha), Ht by done. simpl.
  eexists. split; [done|].
  assert (view (SArray (<[Z.to_nat i:=Slot (Some (f t)) true]> (slots_ ts)) (live_count_ ts))
          = <[Z.to_nat i := Some (f t)]> (view ts)) as Hv.
  { unfold view. simpl. by rewrite list_fmap_insert. }
  split; [|done]. split; [| | |apply Ha]; simpl.
  - apply Forall_insert; [apply Ha|done].
  - rewrite length_insert. apply Ha.
  - rewrite Hv, (ok_live _ _ Ha). f_equal.
    assert (∀ (os : list (option Task)) k x y, os !! k = Some (Some x) → live (<[k := Some y]> os) = live os) as Hl.
    { clear. intros os. induction os as [|o os IH]; intros [|k] x y H; simpl in *; try done.
      - by injection H as ->.
      - by rewrite (IH k x). }
    symmetry. by eapply Hl.
Qed.

Lemma get_view N (ts : StaticArray Task) i t :
  array_ok N ts → 0 ≤ i → view ts !! Z.to_nat i = Some (Some t) → get ts i = Ok t.
Proof. intros Ha Hi Ht. unfold get. by rewrite (ptr_view N ts Ha), Ht. Qed.

(** The task in slot [i] and whether it may run. *)
Definition task_at (v : list (option Task)) (i : Z) : option Task := mjoin (v !! Z.to_nat i).
Definition ready (v : list (option Task)) (i : Z) : bool :=
  match task_at v i with Some t => bool_decide (state t = READY) | None => false end.

Lemma task_at_lookup v i t : task_at v i = Some t → v !! Z.to_nat i = Some (Some t).
Proof. unfold task_at. destruct (v !! Z.to_nat i) as [[x|]|]; simpl; congruence. Qed.

Lemma task_at_insert v i j o :
  0 ≤ i → 0 ≤ j → (Z.to_nat i < length v)%nat →
  task_at (<[Z.to_nat i := o]> v) j = if decide (i = j) then o else task_at v j.
Proof.
  intros Hi Hj Hl. unfold task_at. destruct (decide (i = j)) as [->|Hne].
  - by rewrite list_lookup_insert_eq.
  - rewrite list_lookup_insert_ne by lia. done.
Qed.

(** The slot at distance [d] after [start], cyclically. *)
Definition after (start d : Z) : Z := (start + d) mod 256.

(** [first_ready v start d]: the search that begins behind [start] finds its
    first ready task at distance [d]. *)
Definition first_ready (v : list (option Task)) (start k d : Z) : Prop :=
  k < d ≤ 256 ∧ ready v (after start d) = true ∧ ∀ e, k < e < d → ready v (after start e) = false.

Lemma pick_next_ok start : 0 ≤ start < 256 → ∀ fuel k s,
  array_ok 256 (tasks s) → current_task_index s = after start k → 0 ≤ k < 256 →
  Z.of_nat fuel = 256 - k →
  (∃ d t s', first_ready (view (tasks s)) start k d
     ∧ task_at (view (tasks s)) (after start d) = Some t
     ∧ pick_next fuel start s = Ok (Some (ctx t), s')
     ∧ array_ok 256 (tasks s') ∧ current_task_index s' = after start d
     ∧ view (tasks s') = <[Z.to_nat (after start d) := Some (with_state RUNNING t)]> (view (tasks s))
     ∧ initialized s' = initialized s ∧ next_task_id s' = next_task_id s)
  ∨ ((∀ e, k < e ≤ 256 → ready (view (tasks s)) (after start e) = false)
     ∧ pick_next fuel start s = Ok (None, with_current start s)).
Proof.
  intros Hst. induction fuel as [|fuel IH]; intros k s Ha Hc Hk Hf; [lia|]. cbn [pick_next].
  rewrite (capacity_eq 256 _ Ha), Hc, u32_small by (unfold after; dlia).
  replace ((after start k + 1) mod 256) with (after start (k + 1)) by (unfold after; dlia).
  set (i := after start (k + 1)). assert (0 ≤ i < 256) as Hi by (unfold i, after; dlia).
  set (s1 := with_current i s). change (tasks s1) with (tasks s).
  assert (ready (view (tasks s)) i = false →
    (∃ d t s', first_ready (view (tasks s)) start k d
     ∧ task_at (view (tasks s)) (after start d) = Some t
     ∧ (if negb (i =? start) then pick_next fuel start s1 else Ok (None, s1)) = Ok (Some (ctx t), s')
     ∧ array_ok 256 (tasks s') ∧ current_task_index s' = after start d
     ∧ view (tasks s') = <[Z.to_nat (after start d) := Some (with_state RUNNING t)]> (view (tasks s))
     ∧ initialized s' = initialized s ∧ next_task_id s' = next_task_id s)
    ∨ ((∀ e, k < e ≤ 256 → ready (view (tasks s)) (after start e) = false)
     ∧ (if negb (i =? start) then pick_next fuel start s1 else Ok (None, s1)) = Ok (None, with_current start s)))
    as Hagain.
  { intros Hnr. destruct (Z.eqb_spec i start) as [Ei|Ei]; simpl.
    - right. assert (k = 255) as -> by (unfold i, after in Ei; dlia). split.
      + intros e He. assert (e = 255 + 1) as -> by lia. exact Hnr.
      + unfold s1. by rewrite Ei.
    - assert (k < 255).
      { destruct (decide (k = 255)) as [->|]; [|lia]. unfold i, after in Ei. dlia. }
      destruct (IH (k + 1) s1) as [(d & t & s' & [Hd1 [Hd2 Hd3]] & Hrest)|[Hnone E]]; [done|done|lia|lia| |].
      + left. exists d, t, s'. split; [|exact Hrest]. split_and!; [lia|lia|exact Hd2|].
        intros e He. destruct (decide (e = k + 1)) as [->|]; [exact Hnr|apply Hd3; lia].
      + right. split; [|exact E]. intros e He.
        destruct (decide (e = k + 1)) as [->|]; [exact Hnr|apply Hnone; lia]. }
  rewrite (occupied_view 256 _ Ha) by lia. fold (task_at (view (tasks s)) i).
  destruct (task_at (view (tasks s)) i) as [t|] eqn:Et; simpl.
  - pose proof (task_at_lookup _ _ _ Et) as Hl. rewrite (get_view 256 _ _ t Ha) by (done || lia). simpl.
    destruct (decide (state t = READY)) as [Hr|Hr].
    + left. destruct (update_task_ok 256 (tasks s) i t (with_state RUNNING) Ha) as (ts & Eu & Hts & Hv);
        [lia|done|].
      rewrite Eu. simpl. exists (k + 1), t, (with_tasks ts s1).
      split_and!; [split_and!; [lia|lia| |]|done..].
      * unfold ready. fold i. rewrite Et. by apply bool_decide_true.
      * intros e He. lia.
    + apply Hagain. unfold ready. rewrite Et. by apply bool_decide_false.
  - apply Hagain. unfold ready. by rewrite Et.
Qed.

(** A started scheduler: the current task is the only one running. *)
Record started (s : Scheduler) : Prop := {
  st_array : array_ok 256 (tasks s);
  st_init : initialized s = true;
  st_cur : 0 ≤ current_task_index s < 256;
  st_live : (2 ≤ live (view (tasks s)))%nat;
  st_running i : 0 ≤ i < 256 → (∃ t, task_at (view (tasks s)) i = Some t ∧ state t = RUNNING) ↔ i = current_task_index s
}.

(** The tasks after the interrupted context [c] has been stored. *)
Definition save_task (ctx_at : Z) (c : InterruptFrame) (t : Task) : Task :=
  with_state (if (eax c =? 0xDEADDEAD) && (ebp c =? 0) then TERMINATED else READY)
    (with_ctx c (with_stack_ptr (u32 (ctx_at + FRAME_SIZE)) t)).

Lemma save_current_ok ctx_at c s :
  started s →
  ∃ t ts, task_at (view (tasks s)) (current_task_index s) = Some t ∧ state t = RUNNING
    ∧ save_current crt dummy boot junk ctx_at c s = Ok (with_tasks ts s) ∧ array_ok 256 ts
    ∧ view ts = <[Z.to_nat (current_task_index s) := Some (save_task ctx_at c t)]> (view (tasks s)).
Proof.
  intros [Ha Hin Hc Hl Hr]. destruct (proj2 (Hr _ Hc) eq_refl) as (t & Et & Hrun).
  pose proof (task_at_lookup _ _ _ Et) as Hlk. unfold save_current, live_count.
  rewrite (ok_live _ _ Ha), (proj2 (Z.leb_gt _ _)) by lia.
  rewrite (occupied_view 256 _ Ha) by lia. fold (task_at (view (tasks s)) (current_task_index s)).
  rewrite Et. simpl. rewrite (get_view 256 _ _ t Ha) by (done || lia). simpl.
  rewrite decide_True by done.
  destruct (update_task_ok 256 (tasks s) (current_task_index s) t (save_task ctx_at c) Ha)
    as (ts & E & Hts & Hv); [lia|done|].
  exists t, ts. unfold save_task in E. rewrite E. done.
Qed.

Lemma view_len s : started s → length (view (tasks s)) = 256%nat.
Proof. intros Hs. by rewrite (view_length 256 _ (st_array _ Hs)). Qed.

Lemma live_some (os : list (option Task)) k x y :
  os !! k = Some (Some x) → live (<[k := Some y]> os) = live os.
Proof.
  revert k. induction os as [|o os IH]; intros [|k] H; simpl in *; try done.
  - by injection H as ->.
  - by rewrite (IH k).
Qed.

(** [schedule] on a started scheduler, when some task is ready after saving. *)
Lemma schedule_ok ctx_at c s t v d :
  started s → task_at (view (tasks s)) (current_task_index s) = Some t →
  v = <[Z.to_nat (current_task_index s) := Some (save_task ctx_at c t)]> (view (tasks s)) →
  first_ready v (current_task_index s) 0 d →
  ∃ n s', task_at v (after (current_task_index s) d) = Some n
    ∧ schedule crt dummy boot junk ctx_at c s = Ok (ctx n, s') ∧ started s'
    ∧ current_task_index s' = after (current_task_index s) d
    ∧ view (tasks s') = <[Z.to_nat (after (current_task_index s) d) := Some (with_state RUNNING n)]> v.
Proof.
  intros Hs Ht Hv Hfr. pose proof (view_len s Hs) as Hlen.
  destruct (save_current_ok ctx_at c s Hs) as (t' & ts & Ht' & Hrun & E & Hts & Hvs).
  assert (t' = t) as -> by congruence. rewrite <- Hv in Hvs. destruct Hs as [Ha Hin Hc Hl Hr].
  set (cur := current_task_index s) in *. unfold schedule, empty.
  assert (Z.of_nat (Z.to_nat CAPACITY) = 256 - 0) as Hf by (by rewrite Z2Nat.id).
  revert Hf. generalize (Z.to_nat CAPACITY) as fuel. intros fuel Hf. rewrite Hin.
  rewrite (ok_live _ _ Ha), (proj2 (Z.eqb_neq _ _)) by lia. cbn [negb orb]. rewrite E. cbn [mbind res_bind].
  assert (length v = 256%nat) as Hlv by (by rewrite Hv, length_insert).
  assert (task_at v cur = Some (save_task ctx_at c t)) as Htc.
  { rewrite Hv, task_at_insert by lia. by rewrite decide_True. }
  destruct (pick_next_ok cur Hc fuel 0 (with_tasks ts s))
    as [(d' & n & s' & Hfr' & Hn & Ep & Ha' & Hc' & Hv' & Hi' & _)|[Hnone _]].
  { exact Hts. } { change (current_task_index (with_tasks ts s)) with cur. unfold after. dlia. } { lia. } { done. }
  2:{ destruct Hfr as (Hd & Hrd & _). cbn [tasks with_tasks] in Hnone. rewrite <- Hvs, Hnone in Hrd by lia. done. }
  cbn [tasks with_tasks] in Hfr', Hn, Hv'. rewrite Hvs in Hfr', Hn, Hv'.
  assert (d' = d) as ->.
  { destruct Hfr as (? & ? & Hbef), Hfr' as (? & ? & Hbef').
    destruct (Z.lt_trichotomy d d') as [Hlt|[?|Hlt]]; [|done|].
    - rewrite Hbef' in * by lia. done.
    - rewrite Hbef in * by lia. done. }
  change (current_task_index (with_tasks ts s)) with cur. rewrite Ep. cbn [mbind res_bind]. exists n, s'. split_and!; [done..| |done|done].
  assert (0 ≤ after cur d < 256) as Hj by (unfold after; dlia).
  split; [done|by rewrite Hi'|by rewrite Hc'| |].
  - rewrite Hv', (live_some _ _ n) by (by apply task_at_lookup).
    rewrite Hv, (live_some _ _ t) by (by apply task_at_lookup). done.
  - intros i Hi. rewrite Hv', Hc', task_at_insert by lia.
    destruct (decide (after cur d = i)) as [<-|Hne]; [split; [done|intros _; by eexists]|].
    rewrite Hv, task_at_insert by lia. split; [|congruence]. intros (x & Hx & Hrx).
    destruct (decide (cur = i)) as [<-|Hne2].
    + injection Hx as <-. simpl in Hrx. by destruct (_ && _).
    + destruct Hne2. symmetry. apply Hr; [done|]. by exists x.
Qed.

(** If some task is ready, the search finds a first one. *)
Lemma first_ready_exists v start j :
  0 ≤ start < 256 → 0 ≤ j < 256 → j ≠ start → ready v j = true →
  ∃ d, first_ready v start 0 d ∧ d ≤ (j - start) mod 256.
Proof.
  intros Hst Hj Hne Hr. set (D := (j - start) mod 256).
  assert (after start D = j) as HD by (unfold after, D; dlia).
  assert (0 < D < 256) as HDr by (unfold D; dlia).
  assert (∀ n, Z.of_nat n ≤ D → (∃ d, first_ready v start 0 d ∧ d ≤ Z.of_nat n)
            ∨ ∀ e, 0 < e ≤ Z.of_nat n → ready v (after start e) = false) as Hsearch.
  { induction n as [|n IH]; intros Hn; [right; intros; lia|].
    destruct IH as [(d & Hd & Hle)|Hnone]; [lia|left; exists d; split; [done|lia]|].
    destruct (ready v (after start (Z.of_nat (S n)))) eqn:E.
    - left. exists (Z.of_nat (S n)). split; [|lia]. split_and!; [lia|lia|done|].
      intros e He. apply Hnone. lia.
    - right. intros e He. destruct (decide (e = Z.of_nat (S n))) as [->|]; [done|apply Hnone; lia]. }
  destruct (Hsearch (Z.to_nat D)) as [(d & Hd & Hle)|Hnone]; [lia|exists d; split; [done|lia]|].
  rewrite <- HD, Hnone in Hr by lia. done.
Qed.

(** [schedule] when nothing is ready after saving: the current task goes on. *)
Lemma schedule_alone ctx_at c s t v :
  started s → task_at (view (tasks s)) (current_task_index s) = Some t →
  v = <[Z.to_nat (current_task_index s) := Some (save_task ctx_at c t)]> (view (tasks s)) →
  (∀ e, 0 < e ≤ 256 → ready v (after (current_task_index s) e) = false) →
  ∃ s', schedule crt dummy boot junk ctx_at c s = Ok (c, s') ∧ started s'
    ∧ current_task_index s' = current_task_index s
    ∧ view (tasks s') = <[Z.to_nat (current_task_index s) := Some (with_state RUNNING (save_task ctx_at c t))]> v.
Proof.
  intros Hs Ht Hv Hno. pose proof (view_len s Hs) as Hlen.
  destruct (save_current_ok ctx_at c s Hs) as (t' & ts & Ht' & Hrun & E & Hts & Hvs).
  assert (t' = t) as -> by congruence. rewrite <- Hv in Hvs. destruct Hs as [Ha Hin Hc Hl Hr].
  set (cur := current_task_index s) in *. unfold schedule, empty.
  assert (Z.of_nat (Z.to_nat CAPACITY) = 256 - 0) as Hf by (by rewrite Z2Nat.id).
  revert Hf. generalize (Z.to_nat CAPACITY) as fuel. intros fuel Hf. rewrite Hin.
  rewrite (ok_live _ _ Ha), (proj2 (Z.eqb_neq _ _)) by lia. cbn [negb orb]. rewrite E. cbn [mbind res_bind].
  assert (length v = 256%nat) as Hlv by (by rewrite Hv, length_insert).
  assert (task_at v cur = Some (save_task ctx_at c t)) as Htc.
  { rewrite Hv, task_at_insert by lia. by rewrite decide_True. }
  destruct (pick_next_ok cur Hc fuel 0 (with_tasks ts s))
    as [(d' & n & s' & (Hd & Hrd & _) & _)|[_ Ep]].
  { exact Hts. } { change (current_task_index (with_tasks ts s)) with cur. unfold after. dlia. }
  { lia. } { done. }
  { cbn [tasks with_tasks] in Hrd. rewrite Hvs, Hno in Hrd by lia. done. }
  change (current_task_index (with_tasks ts s)) with cur. rewrite Ep. cbn [mbind res_bind].
  cbn [tasks with_current with_tasks current_task_index].
  rewrite (occupied_view 256 _ Hts) by lia. fold (task_at (view ts) cur). rewrite Hvs, Htc.
  rewrite bool_decide_true by done.
  destruct (update_task_ok 256 ts cur (save_task ctx_at c t) (with_state RUNNING) Hts)
    as (ts2 & -> & Hts2 & Hv2); [lia|rewrite Hvs; by apply task_at_lookup|]. cbn [mbind res_bind].
  eexists. split; [done|]. rewrite Hvs in Hv2. split_and!; [|done|exact Hv2].
  split; [done|done|done| |]; cbn [tasks with_tasks with_current current_task_index].
  - rewrite Hv2, (live_some _ _ (save_task ctx_at c t)) by (by apply task_at_lookup).
    rewrite Hv, (live_some _ _ t) by (by apply task_at_lookup). done.
  - intros i Hi. rewrite Hv2, task_at_insert by lia.
    destruct (decide (cur = i)) as [<-|Hne]; [split; [done|intros _; by eexists]|].
    rewrite Hv, task_at_insert, decide_False by lia. split; [|congruence]. intros Hx.
    by apply Hr.
Qed.

(** Every call of [schedule] returns. *)
Lemma schedule_total ctx_at c s :
  started s → ∃ c' s', schedule crt dummy boot junk ctx_at c s = Ok (c', s') ∧ started s'
    ∧ live (view (tasks s')) = live (view (tasks s)).
Proof.
  intros Hs. pose proof (view_len s Hs) as Hlen.
  destruct (save_current_ok ctx_at c s Hs) as (t & ts & Ht & _ & _ & _ & Hvs).
  pose proof (st_cur _ Hs) as Hc. set (cur := current_task_index s) in *.
  set (v := <[Z.to_nat cur := Some (save_task ctx_at c t)]> (view (tasks s))).
  assert (live v = live (view (tasks s))) as Hlv.
  { unfold v. apply (live_some _ _ t). by apply task_at_lookup. }
  assert ((∃ d, first_ready v cur 0 d) ∨ ∀ e, 0 < e ≤ 256 → ready v (after cur e) = false) as Hcase.
  { assert (∀ n, (∃ d, first_ready v cur 0 d) ∨ (∀ e, 0 < e ≤ Z.of_nat n → e ≤ 256 → ready v (after cur e) = false)) as Hn.
    { induction n as [|n [?|IH]]; [right; intros; lia|by left|].
      destruct (decide (Z.of_nat (S n) ≤ 256)); [|right; intros; apply IH; lia].
      destruct (ready v (after cur (Z.of_nat (S n)))) eqn:Er.
      - left. exists (Z.of_nat (S n)). split_and!; [lia|lia|done|]. intros e He. apply IH; lia.
      - right. intros e He Hle. destruct (decide (e = Z.of_nat (S n))) as [->|]; [done|apply IH; lia]. }
    destruct (Hn 256%nat) as [?|Hall]; [by left|right]. intros e He. apply Hall; lia. }
  destruct Hcase as [[d Hd]|Hno].
  - destruct (schedule_ok ctx_at c s t v d Hs Ht eq_refl Hd) as (n & s' & Hn & E & Hs' & _ & Hv').
    exists (ctx n), s'. split_and!; [done|done|]. rewrite Hv', (live_some _ _ n); [done|].
    by apply task_at_lookup.
  - destruct (schedule_alone ctx_at c s t v Hs Ht eq_refl Hno) as (s' & E & Hs' & _ & Hv').
    exists c, s'. split_and!; [done|done|]. fold cur in Hv'.
    rewrite Hv', (live_some _ _ (save_task ctx_at c t)); [done|]. apply task_at_lookup.
    unfold v. rewrite task_at_insert by lia. by rewrite decide_True.
Qed.

(** ** Start-up *)

Lemma create_task_ok nm entry st esp s m i :
  array_ok 256 (tasks s) → first_none (view (tasks s)) = Some i →
  let t := task_fields crt dummy junk (next_task_id s) nm None st in
  ∃ ts, create_task crt dummy junk nm entry st esp s m
        = Ok (Z.of_nat i, Sched ts (current_task_index s) (u32 (next_task_id s + 1)) (initialized s) (time_slice_ms s),
              copy_anchor_from st (from_sp esp) m)
    ∧ array_ok 256 ts
    ∧ view ts = <[i := Some (with_ctx (with_eax entry (ctx t)) t)]> (view (tasks s)).
Proof.
  intros Ha Hi t. unfold create_task, task_new. cbv beta iota zeta. fold t. pose proof (emplace_ok 256 _ Ha t) as He.
  rewrite Hi in He. destruct He as (a & -> & Ha1 & Hv1). cbn [mbind res_bind].
  pose proof (lookup_lt_Some _ _ _ (proj1 (first_none_Some _ _ Hi))) as Hlt.
  destruct (update_task_ok 256 a (Z.of_nat i) t (λ t, with_ctx (with_eax entry (ctx t)) t) Ha1)
    as (ts & -> & Hts & Hv); [lia|rewrite Hv1, Nat2Z.id; by apply list_lookup_insert_eq|].
  cbn [mbind res_bind]. exists ts. split_and!; [done|done|].
  by rewrite Hv, Hv1, Nat2Z.id, list_insert_insert_eq.
Qed.

(** A task that is created on a stack with an anchor runs on one with the same core. *)
Lemma created_task_anchored nm entry st esp s m i s' m' b c :
  create_task crt dummy junk nm entry st esp s m = Ok (i, s', m') → bytes_ok m →
  stack_at b → b ≤ esp < b + 4096 → anchored m b c → anchored m' st c.
Proof.
  unfold create_task, task_new. cbv beta iota zeta. intros E Hm Hb Hesp Ha.
  apply bind_Ok_inv in E as ([j ts] & _ & E). apply bind_Ok_inv in E as (ts' & _ & E). injection E as <- <- <-.
  rewrite (from_sp_ok b) by done. by apply copy_anchor_ok.
Qed.

Lemma scheduler_new_ok slice idle st esp m :
  let t := task_fields crt dummy junk 1 "idle" None st in
  ∃ s, scheduler_new crt dummy junk slice idle st esp m = Ok (s, copy_anchor_from st (from_sp esp) m) ∧ array_ok 256 (tasks s)
    ∧ initialized s = true ∧ current_task_index s = 0
    ∧ view (tasks s) = Some (with_ctx (with_eax idle (ctx t)) t) :: replicate 255 None.
Proof.
  intros t. unfold scheduler_new.
  destruct (array_init_ok (T := Task) CAPACITY) as [Ha Hv]; [done|].
  destruct (create_task_ok "idle" idle st esp (Sched (array_init CAPACITY) 0 1 false slice) m 0)
    as (ts & E & Hts & Hvs); [exact Ha|cbn [tasks]; rewrite Hv; reflexivity|].
  rewrite E. cbn [mbind res_bind]. eexists. split; [done|]. split_and!; [done..|].
  cbn [tasks] in Hvs |- *. rewrite Hvs, Hv. reflexivity.
Qed.

Lemma lookup_behind {A} (a b : A) l i :
  2 ≤ i → (a :: b :: l) !! Z.to_nat i = l !! Z.to_nat (i - 2).
Proof. intros Hi. by replace (Z.to_nat i) with (S (S (Z.to_nat (i - 2)))) by lia. Qed.

(** The first [schedule]: the interrupted context becomes the task "kernel" in
    slot 1 and the idle task runs. *)
Lemma first_schedule_ok ctx_at c s t :
  array_ok 256 (tasks s) → initialized s = true →
  view (tasks s) = Some t :: replicate 255 None → state t = READY →
  let k := with_ctx c (task_fields crt dummy junk (next_task_id s) "kernel" (Some boot) 0) in
  ∃ s', schedule crt dummy boot junk ctx_at c s = Ok (ctx t, s') ∧ started s'
    ∧ current_task_index s' = 0
    ∧ view (tasks s') = Some (with_state RUNNING t) :: Some k :: replicate 254 None.
Proof.
  intros Ha Hin Hv Hst k. unfold schedule, empty, save_current, live_count.
  assert (Z.of_nat (Z.to_nat CAPACITY) = 256 - 0) as Hf by (by rewrite Z2Nat.id).
  revert Hf. generalize (Z.to_nat CAPACITY) as fuel. intros fuel Hf.
  assert (live_count_ (tasks s) = 1) as Hlc.
  { rewrite (ok_live _ _ Ha), Hv. reflexivity. }
  rewrite Hin, Hlc. change (1 =? 0) with false. change (1 <=? 1) with true. cbn [negb orb].
  set (k0 := task_fields _ _ _ _ _ _ _). pose proof (emplace_ok 256 _ Ha k0) as He.
  assert (first_none (view (tasks s)) = Some 1%nat) as Hfn by (by rewrite Hv).
  rewrite Hfn in He. destruct He as (a & -> & Ha1 & Hv1). cbn [mbind res_bind].
  change (Z.of_nat 1) with 1.
  destruct (update_task_ok 256 a 1 k0 (with_ctx c) Ha1) as (ts & -> & Hts & Hv2);
    [lia|by rewrite Hv1, Hv|]. cbn [mbind res_bind].
  assert (view ts = Some t :: Some k :: replicate 254 None) as Hvt by (by rewrite Hv2, Hv1, Hv).
  set (s1 := Sched ts 1 _ _ _). change (current_task_index s1) with 1.
  assert (first_ready (view ts) 1 0 255) as Hfr.
  { split_and!; [lia|lia|rewrite Hvt; unfold ready; simpl; by apply bool_decide_true|].
    intros e He. unfold after. rewrite Z.mod_small by lia. rewrite Hvt. unfold ready, task_at.
    rewrite lookup_behind by lia. by rewrite lookup_replicate_2 by lia. }
  destruct (pick_next_ok 1 ltac:(lia) fuel 0 s1)
    as [(d & n & s' & Hfr' & Hn & Ep & Ha' & Hc' & Hv' & Hi' & _)|[Hno _]];
    [done|done|lia|done| |].
  2:{ destruct Hfr as (_&Hr&_). cbn [tasks s1] in Hno. rewrite Hno in Hr by lia. done. }
  cbn [tasks s1] in Hfr', Hn, Hv'. assert (d = 255) as ->.
  { destruct Hfr as (?&Hr&Hbef), Hfr' as (?&Hr'&Hbef').
    destruct (Z.lt_trichotomy d 255) as [Hlt|[?|Hlt]]; [|done|].
    - rewrite Hbef in Hr' by lia. done.
    - rewrite Hbef' in Hr by lia. done. }
  change (after 1 255) with 0 in *. assert (n = t) as ->.
  { rewrite Hvt in Hn. by injection Hn. }
  rewrite Ep. cbn [mbind res_bind]. exists s'.
  assert (view (tasks s') = Some (with_state RUNNING t) :: Some k :: replicate 254 None) as Hvs
    by (by rewrite Hv', Hvt).
  split_and!; [done| |done|done]. split; [done|by rewrite Hi'|by rewrite Hc'| |].
  - rewrite Hvs. simpl. lia.
  - intros i Hi. rewrite Hvs, Hc'. split.
    + intros (x & Hx & Hr). unfold task_at in Hx.
      destruct (decide (i = 0)) as [->|]; [done|].
      destruct (decide (i = 1)) as [->|]; [simpl in Hx; injection Hx as <-; done|].
      rewrite lookup_behind, lookup_replicate_2 in Hx by lia. done.
    + intros ->. by eexists.
Qed.
End Lemmas.

(** A sequence of scheduling points, each interrupting the running task in some
    context. *)
Fixpoint schedules (crt dummy boot : Z) (junk : BaseInterruptFrame)
  (cs : list (Z * InterruptFrame)) (s : Scheduler) : res Scheduler :=
  match cs with
  | [] => Ok s
  | (at_, c) :: cs => '(_, s) ← schedule crt dummy boot junk at_ c s; schedules crt dummy boot junk cs s
  end.

Lemma fair_run crt dummy boot junk : ∀ (D : nat) s j t cs,
  started s → 0 ≤ j < 256 → task_at (view (tasks s)) j = Some t → state t = READY →
  (j - current_task_index s) mod 256 ≤ Z.of_nat D → (D ≤ length cs)%nat →
  ∃ n s', (n ≤ D)%nat ∧ schedules crt dummy boot junk (take n cs) s = Ok s' ∧ started s'
    ∧ current_task_index s' = j ∧ task_at (view (tasks s')) j = Some (with_state RUNNING t).
Proof.
  induction D as [|D IH]; intros s j t cs Hs Hj Ht Hst HD Hlen.
  all: pose proof (st_cur _ Hs) as Hc.
  all: assert (j ≠ current_task_index s) as Hne
    by (intros ->; destruct (proj2 (st_running _ Hs _ Hc) eq_refl) as (x & Hx & Hr); congruence).
  { assert ((j - current_task_index s) mod 256 = 0) by dlia. dlia. }
  destruct cs as [|[at_ c] cs]; [simpl in Hlen; lia|]. simpl in Hlen.
  pose proof (view_len s Hs) as Hl.
  destruct (proj2 (st_running _ Hs _ Hc) eq_refl) as (r & Hr & _).
  set (cur := current_task_index s) in *.
  set (v := <[Z.to_nat cur := Some (save_task at_ c r)]> (view (tasks s))).
  assert (∀ i, 0 ≤ i < 256 → i ≠ cur → task_at v i = task_at (view (tasks s)) i) as Hsame.
  { intros i Hi Hni. unfold v. rewrite task_at_insert, decide_False by lia. done. }
  assert (ready v j = true) as Hrj.
  { unfold ready. rewrite Hsame, Ht by done. by apply bool_decide_true. }
  destruct (first_ready_exists v cur j Hc Hj Hne Hrj) as (d & Hfr & Hdle).
  destruct (schedule_ok crt dummy boot junk at_ c s r v d Hs Hr eq_refl Hfr)
    as (n & s1 & Hn & E & Hs1 & Hc1 & Hv1). fold cur in Hn, Hc1, Hv1.
  assert (0 < d ≤ 256) as Hd by apply Hfr.
  assert (0 ≤ after cur d < 256) as Haft by (unfold after; dlia).
  assert (length v = 256%nat) as Hlv by (unfold v; by rewrite length_insert).
  destruct (decide (after cur d = j)) as [Ej|Ej].
  - exists 1%nat, s1. assert (n = t) as -> by (rewrite Ej, Hsame, Ht in Hn by done; congruence).
    split_and!; [lia| |done|congruence|].
    + cbn [take schedules]. rewrite E. cbn [mbind res_bind]. by destruct cs.
    + rewrite Hv1, Ej, task_at_insert by lia. by rewrite decide_True.
  - destruct (IH s1 j t cs Hs1 Hj) as (n' & s2 & Hn' & E2 & Hs2 & Hc2 & Ht2).
    + rewrite Hv1, task_at_insert, decide_False by lia. by rewrite Hsame.
    + done.
    + rewrite Hc1. assert (d < (j - cur) mod 256).
      { destruct (decide (d = (j - cur) mod 256)) as [->|]; [|lia]. destruct Ej. unfold after. dlia. }
      unfold after. dlia.
    + lia.
    + exists (S n'), s2. split_and!; [lia| |done..].
      cbn [take schedules]. rewrite E. exact E2.
Qed.

(** A started scheduler: two tasks, the idle task running. *)
Lemma started_example :
  ∃ s c, started s ∧ current_task_index s = 0
    ∧ (∃ t, task_at (view (tasks s)) 1 = Some t ∧ state t = READY ∧ ctx t = c).
Proof.
  set (junk := BaseFrame 0 0 0 0 0).
  destruct (scheduler_new_ok 0x100 0x200 junk 10 0x300 0x1000000 0 (λ _, 0))
    as (s & _ & Ha & Hi & _ & Hv).
  set (c := Frame 0 0 0 0 0 0 0 0 0 0 0 7 0 0 junk).
  destruct (first_schedule_ok 0x100 0x200 0x500 junk 0 c s _ Ha Hi Hv eq_refl)
    as (s1 & _ & Hs1 & Hc1 & Hv1).
  exists s1, c. split_and!; [done|done|]. rewrite Hv1. eexists. done.
Qed.

(** C15: context switches. When a started scheduler is interrupted in context
    [c], exactly one task runs afterwards: the first ready one after the current task in cyclic
    order, in the context that was saved for it. The interrupted task is left with the context [c],
    the end of the frame as its stack pointer, and ready, or terminated when [c] carries the exit
    marker; every other task is unchanged, but that the chosen one is now running. *)
Theorem schedule_switches crt dummy boot junk ctx_at c s cur t :
  started s → current_task_index s = cur → task_at (view (tasks s)) cur = Some t →
  let v := <[Z.to_nat cur := Some (save_task ctx_at c t)]> (view (tasks s)) in
  (∃ j, 0 ≤ j < 256 ∧ j ≠ cur ∧ ready v j = true) →
  ∃ d n s', first_ready v cur 0 d ∧ after cur d ≠ cur ∧ task_at (view (tasks s)) (after cur d) = Some n
    ∧ schedule crt dummy boot junk ctx_at c s = Ok (ctx n, s') ∧ started s'
    ∧ current_task_index s' = after cur d
    ∧ (∃ t', task_at (view (tasks s')) cur = Some t' ∧ ctx t' = c ∧ stack_ptr t' = u32 (ctx_at + FRAME_SIZE)
         ∧ state t' = (if decide (eax c = 0xDEADDEAD ∧ ebp c = 0) then TERMINATED else READY)
         ∧ id t' = id t ∧ stack t' = stack t ∧ name t' = name t)
    ∧ ∀ i, 0 ≤ i < 256 → i ≠ cur → task_at (view (tasks s')) i
         = (if decide (i = after cur d) then Some (with_state RUNNING n) else task_at (view (tasks s)) i).
Proof.
  intros Hs <- Ht v (j & Hj & Hne & Hr). pose proof (view_len s Hs) as Hl. pose proof (st_cur _ Hs) as Hc.
  destruct (first_ready_exists v _ j Hc Hj Hne Hr) as (d & Hfr & Hd).
  destruct (schedule_ok crt dummy boot junk ctx_at c s t v d Hs Ht eq_refl Hfr)
    as (n & s' & Hn & E & Hs' & Hc' & Hv').
  assert (length v = 256%nat) as Hlv by (unfold v; by rewrite length_insert).
  assert (0 ≤ after (current_task_index s) d < 256 ∧ after (current_task_index s) d ≠ current_task_index s) as [Ha Hac]
    by (destruct Hfr as (? & _ & _); unfold after in *; dlia).
  exists d, n, s'. rewrite Hv'. split_and!; [done|done| |done..| |].
  - unfold v in Hn. by rewrite task_at_insert, decide_False in Hn by (done || lia).
  - exists (save_task ctx_at c t). rewrite task_at_insert, decide_False by (done || lia).
    unfold v. rewrite task_at_insert, decide_True by lia. split_and!; try done. unfold save_task. cbn [state save_task with_state].
    destruct (Z.eqb_spec (eax c) 0xDEADDEAD), (Z.eqb_spec (ebp c) 0); cbn [andb];
      ((by rewrite decide_True) || (by rewrite decide_False by tauto)).
  - intros i Hi Hic. rewrite task_at_insert by lia. unfold v.
    destruct (decide (i = after (current_task_index s) d)) as [->|Hne2]; [by rewrite decide_True|].
    rewrite (decide_False (P := after _ _ = i)) by congruence. by rewrite task_at_insert, decide_False by (done || lia).
Qed.

Lemma schedule_switches_witness : let f := Frame 0 0 0 0 0 0 0 0 0 0 0 7 0 0 (BaseFrame 0 0 0 0 0) in
  ∃ s n s' t', schedule 0 0 0 (BaseFrame 0 0 0 0 0) 0x1000 f s = Ok (ctx n, s') ∧ started s'
    ∧ task_at (view (tasks s')) 0 = Some t' ∧ ctx t' = f ∧ state t' = READY.
Proof.
  intros f. destruct started_example as (s & c & Hs & Hcur & t & Ht & Hst & _).
  destruct (proj2 (st_running _ Hs 0 ltac:(lia)) (eq_sym Hcur)) as (r & Hr & _).
  pose proof (view_len s Hs) as Hl.
  destruct (schedule_switches 0 0 0 (BaseFrame 0 0 0 0 0) 0x1000 f s 0 r Hs Hcur Hr)
    as (d & n & s' & _ & _ & _ & E & Hs' & _ & (t' & Ht' & Hc & _ & Hst' & _) & _).
  { exists 1. split_and!; [lia|lia|lia|]. unfold ready. rewrite task_at_insert, decide_False by lia.
    rewrite Ht. by apply bool_decide_true. }
  exists s, n, s', t'. split_and!; [exact E|exact Hs'|exact Ht'|exact Hc|exact Hst'].
Defined.

(** Fairness. A ready task gets the processor after at most 255 scheduling
    points, whatever contexts the running tasks are interrupted in. *)
Theorem ready_task_runs crt dummy boot junk s j t cs :
  started s → 0 ≤ j < 256 → task_at (view (tasks s)) j = Some t → state t = READY →
  (255 ≤ length cs)%nat →
  ∃ n s', (n ≤ 255)%nat ∧ schedules crt dummy boot junk (take n cs) s = Ok s' ∧ started s'
    ∧ current_task_index s' = j ∧ task_at (view (tasks s')) j = Some (with_state RUNNING t).
Proof.
  intros Hs Hj Ht Hst Hlen. apply fair_run; [done..| |done]. dlia.
Qed.

Lemma ready_task_runs_witness :
  ∃ s n s' t, (n ≤ 255)%nat
    ∧ schedules 0 0 0 (BaseFrame 0 0 0 0 0)
        (take n (replicate 255 (0, Frame 0 0 0 0 0 0 0 0 0 0 0 0 0 0 (BaseFrame 0 0 0 0 0)))) s = Ok s'
    ∧ current_task_index s' = 1 ∧ task_at (view (tasks s')) 1 = Some (with_state RUNNING t).
Proof.
  destruct started_example as (s & c & Hs & Hcur & t & Ht & Hst & _).
  destruct (ready_task_runs 0 0 0 (BaseFrame 0 0 0 0 0) s 1 t
    (replicate 255 (0, Frame 0 0 0 0 0 0 0 0 0 0 0 0 0 0 (BaseFrame 0 0 0 0 0))) Hs)
    as (n & s' & Hn & E & _ & Hc & Ht'); [lia|exact Ht|exact Hst|rewrite length_replicate; lia|].
  exists s, n, s', t. split_and!; [exact Hn|exact E|exact Hc|exact Ht'].
Defined.

(** Start-up. After the constructor, the first scheduling point stores the
    boot context [c] as task "kernel" and switches to the idle task; the next one,
    in whatever context the idle task is interrupted, resumes exactly [c]. *)
Theorem boot_context_resumes crt dummy boot junk slice idle st esp m at1 c at2 c2 :
  ∃ s0 m0 s1 s2 c1, scheduler_new crt dummy junk slice idle st esp m = Ok (s0, m0)
    ∧ schedule crt dummy boot junk at1 c s0 = Ok (c1, s1)
    ∧ schedule crt dummy boot junk at2 c2 s1 = Ok (c, s2)
    ∧ started s2 ∧ current_task_index s2 = 1 ∧ eax c1 = idle.
Proof.
  destruct (scheduler_new_ok crt dummy junk slice idle st esp m) as (s0 & E0 & Ha & Hi & _ & Hv).
  set (t := task_fields crt dummy junk 1 "idle" None st) in Hv.
  destruct (first_schedule_ok crt dummy boot junk at1 c s0 _ Ha Hi Hv eq_refl)
    as (s1 & E1 & Hs1 & Hc1 & Hv1).
  set (r := with_state RUNNING _) in Hv1. set (k := with_ctx c _) in Hv1.
  set (v := <[Z.to_nat 0 := Some (save_task at2 c2 r)]> (view (tasks s1))).
  assert (first_ready v 0 0 1) as Hfr.
  { split_and!; [lia|lia| |intros; lia]. unfold v. rewrite Hv1. reflexivity. }
  destruct (schedule_ok crt dummy boot junk at2 c2 s1 r v 1 Hs1) as (n & s2 & Hn & E2 & Hs2 & Hc2 & _).
  - rewrite Hc1, Hv1. reflexivity.
  - by rewrite Hc1.
  - by rewrite Hc1.
  - rewrite Hc1 in *. change (after 0 1) with 1 in *. unfold v in Hn. rewrite Hv1 in Hn.
    assert (n = k) as -> by (by injection Hn).
    eexists s0, _, s1, s2, (ctx (with_ctx (with_eax idle (ctx t)) t)). split_and!; done.
Qed.

(** Slots are never reclaimed. Scheduling keeps the number of occupied
    slots even when tasks terminate, so once 256 tasks were created (idle and
    kernel included) every further [create_task] panics, however many of them
    have finished. *)
Theorem task_slots_not_reclaimed crt dummy boot junk s ctx_at c nm entry st esp m :
  started s →
  (∃ c' s', schedule crt dummy boot junk ctx_at c s = Ok (c', s') ∧ started s'
            ∧ live_count (tasks s') = live_count (tasks s))
  ∧ (live_count (tasks s) = CAPACITY →
     create_task crt dummy junk nm entry st esp s m = Panic "StaticArray full").
Proof.
  intros Hs. split.
  - destruct (schedule_total crt dummy boot junk ctx_at c s Hs) as (c' & s' & E & Hs' & Hl).
    exists c', s'. split_and!; [done|done|]. unfold live_count.
    by rewrite (ok_live _ _ (st_array _ Hs')), (ok_live _ _ (st_array _ Hs)), Hl.
  - intros Hfull. unfold create_task, task_new. cbv beta iota zeta.
    pose proof (emplace_ok 256 _ (st_array _ Hs) (task_fields crt dummy junk (next_task_id s) nm None st)) as He.
    assert (first_none (view (tasks s)) = None) as Hn.
    { apply (full_iff 256 _ (st_array _ Hs)). unfold full, live_count in *.
      rewrite Hfull, (capacity_eq 256 _ (st_array _ Hs)). reflexivity. }
    rewrite Hn in He. rewrite He. reflexivity.
Qed.

Lemma task_slots_not_reclaimed_witness :
  ∃ s c' s', schedule 0 0 0 (BaseFrame 0 0 0 0 0) 0
      (Frame 0 0 0 0 0 0 0 0 0 0 0 0xDEADDEAD 0 0 (BaseFrame 0 0 0 0 0)) s = Ok (c', s')
    ∧ live_count (tasks s') = live_count (tasks s).
Proof.
  destruct started_example as (s & c & Hs & _).
  destruct (task_slots_not_reclaimed 0 0 0 (BaseFrame 0 0 0 0 0) s 0
    (Frame 0 0 0 0 0 0 0 0 0 0 0 0xDEADDEAD 0 0 (BaseFrame 0 0 0 0 0)) "t" 0 0 0 (λ _, 0) Hs)
    as [(c' & s' & E & _ & Hl) _].
  exists s, c', s'. split; [exact E|exact Hl].
Defined.
