(* ===== verification/Preempt.v ===== *)
(** Preemption: the constructor and the destructor of the scheduler with the interrupts that
    drive it (kernel/src/sched/scheduler.cpp, kernel/src/driver/pit.cpp, kernel/src/int/idt.cpp,
    [Core::scheduler] of kernel/src/sys/smp.cpp).

    [Interrupts.v], [Pit.v] and [Scheduler.v] together: an interrupt goes through the
    table of handlers to the tick of the timer, which calls [timer_tick] when the time
    slice is over, or to the handler of vector 48, and both call [schedule] on the frame on
    the interrupt stack. The anchor of that stack is looked up first, as is the one a new task's
    stack gets. Handlers of other parts are parameters. *)
From S2P Require Import Prelude Memory Stacks Slots Interrupts Pit Scheduler.

(** What handlers of the timer work on: the scheduler of the kernel, a slot of static
    storage that may be constructed, and the frame of the interrupt. *)
Record core := Core { sched : Scheduler; constructed : bool; frame_at : Z; frame : InterruptFrame }.
Definition with_sched (s : Scheduler) (c : core) : core := Core s (constructed c) (frame_at c) (frame c).

Inductive io := Out (port v : Z) | Eoi.
Record machine := Machine { vectors : Interrupts.handlers; timer : pit; on_core : core; ios : list io; stacks : ram }.
Definition with_core (c : core) (m : machine) : machine := Machine (vectors m) (timer m) c (ios m) (stacks m).
Definition with_io (e : io) (m : machine) : machine := Machine (vectors m) (timer m) (on_core m) (ios m ++ [e]) (stacks m).

(** One thing that happens to the core: the timer interrupts it in a context, the
    running task yields (the frame is put at [at_]), or it creates, with the stack pointer [sp], a task
    whose stack is at [st]. *)
Inductive event :=
| Timer (at_ : Z) (f : InterruptFrame)
| Yield (at_ : Z) (f : InterruptFrame)
| Create (nm : string) (entry st sp : Z).

Section preempt.
(** Fixed addresses: [Task::_crt_task_entry], [dummy_func], the boot stack, [&pit::tick_handler],
    [&Scheduler::timer_tick], the handler of vector 48, and the scheduler object. *)
Context (crt dummy boot : Z) (junk : BaseInterruptFrame).
Context (tick_at timer_tick_at reschedule_at sched_at : Z).
(** How the stack pointers of [isr_handler] and of the handler of vector 48 follow from the place of the frame. *)
Context (isr_sp resched_sp : Z → Z).
(** Callbacks of the timer and interrupt handlers that belong to other parts. *)
Context (other : Z → Z → core → res core) (other_isr : Z → machine → res machine).

(** [schedule] on the frame of the interrupt. *)
Definition schedule_on (c : core) : res core :=
  '(f, s) ← schedule crt dummy boot junk (frame_at c) (frame c) (sched c);
  Ok (Core s (constructed c) (frame_at c) f).

Definition timer_tick (ptr : Z) (c : core) : res core :=
  if ptr =? sched_at then schedule_on c else other timer_tick_at ptr c.

Definition call_timer (cb a : Z) (c : core) : res core :=
  if cb =? timer_tick_at then timer_tick a c else other cb a c.

(** [Core::scheduler]: [get] of the slot panics before the address it gives is looked at. *)
Definition core_scheduler (c : core) : res Scheduler :=
  Slot_.get (Slot (if constructed c then Some (sched c) else None) (constructed c)).

(** The handler of vector 48, which the constructor registers. *)
Definition reschedule (m : machine) : res machine :=
  match isr_kind (get_isr_wrapper (λ _, 0) (λ _, 0) (λ _, 0) 48) with
  | ContextSwitch => _ ← current_core (stacks m) (resched_sp (frame_at (on_core m))); _ ← core_scheduler (on_core m); c ← schedule_on (on_core m); Ok (with_core c m)
  | Base => Ok m
  end.

#[local] Instance machine_board : Board machine := {|
  outb := λ p v m, with_io (Out p v) m;
  lapic_eoi := with_io Eoi;
  call_isr := λ h _ m, if h =? reschedule_at then reschedule m else other_isr h m;
  call_irq := λ h m, if h =? tick_at then
      '(p, c) ← tick_handler call_timer (timer m) (on_core m); Ok (Machine (vectors m) p c (ios m) (stacks m))
    else other_isr h m
|}.

(** An interrupt: the context is in the frame when the handler starts, and what is in the
    frame when it ends goes on. *)
Definition interrupt (no at_ : Z) (f : InterruptFrame) (m : machine) : res (InterruptFrame * machine) :=
  let c := on_core m in
  m ← isr_handler (vectors m) (stacks m) (isr_sp at_) no 0 (with_core (Core (sched c) (constructed c) at_ f) m);
  Ok (frame (on_core m), m).

Definition yield_now (at_ : Z) (f : InterruptFrame) (m : machine) : res (InterruptFrame * machine) :=
  if negb (initialized (sched (on_core m))) then Ok (f, m) else interrupt 48 at_ f m.

Definition create_now (nm : string) (entry st sp : Z) (m : machine) : res machine :=
  '(_, s, x) ← create_task crt dummy junk nm entry st sp (sched (on_core m)) (stacks m);
  Ok (Machine (vectors m) (timer m) (with_sched s (on_core m)) (ios m) x).

(** The contexts that go on after the interrupts of a list of events. *)
Fixpoint run (evs : list event) (m : machine) : res (list InterruptFrame * machine) :=
  match evs with
  | [] => Ok ([], m)
  | Timer at_ f :: evs => '(g, m) ← interrupt 32 at_ f m; '(gs, m) ← run evs m; Ok (g :: gs, m)
  | Yield at_ f :: evs => '(g, m) ← yield_now at_ f m; '(gs, m) ← run evs m; Ok (g :: gs, m)
  | Create nm e st sp :: evs => m ← create_now nm e st sp m; run evs m
  end.

(** [pit::init], with the registration of its interrupt. *)
Definition timer_init (interval : Z) (m : machine) : res machine :=
  h ← register_irq 0 tick_at (vectors m);
  Ok (Machine h (pit_init interval (timer m)) (on_core m) (ios m) (stacks m)).

(** The constructor in its slot. That the timer has no handler left is not noticed. *)
Definition scheduler_construct (slice idle st sp : Z) (m : machine) : res machine :=
  let t := (register_handler timer_tick_at sched_at Interval (u32 (slice * 1000)) (timer m)).2 in
  h ← register_isr 48 reschedule_at (vectors m);
  '(s, x) ← scheduler_new crt dummy junk slice idle st sp (stacks m);
  Ok (Machine h t (Core s true (frame_at (on_core m)) (frame (on_core m))) (ios m) x).

(** [Task::~Task] returns the stack it deletes. *)
Definition task_destroy (t : Task) : option Z := if negb (stack t =? 0) && own_stack t then Some (stack t) else None.

Definition stacks_deleted (dead : list Task) : list Z := omap task_destroy dead.

(** The destructor, its members included; the stacks that are given back. *)
Definition scheduler_destroy (m : machine) : res (list Z * machine) :=
  let s := sched (on_core m) in
  let t := (unregister_handler timer_tick_at sched_at (timer m)).2 in
  h ← unregister_isr 48 (vectors m);
  '(dead, ts) ← Slots.clear (tasks s);
  Ok (stacks_deleted dead,
      Machine h t (Core (Sched ts (current_task_index s) (next_task_id s) false (time_slice_ms s)) false
                        (frame_at (on_core m)) (frame (on_core m))) (ios m) (stacks m)).

(** ** What it is for *)

(** The scheduler alone, told of the events: every [p]-th tick and every yield is a
    scheduling point, [k] ticks having passed since the last of the timer's. In the memory [x], every
    interrupt needs a stack with an anchor, and a yield a core. *)
Fixpoint sliced (p k : Z) (evs : list event) (s : Scheduler) (x : ram) : res (list InterruptFrame * Scheduler * ram) :=
  match evs with
  | [] => Ok ([], s, x)
  | Timer at_ f :: evs =>
      _ ← current_anchor x (isr_sp at_);
      if k + 1 =? p then
        '(g, s) ← schedule crt dummy boot junk at_ f s; '(gs, s, x) ← sliced p 0 evs s x; Ok (g :: gs, s, x)
      else '(gs, s, x) ← sliced p (k + 1) evs s x; Ok (f :: gs, s, x)
  | Yield at_ f :: evs =>
      _ ← (if initialized s then _ ← current_anchor x (isr_sp at_); current_core x (resched_sp at_) else Ok 0);
      '(g, s) ← yield crt dummy boot junk at_ f s; '(gs, s, x) ← sliced p k evs s x; Ok (g :: gs, s, x)
  | Create nm e st sp :: evs => '(_, s, x) ← create_task crt dummy junk nm e st sp s x; sliced p k evs s x
  end.
End preempt.

(** ** Lemmas *)

(** The end of an interrupt on a stack whose anchor is at [a]. *)
Definition ack {W} (eoi : W → W) (x : ram) (a : Z) (w : W) : W := if negb (anchor_core x a =? 0) then eoi w else w.

Lemma irq0_dispatch {W} `{Board W} h x sp g (w : W) : irq_handlers h !! 0%nat = Some g → g ≠ 0 →
  isr_handler h x sp 32 0 w
  = (a ← current_anchor x sp; w ← call_irq g w; Ok (ack lapic_eoi x a (outb Pic.PIC1_COMMAND 0x20 w))).
Proof.
  intros Hg Hn. unfold isr_handler, index. destruct (current_anchor x sp) as [a|t|z|]; [|done..]. cbn [mbind res_bind].
  change (Z.to_nat (32 - 32)) with 0%nat. rewrite Hg. simpl.
  rewrite (proj2 (Z.eqb_neq _ _) Hn). simpl. by destruct (call_irq g w).
Qed.

Lemma isr48_dispatch {W} `{Board W} h x sp g (w : W) : isr_handlers h !! 48%nat = Some g → g ≠ 0 →
  isr_handler h x sp 48 0 w = (a ← current_anchor x sp; w ← call_isr g 0 w; Ok (ack lapic_eoi x a w)).
Proof.
  intros Hg Hn. unfold isr_handler, index. destruct (current_anchor x sp) as [a|t|z|]; [|done..]. cbn [mbind res_bind].
  change (Z.to_nat 48) with 48%nat. rewrite Hg. simpl. by rewrite (proj2 (Z.eqb_neq _ _) Hn).
Qed.

Section facts.
Context (crt dummy boot : Z) (junk : BaseInterruptFrame).
Context (tick_at timer_tick_at reschedule_at sched_at : Z) (isr_sp resched_sp : Z → Z).
Context (other : Z → Z → core → res core) (other_isr : Z → machine → res machine).
(** The handlers are functions, and the callbacks of other parts return and leave the scheduler and the frame alone. *)
Hypothesis Haddr : tick_at ≠ 0 ∧ timer_tick_at ≠ 0 ∧ reschedule_at ≠ 0.
Hypothesis Hquiet : ∀ cb a c, (cb, a) ≠ (timer_tick_at, sched_at) → other cb a c = Ok c.

Abbreviation schedule_on := (schedule_on crt dummy boot junk).
Abbreviation call_timer := (call_timer crt dummy boot junk timer_tick_at sched_at other).
Abbreviation interrupt := (interrupt crt dummy boot junk tick_at timer_tick_at reschedule_at sched_at isr_sp resched_sp other other_isr).
Abbreviation run := (run crt dummy boot junk tick_at timer_tick_at reschedule_at sched_at isr_sp resched_sp other other_isr).
Abbreviation sliced := (sliced crt dummy boot junk isr_sp resched_sp).

Lemma call_timer_eq cb a c :
  call_timer cb a c = if decide ((cb, a) = (timer_tick_at, sched_at)) then schedule_on c else Ok c.
Proof using Hquiet.
  unfold Preempt.call_timer, timer_tick. destruct (Z.eqb_spec cb timer_tick_at) as [->|], (Z.eqb_spec a sched_at) as [->|].
  2-4: rewrite decide_False by congruence; apply Hquiet; congruence.
  by rewrite decide_True.
Qed.

Lemma count_calls_cons cb a x l : count_calls cb a (x :: l) = (if decide (x = (cb, a)) then 1 else 0) + count_calls cb a l.
Proof. change (x :: l) with ([x] ++ l). rewrite count_calls_app. destruct x. by rewrite count_calls_one. Qed.

Lemma count_calls_pos cb a l : 0 ≤ count_calls cb a l.
Proof. unfold count_calls. lia. Qed.

(** Of the calls of one tick, at most one concerns the scheduler. *)
Lemma run_calls_none l c : count_calls timer_tick_at sched_at l = 0 → run_calls call_timer l c = Ok c.
Proof using Hquiet.
  induction l as [|[cb a] l IH]; [done|]. rewrite count_calls_cons. simpl. rewrite call_timer_eq.
  pose proof (count_calls_pos timer_tick_at sched_at l). destruct (decide _); [lia|]. intros H0. simpl. apply IH. lia.
Qed.

Lemma run_calls_once l c : count_calls timer_tick_at sched_at l = 1 → run_calls call_timer l c = schedule_on c.
Proof using Hquiet.
  induction l as [|[cb a] l IH]; [done|]. rewrite count_calls_cons. simpl. rewrite call_timer_eq.
  destruct (decide _); intros H1; [|simpl; apply IH; lia].
  destruct (schedule_on c); [|done..]. simpl. apply run_calls_none. lia.
Qed.

(** The scheduler's handler is in the timer and in the table of vectors; the timer called
    it [k] ticks ago and calls it every [p]. *)
Record armed (p k : Z) (m : machine) : Prop := {
  ar_tick : irq_handlers (vectors m) !! 0%nat = Some tick_at;
  ar_resched : isr_handlers (vectors m) !! 48%nat = Some reschedule_at;
  ar_pit : pit_ok (timer m);
  ar_unit : 0 < interval_us (timer m);
  ar_phase : 0 ≤ k < p ∧ k ≤ tick_count (timer m);
  ar_slot : ∃ i h, unique_slot i h (handlers (timer m)) ∧ active h = true ∧ trigger h = Interval
    ∧ callback h = timer_tick_at ∧ arg h = sched_at
    ∧ last_triggered_us h = (tick_count (timer m) - k) * interval_us (timer m)
    ∧ p = (h_interval_us h + interval_us (timer m) - 1) / interval_us (timer m);
  ar_constructed : constructed (on_core m) = true
}.

Definition in_time (n : Z) (m : machine) : Prop := (tick_count (timer m) + n) * interval_us (timer m) < 2 ^ 64.

Lemma in_time_le n n' m : 0 < interval_us (timer m) → in_time n m → n' ≤ n → in_time n' m.
Proof. unfold in_time. nia. Qed.

(** Which calls the next tick makes, and the phase after it. *)
Lemma tick_phase p k m : armed p k m → in_time 1 m →
  let t := timer m in
  u64 (tick_count t + 1) = tick_count t + 1 ∧ u64 ((tick_count t + 1) * interval_us t) = (tick_count t + 1) * interval_us t
  ∧ count_calls timer_tick_at sched_at (calls ((tick_count t + 1) * interval_us t) (handlers t)) = (if k + 1 =? p then 1 else 0)
  ∧ ∀ c l x, constructed c = true → armed p (if k + 1 =? p then 0 else k + 1) (Machine (vectors m) (ticked t) c l x).
Proof using Haddr.
  clear crt dummy isr_sp resched_sp other_isr. intros [Ht Hr Hok Hu [Hk HkT] (i & h & Hs & Ha & Htr & Hcb & Harg & Hlast & Hp) Hc] Hno t. unfold in_time in Hno. fold t in Hok, Hu, HkT, Hs, Hlast, Hp, Hno.
  assert (u64 (tick_count t + 1) = tick_count t + 1) as E1 by (apply wrap_small; nia).
  assert (u64 ((tick_count t + 1) * interval_us t) = (tick_count t + 1) * interval_us t) as E2 by (apply wrap_small; nia).
  assert (callback h ≠ 0) as Hcb0 by (rewrite Hcb; tauto).
  pose proof (service_interval h (tick_count t - k) (tick_count t) _ p Ha Htr Hlast Hu ltac:(lia) Hp Hno) as Es.
  replace (tick_count t + 1 - (tick_count t - k)) with (k + 1) in Es by lia.
  set (now := (tick_count t + 1) * interval_us t) in *. pose proof (count_calls_slot now _ i h Hs Hcb0) as Hcnt.
  pose proof (unique_slot_serviced now i h _ Hs) as Hs'. rewrite Es in Hcnt, Hs'. rewrite Hcb, Harg in Hcnt.
  split_and!; [done|done| |].
  - rewrite Hcnt. destruct (Z.eqb_spec (k + 1) p); [rewrite decide_True by lia|rewrite decide_False by lia]; done.
  - intros c l x Hc'. split; cbn [vectors timer on_core]; try done; [by apply ticked_ok| |].
    { unfold ticked. cbn. rewrite E1. destruct (Z.eqb_spec (k + 1) p); lia. }
    unfold ticked. cbn [handlers interval_us tick_count]. rewrite E1. fold now. rewrite E2.
    destruct (Z.eqb_spec (k + 1) p); [rewrite decide_True in Hs' by lia|rewrite decide_False in Hs' by lia]; cbn [fst snd] in Hs'.
    + exists i, (set_last now h). split_and!; try done. cbn. unfold now. lia.
    + exists i, h. split_and!; try done. rewrite Hlast. lia.
Qed.

(** A timer interrupt is a scheduling point when the slice is over, and transparent when not. *)
Lemma timer_event p k m at_ f : armed p k m → in_time 1 m →
  let done_ a s g := ack (with_io Eoi) (stacks m) a (Machine (vectors m) (ticked (timer m)) (Core s true at_ g) (ios m ++ [Out Pic.PIC1_COMMAND 0x20]) (stacks m)) in
  interrupt 32 at_ f m
  = (a ← current_anchor (stacks m) (isr_sp at_);
     if k + 1 =? p then '(g, s) ← schedule crt dummy boot junk at_ f (sched (on_core m)); Ok (g, done_ a s g)
     else Ok (f, done_ a (sched (on_core m)) f))
  ∧ ∀ a s g, armed p (if k + 1 =? p then 0 else k + 1) (done_ a s g).
Proof using Haddr Hquiet.
  intros Ha Hno done_. destruct (tick_phase p k m Ha Hno) as (E1 & E2 & Hcnt & Harm).
  split; [|intros a s g; unfold done_, ack; destruct (negb _); by apply Harm]. unfold Preempt.interrupt.
  rewrite (irq0_dispatch _ _ _ _ _ (ar_tick _ _ _ Ha)) by tauto. destruct (current_anchor _ _) as [a|t|x|]; [|done..].
  cbn [mbind res_bind call_irq machine_board timer with_core on_core vectors ios stacks].
  rewrite Z.eqb_refl, tick_handler_calls, E1, E2 by apply Ha. rewrite (ar_constructed _ _ _ Ha).
  assert (∀ n : machine, frame (on_core (ack (with_io Eoi) (stacks m) a n)) = frame (on_core n)) as Hfr by (intros n; unfold ack; by destruct (negb _)).
  destruct (Z.eqb_spec (k + 1) p) as [Ep|Ep].
  - rewrite run_calls_once by done. unfold Preempt.schedule_on. cbn [sched frame frame_at constructed].
    destruct (schedule crt dummy boot junk at_ f (sched (on_core m))) as [[g s]|t|x|]; [|done..]. cbn [mbind res_bind].
    by rewrite Hfr.
  - rewrite run_calls_none by done. cbn [mbind res_bind]. by rewrite Hfr.
Qed.

(** A yield is a scheduling point once the scheduler is initialized. *)
Lemma yield_event p k m at_ f : armed p k m →
  let done_ a s g := ack (with_io Eoi) (stacks m) a (Machine (vectors m) (timer m) (Core s true at_ g) (ios m) (stacks m)) in
  yield_now crt dummy boot junk tick_at timer_tick_at reschedule_at sched_at isr_sp resched_sp other other_isr at_ f m
  = (if negb (initialized (sched (on_core m))) then Ok (f, m)
     else a ← current_anchor (stacks m) (isr_sp at_); _ ← current_core (stacks m) (resched_sp at_);
       '(g, s) ← yield crt dummy boot junk at_ f (sched (on_core m)); Ok (g, done_ a s g))
  ∧ ∀ a s g, armed p k (done_ a s g).
Proof using Haddr.
  intros Ha done_. split; [|intros a s g; unfold done_, ack; destruct (negb _); by destruct Ha].
  unfold yield_now, yield. destruct (initialized _); [|done]. cbn [negb].
  unfold Preempt.interrupt. rewrite (isr48_dispatch _ _ _ _ _ (ar_resched _ _ _ Ha)) by tauto.
  destruct (current_anchor _ _) as [a|t|x|]; [|done..]. cbn [mbind res_bind].
  cbn [call_isr machine_board]. rewrite Z.eqb_refl. unfold reschedule. cbn [isr_kind get_isr_wrapper Z.eqb orb].
  cbn [with_core on_core frame_at stacks]. destruct (current_core _ _) as [co|t|x|]; [|done..]. cbn [mbind res_bind].
  unfold core_scheduler, Slot_.get. cbn [with_core on_core constructed sched constructed_ ptr_]. rewrite (ar_constructed _ _ _ Ha).
  cbn [mbind res_bind]. unfold Preempt.schedule_on. cbn [sched frame frame_at constructed].
  destruct (schedule crt dummy boot junk at_ f (sched (on_core m))) as [[g s]|t|x|]; [|done..]. cbn [mbind res_bind].
  unfold done_, ack. by destruct (negb _).
Qed.

Fixpoint ticks_of (evs : list event) : Z :=
  match evs with [] => 0 | Timer _ _ :: evs => 1 + ticks_of evs | _ :: evs => ticks_of evs end.

Lemma ticks_of_pos evs : 0 ≤ ticks_of evs.
Proof. induction evs as [|[] evs IH]; simpl; lia. Qed.

(** What the whole machine leaves in the tasks and the stacks. *)
Definition outcome (r : res (list InterruptFrame * machine)) : res (list InterruptFrame * Scheduler * ram) :=
  '(gs, m) ← r; Ok (gs, sched (on_core m), stacks m).

Lemma outcome_cons g r : ('(gs, s, x) ← outcome r; Ok (g :: gs, s, x)) = outcome ('(gs, m) ← r; Ok (g :: gs, m)).
Proof using Type. by destruct r as [[gs m]|t|x|]. Qed.

Lemma ack_same x a (m : machine) : sched (on_core (ack (with_io Eoi) x a m)) = sched (on_core m) ∧ stacks (ack (with_io Eoi) x a m) = stacks m ∧ timer (ack (with_io Eoi) x a m) = timer m.
Proof using Type. unfold ack. by destruct (negb _). Qed.

(** The whole machine does to the contexts and the tasks what the scheduler does at its points. *)
Lemma run_sliced evs : ∀ p k m, armed p k m → in_time (ticks_of evs) m →
  outcome (run evs m) = sliced p k evs (sched (on_core m)) (stacks m).
Proof using Haddr Hquiet.
  induction evs as [|[at_ f|at_ f|nm e st sp] evs IH]; intros p k m Ha Hno; [done|..]; cbn [Preempt.run Preempt.sliced].
  - cbn [ticks_of] in Hno. pose proof (ticks_of_pos evs). pose proof (ar_unit _ _ _ Ha) as Hu.
    destruct (timer_event p k m at_ f Ha) as [-> Harm]; [by apply (in_time_le (1 + ticks_of evs)); [| |lia]|].
    destruct (current_anchor _ _) as [a|t|x|]; [|done..]. cbn [mbind res_bind].
    assert (∀ n, timer n = ticked (timer m) → in_time (ticks_of evs) n) as Hno'.
    { intros n Hn. destruct (tick_phase p k m Ha) as (E1 & _); [by apply (in_time_le (1 + ticks_of evs)); [| |lia]|].
      unfold in_time in *. rewrite Hn. unfold ticked. cbn. rewrite E1. nia. }
    destruct (k + 1 =? p).
    + destruct (schedule _ _ _ _ _ _ _) as [[g s]|t|x|]; [|done..]. cbn [mbind res_bind]. rewrite <- outcome_cons. set (n := ack _ _ _ _).
      destruct (ack_same (stacks m) a (Machine (vectors m) (ticked (timer m)) (Core s true at_ g) (ios m ++ [Out Pic.PIC1_COMMAND 0x20]) (stacks m))) as (E1 & E2 & E3).
      rewrite (IH p 0 n); [by unfold n; rewrite E1, E2|apply Harm|by apply Hno'].
    + cbn [mbind res_bind]. rewrite <- outcome_cons. set (n := ack _ _ _ _).
      destruct (ack_same (stacks m) a (Machine (vectors m) (ticked (timer m)) (Core (sched (on_core m)) true at_ f) (ios m ++ [Out Pic.PIC1_COMMAND 0x20]) (stacks m))) as (E1 & E2 & E3).
      rewrite (IH p (k + 1) n); [by unfold n; rewrite E1, E2|apply Harm|by apply Hno'].
  - destruct (yield_event p k m at_ f Ha) as [-> Harm]. unfold yield. destruct (initialized _) eqn:Ei; cbn [negb].
    + destruct (current_anchor _ _) as [a|t|x|]; [|done..]. cbn [mbind res_bind]. destruct (current_core _ _) as [co|t|x|]; [|done..]. cbn [mbind res_bind].
      destruct (schedule _ _ _ _ _ _ _) as [[g s]|t|x|]; [|done..]. cbn [mbind res_bind]. rewrite <- outcome_cons. set (n := ack _ _ _ _).
      destruct (ack_same (stacks m) a (Machine (vectors m) (timer m) (Core s true at_ g) (ios m) (stacks m))) as (E1 & E2 & E3).
      rewrite (IH p k n); [by unfold n; rewrite E1, E2|apply Harm|unfold in_time, n in *; by rewrite E3].
    + cbn [mbind res_bind]. rewrite <- outcome_cons. by rewrite (IH p k m Ha Hno).
  - unfold create_now. destruct (create_task _ _ _ _ _ _ _ _ _) as [[[i s] x]|t|x|]; [|done..]. cbn [mbind res_bind].
    by rewrite (IH p k); [..|by destruct Ha|].
Qed.

(** The constructor on a machine whose timer runs and has a handler left. *)
Record bootable (m : machine) : Prop := {
  bo_tick : irq_handlers (vectors m) !! 0%nat = Some tick_at;
  bo_vectors : length (isr_handlers (vectors m)) = 256%nat;
  bo_pit : pit_ok (timer m);
  bo_room : handler_count (timer m) < MAX_HANDLERS;
  bo_new : ∀ h, h ∈ handlers (timer m) → (callback h, arg h) ≠ (timer_tick_at, sched_at);
  bo_unit : 0 < interval_us (timer m);
  bo_clock : 0 ≤ tick_count (timer m) ∧ in_time 0 m
}.

Definition period (slice : Z) (m : machine) : Z := (slice * 1000 + interval_us (timer m) - 1) / interval_us (timer m).

Lemma construct_armed slice idle st sp m : bootable m → 0 < slice → slice * 1000 < 2 ^ 32 →
  ∃ s m0, scheduler_construct crt dummy junk timer_tick_at reschedule_at sched_at slice idle st sp m = Ok m0
    ∧ scheduler_new crt dummy junk slice idle st sp (stacks m) = Ok (s, stacks m0) ∧ sched (on_core m0) = s
    ∧ armed (period slice m) 0 m0 ∧ tick_count (timer m0) = tick_count (timer m) ∧ interval_us (timer m0) = interval_us (timer m).
Proof using Haddr.
  clear isr_sp resched_sp other_isr. intros [Ht Hv Hok Hroom Hnew Hu [Hc Hno]] Hs Hs32. unfold in_time in Hno. rewrite Z.add_0_r in Hno.
  destruct (scheduler_new_ok crt dummy junk slice idle st sp (stacks m)) as (s & Es & _). unfold scheduler_construct.
  rewrite u32_small by lia. pose proof (register_ok (timer m) timer_tick_at sched_at Interval (slice * 1000) Hok) as Hreg.
  destruct (register_handler timer_tick_at sched_at Interval (slice * 1000) (timer m)) as [b t] eqn:Er.
  destruct Hreg as (Hok' & Hb & _ & Hslot). assert (b = true) as -> by (apply Hb; tauto).
  destruct (Hslot eq_refl) as (i & h & Hi & Hact & Hhs). rewrite decide_False in Hhs by done.
  rewrite (wrap_small 64) in Hhs by nia. assert (tick_count t = tick_count (timer m) ∧ interval_us t = interval_us (timer m)) as [Et Eu].
  { unfold register_handler in Er. destruct (_ || _); [congruence|]. destruct (fill_slot _ _); [|congruence]. by injection Er as <-. }
  unfold register_isr. rewrite decide_True by (rewrite Hv; lia). rewrite Es. cbn [mbind res_bind]. exists s. eexists.
  split; [reflexivity|]. split_and!; [done|done| |done|done]. split; cbn [vectors timer on_core constructed snd isr_handlers irq_handlers]; try done.
  - change (Z.to_nat 48) with 48%nat. apply list_lookup_insert_eq. rewrite Hv. lia.
  - by rewrite Eu.
  - rewrite Et. split; [|lia]. split; [done|]. apply Z.div_str_pos. lia.
  - set (new := Handler _ _ _ _ _ _) in Hhs. exists i, new. rewrite Et, Eu, Z.sub_0_r. split_and!; try done.
    split; [rewrite Hhs; apply list_lookup_insert_eq; by eapply lookup_lt_Some|].
    intros j g Hj. rewrite Hhs, list_lookup_insert_ne by done. intros Hg. apply Hnew. by eapply list_elem_of_lookup_2.
Qed.

(** ** Scheduling points *)

Fixpoint points (p k : Z) (evs : list event) : list (Z * InterruptFrame) :=
  match evs with
  | [] => []
  | Timer at_ f :: evs => if k + 1 =? p then (at_, f) :: points p 0 evs else points p (k + 1) evs
  | Yield at_ f :: evs => (at_, f) :: points p k evs
  | Create _ _ _ _ :: evs => points p k evs
  end.

Definition no_create (e : event) : Prop := match e with Create _ _ _ _ => False | _ => True end.

(** The interrupt happens on a stack with an anchor, and a yield on one that names a core. *)
Definition on_stack (x : ram) (e : event) : Prop :=
  match e with
  | Timer at_ _ => ∃ a, current_anchor x (isr_sp at_) = Ok a
  | Yield at_ _ => ∃ a c, current_anchor x (isr_sp at_) = Ok a ∧ current_core x (resched_sp at_) = Ok c
  | Create _ _ _ _ => True
  end.

(** Interrupts alone: every point is served. *)
Lemma sliced_points x evs : ∀ p k s, Forall no_create evs → Forall (on_stack x) evs → started s →
  ∃ gs s', sliced p k evs s x = Ok (gs, s', x) ∧ schedules crt dummy boot junk (points p k evs) s = Ok s'.
Proof using Type.
  induction evs as [|[at_ f|at_ f|nm e st sp] evs IH]; intros p k s Hn Hx Hs; [by exists [], s|..];
    apply Forall_cons in Hn as [Hn1 Hn]; [..|done]; apply Forall_cons in Hx as [Hx1 Hx]; cbn [Preempt.sliced points].
  - destruct Hx1 as [a ->]. cbn [mbind res_bind]. destruct (k + 1 =? p).
    + destruct (schedule_total crt dummy boot junk at_ f s Hs) as (g & s1 & E & Hs1 & _).
      destruct (IH p 0 s1 Hn Hx Hs1) as (gs & s' & E1 & E2). exists (g :: gs), s'. rewrite E. cbn [mbind res_bind schedules].
      rewrite E1, E. cbn [mbind res_bind]. done.
    + destruct (IH p (k + 1) s Hn Hx Hs) as (gs & s' & E1 & E2). exists (f :: gs), s'. by rewrite E1.
  - destruct Hx1 as (a & c & -> & ->). destruct (schedule_total crt dummy boot junk at_ f s Hs) as (g & s1 & E & Hs1 & _).
    destruct (IH p k s1 Hn Hx Hs1) as (gs & s' & E1 & E2). exists (g :: gs), s'.
    unfold yield. rewrite (st_init _ Hs). cbn [negb schedules mbind res_bind]. rewrite E. cbn [mbind res_bind]. by rewrite E1.
Qed.

(** The first [n] points are the points of the first so many events. *)
Lemma points_take evs : ∀ p k n, (n ≤ length (points p k evs))%nat → ∃ q, points p k (take q evs) = take n (points p k evs).
Proof using Type.
  induction evs as [|[at_ f|at_ f|nm e st sp] evs IH]; intros p k n Hn; cbn [points] in *; [by exists 0%nat; destruct n|..].
  - destruct (Z.eqb_spec (k + 1) p) as [Ep|Ep].
    + destruct n as [|n]; [by exists 0%nat|]. destruct (IH p 0 n) as (q & Eq); [simpl in Hn; lia|]. exists (S q). simpl.
      by rewrite (proj2 (Z.eqb_eq _ _) Ep), Eq.
    + destruct (IH p (k + 1) n Hn) as (q & Eq). exists (S q). simpl. by rewrite (proj2 (Z.eqb_neq _ _) Ep), Eq.
  - destruct n as [|n]; [by exists 0%nat|]. destruct (IH p k n) as (q & Eq); [simpl in Hn; lia|]. exists (S q). simpl. by rewrite Eq.
  - destruct (IH p k n Hn) as (q & Eq). exists (S q). by simpl.
Qed.

Lemma points_many evs : ∀ p k, 0 ≤ k < p → (k + ticks_of evs) / p ≤ Z.of_nat (length (points p k evs)).
Proof using Type.
  induction evs as [|[at_ f|at_ f|nm e st sp] evs IH]; intros p k Hk; cbn [points ticks_of length].
  - rewrite Z.add_0_r, Z.div_small; lia.
  - destruct (Z.eqb_spec (k + 1) p) as [Ep|Ep].
    + specialize (IH p 0 ltac:(lia)). replace (k + (1 + ticks_of evs)) with (1 * p + (0 + ticks_of evs)) by lia.
      rewrite Z.div_add_l by lia. cbn [length]. lia.
    + specialize (IH p (k + 1) ltac:(lia)). by replace (k + (1 + ticks_of evs)) with (k + 1 + ticks_of evs) by lia.
  - specialize (IH p k Hk). lia.
  - by apply IH.
Qed.

Lemma ticks_of_take evs : ∀ q, ticks_of (take q evs) ≤ ticks_of evs.
Proof using Type.
  induction evs as [|[] evs IH]; intros [|q]; simpl; try (specialize (IH q)); try pose proof (ticks_of_pos evs); lia.
Qed.

(** ** After the destructor *)

Lemma drop_slot_unique cb a hs : ∀ i h, unique_slot i h hs → active h = true → callback h = cb → arg h = a →
  drop_slot cb a hs = Some (<[i := set_active false h]> hs).
Proof using Type.
  induction hs as [|x hs IH]; intros i h [Hi Hu] Ha Hc Hg; [done|]. simpl. destruct i as [|i]; simpl in *.
  - injection Hi as ->. by rewrite Ha, Hc, Hg, !Z.eqb_refl.
  - pose proof (Hu 0%nat x ltac:(done) eq_refl) as Hx.
    assert (active x && (callback x =? cb) && (arg x =? a) = false) as ->.
    { destruct (active x), (Z.eqb_spec (callback x) cb), (Z.eqb_spec (arg x) a); simpl; congruence. }
    rewrite (IH i h); [done|split; [done|]|done..]. intros j g Hj Hl. apply (Hu (S j) g); [congruence|done].
Qed.

(** No handler of the scheduler is left where interrupts look. *)
Record disarmed (m : machine) : Prop := {
  di_tick : irq_handlers (vectors m) !! 0%nat = Some tick_at;
  di_resched : isr_handlers (vectors m) !! 48%nat = Some 0;
  di_pit : pit_ok (timer m);
  di_slot : ∃ i h, unique_slot i h (handlers (timer m)) ∧ active h = false ∧ callback h = timer_tick_at ∧ arg h = sched_at;
  di_off : initialized (sched (on_core m)) = false
}.

(** The contexts a list of events interrupts. *)
Fixpoint contexts (evs : list event) : list InterruptFrame :=
  match evs with [] => [] | Timer _ f :: evs | Yield _ f :: evs => f :: contexts evs | Create _ _ _ _ :: evs => contexts evs end.

Lemma disarmed_tick m at_ f : disarmed m → on_stack (stacks m) (Timer at_ f) →
  ∃ m', interrupt 32 at_ f m = Ok (f, m') ∧ disarmed m' ∧ sched (on_core m') = sched (on_core m) ∧ stacks m' = stacks m.
Proof using Haddr Hquiet.
  intros [Ht Hr Hok (i & h & Hs & Ha & Hcb & Harg) Hi] [a Ea]. unfold Preempt.interrupt. rewrite (irq0_dispatch _ _ _ _ _ Ht), Ea by tauto.
  cbn [mbind res_bind call_irq machine_board timer with_core on_core vectors ios]. rewrite Z.eqb_refl, tick_handler_calls by done.
  set (now := u64 (_ * _)). assert (callback h ≠ 0) as Hcb0 by (rewrite Hcb; tauto).
  pose proof (count_calls_slot now _ i h Hs Hcb0) as Hcnt. pose proof (unique_slot_serviced now i h _ Hs) as Hs'.
  assert (service now h = (false, h, 0)) as Es by (unfold service; by rewrite Ha).
  rewrite Es in Hcnt, Hs'. rewrite Hcb, Harg in Hcnt. rewrite run_calls_none by done. cbn [mbind res_bind]. set (m' := ack _ _ _ _). exists m'.
  assert (vectors m' = vectors m ∧ timer m' = ticked (timer m) ∧ on_core m' = Core (sched (on_core m)) (constructed (on_core m)) at_ f
    ∧ stacks m' = stacks m) as (Ev & Et & Ec & Es') by (unfold m', ack; by destruct (negb _)).
  rewrite Ec. split; [done|]. split; [|done].
  split; rewrite ?Ev, ?Et, ?Ec; cbn [sched]; try done; [by apply ticked_ok|]. by exists i, h.
Qed.

Lemma destroy_disarmed p k m : armed p k m → array_ok 256 (tasks (sched (on_core m))) → length (isr_handlers (vectors m)) = 256%nat →
  ∃ m1, scheduler_destroy timer_tick_at sched_at m = Ok (stacks_deleted (omap Datatypes.id (view (tasks (sched (on_core m))))), m1) ∧ disarmed m1
    ∧ live_count (tasks (sched (on_core m1))) = 0 ∧ stacks m1 = stacks m.
Proof using Haddr.
  clear other_isr isr_sp resched_sp crt dummy boot junk. intros [Ht Hr Hok Hu _ (i & h & Hs & Ha & Htr & Hcb & Harg & _ & _) _] Hts Hlen. unfold scheduler_destroy.
  pose proof (unregister_ok (timer m) timer_tick_at sched_at Hok) as Hun. unfold unregister_handler in *.
  rewrite (proj2 (Z.eqb_neq timer_tick_at 0)) in * by tauto. rewrite (drop_slot_unique _ _ _ i h) in * by done.
  unfold unregister_isr, register_isr. rewrite decide_True by (rewrite Hlen; lia). cbn [mbind res_bind].
  destruct (array_clear_ok 256 _ Hts) as (a & -> & Hta & Hva). cbn [mbind res_bind snd]. eexists. split; [reflexivity|].
  split; [split; cbn [vectors timer on_core sched initialized isr_handlers irq_handlers handlers with_handlers]; try done|].
  - change (Z.to_nat 48) with 48%nat. apply list_lookup_insert_eq. rewrite Hlen. lia.
  - apply Hun.
  - exists i, (set_active false h). split_and!; [|done..]. destruct Hs as [Hi Hoth].
    split; [apply list_lookup_insert_eq; by eapply lookup_lt_Some|].
    intros j g Hj Hg. rewrite list_lookup_insert_ne in Hg by done. by apply (Hoth j).
  - split; [|done]. cbn [on_core sched tasks]. unfold live_count. rewrite (ok_live _ _ Hta), Hva. done.
Qed.

(** Neither the timer nor the table of vectors knows the scheduler. *)
Definition unreferenced (m : machine) : Prop :=
  (∀ h, h ∈ handlers (timer m) → active h = true → (callback h, arg h) ≠ (timer_tick_at, sched_at))
  ∧ isr_handlers (vectors m) !! 48%nat = Some 0.

Lemma disarmed_unreferenced m : disarmed m → unreferenced m.
Proof using Type.
  intros [_ Hr _ (i & h & [Hi Hu] & Ha & Hcb & Harg) _]. split; [|done]. intros g [j Hj]%list_elem_of_lookup_1 Hact.
  destruct (decide (j = i)) as [->|Hne]; [congruence|]. rewrite <- Hcb, <- Harg. by apply (Hu j).
Qed.

(** Interrupts and yields after the destructor. *)
Lemma disarmed_run evs m : Forall no_create evs → Forall (on_stack (stacks m)) evs → disarmed m →
  ∃ m', run evs m = Ok (contexts evs, m') ∧ disarmed m' ∧ sched (on_core m') = sched (on_core m).
Proof using Haddr Hquiet.
  intros Hn. revert m. induction Hn as [|[at_ f|at_ f|nm e st sp] evs Hn1 Hn IH]; intros m Hx Hd; [by exists m|..|done];
    apply Forall_cons in Hx as [Hx1 Hx]; cbn [Preempt.run contexts].
  - destruct (disarmed_tick m at_ f Hd Hx1) as (m1 & -> & Hd1 & Es & Ex). rewrite <- Ex in Hx.
    destruct (IH m1 Hx Hd1) as (m2 & Hr & Hd2 & Es2). cbn [mbind res_bind]. rewrite Hr. exists m2. by rewrite Es2.
  - unfold yield_now. rewrite (di_off _ Hd). destruct (IH m Hx Hd) as (m2 & Hr & Hd2 & Es2). cbn [negb mbind res_bind].
    rewrite Hr. by exists m2.
Qed.
End facts.

(** ** Properties *)

(** A kernel with a timer of 1193 us, as its start-up leaves it, and a scheduler's objects. *)
Definition quiet_other (cb a : Z) (c : core) : res core := Ok c.
Definition quiet_isr (h : Z) (m : machine) : res machine := Ok m.
Definition boot_junk : BaseInterruptFrame := BaseFrame 0 0 0 0 0.
Definition some_frame (v : Z) : InterruptFrame := Frame 0 0 0 0 0 0 0 0 0 0 0 v 0 0 boot_junk.
(** The boot stack at 0x200000 with the anchor of the boot processor. *)
Definition boot_stacks : ram := init_stack_anchor 0x200000 0 0x300000 (λ _, 0).
Definition below (at_ : Z) : Z := at_ - 64.
Definition boot_machine : machine :=
  Machine (Handlers (replicate 256 0) (<[0%nat := 0x100]> (replicate 16 0))) (pit_init 1193 power_on)
          (Core (Sched (array_init CAPACITY) 0 0 false 0) false 0 (some_frame 0)) [] boot_stacks.

Lemma boot_machine_ok : bootable 0x100 0x200 0x400 boot_machine.
Proof.
  split; try done. apply Forall_forall. repeat (apply Forall_cons_2; [vm_compute; congruence|]). apply Forall_nil_2.
Qed.

Lemma addresses_ok : 0x100 ≠ 0 ∧ 0x200 ≠ 0 ∧ 0x300 ≠ 0.
Proof. done. Qed.

(** C13: interrupts, timer and scheduler compose to time slices. After the constructor, for any
    sequence of timer interrupts, yields and new tasks, the whole machine (dispatch through the
    table of handlers, the tick with its table, the scheduler, acknowledgement) resumes the
    contexts and leaves the tasks and the anchors of their stacks that the scheduler alone gives when
    it is called at every [p]-th tick and every yield, [p] being the slice in ticks rounded up:
    interrupts between the points resume what they interrupted. Failures (a task too many, a stack
    without an anchor) are the same. Callbacks of other parts are assumed to leave the scheduler
    alone, and the 64-bit clock not to run out. *)
Theorem preemption_refines crt dummy boot junk tick_at timer_tick_at reschedule_at sched_at isr_sp resched_sp other other_isr slice idle st sp m evs :
  tick_at ≠ 0 ∧ timer_tick_at ≠ 0 ∧ reschedule_at ≠ 0 →
  (∀ cb a c, (cb, a) ≠ (timer_tick_at, sched_at) → other cb a c = Ok c) →
  bootable tick_at timer_tick_at sched_at m → 0 < slice → slice * 1000 < 2 ^ 32 → in_time (ticks_of evs) m →
  ∃ s x m0, scheduler_construct crt dummy junk timer_tick_at reschedule_at sched_at slice idle st sp m = Ok m0
    ∧ scheduler_new crt dummy junk slice idle st sp (stacks m) = Ok (s, x)
    ∧ outcome (run crt dummy boot junk tick_at timer_tick_at reschedule_at sched_at isr_sp resched_sp other other_isr evs m0)
      = sliced crt dummy boot junk isr_sp resched_sp (period slice m) 0 evs s x.
Proof.
  intros Haddr Hq Hb Hs Hs32 Hno.
  destruct (construct_armed crt dummy junk tick_at timer_tick_at reschedule_at sched_at Haddr slice idle st sp m Hb Hs Hs32)
    as (s & m0 & E & Es & <- & Ha & Et & Eu).
  exists (sched (on_core m0)), (stacks m0), m0. split_and!; [done|done|].
  apply (run_sliced _ _ _ _ _ _ _ _ _ _ _ _ Haddr Hq); [done|]. unfold in_time in *. by rewrite Et, Eu.
Qed.

(** Nine ticks of 1193 us are a slice of 10 ms: the ninth starts the idle task. *)
Lemma preemption_refines_witness : ∃ m0 m', let evs := (λ v, Timer 0x200F00 (some_frame v)) <$> seqZ 1 9 in
  scheduler_construct 1 2 boot_junk 0x200 0x300 0x400 10 0x500 0x600000 0x200E00 boot_machine = Ok m0
  ∧ run 1 2 0x200000 boot_junk 0x100 0x200 0x300 0x400 below below quiet_other quiet_isr evs m0
    = Ok ((some_frame <$> seqZ 1 8) ++ [with_eax 0x500 (ctx (task_fields 1 2 boot_junk 1 "idle" None 0x600000))], m').
Proof.
  destruct (preemption_refines 1 2 0x200000 boot_junk 0x100 0x200 0x300 0x400 below below quiet_other quiet_isr 10 0x500 0x600000 0x200E00 boot_machine
    ((λ v, Timer 0x200F00 (some_frame v)) <$> seqZ 1 9) addresses_ok (λ _ _ _ _, eq_refl) boot_machine_ok) as (s & x & m0 & E & Es & H);
    [reflexivity|reflexivity|reflexivity|].
  vm_compute in Es. injection Es as <- <-.
  destruct (run _ _ _ _ _ _ _ _ _ _ _ _ _ m0) as [[gs m']|t|z|] eqn:Er; vm_compute in H; [|discriminate H..].
  exists m0, m'. split; [exact E|]. cbv zeta. rewrite Er. injection H as -> _. reflexivity.
Defined.

(** C14: preemptive fairness. On a machine whose timer is armed for the scheduler, a ready task
    gets the processor within 255 time slices, whatever tasks run, in whatever contexts the timer
    interrupts them (on stacks with an anchor), whether or not they ever yield, and whatever the
    other handlers of the timer do. *)
Theorem preemptive_fairness crt dummy boot junk tick_at timer_tick_at reschedule_at sched_at isr_sp resched_sp other other_isr p k m j t evs :
  tick_at ≠ 0 ∧ timer_tick_at ≠ 0 ∧ reschedule_at ≠ 0 →
  (∀ cb a c, (cb, a) ≠ (timer_tick_at, sched_at) → other cb a c = Ok c) →
  armed tick_at timer_tick_at reschedule_at sched_at p k m → started (sched (on_core m)) →
  0 ≤ j < 256 → task_at (view (tasks (sched (on_core m)))) j = Some t → state t = READY →
  Forall no_create evs → Forall (on_stack isr_sp resched_sp (stacks m)) evs → 255 * p ≤ ticks_of evs → in_time (ticks_of evs) m →
  ∃ q gs m', run crt dummy boot junk tick_at timer_tick_at reschedule_at sched_at isr_sp resched_sp other other_isr (take q evs) m = Ok (gs, m')
    ∧ started (sched (on_core m')) ∧ current_task_index (sched (on_core m')) = j
    ∧ task_at (view (tasks (sched (on_core m')))) j = Some (with_state RUNNING t).
Proof.
  intros Haddr Hq Ha Hs Hj Ht Hst Hn Hx Hlen Hno. pose proof (ar_phase _ _ _ _ _ _ _ Ha) as [Hk _].
  pose proof (points_many evs p k Hk) as Hp. assert (255 ≤ (k + ticks_of evs) / p) as H255 by (apply Z.div_le_lower_bound; lia).
  destruct (fair_run crt dummy boot junk 255 (sched (on_core m)) j t (points p k evs) Hs Hj Ht Hst) as (n & s' & Hle & E & Hs' & Hc & Ht');
    [dlia|lia|].
  destruct (points_take evs p k n) as (q & Eq); [lia|]. rewrite <- Eq in E.
  destruct (sliced_points crt dummy boot junk isr_sp resched_sp (stacks m) (take q evs) p k (sched (on_core m))) as (gs & s2 & E1 & E2);
    [by apply Forall_take..|done|].
  assert (in_time (ticks_of (take q evs)) m) as Hno'.
  { eapply in_time_le; [apply Ha|exact Hno|apply ticks_of_take]. }
  pose proof (run_sliced crt dummy boot junk _ _ _ _ isr_sp resched_sp other other_isr Haddr Hq (take q evs) p k m Ha Hno') as Hr.
  rewrite E1 in Hr. destruct (run _ _ _ _ _ _ _ _ _ _ _ _ (take q evs) m) as [[gs' m']|x|x|] eqn:Er; [|done..].
  cbn [outcome mbind res_bind] in Hr. injection Hr as -> <- _. rewrite E2 in E. injection E as <-. by exists q, gs, m'.
Qed.

(** The machine of [boot_machine] with a scheduler that has started. *)
Lemma armed_example : ∃ m t, armed 0x100 0x200 0x300 0x400 9 0 m ∧ started (sched (on_core m))
  ∧ task_at (view (tasks (sched (on_core m)))) 1 = Some t ∧ state t = READY
  ∧ tick_count (timer m) = 0 ∧ interval_us (timer m) = 1193 ∧ length (isr_handlers (vectors m)) = 256%nat
  ∧ current_anchor (stacks m) (below 0x200F00) = Ok 0x200000 ∧ current_core (stacks m) (below 0x200F00) = Ok 0x300000.
Proof.
  destruct started_example as (s & c & Hs & _ & t & Ht & Hst & _).
  destruct (construct_armed 1 2 boot_junk 0x100 0x200 0x300 0x400 addresses_ok 10 0x500 0x600000 0x200E00 boot_machine boot_machine_ok)
    as (s0 & m0 & E & _ & _ & Ha & Et & Eu); [done..|].
  exists (with_core (with_sched s (on_core m0)) m0), t. destruct Ha. split; [by split|].
  vm_compute in E. injection E as <-. split_and!; (done || reflexivity).
Qed.

Lemma preemptive_fairness_witness : ∃ m t q gs m',
  run 1 2 0x200000 boot_junk 0x100 0x200 0x300 0x400 below below quiet_other quiet_isr (take q (replicate 2295 (Timer 0x200F00 (some_frame 7)))) m = Ok (gs, m')
  ∧ current_task_index (sched (on_core m')) = 1 ∧ task_at (view (tasks (sched (on_core m')))) 1 = Some (with_state RUNNING t).
Proof.
  destruct armed_example as (m & t & Ha & Hs & Ht & Hst & Et & Eu & _ & Hanc & _).
  assert (ticks_of (replicate 2295 (Timer 0x200F00 (some_frame 7))) = 2295) as Htk by (vm_compute; reflexivity).
  destruct (preemptive_fairness 1 2 0x200000 boot_junk 0x100 0x200 0x300 0x400 below below quiet_other quiet_isr 9 0 m 1 t
    (replicate 2295 (Timer 0x200F00 (some_frame 7))) addresses_ok (λ _ _ _ _, eq_refl) Ha Hs) as (q & gs & m' & Hr & _ & Hc & Ht').
  - split; [discriminate|reflexivity].
  - exact Ht.
  - exact Hst.
  - apply Forall_replicate. exact I.
  - apply Forall_replicate. exists 0x200000. exact Hanc.
  - rewrite Htk. discriminate.
  - unfold in_time. rewrite Htk, Et, Eu. reflexivity.
  - exists m, t, q, gs, m'. exact (conj Hr (conj Hc Ht')).
Defined.


