(* ===== verification/Locks.v ===== *)
(** Atomic cells, spin locks and interrupt guards: klibcpp/atomic.hpp, klibcpp/spinlock.hpp,
    klibcpp/iguard.hpp.

    A step of the system is one atomic access of one core (the memory is taken as sequentially
    consistent), one change of its interrupt flag, or an interrupt that starts or ends a handler on
    it. A core runs the innermost of the activations that interrupts have stacked on it; each of them
    may take the lock with either guard. The other files model a locked call as one step;
    [mutual_exclusion] is the reason they may. *)
From S2P Require Import Prelude.

(** ** Atomic cells: the value read and the value left behind *)
Module Atomic.
Definition load (v : Z) : Z := v.
Definition store (new v : Z) : Z := new.
Definition exchange (new v : Z) : Z * Z := (v, new).
Definition compare_exchange_strong (expected desired v : Z) : bool * Z * Z :=
  if v =? expected then (true, expected, desired) else (false, v, v).
Definition fetch_add (w d v : Z) : Z * Z := (v, wrap w (v + d)).
Definition fetch_sub (w d v : Z) : Z * Z := (v, wrap w (v - d)).
End Atomic.

(** ** One lock under its guards *)
Module Lock.

Inductive guard := SpinLockGuard | InterruptSpinLockGuard.

(** Where an activation stands: outside, about to [exchange], polling with [load], inside the
    guarded block, or behind the unlock of an [InterruptSpinLockGuard] and before its [sti]. *)
Inductive pc := Outside | Acquiring (g : guard) | Polling (g : guard) | Inside (g : guard) | Unlocked.

(** The activations on a core, the running one first. *)
Record frame := Frame { at_ : pc; should_enable : bool }.
Record core := Core { iflag : bool; running : frame; interrupted : list frame }.
Record state := State { locked_ : Z; cores : list core }.

Definition goes (p : pc) (c : core) : core := Core (iflag c) (Frame p (should_enable (running c))) (interrupted c).
Definition set_core (i : nat) (c : core) (s : state) : state := State (locked_ s) (<[i := c]> (cores s)).

(** [InterruptGuard()]: remember EFLAGS.IF and disable interrupts. *)
Definition guard_enter (c : core) : core :=
  Core false (Frame (Acquiring InterruptSpinLockGuard) (iflag c)) (interrupted c).
(** [~InterruptGuard()] *)
Definition guard_exit (c : core) : core :=
  Core (if should_enable (running c) then true else iflag c) (Frame Outside (should_enable (running c))) (interrupted c).

(** [try_lock]: whether the lock was taken. *)
Definition try_lock (v : Z) : bool * Z := let '(old, new) := Atomic.exchange 1 v in (old =? 0, new).
Definition unlock (v : Z) : Z := Atomic.store 0 v.

(** The members of a guard are destroyed in reverse: the lock is released first. *)
Definition released (g : guard) : pc := match g with SpinLockGuard => Outside | InterruptSpinLockGuard => Unlocked end.

(** [plain] says in which states of a core its code takes a [SpinLockGuard]. *)
Inductive step (plain : core → Prop) : state → state → Prop :=
| step_plain s i c : cores s !! i = Some c → at_ (running c) = Outside → plain c →
    step plain s (set_core i (goes (Acquiring SpinLockGuard) c) s)
| step_guard s i c : cores s !! i = Some c → at_ (running c) = Outside →
    step plain s (set_core i (guard_enter c) s)
| step_exchange s i c g : cores s !! i = Some c → at_ (running c) = Acquiring g →
    step plain s (State (try_lock (locked_ s)).2
      (<[i := goes (if (try_lock (locked_ s)).1 then Inside g else Polling g) c]> (cores s)))
| step_poll s i c g : cores s !! i = Some c → at_ (running c) = Polling g →
    step plain s (set_core i (goes (if Atomic.load (locked_ s) =? 0 then Acquiring g else Polling g) c) s)
| step_unlock s i c g : cores s !! i = Some c → at_ (running c) = Inside g →
    step plain s (State (unlock (locked_ s)) (<[i := goes (released g) c]> (cores s)))
| step_leave s i c : cores s !! i = Some c → at_ (running c) = Unlocked →
    step plain s (set_core i (guard_exit c) s)
| step_flags s i c b : cores s !! i = Some c → at_ (running c) = Outside →
    step plain s (set_core i (Core b (running c) (interrupted c)) s)
| step_interrupt s i c : cores s !! i = Some c → iflag c = true →
    step plain s (set_core i (Core false (Frame Outside false) (running c :: interrupted c)) s)
| step_iret s i c f fs : cores s !! i = Some c → at_ (running c) = Outside → interrupted c = f :: fs →
    step plain s (set_core i (Core true f fs) s).

(** Cores that run their own code with interrupts enabled. *)
Definition init (n : nat) : state := State 0 (replicate n (Core true (Frame Outside false) [])).

(** ** Holders *)

Definition holds (f : frame) : Z := match at_ f with Inside _ => 1 | _ => 0 end.
Definition sum (l : list Z) : Z := foldr Z.add 0 l.
Definition holders_of (c : core) : Z := holds (running c) + sum (holds <$> interrupted c).
(** The activations of all cores that are inside. *)
Definition holders (s : state) : Z := sum (holders_of <$> cores s).

(** It runs with the interrupts that its guard has disabled. *)
Definition guarded (p : pc) : bool :=
  match p with Acquiring InterruptSpinLockGuard | Polling InterruptSpinLockGuard | Inside InterruptSpinLockGuard | Unlocked => true | _ => false end.

Record core_ok (c : core) : Prop := {
  ok_running : guarded (at_ (running c)) = true → iflag c = false;
  ok_interrupted f : f ∈ interrupted c → guarded (at_ f) = false
}.

Record inv (s : state) : Prop := {
  inv_word : locked_ s = holders s;
  inv_one : holders s ≤ 1;
  inv_cores i c : cores s !! i = Some c → core_ok c
}.

Lemma holds_range f : 0 ≤ holds f ≤ 1.
Proof. unfold holds. destruct (at_ f); lia. Qed.

Lemma sum_cons x l : sum (x :: l) = x + sum l.
Proof. done. Qed.

Lemma sum_nonneg l : Forall (λ x, 0 ≤ x) l → 0 ≤ sum l.
Proof. induction 1; simpl; [done|]. unfold sum in *. lia. Qed.

Lemma sum_insert l i (x y : Z) : l !! i = Some x → sum (<[i := y]> l) = sum l - x + y.
Proof.
  revert i. induction l as [|z l IH]; intros [|i] H; simpl in *; try done.
  - injection H as ->. lia.
  - specialize (IH i H). lia.
Qed.

Lemma sum_le l i x : Forall (λ x, 0 ≤ x) l → l !! i = Some x → 0 ≤ x ≤ sum l.
Proof.
  intros Hl. revert i. induction Hl as [|y l Hy Hl IH]; intros [|i] H; simpl in *; try done.
  - injection H as ->. pose proof (sum_nonneg l Hl). lia.
  - specialize (IH i H). lia.
Qed.

Lemma holders_of_nonneg c : 0 ≤ sum (holds <$> interrupted c).
Proof. apply sum_nonneg, Forall_fmap, Forall_forall. intros f _. apply holds_range. Qed.

Lemma holders_core s i c : cores s !! i = Some c → 0 ≤ holds (running c) ≤ holders_of c ∧ holders_of c ≤ holders s.
Proof.
  intros Hc. pose proof (holders_of_nonneg c). pose proof (holds_range (running c)).
  destruct (sum_le (holders_of <$> cores s) i (holders_of c)) as [_ Hle].
  - apply Forall_fmap, Forall_forall. intros d _. simpl. pose proof (holders_of_nonneg d). pose proof (holds_range (running d)). unfold holders_of. lia.
  - by rewrite list_lookup_fmap, Hc.
  - unfold holders, holders_of in *. lia.
Qed.

Lemma holders_insert l i c c' v : l !! i = Some c → holders (State v (<[i := c']> l)) = holders (State v l) - holders_of c + holders_of c'.
Proof. intros Hc. unfold holders. simpl. rewrite list_fmap_insert. apply sum_insert. by rewrite list_lookup_fmap, Hc. Qed.

Lemma insert_cases {A} (l : list A) i x c j d :
  l !! i = Some c → <[i := x]> l !! j = Some d → (j = i ∧ d = x) ∨ (j ≠ i ∧ l !! j = Some d).
Proof.
  intros Hc Hj. destruct (decide (j = i)) as [->|Hne].
  - rewrite list_lookup_insert_eq in Hj by (by eapply lookup_lt_Some). left. split; congruence.
  - rewrite list_lookup_insert_ne in Hj by done. by right.
Qed.

Lemma cores_insert s i c c' v : inv s → cores s !! i = Some c → core_ok c' →
  ∀ j d, cores (State v (<[i := c']> (cores s))) !! j = Some d → core_ok d.
Proof. intros Hi Hc Hok j d Hj. destruct (insert_cases _ _ _ _ _ _ Hc Hj) as [[_ ->]|[_ Hd]]; [done|by eapply inv_cores]. Qed.

(** A step of one core that gains or loses [d] holders with the word. *)
Lemma inv_update s i c c' v : inv s → cores s !! i = Some c → core_ok c' →
  v = locked_ s + (holders_of c' - holders_of c) → v ≤ 1 → inv (State v (<[i := c']> (cores s))).
Proof.
  intros Hi Hc Hok Hv H1. pose proof (holders_insert (cores s) i c c' v Hc) as Hh.
  change (holders (State v (cores s))) with (holders s) in Hh. rewrite (inv_word _ Hi) in Hv.
  split; [simpl; lia|lia|by eapply cores_insert].
Qed.

Lemma goes_ok p c : core_ok c → (guarded p = true → guarded (at_ (running c)) = true) → core_ok (goes p c).
Proof. intros [H1 H2] Hp. split; [|done]. simpl. intros Hg. by apply H1, Hp. Qed.

Lemma goes_holders p c : holders_of (goes p c) = holders_of c - holds (running c) + holds (Frame p false).
Proof. unfold holders_of, goes, holds. simpl. lia. Qed.

Lemma step_keeps plain s s' : step plain s s' → inv s → inv s'.
Proof.
  intros Hs Hi. pose proof (inv_one _ Hi). pose proof (inv_word _ Hi) as Hw.
  destruct Hs as [s i c Hc Ha Hp|s i c Hc Ha|s i c g Hc Ha|s i c g Hc Ha|s i c g Hc Ha|s i c Hc Ha|s i c b Hc Ha|s i c Hc Hf|s i c f fs Hc Ha Hfs];
    pose proof (inv_cores _ Hi i c Hc) as Hok; pose proof (holders_core s i c Hc) as Hh;
    eapply (inv_update s i c); try done.
  - by apply goes_ok.
  - rewrite goes_holders. unfold holds. rewrite Ha. simpl. lia.
  - simpl. lia.
  - split; [done|apply Hok].
  - unfold holders_of, guard_enter, holds. simpl. rewrite Ha. lia.
  - simpl. lia.
  - apply goes_ok; [done|]. rewrite Ha. destruct (try_lock _).1; by destruct g.
  - rewrite goes_holders. unfold try_lock, Atomic.exchange, holds. rewrite Ha. simpl.
    destruct (Z.eqb_spec (locked_ s) 0); simpl; lia.
  - apply goes_ok; [done|]. rewrite Ha. destruct (_ =? _); by destruct g.
  - rewrite goes_holders. unfold holds. rewrite Ha. simpl. destruct (_ =? _); simpl; lia.
  - simpl. lia.
  - apply goes_ok; [done|]. rewrite Ha. by destruct g.
  - rewrite goes_holders. unfold unlock, Atomic.store, holds in *. rewrite Ha in *. simpl. destruct g; simpl; lia.
  - split; [done|apply Hok].
  - unfold holders_of, guard_exit, holds. simpl. rewrite Ha. lia.
  - simpl. lia.
  - split; [simpl; by rewrite Ha|apply Hok].
  - unfold holders_of. simpl. lia.
  - simpl. lia.
  - split; [done|]. simpl. intros f [->|Hin]%elem_of_cons; [|by apply Hok].
    destruct (guarded _) eqn:Eg; [|done]. by rewrite (ok_running _ Hok Eg) in Hf.
  - change (holders_of (Core false _ _)) with (holders_of c). lia.
  - simpl. lia.
  - split; simpl; [intros Hg|intros x Hx]; [|by apply Hok; rewrite Hfs; right].
    rewrite (ok_interrupted _ Hok f) in Hg; [done|]. rewrite Hfs. by left.
  - unfold holders_of. rewrite Hfs. assert (holds (running c) = 0) by (unfold holds; by rewrite Ha). cbn [running interrupted]. change (sum (holds <$> f :: fs)) with (holds f + sum (holds <$> fs)). lia.
  - simpl. lia.
Qed.

Lemma init_keeps n : inv (init n).
Proof.
  assert (holders (init n) = 0) as H0.
  { unfold holders, init. cbn [cores]. rewrite fmap_replicate. change (holders_of _) with 0. by induction n. }
  split; [by rewrite H0|lia|]. intros i c [-> _]%lookup_replicate. split; [done|]. intros f Hf. by apply elem_of_nil in Hf.
Qed.

Lemma rtc_keeps plain s s' : rtc (step plain) s s' → inv s → inv s'.
Proof. induction 1; eauto using step_keeps. Qed.

(** ** Taking [SpinLockGuard]s with interrupts disabled only *)

Definition masked (c : core) : Prop := iflag c = false.

(** What an interrupt may interrupt is outside. *)
Record calm (s : state) : Prop := {
  calm_inv : inv s;
  calm_running i c : cores s !! i = Some c → at_ (running c) ≠ Outside → iflag c = false;
  calm_interrupted i c f : cores s !! i = Some c → f ∈ interrupted c → at_ f = Outside
}.

Lemma calm_update s i c c' v : calm s → cores s !! i = Some c → inv (State v (<[i := c']> (cores s))) →
  (at_ (running c') ≠ Outside → iflag c' = false) → (∀ f, f ∈ interrupted c' → at_ f = Outside) →
  calm (State v (<[i := c']> (cores s))).
Proof.
  intros [Hi H1 H2] Hc Hi' Hr Hn. split; [done|intros j d Hj|intros j d f Hj];
    destruct (insert_cases _ _ _ _ _ _ Hc Hj) as [[_ ->]|[_ Hd]]; eauto.
Qed.

Lemma step_calm s s' : step masked s s' → calm s → calm s'.
Proof.
  intros Hs Hm. pose proof (step_keeps _ _ _ Hs (calm_inv _ Hm)) as Hi'.
  destruct Hs as [s i c Hc Ha Hp|s i c Hc Ha|s i c g Hc Ha|s i c g Hc Ha|s i c g Hc Ha|s i c Hc Ha|s i c b Hc Ha|s i c Hc Hf|s i c f fs Hc Ha Hfs];
    pose proof (calm_running _ Hm i c Hc) as Hr; pose proof (calm_interrupted _ Hm i c) as Hn;
    apply (calm_update s i c); try done; try (by intros f0; apply Hn); try (by intros _; apply Hr; congruence).
  - simpl. intros f [->|Hin]%elem_of_cons; [|by apply (Hn f Hc)]. destruct (at_ (running c)) eqn:E; [done|..];
      (rewrite Hr in Hf by done; done).
  - intros Hne. destruct Hne. apply (Hn f Hc). rewrite Hfs. by left.
  - intros x Hx. apply (Hn x Hc). rewrite Hfs. by right.
Qed.

Lemma init_calm n : calm (init n).
Proof.
  split; [apply init_keeps| |]; intros i c; [|intros f]; intros [-> _]%lookup_replicate; [done|]. intros Hf. by apply elem_of_nil in Hf.
Qed.

Lemma rtc_calm s s' : rtc (step masked) s s' → calm s → calm s'.
Proof. induction 1; eauto using step_calm. Qed.

(** A waiting activation that runs gets the free lock. *)
Definition waiting (c : core) : Prop := ∃ g, at_ (running c) = Acquiring g ∨ at_ (running c) = Polling g.
Definition enters (plain : core → Prop) (s : state) (i : nat) : Prop :=
  ∃ s' c' g, rtc (step plain) s s' ∧ cores s' !! i = Some c' ∧ at_ (running c') = Inside g.

Lemma lookup_set s i c c' v : cores s !! i = Some c → cores (State v (<[i := c']> (cores s))) !! i = Some c'.
Proof. intros Hc. simpl. apply list_lookup_insert_eq. by eapply lookup_lt_Some. Qed.

Lemma free_enters plain s i c : cores s !! i = Some c → waiting c → locked_ s = 0 → enters plain s i.
Proof.
  intros Hc [g Hg] H0.
  assert (∀ s c, cores s !! i = Some c → at_ (running c) = Acquiring g → locked_ s = 0 → enters plain s i) as Hacq.
  { clear. intros s c Hc Ha H0. eexists _, _, g. split; [apply rtc_once; by eapply step_exchange|].
    rewrite (lookup_set _ _ _ _ _ Hc). split; [done|]. by rewrite H0. }
  destruct Hg as [Hg|Hg]; [by eapply Hacq|]. pose proof (step_poll plain s i c g Hc Hg) as Hp. rewrite H0 in Hp.
  destruct (Hacq (set_core i (goes (Acquiring g) c) s) (goes (Acquiring g) c)) as (s' & c' & g' & Hr & H');
    [by eapply lookup_set|done|done|]. exists s', c', g'. split; [by eapply rtc_l|done].
Qed.

(** Someone holds a lock that is taken. *)
Lemma holder_exists s : inv s → locked_ s ≠ 0 → ∃ j d f, cores s !! j = Some d ∧ f ∈ running d :: interrupted d ∧ holds f = 1.
Proof.
  intros Hi Hl. rewrite (inv_word _ Hi) in Hl. unfold holders in Hl. revert Hl. generalize (cores s) as l. clear. induction l as [|d l IH]; [done|].
  intros Hl. rewrite fmap_cons, sum_cons in Hl. destruct (Z.eq_dec (holders_of d) 0) as [E|E].
  - destruct IH as (j & x & f & Hj & H); [lia|]. by exists (S j), x, f.
  - exists 0%nat, d. assert (∃ f, f ∈ running d :: interrupted d ∧ holds f = 1) as (f & ? & ?); [|by exists f].
    unfold holders_of in E. change (sum (holds <$> running d :: interrupted d) ≠ 0) in E. revert E. generalize (running d :: interrupted d) as fs. clear.
    induction fs as [|f fs IH]; [done|]. intros E. rewrite fmap_cons, sum_cons in E. pose proof (holds_range f). destruct (Z.eq_dec (holds f) 1) as [E1|E1].
    + exists f. split; [by left|done].
    + destruct IH as (x & Hx & H1); [lia|]. exists x. split; [by right|done].
Qed.

Lemma holds_inside f : holds f = 1 → ∃ g, at_ f = Inside g.
Proof. unfold holds. destruct (at_ f); try done. eauto. Qed.

(** The holder of the lock is never below the waiting activation: it leaves, and the other enters. *)
Lemma calm_enters s i c : calm s → cores s !! i = Some c → waiting c → enters masked s i.
Proof.
  intros Hm Hc Hw. destruct (Z.eq_dec (locked_ s) 0) as [H0|H0]; [by eapply free_enters|].
  destruct (holder_exists s (calm_inv _ Hm) H0) as (j & d & f & Hd & Hf & Hh). destruct (holds_inside f Hh) as [g Hg].
  assert (f = running d) as -> by (apply elem_of_cons in Hf as [->|Hf]; [done|by rewrite (calm_interrupted _ Hm j d f Hd Hf) in Hg]).
  assert (i ≠ j) as Hne by (intros ->; destruct Hw as [? [?|?]]; congruence).
  set (s1 := State (unlock (locked_ s)) (<[j := goes (released g) d]> (cores s))).
  destruct (free_enters masked s1 i c) as (s' & c' & g' & Hr & H'); [simpl; by rewrite list_lookup_insert_ne|done|done|].
  exists s', c', g'. split; [|done]. eapply rtc_l; [by eapply step_unlock|exact Hr].
Qed.

(** ** Taking them with interrupts enabled *)

(** A handler waits for the lock that the code it interrupted holds. *)
Definition stuck (s : state) : Prop :=
  inv s ∧ ∃ i c f, cores s !! i = Some c ∧ iflag c = false ∧ waiting c ∧ interrupted c = [f] ∧ holds f = 1.

Lemma stuck_locked s : stuck s → locked_ s = 1.
Proof.
  intros [Hi (i & c & f & Hc & _ & _ & Hf & Hh)]. destruct (holders_core s i c Hc) as [H1 H2]. pose proof (inv_one _ Hi). rewrite (inv_word _ Hi).
  unfold holders_of in *. rewrite Hf in *. simpl in *. lia.
Qed.

Lemma stuck_step plain s s' : step plain s s' → stuck s → stuck s'.
Proof.
  intros Hs Hst. pose proof (stuck_locked s Hst) as Hl. destruct Hst as [Hi (i & c & f & Hc & Hif & Hw & Hf & Hh)].
  split; [by eapply step_keeps|]. destruct Hw as [g Hw].
  assert (∀ j d d' v, cores s !! j = Some d → (j = i → iflag d' = false ∧ waiting d' ∧ interrupted d' = [f]) →
    ∃ i c f, cores (State v (<[j := d']> (cores s))) !! i = Some c ∧ iflag c = false ∧ waiting c ∧ interrupted c = [f] ∧ holds f = 1) as Hgo.
  { intros j d d' v Hd Hj. exists i. destruct (decide (j = i)) as [->|Hne].
    - exists d', f. rewrite (lookup_set s i d d' v Hd). destruct (Hj eq_refl) as (? & ? & ?). done.
    - exists c, f. simpl. rewrite list_lookup_insert_ne by done. split; [done|]. split; [done|]. split; [by exists g|done]. }
  destruct Hs as [s j d Hd Ha Hp|s j d Hd Ha|s j d g' Hd Ha|s j d g' Hd Ha|s j d g' Hd Ha|s j d Hd Ha|s j d b Hd Ha|s j d Hd Hfl|s j d x fs Hd Ha Hfs];
    apply (Hgo j d); try done; intros ->; assert (d = c) as -> by congruence; try (destruct Hw; congruence).
  - split; [done|]. split; [|done]. exists g'. right. by rewrite Hl.
  - split; [done|]. split; [|done]. exists g'. right. by rewrite Hl.
Qed.

Lemma rtc_stuck plain s s' : rtc (step plain) s s' → stuck s → stuck s'.
Proof. induction 1; eauto using stuck_step. Qed.

(** A core that is interrupted in a block under a [SpinLockGuard], by a handler that takes the lock. *)
Lemma interrupted_block plain n : (∀ c, plain c) → (0 < n)%nat → ∃ s, rtc (step plain) (init n) s ∧ stuck s.
Proof.
  intros Hp Hn. set (f := Frame (Inside SpinLockGuard) false).
  destruct n as [|n]; [lia|]. set (l := replicate n (Core true (Frame Outside false) [])).
  exists (State 1 (Core false (Frame (Acquiring SpinLockGuard) false) [f] :: l)).
  assert (rtc (step plain) (init (S n)) (State 1 (Core false (Frame (Acquiring SpinLockGuard) false) [f] :: l))) as Hr.
  { eapply rtc_l; [by apply (step_plain plain (init (S n)) 0)|]. eapply rtc_l; [by eapply (step_exchange _ _ 0)|].
    eapply rtc_l; [by eapply (step_interrupt _ _ 0)|]. eapply rtc_l; [by eapply (step_plain _ _ 0)|]. apply rtc_refl. }
  split; [exact Hr|]. split; [eapply rtc_keeps; [exact Hr|apply init_keeps]|]. exists 0%nat. eexists _, f. split; [done|]. split; [done|].
  split; [by exists SpinLockGuard; left|done].
Qed.
End Lock.

(** C26: the spin lock and its guards. However the cores and the handlers that interrupt them
    interleave, at most one activation is inside a block guarded by the lock, whichever guard it
    uses. A block under an [InterruptSpinLockGuard] runs with interrupts disabled and is the one that
    runs on its core. When the lock is free, a waiting activation that runs can get in; and if
    [SpinLockGuard]s are taken with interrupts disabled only, a waiting activation can always get
    in. Taken with interrupts enabled they have a deadlock: a handler that waits for the lock of the
    block it interrupted, after which the lock is never free again. *)
Theorem mutual_exclusion plain n s :
  rtc (Lock.step plain) (Lock.init n) s →
  Lock.holders s ≤ 1
  ∧ (∀ i c f, Lock.cores s !! i = Some c → f ∈ Lock.running c :: Lock.interrupted c →
       Lock.at_ f = Lock.Inside Lock.InterruptSpinLockGuard → f = Lock.running c ∧ Lock.iflag c = false)
  ∧ (∀ i c, Lock.cores s !! i = Some c → Lock.waiting c → Lock.locked_ s = 0 → Lock.enters plain s i)
  ∧ (plain = Lock.masked → ∀ i c, Lock.cores s !! i = Some c → Lock.waiting c → Lock.enters plain s i)
  ∧ ((∀ c, plain c) → (0 < n)%nat → ∃ d, rtc (Lock.step plain) (Lock.init n) d
       ∧ ∀ d', rtc (Lock.step plain) d d' → Lock.locked_ d' = 1).
Proof.
  intros Hr. pose proof (Lock.rtc_keeps _ _ _ Hr (Lock.init_keeps n)) as Hi. split; [apply Hi|]. split; [|split; [|split]].
  - intros i c f Hc Hf Ha. pose proof (Lock.inv_cores _ Hi i c Hc) as [H1 H2]. apply elem_of_cons in Hf as [->|Hf].
    + split; [done|]. apply H1. by rewrite Ha.
    + specialize (H2 f Hf). by rewrite Ha in H2.
  - intros i c Hc Hw H0. by eapply Lock.free_enters.
  - intros -> i c Hc Hw. eapply Lock.calm_enters; [|done..]. eapply Lock.rtc_calm; [exact Hr|apply Lock.init_calm].
  - intros Hp Hn. destruct (Lock.interrupted_block plain n Hp Hn) as (d & Hd & Hst). exists d. split; [done|].
    intros d' Hd'. by eapply Lock.stuck_locked, Lock.rtc_stuck.
Qed.

Lemma mutual_exclusion_witness :
  ∃ s, rtc (Lock.step Lock.masked) (Lock.init 2) s ∧ Lock.locked_ s = 1 ∧ Lock.enters Lock.masked s 1%nat.
Proof.
  set (c0 := Lock.Core false (Lock.Frame (Lock.Inside Lock.InterruptSpinLockGuard) true) []).
  set (c1 := Lock.Core false (Lock.Frame (Lock.Polling Lock.InterruptSpinLockGuard) true) []).
  assert (rtc (Lock.step Lock.masked) (Lock.init 2) (Lock.State 1 [c0; c1])) as Hr.
  { eapply rtc_l; [apply (Lock.step_guard _ (Lock.init 2) 0); reflexivity|].
    eapply rtc_l; [eapply (Lock.step_exchange _ _ 0); reflexivity|].
    eapply rtc_l; [eapply (Lock.step_guard _ _ 1); reflexivity|].
    eapply rtc_l; [eapply (Lock.step_exchange _ _ 1); reflexivity|]. apply rtc_refl. }
  exists (Lock.State 1 [c0; c1]). split; [exact Hr|]. split; [reflexivity|].
  destruct (mutual_exclusion Lock.masked 2 _ Hr) as (_ & _ & _ & H & _). apply (H eq_refl 1%nat c1); [reflexivity|].
  exists Lock.InterruptSpinLockGuard. right. reflexivity.
Defined.
