(* ===== verification/Concurrency.v ===== *)
(** The TLB shootdown, as interleavings of the cores: kernel/src/mm/vmm.cpp.

    A step of the system is one atomic access of one core (the memory is taken
    as sequentially consistent), one change of a page table, or the delivery of an interrupt. *)
From S2P Require Import Prelude Locks.

(** ** TLB shootdown *)
Module Shootdown.

(** [Raised]: the interrupt is pending at the core; [Flushed]: its handler has
    reloaded CR3 and not yet decremented the counter. *)
Inductive ipi_state := NoIpi | Raised | Flushed.
#[export] Instance ipi_eq_dec : EqDecision ipi_state.
Proof. solve_decision. Defined.

(** A core inside [map_page] and the like: waiting for [vmm::lock_], changing the
    tables, and the two loops and the wait of [flush_remote_tlbs]. *)
Inductive pc := Idle | Want | Edit | Counting (i : nat) (pending : Z) | Sending (i : nat) | Waiting.

Record core := Core {
  at_ : pc; irq : bool; initialized : bool; ipi : ipi_state; stale : bool
}.
Record state := State { lock_ : option nat; tlb_shootdown_pending : Z; cores : list core }.

Definition move (p : pc) (c : core) : core := Core p (irq c) (initialized c) (ipi c) (stale c).
Definition set_ipi (v : ipi_state) (c : core) : core := Core (at_ c) (irq c) (initialized c) v (stale c).
Definition set_stale (b : bool) (c : core) : core := Core (at_ c) (irq c) (initialized c) (ipi c) b.
Definition set_core (i : nat) (c : core) (s : state) : state :=
  State (lock_ s) (tlb_shootdown_pending s) (<[i := c]> (cores s)).

(** Whether the loops of core [h] count core [d]. *)
Definition target (h d : nat) (c : core) : bool := negb (d =? h)%nat && initialized c.

Inductive step : state → state → Prop :=
| want s i c b : cores s !! i = Some c → at_ c = Idle → initialized c = true →
    step s (set_core i (Core Want b (initialized c) (ipi c) (stale c)) s)
| flags s i c b : cores s !! i = Some c → at_ c = Idle →
    step s (set_core i (Core Idle b (initialized c) (ipi c) (stale c)) s)
| acquire s i c : cores s !! i = Some c → at_ c = Want → lock_ s = None →
    step s (State (Some i) (tlb_shootdown_pending s) (<[i := move Edit c]> (cores s)))
| edit s i c : cores s !! i = Some c → at_ c = Edit →
    step s (State (lock_ s) (tlb_shootdown_pending s)
                  (<[i := move (Counting 0 0) c]> (set_stale true <$> cores s)))
| count_one s i c k p d : cores s !! i = Some c → at_ c = Counting k p → cores s !! k = Some d →
    step s (set_core i (move (Counting (S k) (if target i k d then u32 (p + 1) else p)) c) s)
| count_none s i c k : cores s !! i = Some c → at_ c = Counting k 0 → cores s !! k = None →
    step s (State None (tlb_shootdown_pending s) (<[i := move Idle c]> (cores s)))
| count_end s i c k p : cores s !! i = Some c → at_ c = Counting k p → cores s !! k = None → p ≠ 0 →
    step s (State (lock_ s) p (<[i := move (Sending 0) c]> (cores s)))
| send s i c k d : cores s !! i = Some c → at_ c = Sending k → cores s !! k = Some d →
    step s (set_core i (move (Sending (S k)) c)
             (if target i k d then set_core k (set_ipi Raised d) s else s))
| send_end s i c k : cores s !! i = Some c → at_ c = Sending k → cores s !! k = None →
    step s (set_core i (move Waiting c) s)
| release s i c : cores s !! i = Some c → at_ c = Waiting → tlb_shootdown_pending s = 0 →
    step s (State None (tlb_shootdown_pending s) (<[i := move Idle c]> (cores s)))
| handle_flush s d c : cores s !! d = Some c → ipi c = Raised → irq c = true →
    step s (set_core d (set_ipi Flushed (set_stale false c)) s)
| handle_ack s d c : cores s !! d = Some c → ipi c = Flushed →
    step s (State (lock_ s) (Atomic.fetch_sub 32 1 (tlb_shootdown_pending s)).2
                  (<[d := set_ipi NoIpi c]> (cores s))).

(** A core that comes up (smp_ll.cpp) with an empty TLB. *)
Inductive boot_step : state → state → Prop :=
| boot s d c : cores s !! d = Some c → initialized c = false →
    boot_step s (set_core d (Core (at_ c) (irq c) true (ipi c) false) s).

(** The system after start-up; [flags] says which cores are initialized. *)
Definition init (flags : list bool) : state :=
  State None 0 ((λ b, Core Idle true b NoIpi false) <$> flags).

(** *** Counting cores *)
Fixpoint cnt (f : nat → core → bool) (l : list core) : Z :=
  match l with
  | [] => 0
  | c :: l => (if f 0%nat c then 1 else 0) + cnt (λ i, f (S i)) l
  end.

Lemma cnt_nonneg l : ∀ f, 0 ≤ cnt f l ≤ Z.of_nat (length l).
Proof.
  induction l as [|c l IH]; intros f; simpl; [lia|]. specialize (IH (λ i, f (S i))).
  destruct (f 0%nat c); lia.
Qed.

Lemma cnt_ext l : ∀ l' f f', length l' = length l →
  (∀ j c c', l !! j = Some c → l' !! j = Some c' → f' j c' = f j c) → cnt f' l' = cnt f l.
Proof.
  induction l as [|c l IH]; intros [|c' l'] f f' Hl H; simpl in *; try done.
  rewrite (H 0%nat c c') by done. f_equal. apply IH; [lia|].
  intros j d d' Hd Hd'. by apply (H (S j)).
Qed.

(** Only position [i] differs. *)
Lemma cnt_change i c c' : ∀ l l' f f', length l' = length l →
  l !! i = Some c → l' !! i = Some c' →
  (∀ j d d', j ≠ i → l !! j = Some d → l' !! j = Some d' → f' j d' = f j d) →
  cnt f' l' = cnt f l - (if f i c then 1 else 0) + (if f' i c' then 1 else 0).
Proof.
  induction i as [|i IH]; intros [|x l] [|x' l'] f f' Hl Hi Hi' H; simpl in *; try done.
  - injection Hi as ->. injection Hi' as ->.
    rewrite (cnt_ext l l' (λ i, f (S i)) (λ i, f' (S i))); [lia|lia|].
    intros j d d' Hd Hd'. apply (H (S j)); done.
  - rewrite (IH l l' (λ i, f (S i)) (λ i, f' (S i))); [|lia|done|done|].
    + rewrite (H 0%nat x x') by done. lia.
    + intros j d d' Hne Hd Hd'. apply (H (S j)); [congruence|done|done].
Qed.

Lemma cnt_zero l : ∀ f, cnt f l = 0 → ∀ i c, l !! i = Some c → f i c = false.
Proof.
  induction l as [|x l IH]; intros f H [|i] c Hc; simpl in *; try done.
  - injection Hc as ->. pose proof (cnt_nonneg l (λ i, f (S i))). destruct (f 0%nat c); [lia|done].
  - apply (IH (λ i, f (S i))); [|done]. pose proof (cnt_nonneg l (λ i, f (S i))).
    destruct (f 0%nat x); lia.
Qed.

(** *** The invariant *)

(** No interrupt outstanding. *)
Definition quiet (s : state) : Prop :=
  tlb_shootdown_pending s = 0 ∧ ∀ d c, cores s !! d = Some c → ipi c = NoIpi.

(** Interrupts outstanding or still to be sent by [h], from core [k] on. *)
Definition outstanding (h k d : nat) (c : core) : bool :=
  target h d c && ((k <=? d)%nat || bool_decide (ipi c ≠ NoIpi)).

Definition flushing (s : state) (h k : nat) : Prop :=
  tlb_shootdown_pending s = cnt (outstanding h k) (cores s)
  ∧ ∀ d c, cores s !! d = Some c →
      (ipi c ≠ NoIpi → target h d c = true ∧ (d < k)%nat) ∧ (ipi c = Flushed → stale c = false)
      ∧ (target h d c = true → (d < k)%nat → ipi c = NoIpi → stale c = false).

Definition coherent (s : state) : Prop :=
  ∀ d c, cores s !! d = Some c → initialized c = true → stale c = false.

Definition outside (c : core) : Prop := at_ c = Idle ∨ (at_ c = Want ∧ initialized c = true).

Definition holder_inv (s : state) (h : nat) (c : core) : Prop :=
  stale c = false ∧ initialized c = true ∧
  match at_ c with
  | Edit => quiet s ∧ coherent s
  | Counting k p => quiet s ∧ (k ≤ length (cores s))%nat
                    ∧ p = cnt (λ d c, target h d c && (d <? k)%nat) (cores s)
  | Sending k => (k ≤ length (cores s))%nat ∧ flushing s h k
  | Waiting => flushing s h (length (cores s))
  | _ => False
  end.

Record inv (s : state) : Prop := {
  inv_size : Z.of_nat (length (cores s)) < 2 ^ 32;
  inv_out d c : cores s !! d = Some c → lock_ s ≠ Some d → outside c;
  inv_lock : match lock_ s with
             | None => quiet s ∧ coherent s
             | Some h => ∃ c, cores s !! h = Some c ∧ holder_inv s h c
             end
}.

(** States that differ in the program counters only. *)
Definition same_data (s s' : state) : Prop :=
  tlb_shootdown_pending s' = tlb_shootdown_pending s ∧ length (cores s') = length (cores s)
  ∧ ∀ d c', cores s' !! d = Some c' → ∃ c, cores s !! d = Some c
      ∧ initialized c' = initialized c ∧ ipi c' = ipi c ∧ stale c' = stale c.

Lemma same_data_cnt s s' f f' :
  same_data s s' →
  (∀ d c c', initialized c' = initialized c → ipi c' = ipi c → f' d c' = f d c) →
  cnt f' (cores s') = cnt f (cores s).
Proof.
  intros (_ & Hl & H) Hf. apply cnt_ext; [done|]. intros j c c' Hc Hc'.
  destruct (H j c' Hc') as (c2 & Hc2 & ? & ? & _). assert (c2 = c) as -> by congruence. by apply Hf.
Qed.

Lemma target_data h d c c' : initialized c' = initialized c → target h d c' = target h d c.
Proof. intros E. unfold target. by rewrite E. Qed.

Lemma outstanding_data h k d c c' :
  initialized c' = initialized c → ipi c' = ipi c → outstanding h k d c' = outstanding h k d c.
Proof. intros E1 E2. unfold outstanding, target. by rewrite E1, E2. Qed.

Lemma same_quiet s s' : same_data s s' → quiet s → quiet s'.
Proof.
  intros (Hp & _ & H) [Hq1 Hq2]. split; [congruence|]. intros d c' Hc'.
  destruct (H d c' Hc') as (c & Hc & _ & -> & _). by eapply Hq2.
Qed.

Lemma same_coherent s s' : same_data s s' → coherent s → coherent s'.
Proof.
  intros (_ & _ & H) Hco d c' Hc'. destruct (H d c' Hc') as (c & Hc & -> & _ & ->). by eapply Hco.
Qed.

Lemma same_flushing s s' h k : same_data s s' → flushing s h k → flushing s' h k.
Proof.
  intros Hs [Hp Hall]. split.
  - rewrite (same_data_cnt s s' (outstanding h k)); [|done|apply outstanding_data].
    destruct Hs as (-> & _). done.
  - intros d c' Hc'. destruct Hs as (_ & _ & H). destruct (H d c' Hc') as (c & Hc & E1 & E2 & E3).
    rewrite (target_data h d c c' E1), E2, E3. by apply Hall.
Qed.

Lemma same_data_insert s i c c' :
  cores s !! i = Some c → initialized c' = initialized c → ipi c' = ipi c → stale c' = stale c →
  ∀ lk, same_data s (State lk (tlb_shootdown_pending s) (<[i := c']> (cores s))).
Proof.
  intros Hc E1 E2 E3 lk. split_and!; [done|simpl; by rewrite length_insert|]. simpl. intros d x Hx.
  destruct (Lock.insert_cases _ _ _ _ _ _ Hc Hx) as [[-> ->]|[_ Hd]]; [by exists c|by exists x].
Qed.

(** The cores other than the holder stay outside. *)
Lemma out_insert s i c c' :
  inv s → cores s !! i = Some c → (lock_ s ≠ Some i → outside c') →
  ∀ d x, <[i := c']> (cores s) !! d = Some x → lock_ s ≠ Some d → outside x.
Proof.
  intros Hinv Hc Ho d x Hx Hd.
  destruct (Lock.insert_cases _ _ _ _ _ _ Hc Hx) as [[-> ->]|[_ Hx']]; [by apply Ho|].
  by eapply inv_out.
Qed.

(** A core with a program counter of the locked section holds the lock. *)
Lemma holder s i c : inv s → cores s !! i = Some c → ¬ outside c →
  lock_ s = Some i ∧ holder_inv s i c.
Proof.
  intros [Hsz Ho Hl] Hc Hn. assert (lock_ s = Some i) as E.
  { destruct (decide (lock_ s = Some i)); [done|]. by destruct Hn; eapply Ho. }
  split; [done|]. rewrite E in Hl. destruct Hl as (c' & Hc' & Hh). by assert (c' = c) as -> by congruence.
Qed.

Ltac not_outside := let H := fresh in intros [H|[H _]]; congruence.

(** A core outside the locked section moves. *)
Lemma want_inv s i c c' :
  inv s → cores s !! i = Some c → at_ c = Idle → initialized c' = initialized c → ipi c' = ipi c →
  stale c' = stale c → outside c' → inv (set_core i c' s).
Proof.
  intros Hinv Hc Ha E1 E2 E3 Ho.
  pose proof (same_data_insert s i c c' Hc E1 E2 E3 (lock_ s)) as Hsame.
  split; simpl; [rewrite length_insert; apply Hinv| |].
  - by apply (out_insert s i c c' Hinv Hc).
  - pose proof (inv_lock _ Hinv) as Hl. destruct (lock_ s) as [h|] eqn:El.
    + destruct Hl as (x & Hx & Hst & Hix & Hh). assert (h ≠ i) as Hne.
      { intros ->. assert (x = c) as -> by congruence. by rewrite Ha in Hh. }
      exists x. rewrite list_lookup_insert_ne by done. split; [done|]. split_and!; [done..|].
      destruct (at_ x); try done; simpl; rewrite ?length_insert.
      * destruct Hh. split; [by eapply same_quiet|by eapply same_coherent].
      * destruct Hh as (Hq & Hk & ->). split_and!; [by eapply same_quiet|done|].
        symmetry. apply (same_data_cnt s _ _ _ Hsame). intros d y y' Ey _. by rewrite (target_data h d y y' Ey).
      * destruct Hh. split; [done|by eapply same_flushing].
      * by eapply same_flushing.
    + destruct Hl. split; [by eapply same_quiet|by eapply same_coherent].
Qed.

Lemma acquire_inv s i c :
  inv s → cores s !! i = Some c → at_ c = Want → lock_ s = None →
  inv (State (Some i) (tlb_shootdown_pending s) (<[i := move Edit c]> (cores s))).
Proof.
  intros Hinv Hc Ha Hl.
  pose proof (same_data_insert s i c (move Edit c) Hc eq_refl eq_refl eq_refl (Some i)) as Hsame.
  pose proof (inv_lock _ Hinv) as Hq. rewrite Hl in Hq. destruct Hq as [Hq Hco].
  assert (initialized c = true) as Hin.
  { destruct (inv_out _ Hinv i c Hc) as [?|[_ ?]]; [by rewrite Hl|congruence|done]. }
  split; simpl; [rewrite length_insert; apply Hinv| |].
  - intros d x Hx Hd. destruct (Lock.insert_cases _ _ _ _ _ _ Hc Hx) as [[-> ->]|[_ Hx']]; [done|].
    eapply inv_out; [done..|by rewrite Hl].
  - exists (move Edit c). rewrite list_lookup_insert_eq by (by eapply lookup_lt_Some). split; [done|].
    split; [by apply (Hco i c)|]. split; [done|]. split; [by eapply same_quiet|by eapply same_coherent].
Qed.

Lemma edit_inv s i c :
  inv s → cores s !! i = Some c → at_ c = Edit →
  inv (State (lock_ s) (tlb_shootdown_pending s) (<[i := move (Counting 0 0) c]> (set_stale true <$> cores s))).
Proof.
  intros Hinv Hc Ha. destruct (holder s i c Hinv Hc ltac:(not_outside)) as [Hl (Hst & Hin & Hh)].
  rewrite Ha in Hh. destruct Hh as [[Hq1 Hq2] _].
  assert ((set_stale true <$> cores s) !! i = Some (set_stale true c)) as Hc2
    by (by rewrite list_lookup_fmap, Hc).
  split; simpl; [rewrite length_insert, length_fmap; apply Hinv| |].
  - intros d x Hx Hd. destruct (Lock.insert_cases _ _ _ _ _ _ Hc2 Hx) as [[-> ->]|[_ Hx']]; [by rewrite Hl in Hd|].
    rewrite list_lookup_fmap in Hx'. destruct (cores s !! d) as [y|] eqn:Hy; [|done]. injection Hx' as <-.
    apply (inv_out _ Hinv d y Hy Hd).
  - rewrite Hl. exists (move (Counting 0 0) c).
    rewrite list_lookup_insert_eq by (rewrite length_fmap; by eapply lookup_lt_Some). split; [done|].
    split; [done|]. split; [done|]. cbn [at_ move cores]. split_and!; [|lia|].
    + split; [done|]. simpl. intros d x Hx.
      destruct (Lock.insert_cases _ _ _ _ _ _ Hc2 Hx) as [[-> ->]|[_ Hx']]; [exact (Hq2 i c Hc)|].
      rewrite list_lookup_fmap in Hx'. destruct (cores s !! d) as [y|] eqn:Hy; [|done]. injection Hx' as <-.
      exact (Hq2 d y Hy).
    + simpl. symmetry. generalize (<[i := move (Counting 0 0) c]> (set_stale true <$> cores s)) as l.
      intros l. assert (∀ l f, (∀ d x, f d x = false) → cnt f l = 0) as Hz.
      { clear. induction l as [|x l IH]; intros f H; simpl; [done|]. rewrite H, IH; [done|]. intros; apply H. }
      apply Hz. intros d x. by rewrite andb_false_r.
Qed.

(** The holder moves on; the other cores are untouched. *)
Lemma holder_moves s i c p pend l' :
  inv s → cores s !! i = Some c → lock_ s = Some i → l' = <[i := move p c]> (cores s) →
  holder_inv (State (Some i) pend l') i (move p c) → inv (State (Some i) pend l').
Proof.
  intros Hinv Hc Hl -> Hh. split; simpl; [rewrite length_insert; apply Hinv| |].
  - intros d x Hx Hd. apply (out_insert s i c (move p c) Hinv Hc) with (d := d); [|done|by rewrite Hl].
    by rewrite Hl.
  - exists (move p c). split; [|done]. by rewrite list_lookup_insert_eq by (by eapply lookup_lt_Some).
Qed.

Lemma count_one_inv s i c k p d :
  inv s → cores s !! i = Some c → at_ c = Counting k p → cores s !! k = Some d →
  inv (set_core i (move (Counting (S k) (if target i k d then u32 (p + 1) else p)) c) s).
Proof.
  intros Hinv Hc Ha Hd. destruct (holder s i c Hinv Hc ltac:(not_outside)) as [Hl (Hst & Hin & Hh)].
  rewrite Ha in Hh. destruct Hh as (Hq & Hk & Hp). set (c' := move _ c).
  pose proof (same_data_insert s i c c' Hc eq_refl eq_refl eq_refl (Some i)) as Hsame.
  unfold set_core. rewrite Hl. eapply holder_moves; [done..|]. fold c'.
  split; [done|]. split; [done|]. cbn [at_ c' move cores].
  split_and!; [by eapply same_quiet|rewrite length_insert; by apply lookup_lt_Some in Hd|].
  fold c'. rewrite (same_data_cnt s _ (λ d c, target i d c && (d <? S k)%nat) _ Hsame)
    by (intros e y y' E1 _; by rewrite (target_data i e y y' E1)).
  pose proof (cnt_nonneg (cores s) (λ d c, target i d c && (d <? S k)%nat)) as Hb.
  pose proof (inv_size _ Hinv) as Hsz.
  assert (cnt (λ d c, target i d c && (d <? S k)%nat) (cores s) = p + (if target i k d then 1 else 0)) as Hch.
  { rewrite (cnt_change k d d (cores s) (cores s) (λ d c, target i d c && (d <? k)%nat)
      (λ d c, target i d c && (d <? S k)%nat) eq_refl Hd Hd).
    - rewrite <- Hp, Nat.ltb_irrefl, (proj2 (Nat.ltb_lt k (S k))), andb_false_r, andb_true_r by lia. lia.
    - intros j x x' Hj Hx Hx'. assert (x' = x) as -> by congruence. f_equal.
      destruct (Nat.ltb_spec j (S k)), (Nat.ltb_spec j k); (done || lia). }
  rewrite Hch in *. destruct (target i k d); [rewrite u32_small|]; lia.
Qed.

(** All cores below [k] means all cores. *)
Lemma cnt_all s i k :
  cores s !! k = None →
  cnt (λ d c, target i d c && (d <? k)%nat) (cores s) = cnt (outstanding i 0) (cores s).
Proof.
  intros Hk%lookup_ge_None. apply cnt_ext; [done|]. intros j c c' Hc Hc'.
  assert (c' = c) as -> by congruence. unfold outstanding. f_equal.
  apply lookup_lt_Some in Hc. rewrite (proj2 (Nat.ltb_lt j k)) by lia. done.
Qed.

Lemma count_none_inv s i c k :
  inv s → cores s !! i = Some c → at_ c = Counting k 0 → cores s !! k = None →
  inv (State None (tlb_shootdown_pending s) (<[i := move Idle c]> (cores s))).
Proof.
  intros Hinv Hc Ha Hk. destruct (holder s i c Hinv Hc ltac:(not_outside)) as [Hl (Hst & Hin & Hh)].
  rewrite Ha in Hh. destruct Hh as (Hq & _ & Hp). rewrite cnt_all in Hp by done.
  pose proof (same_data_insert s i c (move Idle c) Hc eq_refl eq_refl eq_refl None) as Hsame.
  split; simpl; [rewrite length_insert; apply Hinv| |].
  - intros d x Hx _. destruct (Lock.insert_cases _ _ _ _ _ _ Hc Hx) as [[-> ->]|[Hne Hx']]; [by left|].
    eapply inv_out; [done..|]. rewrite Hl. congruence.
  - split; [by eapply same_quiet|]. eapply same_coherent; [done|]. intros d x Hx Hix.
    pose proof (cnt_zero _ _ (eq_sym Hp) d x Hx) as Hz. unfold outstanding, target in Hz.
    destruct (Nat.eqb_spec d i) as [->|]; [by assert (x = c) as -> by congruence|]. by rewrite Hix in Hz.
Qed.

Lemma count_end_inv s i c k p :
  inv s → cores s !! i = Some c → at_ c = Counting k p → cores s !! k = None →
  inv (State (lock_ s) p (<[i := move (Sending 0) c]> (cores s))).
Proof.
  intros Hinv Hc Ha Hk. destruct (holder s i c Hinv Hc ltac:(not_outside)) as [Hl (Hst & Hin & Hh)].
  rewrite Ha in Hh. destruct Hh as (Hq & _ & Hp). rewrite cnt_all in Hp by done. rewrite Hl.
  pose proof (same_data_insert s i c (move (Sending 0) c) Hc eq_refl eq_refl eq_refl (Some i)) as Hsame.
  eapply holder_moves; [done..|]. split; [done|]. split; [done|]. cbn [at_ move cores].
  split; [lia|]. split; cbn [tlb_shootdown_pending cores].
  - rewrite Hp. symmetry. apply (same_data_cnt s _ _ _ Hsame). apply outstanding_data.
  - intros d x Hx. destruct (same_quiet _ _ Hsame Hq) as [_ Hq2]. specialize (Hq2 d x Hx).
    split_and!; [done|congruence|lia].
Qed.

(** Who is who after a step of the sender: its interrupt has reached core [k] if that is a target. *)
Lemma send_cores s i c k d j x : cores s !! i = Some c → cores s !! k = Some d →
  <[i := move (Sending (S k)) c]> (<[k := if target i k d then set_ipi Raised d else d]> (cores s)) !! j = Some x →
  ∃ y, cores s !! j = Some y ∧ initialized x = initialized y ∧ stale x = stale y
    ∧ ipi x = (if decide (j = k) then if target i k d then Raised else ipi y else ipi y).
Proof.
  intros Hc Hd Hx. destruct (decide (j = i)) as [->|Hji].
  - rewrite list_lookup_insert_eq in Hx by (rewrite length_insert; by eapply lookup_lt_Some).
    injection Hx as <-. exists c. split_and!; [done..|]. simpl. destruct (decide (i = k)) as [->|]; [|done].
    unfold target. by rewrite Nat.eqb_refl.
  - rewrite list_lookup_insert_ne in Hx by done. destruct (decide (j = k)) as [->|Hjk].
    + rewrite list_lookup_insert_eq in Hx by (by eapply lookup_lt_Some). injection Hx as <-.
      exists d. by destruct (target i k d).
    + rewrite list_lookup_insert_ne in Hx by done. by exists x.
Qed.

Lemma send_inv s i c k d :
  inv s → cores s !! i = Some c → at_ c = Sending k → cores s !! k = Some d →
  inv (set_core i (move (Sending (S k)) c) (if target i k d then set_core k (set_ipi Raised d) s else s)).
Proof.
  intros Hinv Hc Ha Hd. destruct (holder s i c Hinv Hc ltac:(not_outside)) as [Hl (Hst & Hin & Hh)].
  rewrite Ha in Hh. destruct Hh as [Hk [Hp Hall]].
  set (d' := if target i k d then set_ipi Raised d else d).
  set (l := <[i := move (Sending (S k)) c]> (<[k := d']> (cores s))).
  assert (set_core i (move (Sending (S k)) c) (if target i k d then set_core k (set_ipi Raised d) s else s)
          = State (Some i) (tlb_shootdown_pending s) l) as ->.
  { unfold l, d', set_core. destruct (target i k d); simpl; rewrite Hl; [done|].
    by rewrite (list_insert_id (cores s) k d). }
  assert (length l = length (cores s)) as Hlen by (unfold l; by rewrite !length_insert).
  pose proof (λ j x, send_cores s i c k d j x Hc Hd) as Hl2. fold d' l in Hl2.
  split; cbn [cores lock_]; [rewrite Hlen; apply Hinv| |].
  - intros j x Hx Hj. assert (j ≠ i) as Hji by congruence. unfold l in Hx.
    rewrite list_lookup_insert_ne in Hx by done. destruct (decide (j = k)) as [->|Hjk].
    + rewrite list_lookup_insert_eq in Hx by (by eapply lookup_lt_Some). injection Hx as <-.
      assert (outside d) as Ho by (eapply inv_out; [done..|by rewrite Hl]).
      unfold d'. by destruct (target i k d).
    + rewrite list_lookup_insert_ne in Hx by done. eapply inv_out; [done..|by rewrite Hl].
  - exists (move (Sending (S k)) c). split.
    { unfold l. rewrite list_lookup_insert_eq; [done|]. rewrite length_insert. by eapply lookup_lt_Some. }
    split; [done|]. split; [done|]. cbn [at_ move cores]. split; [rewrite Hlen; by apply lookup_lt_Some in Hd|].
    split; cbn [tlb_shootdown_pending cores].
    + rewrite Hp. symmetry. apply cnt_ext; [done|]. intros j y x Hy Hx.
      destruct (Hl2 j x Hx) as (y' & Hy' & E1 & _ & E3). assert (y' = y) as -> by congruence.
      unfold outstanding. rewrite (target_data i j y x E1), E3. destruct (decide (j = k)) as [->|Hjk].
      * assert (y = d) as -> by congruence. destruct (target i k d); [|done]. simpl.
        rewrite (proj2 (Nat.leb_le k k)) by lia. rewrite orb_true_r. done.
      * f_equal. f_equal. destruct (Nat.leb_spec (S k) j), (Nat.leb_spec k j); (done || lia).
    + intros j x Hx. destruct (Hl2 j x Hx) as (y & Hy & E1 & E2 & E3).
      rewrite (target_data i j y x E1), E2, E3. destruct (Hall j y Hy) as (H1 & H2 & H3).
      destruct (decide (j = k)) as [->|Hjk].
      * assert (y = d) as -> by congruence. destruct (target i k d) eqn:Et; [split_and!; [intros _; split; [done|lia]|done|done]|].
        split_and!; [intros Hn; destruct (H1 Hn); congruence|done|done].
      * split_and!; [intros Hn; destruct (H1 Hn); split; [done|lia]|done|].
        intros Ht Hlt. apply H3; [done|lia].
Qed.

Lemma send_end_inv s i c k :
  inv s → cores s !! i = Some c → at_ c = Sending k → cores s !! k = None →
  inv (set_core i (move Waiting c) s).
Proof.
  intros Hinv Hc Ha Hk%lookup_ge_None.
  destruct (holder s i c Hinv Hc ltac:(not_outside)) as [Hl (Hst & Hin & Hh)].
  rewrite Ha in Hh. destruct Hh as [Hle Hf]. assert (k = length (cores s)) as -> by lia.
  pose proof (same_data_insert s i c (move Waiting c) Hc eq_refl eq_refl eq_refl (Some i)) as Hsame.
  unfold set_core. rewrite Hl. eapply holder_moves; [done..|]. split; [done|]. split; [done|].
  cbn [at_ move cores]. rewrite length_insert. by eapply same_flushing.
Qed.

(** A counter of zero at the wait: every interrupt was handled. *)
Lemma flushing_done s h c :
  cores s !! h = Some c → stale c = false → flushing s h (length (cores s)) →
  tlb_shootdown_pending s = 0 → quiet s ∧ coherent s.
Proof.
  intros Hc Hst [Hp Hall] H0. rewrite H0 in Hp.
  assert (∀ d x, cores s !! d = Some x → ipi x = NoIpi) as Hq.
  { intros d x Hx. destruct (decide (ipi x = NoIpi)) as [|Hn]; [done|]. destruct (Hall d x Hx) as [H1 _].
    destruct (H1 Hn) as [Ht _]. pose proof (cnt_zero _ _ (eq_sym Hp) d x Hx) as Hz.
    unfold outstanding in Hz. rewrite Ht, (bool_decide_true _ Hn), orb_true_r in Hz. done. }
  split; [done|]. intros d x Hx Hix. destruct (decide (d = h)) as [->|Hne]; [by assert (x = c) as -> by congruence|].
  apply (Hall d x Hx); [|by eapply lookup_lt_Some|by eapply Hq].
  unfold target. rewrite Hix. by destruct (Nat.eqb_spec d h).
Qed.

Lemma release_inv s i c :
  inv s → cores s !! i = Some c → at_ c = Waiting → tlb_shootdown_pending s = 0 →
  inv (State None (tlb_shootdown_pending s) (<[i := move Idle c]> (cores s))).
Proof.
  intros Hinv Hc Ha H0. destruct (holder s i c Hinv Hc ltac:(not_outside)) as [Hl (Hst & Hin & Hh)].
  rewrite Ha in Hh. destruct (flushing_done s i c Hc Hst Hh H0) as [Hq Hco].
  pose proof (same_data_insert s i c (move Idle c) Hc eq_refl eq_refl eq_refl None) as Hsame.
  split; simpl; [rewrite length_insert; apply Hinv| |].
  - intros d x Hx _. destruct (Lock.insert_cases _ _ _ _ _ _ Hc Hx) as [[-> ->]|[Hne Hx']]; [by left|].
    eapply inv_out; [done..|]. rewrite Hl. congruence.
  - split; [by eapply same_quiet|by eapply same_coherent].
Qed.

(** An outstanding interrupt: some core is sending or waiting. *)
Lemma outstanding_holder s d c :
  inv s → cores s !! d = Some c → ipi c ≠ NoIpi →
  ∃ h k x, lock_ s = Some h ∧ cores s !! h = Some x ∧ flushing s h k ∧ target h d c = true ∧ (d < k)%nat
    ∧ (at_ x = Sending k ∧ (k ≤ length (cores s))%nat ∨ at_ x = Waiting ∧ k = length (cores s)).
Proof.
  intros Hinv Hc Hn. pose proof (inv_lock _ Hinv) as Hl. destruct (lock_ s) as [h|].
  - destruct Hl as (x & Hx & _ & _ & Hh). destruct (at_ x) eqn:Ha; try done.
    + destruct Hh as [[_ Hq] _]. by destruct Hn; eapply Hq.
    + destruct Hh as ([_ Hq] & _). by destruct Hn; eapply Hq.
    + destruct Hh as [Hk Hf]. destruct (proj1 (proj2 Hf d c Hc) Hn) as [Ht Hlt].
      exists h, i, x. split_and!; auto.
    + destruct (proj1 (proj2 Hh d c Hc) Hn) as [Ht Hlt]. exists h, (length (cores s)), x. split_and!; auto.
  - destruct Hl as [[_ Hq] _]. by destruct Hn; eapply Hq.
Qed.

(** The handler's two steps: [c'] is the interrupted core after the step. *)
Lemma handle_inv s d c c' pend :
  inv s → cores s !! d = Some c → ipi c ≠ NoIpi →
  at_ c' = at_ c → initialized c' = initialized c → stale c' = false →
  (ipi c' = Flushed ∧ pend = tlb_shootdown_pending s
   ∨ ipi c' = NoIpi ∧ pend = u32 (tlb_shootdown_pending s - 1)) →
  inv (State (lock_ s) pend (<[d := c']> (cores s))).
Proof.
  intros Hinv Hc Hn Ea Ei Es Hp.
  destruct (outstanding_holder s d c Hinv Hc Hn) as (h & k & x & Hl & Hx & Hf & Ht & Hlt & Hat).
  assert (d ≠ h) as Hdh by (intros ->; unfold target in Ht; by rewrite Nat.eqb_refl in Ht).
  set (s' := State (lock_ s) pend (<[d := c']> (cores s))).
  assert (cores s' !! h = Some x) as Hx' by (simpl; by rewrite list_lookup_insert_ne).
  assert (length (cores s') = length (cores s)) as Hlen by (simpl; by rewrite length_insert).
  assert (flushing s' h k) as Hf'.
  { destruct Hf as [Hpe Hall]. split.
    - assert (cnt (outstanding h k) (cores s')
              = cnt (outstanding h k) (cores s) - 1 + (if bool_decide (ipi c' ≠ NoIpi) then 1 else 0)) as Hcnt.
      { rewrite (cnt_change d c c' (cores s) (cores s') (outstanding h k) (outstanding h k) Hlen Hc).
        - unfold outstanding. rewrite (target_data h d c c' Ei), Ht, (proj2 (Nat.leb_gt k d)) by lia.
          by rewrite (bool_decide_true _ Hn).
        - simpl. by rewrite list_lookup_insert_eq by (by eapply lookup_lt_Some).
        - intros j y y' Hj Hy Hy'. simpl in Hy'. rewrite list_lookup_insert_ne in Hy' by done. congruence. }
      pose proof (cnt_nonneg (cores s') (outstanding h k)) as Hb. pose proof (inv_size _ Hinv) as Hsz.
      destruct Hp as [[Ef ->]|[Ef ->]]; rewrite Ef in Hcnt; rewrite Hcnt in *;
        cbn [tlb_shootdown_pending s']; rewrite Hpe; simpl in *; [|rewrite u32_small]; lia.
    - intros j y Hy. destruct (Lock.insert_cases _ _ _ _ _ _ Hc Hy) as [[-> ->]|[_ Hy']]; [|by apply Hall].
      rewrite (target_data h d c c' Ei). split_and!; auto. }
  split; [rewrite Hlen; apply Hinv| |].
  - apply (out_insert s d c c' Hinv Hc). intros Hd. pose proof (inv_out _ Hinv d c Hc Hd) as Ho.
    unfold outside in *. by rewrite Ea, Ei.
  - simpl. rewrite Hl. exists x. split; [done|].
    pose proof (inv_lock _ Hinv) as Hi. rewrite Hl in Hi. destruct Hi as (x2 & Hx2 & Hst & Hin & _).
    assert (x2 = x) as -> by congruence. split; [done|]. split; [done|].
    destruct Hat as [[-> Hk]|[-> ->]]; [split; [by rewrite Hlen|done]|]. by rewrite Hlen.
Qed.

Lemma step_inv s s' : step s s' → inv s → inv s'.
Proof.
  intros [] Hinv.
  - eapply want_inv; [done..|]. right. done.
  - eapply want_inv; [done..|]. left. done.
  - by apply acquire_inv.
  - by apply edit_inv.
  - by apply count_one_inv.
  - by eapply count_none_inv.
  - by eapply count_end_inv.
  - by apply send_inv.
  - by eapply send_end_inv.
  - by apply release_inv.
  - apply (handle_inv s0 d c); try done; [by rewrite H0|by left].
  - apply (handle_inv s0 d c); try done; [by rewrite H0| |by right].
    destruct (outstanding_holder s0 d c Hinv H ltac:(by rewrite H0)) as (h & k & x & _ & _ & [_ Hall] & _).
    exact (proj1 (proj2 (Hall d c H)) H0).
Qed.

Lemma init_inv fl : Z.of_nat (length fl) < 2 ^ 32 → inv (init fl).
Proof.
  intros Hlen. assert (∀ d c, cores (init fl) !! d = Some c → at_ c = Idle ∧ ipi c = NoIpi ∧ stale c = false) as H.
  { intros d c Hc. simpl in Hc. rewrite list_lookup_fmap in Hc. destruct (fl !! d); [|done].
    by injection Hc as <-. }
  split; simpl; [by rewrite length_fmap| |].
  - intros d c Hc _. left. by apply (H d c).
  - split; [split; [done|]|]; intros d c Hc; [by apply (H d c)|]. intros _. by apply (H d c).
Qed.

Lemma rtc_inv s s' : rtc step s s' → inv s → inv s'.
Proof. induction 1; eauto using step_inv. Qed.

(** *** Completion *)
Definition all_irq (s : state) : Prop := ∀ d c, cores s !! d = Some c → irq c = true.

Lemma all_irq_insert s lk p i c c' :
  all_irq s → cores s !! i = Some c → irq c' = irq c → all_irq (State lk p (<[i := c']> (cores s))).
Proof.
  intros H Hc E d x Hx. destruct (Lock.insert_cases _ _ _ _ _ _ Hc Hx) as [[-> ->]|[_ Hx']]; [|by eapply H].
  rewrite E. by eapply H.
Qed.

(** What the handlers still have to do. *)
Definition handler_work (l : list core) : Z :=
  cnt (λ _ c, bool_decide (ipi c ≠ NoIpi)) l + cnt (λ _ c, bool_decide (ipi c = Raised)) l.

Lemma handler_work_insert l d c c' : l !! d = Some c →
  handler_work (<[d := c']> l) = handler_work l
    - (if bool_decide (ipi c ≠ NoIpi) then 1 else 0) - (if bool_decide (ipi c = Raised) then 1 else 0)
    + (if bool_decide (ipi c' ≠ NoIpi) then 1 else 0) + (if bool_decide (ipi c' = Raised) then 1 else 0).
Proof.
  intros Hc. unfold handler_work.
  rewrite !(cnt_change d c c' l (<[d := c']> l)
    (λ _ c, bool_decide (ipi c ≠ NoIpi)) (λ _ c, bool_decide (ipi c ≠ NoIpi))),
    !(cnt_change d c c' l (<[d := c']> l)
    (λ _ c, bool_decide (ipi c = Raised)) (λ _ c, bool_decide (ipi c = Raised)));
    try (by rewrite ?length_insert, ?list_lookup_insert_eq by (by eapply lookup_lt_Some)); [lia|..];
    intros j x x' Hj Hx Hx'; rewrite list_lookup_insert_ne in Hx' by done; assert (x' = x) as -> by congruence; done.
Qed.

Lemma cnt_pos l : ∀ f, 0 < cnt f l → ∃ i c, l !! i = Some c ∧ f i c = true.
Proof.
  induction l as [|x l IH]; intros f H; simpl in H; [lia|]. destruct (f 0%nat x) eqn:E; [by exists 0%nat, x|].
  destruct (IH (λ i, f (S i)) ltac:(lia)) as (i & c & Hc & Hf). by exists (S i), c.
Qed.

Lemma waiting_completes n : ∀ s i c, (Z.to_nat (handler_work (cores s)) ≤ n)%nat →
  inv s → all_irq s → cores s !! i = Some c → at_ c = Waiting →
  ∃ s', rtc step s s' ∧ lock_ s' = None.
Proof.
  induction n as [n IH] using lt_wf_ind. intros s i c Hn Hinv Hirq Hc Ha.
  destruct (decide (tlb_shootdown_pending s = 0)) as [H0|H0].
  { eexists. split; [apply rtc_once; by eapply release|done]. }
  destruct (holder s i c Hinv Hc ltac:(not_outside)) as [Hl (Hst & Hin & Hh)]. rewrite Ha in Hh.
  destruct Hh as [Hp Hall].
  destruct (cnt_pos (cores s) (outstanding i (length (cores s)))) as (d & x & Hx & Ho).
  { pose proof (cnt_nonneg (cores s) (outstanding i (length (cores s)))). lia. }
  unfold outstanding in Ho. rewrite (proj2 (Nat.leb_gt _ d)) in Ho by (by eapply lookup_lt_Some).
  apply andb_true_iff in Ho as [Ht Ho]. simpl in Ho. apply bool_decide_eq_true in Ho.
  assert (d ≠ i) as Hdi by (intros ->; unfold target in Ht; by rewrite Nat.eqb_refl in Ht).
  assert (∀ c' p, irq c' = irq x → handler_work (<[d := c']> (cores s)) < handler_work (cores s) →
     step s (State (lock_ s) p (<[d := c']> (cores s))) → ∃ s', rtc step s s' ∧ lock_ s' = None) as Hgo.
  { intros c' p Hi Hlt Hstep.
    assert (0 ≤ handler_work (<[d := c']> (cores s))) by (unfold handler_work; 
      pose proof (cnt_nonneg (<[d:=c']> (cores s)) (λ _ c, bool_decide (ipi c ≠ NoIpi)));
      pose proof (cnt_nonneg (<[d:=c']> (cores s)) (λ _ c, bool_decide (ipi c = Raised))); lia).
    destruct (IH (Z.to_nat (handler_work (<[d := c']> (cores s)))) ltac:(lia)
      (State (lock_ s) p (<[d := c']> (cores s))) i c) as (s' & Hs' & Hn').
    - done.
    - by eapply step_inv.
    - by eapply all_irq_insert.
    - simpl. by rewrite list_lookup_insert_ne.
    - done.
    - exists s'. split; [|done]. by eapply rtc_l. }
  pose proof (handler_work_insert (cores s) d x) as Hw.
  destruct (ipi x) eqn:Ei; [done| |].
  - apply (Hgo (set_ipi Flushed (set_stale false x)) (tlb_shootdown_pending s)); [done| |].
    + rewrite Hw by done. simpl. lia.
    + apply (handle_flush s d x Hx Ei). by eapply Hirq.
  - apply (Hgo (set_ipi NoIpi x) (Atomic.fetch_sub 32 1 (tlb_shootdown_pending s)).2); [done| |].
    + rewrite Hw by done. simpl. lia.
    + by apply handle_ack.
Qed.

Lemma sending_completes n : ∀ s i c k, (length (cores s) - k = n)%nat →
  inv s → all_irq s → cores s !! i = Some c → at_ c = Sending k →
  ∃ s', rtc step s s' ∧ lock_ s' = None.
Proof.
  induction n as [|n IH]; intros s i c k Hn Hinv Hirq Hc Ha.
  - assert (cores s !! k = None) as Hk by (apply lookup_ge_None; lia).
    pose proof (send_end s i c k Hc Ha Hk) as Hstep.
    destruct (waiting_completes _ _ i (move Waiting c) (reflexivity _) (step_inv _ _ Hstep Hinv)) as (s' & Hs' & Hl').
    + by apply all_irq_insert with c.
    + simpl. by rewrite list_lookup_insert_eq by (by eapply lookup_lt_Some).
    + done.
    + exists s'. split; [by eapply rtc_l|done].
  - destruct (lookup_lt_is_Some_2 (cores s) k ltac:(lia)) as [d Hd].
    pose proof (send s i c k d Hc Ha Hd) as Hstep.
    set (s1 := set_core i _ _) in Hstep.
    assert (cores s1 !! i = Some (move (Sending (S k)) c) ∧ length (cores s1) = length (cores s) ∧ all_irq s1) as (H1 & H2 & H3).
    { pose proof (lookup_lt_Some _ _ _ Hc) as Hlt. unfold s1. destruct (target i k d) eqn:Et; simpl.
      - assert (k ≠ i) as Hki by (intros ->; unfold target in Et; by rewrite Nat.eqb_refl in Et).
        rewrite list_lookup_insert_eq, !length_insert by (by rewrite length_insert). split_and!; [done..|].
        apply (all_irq_insert (set_core k (set_ipi Raised d) s) _ _ i c); [|simpl; by rewrite list_lookup_insert_ne|done].
        by apply all_irq_insert with d.
      - rewrite list_lookup_insert_eq, !length_insert by done. split_and!; [done..|]. by apply all_irq_insert with c. }
    destruct (IH s1 i (move (Sending (S k)) c) (S k)) as (s' & Hs' & Hl'); [lia|by eapply step_inv|done..|].
    exists s'. split; [by eapply rtc_l|done].
Qed.

Lemma counting_completes n : ∀ s i c k p, (length (cores s) - k = n)%nat →
  inv s → all_irq s → cores s !! i = Some c → at_ c = Counting k p →
  ∃ s', rtc step s s' ∧ lock_ s' = None.
Proof.
  induction n as [|n IH]; intros s i c k p Hn Hinv Hirq Hc Ha; pose proof (lookup_lt_Some _ _ _ Hc) as Hlt.
  - assert (cores s !! k = None) as Hk by (apply lookup_ge_None; lia).
    destruct (decide (p = 0)) as [->|Hp].
    { eexists. split; [apply rtc_once; by eapply count_none|done]. }
    pose proof (count_end s i c k p Hc Ha Hk Hp) as Hstep.
    destruct (sending_completes _ _ i (move (Sending 0) c) 0 eq_refl (step_inv _ _ Hstep Hinv)) as (s' & Hs' & Hl').
    + by apply all_irq_insert with c.
    + simpl. by rewrite list_lookup_insert_eq.
    + done.
    + exists s'. split; [by eapply rtc_l|done].
  - destruct (lookup_lt_is_Some_2 (cores s) k ltac:(lia)) as [d Hd].
    pose proof (count_one s i c k p d Hc Ha Hd) as Hstep.
    match type of Hstep with step _ (set_core i (move ?q c) _) =>
      destruct (IH (set_core i (move q c) s) i (move q c) (S k) (if target i k d then u32 (p + 1) else p))
        as (s' & Hs' & Hl') end.
    + simpl. rewrite length_insert. lia.
    + by eapply step_inv.
    + by apply all_irq_insert with c.
    + simpl. by rewrite list_lookup_insert_eq.
    + done.
    + exists s'. split; [by eapply rtc_l|done].
Qed.

Lemma completes s : inv s → all_irq s → ∃ s', rtc step s s' ∧ lock_ s' = None.
Proof.
  intros Hinv Hirq. pose proof (inv_lock _ Hinv) as Hl. destruct (lock_ s) as [h|] eqn:El; [|by exists s].
  destruct Hl as (c & Hc & _ & _ & Hh). pose proof (lookup_lt_Some _ _ _ Hc) as Hlt.
  destruct (at_ c) eqn:Ha; try done.
  - pose proof (edit s h c Hc Ha) as Hstep. set (s1 := State _ _ _) in Hstep.
    destruct (counting_completes _ s1 h (move (Counting 0 0) c) 0 0 eq_refl (step_inv _ _ Hstep Hinv)) as (s' & Hs' & Hl').
    + intros d x Hx. simpl in Hx. destruct (decide (d = h)) as [->|Hne].
      * rewrite list_lookup_insert_eq in Hx by (by rewrite length_fmap). injection Hx as <-. exact (Hirq h c Hc).
      * rewrite list_lookup_insert_ne, list_lookup_fmap in Hx by done.
        destruct (cores s !! d) as [y|] eqn:E; [|done]. injection Hx as <-. exact (Hirq d y E).
    + simpl. by rewrite list_lookup_insert_eq by (by rewrite length_fmap).
    + done.
    + exists s'. split; [by eapply rtc_l|done].
  - by eapply counting_completes.
  - by eapply sending_completes.
  - by eapply waiting_completes.
Qed.
End Shootdown.

(** C9: the TLB shootdown is safe and completes. Among at most 2^32 - 1 cores, in
    every interleaving of page-table changes and interrupts: while the vmm lock
    is free, no initialized core holds a stale translation and no acknowledgement
    is outstanding; and from every reachable state in which interrupts are
    enabled the lock holder can finish and release the lock. *)
Theorem shootdown_safe fl s :
  Z.of_nat (length fl) < 2 ^ 32 → rtc Shootdown.step (Shootdown.init fl) s →
  (Shootdown.lock_ s = None → Shootdown.tlb_shootdown_pending s = 0 ∧
     ∀ d c, Shootdown.cores s !! d = Some c → Shootdown.initialized c = true → Shootdown.stale c = false)
  ∧ ((∀ d c, Shootdown.cores s !! d = Some c → Shootdown.irq c = true) →
     ∃ s', rtc Shootdown.step s s' ∧ Shootdown.lock_ s' = None).
Proof.
  intros Hlen Hr. pose proof (Shootdown.rtc_inv _ _ Hr (Shootdown.init_inv fl Hlen)) as Hinv. split.
  - intros Hl. pose proof (Shootdown.inv_lock _ Hinv) as H. rewrite Hl in H. destruct H as [[Hq _] Hc]. done.
  - intros Hirq. by apply Shootdown.completes.
Qed.


(** One step of a concrete run. *)
Tactic Notation "sd_run" uconstr(t) := eapply rtc_l; [eapply t; try reflexivity; done|]; cbn.
Tactic Notation "sd_run_core" uconstr(t) := eapply rtc_l; [left; eapply t; try reflexivity; done|]; cbn.

(** Core 0 changes a mapping; core 1 has been interrupted and has not flushed. *)
Lemma shootdown_safe_witness :
  ∃ s s', rtc Shootdown.step (Shootdown.init [true; true]) s ∧ Shootdown.tlb_shootdown_pending s = 1
    ∧ rtc Shootdown.step s s' ∧ Shootdown.lock_ s' = None.
Proof.
  set (s := Shootdown.State (Some 0%nat) 1
    [Shootdown.Core Shootdown.Waiting true true Shootdown.NoIpi false;
     Shootdown.Core Shootdown.Idle true true Shootdown.Raised true]).
  assert (rtc Shootdown.step (Shootdown.init [true; true]) s) as Hr.
  { sd_run (Shootdown.want (Shootdown.init [true; true]) 0 _ true).
    sd_run (Shootdown.acquire _ 0). sd_run (Shootdown.edit _ 0).
    do 2 sd_run (Shootdown.count_one _ 0). sd_run (Shootdown.count_end _ 0).
    do 2 sd_run (Shootdown.send _ 0). sd_run (Shootdown.send_end _ 0). apply rtc_refl. }
  destruct (proj2 (shootdown_safe [true; true] s ltac:(done) Hr)) as (s' & Hs' & Hl).
  - intros [|[|]] c Hc; [injection Hc as <-; reflexivity|injection Hc as <-; reflexivity|done].
  - exists s, s'. split; [exact Hr|split; [reflexivity|split; assumption]].
Defined.

(** *** What the protocol does not survive *)

(** The holder waits on a counter that no handler will bring back to zero. *)
Definition lost (s : Shootdown.state) : Prop :=
  Shootdown.lock_ s = Some 0%nat ∧ Shootdown.tlb_shootdown_pending s ≠ 0
  ∧ ∀ d c, Shootdown.cores s !! d = Some c → Shootdown.ipi c = Shootdown.NoIpi ∧
      match d with
      | O => Shootdown.at_ c = Shootdown.Waiting
      | _ => Shootdown.at_ c = Shootdown.Idle ∨ Shootdown.at_ c = Shootdown.Want
      end.

Lemma lost_insert s i c c' :
  lost s → Shootdown.cores s !! i = Some c → Shootdown.ipi c' = Shootdown.ipi c →
  (i = 0%nat → Shootdown.at_ c' = Shootdown.at_ c) →
  (i ≠ 0%nat → Shootdown.at_ c' = Shootdown.Idle ∨ Shootdown.at_ c' = Shootdown.Want) →
  lost (Shootdown.set_core i c' s).
Proof.
  intros (Hl & Hp & H) Hc E H1 H2. split_and!; [done..|]. simpl. intros d x Hx.
  destruct (Lock.insert_cases _ _ _ _ _ _ Hc Hx) as [[-> ->]|[_ Hx']]; [|by apply H].
  destruct (H i c Hc) as [Hi Ha]. split; [congruence|].
  destruct i; [rewrite H1 by done; done|by apply H2].
Qed.

Lemma lost_step s s' : Shootdown.step s s' ∨ Shootdown.boot_step s s' → lost s → lost s'.
Proof.
  intros [[]|[]] Hlost; pose proof Hlost as (Hl & Hp & Hall);
    first [ match goal with Hc : Shootdown.cores _ !! ?i = Some ?c, _ : Shootdown.at_ ?c = _ |- _ =>
              pose proof (Hall _ _ Hc) as [Hi Ha]; destruct i as [|?] end
          | match goal with Hc : Shootdown.cores _ !! ?i = Some ?c |- _ =>
              pose proof (Hall _ _ Hc) as [Hi Ha]; destruct i as [|?] end ];
    try congruence; try (destruct Ha; congruence);
    eapply lost_insert; eauto; intros; simpl; (auto || congruence).
Qed.

Lemma core0_step s s' : Shootdown.step s s' ∨ Shootdown.boot_step s s' →
  is_Some (Shootdown.cores s !! 0%nat) → is_Some (Shootdown.cores s' !! 0%nat).
Proof.
  rewrite !lookup_lt_is_Some. intros [Hs|Hs]; destruct Hs; simpl; rewrite ?length_insert, ?length_fmap; try done.
  destruct (Shootdown.target _ _ _); simpl; by rewrite ?length_insert.
Qed.

(** Two hazards of the shootdown. (a) A core that waits for the vmm lock with
    interrupts disabled, as the heap does when it grows under its interrupt-safe
    lock, never acknowledges: two cores reach a state with no step at all. (b) A
    core that comes up between the counting and the sending loop is sent an
    interrupt that was not counted: the counter wraps below zero and the holder
    of the vmm lock waits forever, whatever the other cores do. *)
Theorem shootdown_hazards :
  (∃ s, rtc Shootdown.step (Shootdown.init [true; true]) s
     ∧ (Shootdown.at_ <$> Shootdown.cores s) = [Shootdown.Waiting; Shootdown.Want]
     ∧ ∀ s', ¬ Shootdown.step s s')
  ∧ (∃ s, rtc (λ a b, Shootdown.step a b ∨ Shootdown.boot_step a b) (Shootdown.init [true; true; false]) s
     ∧ Shootdown.tlb_shootdown_pending s = 2 ^ 32 - 1
     ∧ ∀ s', rtc (λ a b, Shootdown.step a b ∨ Shootdown.boot_step a b) s s' →
         Shootdown.lock_ s' = Some 0%nat ∧ Shootdown.at_ <$> (Shootdown.cores s' !! 0%nat) = Some Shootdown.Waiting).
Proof.
  split.
  - exists (Shootdown.State (Some 0%nat) 1
      [Shootdown.Core Shootdown.Waiting true true Shootdown.NoIpi false;
       Shootdown.Core Shootdown.Want false true Shootdown.Raised true]).
    split_and!; [|done|].
    + sd_run (Shootdown.want (Shootdown.init [true; true]) 0 _ true).
      sd_run (Shootdown.acquire _ 0). sd_run (Shootdown.want _ 1 _ false). sd_run (Shootdown.edit _ 0).
      do 2 sd_run (Shootdown.count_one _ 0). sd_run (Shootdown.count_end _ 0).
      do 2 sd_run (Shootdown.send _ 0). sd_run (Shootdown.send_end _ 0). apply rtc_refl.
    + intros s' Hs. inversion Hs; subst; clear Hs;
        repeat match goal with Hc : Shootdown.cores _ !! ?i = Some _ |- _ =>
          destruct i as [|[|i]]; simpl in Hc; simplify_eq end; simpl in *; congruence.
  - set (s := Shootdown.State (Some 0%nat) (2 ^ 32 - 1)
      [Shootdown.Core Shootdown.Waiting true true Shootdown.NoIpi false;
       Shootdown.Core Shootdown.Idle true true Shootdown.NoIpi false;
       Shootdown.Core Shootdown.Idle true true Shootdown.NoIpi false]).
    exists s. split_and!; [|done|].
    + sd_run_core (Shootdown.want (Shootdown.init [true; true; false]) 0 _ true).
      sd_run_core (Shootdown.acquire _ 0). sd_run_core (Shootdown.edit _ 0).
      do 3 sd_run_core (Shootdown.count_one _ 0). sd_run_core (Shootdown.count_end _ 0).
      eapply rtc_l; [right; by eapply (Shootdown.boot _ 2)|]; cbn.
      do 3 sd_run_core (Shootdown.send _ 0). sd_run_core (Shootdown.send_end _ 0).
      sd_run_core (Shootdown.handle_flush _ 1). sd_run_core (Shootdown.handle_ack _ 1).
      sd_run_core (Shootdown.handle_flush _ 2). sd_run_core (Shootdown.handle_ack _ 2). apply rtc_refl.
    + intros s' Hr. assert (lost s ∧ is_Some (Shootdown.cores s !! 0%nat)) as H.
      { split; [|done]. split_and!; [done..|].
        intros [|[|[|d]]] c Hc; simpl in Hc; simplify_eq; simpl; auto. }
      assert (lost s' ∧ is_Some (Shootdown.cores s' !! 0%nat)) as [(Hl & _ & H') [c Hc]].
      { clearbody s. induction Hr as [|s s1 s2 H1 _ IH]; [done|]. apply IH. destruct H as [H Hs]. split; [by eapply lost_step|].
        by eapply core0_step. }
      split; [done|]. rewrite Hc. simpl. by destruct (H' _ _ Hc) as [_ ->].
Qed.
