(* ===== verification/Strings.v ===== *)
(** The C string library of the kernel, klibcpp/cstring.cpp, and the 64-bit
    division of klibcpp/cstdlib.cpp, on byte-addressed memory.

    A pointer is an address, [NULL] is 0.  Loops that run until a terminator
    take [fuel]; the lemmas give the result for every fuel that exceeds the
    length of the strings, so it bounds nothing but the model.  [char] is
    signed: [schar] is the value of a byte read through a [char *].  [ftoa]
    works in floating point and is not modelled. *)
From S2P Require Import Prelude Memory.

Definition NULL : Z := 0.
Definition schar (b : Z) : Z := if b <? 128 then b else b - 256.

(** ** Length, copy, comparison, search *)

Fixpoint strlen_loop (fuel : nat) (m : ram) (str len : Z) : res Z :=
  match fuel with
  | O => NoFuel
  | S fuel =>
      let c := m (str + len) in
      let len := u32 (len + 1) in
      if c =? 0 then Ok (u32 (len - 1)) else strlen_loop fuel m str len
  end.
Definition strlen (fuel : nat) (m : ram) (str : Z) : res Z := strlen_loop fuel m str 0.

(** [n] iterations of [*dst++ = *src++]. *)
Fixpoint memcpy_loop (n : nat) (m : ram) (dst src : Z) : ram :=
  match n with
  | O => m
  | S n => memcpy_loop n (wr8 m dst (m src)) (dst + 1) (src + 1)
  end.
Definition memcpy (m : ram) (dst src count : Z) : ram := memcpy_loop (Z.to_nat count) m dst src.

Definition strcpy (fuel : nat) (m : ram) (dst src : Z) : res ram :=
  len ← strlen fuel m src;
  let m := memcpy_loop (Z.to_nat len) m dst src in
  Ok (wr8 m (dst + len) 0).

(** The first loop of [strncpy], with the remaining count; the second one pads. *)
Fixpoint strncpy_loop (n : nat) (m : ram) (dst src : Z) : ram :=
  match n with
  | O => m
  | S n' => if m src =? 0 then fill8 m dst 0 n
            else strncpy_loop n' (wr8 m dst (m src)) (dst + 1) (src + 1)
  end.
Definition strncpy (m : ram) (dst src max : Z) : ram := strncpy_loop (Z.to_nat max) m dst src.

Fixpoint strcmp (fuel : nat) (m : ram) (s1 s2 : Z) : res Z :=
  match fuel with
  | O => NoFuel
  | S fuel =>
      if negb (m s1 =? 0) && (m s1 =? m s2) then strcmp fuel m (s1 + 1) (s2 + 1)
      else Ok (m s1 - m s2)
  end.

Fixpoint strncmp_loop (n : nat) (m : ram) (s1 s2 : Z) : Z :=
  match n with
  | O => 0
  | S n =>
      let c1 := m s1 in
      let c2 := m s2 in
      if negb (c1 =? c2) then c1 - c2
      else if c1 =? 0 then 0
      else strncmp_loop n m (s1 + 1) (s2 + 1)
  end.
Definition strncmp (m : ram) (s1 s2 len : Z) : Z := strncmp_loop (Z.to_nat len) m s1 s2.

Fixpoint strrchr_loop (fuel : nat) (m : ram) (str target last_occurrence : Z) : res Z :=
  match fuel with
  | O => NoFuel
  | S fuel =>
      if negb (m str =? 0) then
        strrchr_loop fuel m (str + 1) target (if m str =? target then str else last_occurrence)
      else if target =? 0 then Ok str else Ok last_occurrence
  end.
Definition strrchr (fuel : nat) (m : ram) (str ch : Z) : res Z := strrchr_loop fuel m str (u8 ch) NULL.

Fixpoint strchr (fuel : nat) (m : ram) (str ch : Z) : res Z :=
  match fuel with
  | O => NoFuel
  | S fuel =>
      if negb (m str =? 0) then
        if m str =? u8 ch then Ok str else strchr fuel m (str + 1) ch
      else if u8 ch =? 0 then Ok str else Ok NULL
  end.

(** ** strtok: the result, the static [last] and the memory afterwards *)

(** Advance while the characters are ([skip_to = true]) or are not delimiters. *)
Fixpoint span (fuel : nat) (m : ram) (delim p : Z) (skip_to : bool) : res Z :=
  match fuel with
  | O => NoFuel
  | S fuel' =>
      if m p =? 0 then Ok p
      else
        r ← strchr fuel m delim (m p);
        if Bool.eqb (negb (r =? NULL)) skip_to then span fuel' m delim (p + 1) skip_to else Ok p
  end.

Definition strtok (fuel : nat) (last : Z) (m : ram) (str delim : Z) : res (Z * Z * ram) :=
  let last := if negb (str =? NULL) then str else last in
  if last =? NULL then Ok (NULL, last, m)
  else
    token ← span fuel m delim last true;
    if m token =? 0 then Ok (NULL, NULL, m)
    else
      end_ ← span fuel m delim token false;
      if negb (m end_ =? 0) then Ok (token, end_ + 1, wr8 m end_ 0)
      else Ok (token, NULL, m).

(** ** Numbers *)

(** [while (ptr1 < ptr)]: swap the ends. *)
Fixpoint swap_loop (fuel : nat) (m : ram) (ptr1 ptr : Z) : res ram :=
  match fuel with
  | O => NoFuel
  | S fuel =>
      if ptr1 <? ptr then
        let tmp_char := m ptr in
        swap_loop fuel (wr8 (wr8 m ptr (m ptr1)) ptr1 tmp_char) (ptr1 + 1) (ptr - 1)
      else Ok m
  end.

Definition digit (d : Z) : Z :=
  default 0 (map Z.of_nat (seq 48 10 ++ seq 97 26) !! Z.to_nat d).

(** The [do .. while (value)] loop of [_uvtoa]: the memory and the end pointer. *)
Fixpoint uvtoa_digits (fuel : nat) (m : ram) (ptr base value : Z) : res (ram * Z) :=
  match fuel with
  | O => NoFuel
  | S fuel =>
      let tmp_value := value in
      let value := value / base in
      let m := wr8 m ptr (digit (u32 (tmp_value - u32 (value * base)))) in
      let ptr := ptr + 1 in
      if negb (value =? 0) then uvtoa_digits fuel m ptr base value else Ok (m, ptr)
  end.

(** At most 32 digits, and half as many swaps. *)
Definition _uvtoa (m : ram) (result base value : Z) : res ram :=
  if (base <? 2) || (36 <? base) then Ok (wr8 m result 0)
  else
    '(m, ptr) ← uvtoa_digits 33 m result base value;
    let m := wr8 m ptr 0 in
    swap_loop 33 m result (ptr - 1).

(** The [int32_t] a 32-bit pattern denotes. *)
Definition s32 (z : Z) : Z := let u := u32 z in if u <? 2 ^ 31 then u else u - 2 ^ 32.

(** The table of [_vtoa], "zyx..a9..0123..9ab..z": digits counted from its
    middle in both directions. *)
Definition vtoa_digit (i : Z) : Z := if i <? 35 then digit (35 - i) else digit (i - 35).

(** [_vtoa] divides an [int32_t] by a [uint32_t]: the dividend is converted to
    unsigned first. Returns the memory, the end pointer and the last [tmp_value]. *)
Fixpoint vtoa_digits (fuel : nat) (m : ram) (ptr base value : Z) : res (ram * Z * Z) :=
  match fuel with
  | O => NoFuel
  | S fuel =>
      let tmp_value := value in
      let value := s32 (u32 value / base) in
      let m := wr8 m ptr (vtoa_digit (u32 (35 + u32 (u32 tmp_value - u32 (u32 value * base))))) in
      let ptr := ptr + 1 in
      if negb (value =? 0) then vtoa_digits fuel m ptr base value else Ok (m, ptr, tmp_value)
  end.

Definition _vtoa (m : ram) (result base value : Z) : res ram :=
  if (base <? 2) || (36 <? base) then Ok (wr8 m result 0)
  else
    '(m, ptr, tmp_value) ← vtoa_digits 33 m result base value;
    let '(m, ptr) := if tmp_value <? 0 then (wr8 m ptr 45, ptr + 1) else (m, ptr) in
    let m := wr8 m ptr 0 in
    swap_loop 33 m result (ptr - 1).

Definition itoa (m : ram) (n str : Z) : res ram := _vtoa m str 10 n.
Definition utoa (m : ram) (n str : Z) : res ram := _uvtoa m str 10 n.
Definition htoa (m : ram) (n str : Z) : res ram := _uvtoa m str 16 n.

Fixpoint atou_loop (fuel : nat) (m : ram) (str result : Z) : res Z :=
  match fuel with
  | O => NoFuel
  | S fuel =>
      if m str =? 0 then Ok result
      else
        let result := u32 (result * 10) in
        let result := u32 (result + (schar (m str) - 48)) in
        atou_loop fuel m (str + 1) result
  end.
Definition atou (fuel : nat) (m : ram) (str : Z) : res Z := atou_loop fuel m str 0.

(** ** reverse, strcat, word copies *)

Fixpoint reverse_loop (fuel : nat) (m : ram) (str start_index end_index : Z) : res ram :=
  match fuel with
  | O => NoFuel
  | S fuel =>
      if start_index <? end_index then
        let temp_buffer := m (str + start_index) in
        let m := wr8 m (str + start_index) (m (str + end_index)) in
        let m := wr8 m (str + end_index) temp_buffer in
        reverse_loop fuel m str (u32 (start_index + 1)) (u32 (end_index - 1))
      else Ok m
  end.
Definition reverse (fuel : nat) (m : ram) (str : Z) : res ram :=
  len ← strlen fuel m str;
  end_index ← (if 0 <? len then len ← strlen fuel m str; Ok (u32 (len - 1)) else Ok 0);
  reverse_loop fuel m str 0 end_index.

Fixpoint strcat_loop (fuel : nat) (m : ram) (end_ src : Z) : res ram :=
  match fuel with
  | O => NoFuel
  | S fuel =>
      if negb (m src =? 0) then strcat_loop fuel (wr8 m end_ (m src)) (end_ + 1) (src + 1)
      else Ok (wr8 m end_ 0)
  end.
Definition strcat (fuel : nat) (m : ram) (dst src : Z) : res ram :=
  len ← strlen fuel m dst;
  strcat_loop fuel m (dst + len) src.

Fixpoint memcpy32_loop (n : nat) (m : ram) (dst src : Z) : ram :=
  match n with
  | O => m
  | S n => memcpy32_loop n (wr32 m dst (rd32 m src)) (dst + 4) (src + 4)
  end.
Definition memcpy32 (m : ram) (dst src count : Z) : ram := memcpy32_loop (Z.to_nat count) m dst src.

Definition memset (m : ram) (dst data count : Z) : ram := fill8 m dst data (Z.to_nat count).

Fixpoint memset32_loop (n : nat) (m : ram) (dst data : Z) : ram :=
  match n with
  | O => m
  | S n => memset32_loop n (wr32 m dst data) (dst + 4) data
  end.
Definition memset32 (m : ram) (dst data count : Z) : ram := memset32_loop (Z.to_nat count) m dst data.

(** ** 64-bit division *)

(** [for (i = n - 1; i >= 0; --i)]: quotient and remainder. *)
Fixpoint udivmod_loop (n : nat) (a b quotient rem : Z) : Z * Z :=
  match n with
  | O => (quotient, rem)
  | S i =>
      let rem := Z.lor (u64 (Z.shiftl rem 1)) (Z.land (Z.shiftr a (Z.of_nat i)) 1) in
      if b <=? rem then udivmod_loop i a b (Z.lor quotient (u64 (Z.shiftl 1 (Z.of_nat i)))) (u64 (rem - b))
      else udivmod_loop i a b quotient rem
  end.
Definition udivmod_64 (a b : Z) : res (Z * Z) :=
  if b =? 0 then Panic "Division by zero in udivmod_64" else Ok (udivmod_loop 64 a b 0 0).
Definition __udivdi3 (a b : Z) : res Z := '(q, _) ← udivmod_64 a b; Ok q.
Definition __umoddi3 (a b : Z) : res Z := '(_, r) ← udivmod_64 a b; Ok r.

(** ** Strings in memory *)

(** [s] is the string at [a]: its bytes, none of them 0, and the terminator. *)
Fixpoint cstr (m : ram) (a : Z) (s : list Z) : Prop :=
  match s with
  | [] => m a = 0
  | c :: s => m a = c ∧ c ≠ 0 ∧ cstr m (a + 1) s
  end.

(** The bytes of a string literal. *)
Definition bytes_of (s : string) : list Z := (λ c, Z.of_nat (Ascii.nat_of_ascii c)) <$> String.list_ascii_of_string s.

(** The bytes [l] at [a]. *)
Definition seg (m : ram) (a : Z) (l : list Z) : Prop :=
  ∀ i c, l !! i = Some c → m (a + Z.of_nat i) = c.

(** Memory unchanged outside [n] bytes from [a]. *)
Definition only (m m' : ram) (a n : Z) : Prop := ∀ b, b < a ∨ a + n ≤ b → m' b = m b.

Abbreviation len l := (Z.of_nat (length l)).

Lemma cstr_seg s : ∀ m a, cstr m a s ↔ seg m a s ∧ Forall (λ c, c ≠ 0) s ∧ m (a + len s) = 0.
Proof.
  induction s as [|c s IH]; intros m a; simpl.
  - rewrite Z.add_0_r. split; [|by intros (_ & _ & ?)]. intros H. split_and!; [|constructor|done].
    intros i x Hx. by rewrite lookup_nil in Hx.
  - rewrite IH, Forall_cons. replace (a + 1 + len s) with (a + Z.of_nat (S (length s))) by lia. split.
    + intros (Hc & Hn & Hs & Hf & H0). split_and!; [|done..]. intros [|i] x Hx; simpl in Hx.
      * injection Hx as <-. by rewrite Z.add_0_r.
      * replace (a + Z.of_nat (S i)) with (a + 1 + Z.of_nat i) by lia. by apply Hs.
    + intros (Hs & [Hn Hf] & H0). split_and!; try done.
      * specialize (Hs 0%nat c eq_refl). by rewrite Z.add_0_r in Hs.
      * intros i x Hx. replace (a + 1 + Z.of_nat i) with (a + Z.of_nat (S i)) by lia. by apply Hs.
Qed.

Lemma seg_ext m m' a l : (∀ b, a ≤ b < a + len l → m' b = m b) → seg m a l → seg m' a l.
Proof.
  intros H Hs i c Hc. pose proof (lookup_lt_Some _ _ _ Hc). rewrite H by lia. by apply Hs.
Qed.

Lemma cstr_ext m m' a s : (∀ b, a ≤ b ≤ a + len s → m' b = m b) → cstr m a s → cstr m' a s.
Proof.
  intros H. rewrite !cstr_seg. intros (Hs & Hf & H0). split_and!; [|done|rewrite H by lia; done].
  eapply seg_ext; [|done]. intros b Hb. apply H. lia.
Qed.

Lemma seg_app m a l1 l2 : seg m a (l1 ++ l2) ↔ seg m a l1 ∧ seg m (a + len l1) l2.
Proof.
  split.
  - intros H. split; intros i c Hc.
    + apply H. by apply lookup_app_l_Some.
    + replace (a + len l1 + Z.of_nat i) with (a + Z.of_nat (length l1 + i)) by lia. apply H.
      rewrite lookup_app_r by lia. by replace (length l1 + i - length l1)%nat with i by lia.
  - intros [H1 H2] i c [Hc|[Hl Hc]]%lookup_app_Some; [by apply H1|].
    specialize (H2 _ _ Hc). by replace (a + Z.of_nat i) with (a + len l1 + Z.of_nat (i - length l1)) by lia.
Qed.

Lemma seg_one m a c : seg m a [c] ↔ m a = c.
Proof.
  split; [intros H; specialize (H 0%nat c eq_refl); by rewrite Z.add_0_r in H|].
  intros H [|[|i]] x Hx; simpl in Hx; [|done..]. injection Hx as <-. by rewrite Z.add_0_r.
Qed.

Lemma cstr_app s1 : ∀ m a s2, cstr m a (s1 ++ s2) ↔ seg m a s1 ∧ Forall (λ c, c ≠ 0) s1 ∧ cstr m (a + len s1) s2.
Proof.
  intros m a s2. rewrite !cstr_seg, seg_app, Forall_app, length_app.
  replace (a + len s1 + len s2) with (a + Z.of_nat (length s1 + length s2)) by lia. tauto.
Qed.

Lemma strlen_ok s : ∀ fuel m a n, cstr m (a + n) s → 0 ≤ n → n + len s < 2 ^ 32 - 1 →
  (length s < fuel)%nat → strlen_loop fuel m a n = Ok (n + len s).
Proof.
  induction s as [|c s IH]; intros [|fuel] m a n Hs Hn Hb Hf; simpl in *; try lia.
  - rewrite Hs. simpl. rewrite (u32_small (n + 1)), u32_small by lia. f_equal. lia.
  - destruct Hs as (Hc & Hz & Hs). rewrite Hc, (proj2 (Z.eqb_neq c 0) Hz).
    rewrite u32_small by lia. rewrite IH; [f_equal; lia| |lia..].
    by replace (a + (n + 1)) with (a + n + 1) by lia.
Qed.

(** ** Comparison *)

Fixpoint lex (s1 s2 : list Z) : comparison :=
  match s1, s2 with
  | [], [] => Eq
  | [], _ => Lt
  | _, [] => Gt
  | c1 :: s1, c2 :: s2 => if c1 =? c2 then lex s1 s2 else c1 ?= c2
  end.

Lemma strcmp_ok s1 : ∀ s2 fuel m a b, bytes_ok m → cstr m a s1 → cstr m b s2 → (length s1 < fuel)%nat →
  ∃ r, strcmp fuel m a b = Ok r ∧ (r ?= 0) = lex s1 s2.
Proof.
  induction s1 as [|c1 s1 IH]; intros s2 [|fuel] m a b Hm H1 H2 Hf; simpl in *; try lia.
  - rewrite H1. simpl. eexists. split; [done|]. destruct s2 as [|c2 s2]; simpl in H2.
    + by rewrite H2.
    + destruct H2 as (<- & Hn & _). pose proof (Hm b). apply Z.compare_lt_iff. lia.
  - destruct H1 as (<- & Hn1 & H1). rewrite (proj2 (Z.eqb_neq _ _) Hn1). simpl.
    destruct s2 as [|c2 s2]; simpl in H2.
    + rewrite H2, (proj2 (Z.eqb_neq _ _) Hn1). eexists. split; [done|].
      pose proof (Hm a). apply Z.compare_gt_iff. lia.
    + destruct H2 as (<- & Hn2 & H2). destruct (m a =? m b) eqn:E; [apply IH; auto with lia|].
      eexists. split; [done|]. destruct (Z.compare_spec (m a) (m b)).
      * apply Z.eqb_neq in E. lia.
      * apply Z.compare_lt_iff. lia.
      * apply Z.compare_gt_iff. lia.
Qed.

Lemma lex_eq s1 : ∀ s2, lex s1 s2 = Eq ↔ s1 = s2.
Proof.
  induction s1 as [|c1 s1 IH]; intros [|c2 s2]; simpl; try done.
  destruct (Z.eqb_spec c1 c2) as [->|Hn]; [rewrite IH; split; congruence|].
  rewrite Z.compare_eq_iff. split; congruence.
Qed.

(** ** Numbers *)

Lemma swap_ok n : ∀ l fuel m a, length l = n → (n < 2 * fuel)%nat → Forall (λ c, 0 ≤ c < 256) l → seg m a l →
  ∃ m', swap_loop fuel m a (a + len l - 1) = Ok m' ∧ seg m' a (rev l) ∧ only m m' a (len l).
Proof.
  induction n as [n IH] using lt_wf_ind. intros l [|fuel] m a Hl Hf Hb Hs; [lia|].
  cbn [swap_loop]. destruct l as [|x l].
  { rewrite (proj2 (Z.ltb_ge _ _)) by (simpl; lia). exists m. split_and!; [done..|]. by intros b _. }
  destruct l as [|y l _] using rev_ind.
  { rewrite (proj2 (Z.ltb_ge _ _)) by (simpl; lia). exists m. split_and!; [done..|]. by intros b _. }
  rewrite app_comm_cons, length_app in *. simpl length in *.
  apply Forall_cons in Hb as [Hx [Hb Hy]%Forall_app]. apply Forall_cons in Hy as [Hy _].
  change ((x :: l) ++ [y]) with ([x] ++ (l ++ [y])) in Hs. apply seg_app in Hs as [Hsx [Hsl Hsy]%seg_app].
  rewrite seg_one in Hsx, Hsy. change (len [x]) with 1 in *. set (e := a + 1 + len l) in *.
  replace (a + Z.of_nat (S (length l) + 1) - 1) with e by lia.
  rewrite (proj2 (Z.ltb_lt a e)) by lia. rewrite Hsx, Hsy.
  set (m1 := wr8 (wr8 m e x) a y).
  destruct (IH (length l) ltac:(lia) l fuel m1 (a + 1)) as (m' & Hr & Hseg & Hfr); [done|lia|done| |].
  { eapply seg_ext; [|done]. intros b Hb'. unfold m1. rewrite !wr8_other by lia. done. }
  replace (a + 1 + len l - 1) with (e - 1) in Hr by lia. rewrite Hr. exists m'. split; [done|].
  assert (m' a = y) as Ha by (rewrite Hfr by lia; unfold m1; rewrite wr8_same; apply wrap_small; simpl; lia).
  assert (m' e = x) as He.
  { rewrite Hfr by lia. unfold m1. rewrite wr8_other, wr8_same by lia. apply wrap_small; simpl; lia. }
  split.
  - rewrite rev_app_distr. simpl rev. simpl app. change (y :: rev l ++ [x]) with ([y] ++ (rev l ++ [x])).
    rewrite !seg_app, !seg_one. simpl. rewrite length_rev. by fold e.
  - intros b Hb'. rewrite Hfr by (simpl in *; lia). unfold m1. rewrite !wr8_other by (simpl in *; lia). done.
Qed.

Definition digits (base : Z) (ds : list Z) : Prop := Forall (λ d, 0 ≤ d < base) ds.

Lemma digit_value d : 0 ≤ d < 36 → digit d = if d <? 10 then 48 + d else 87 + d.
Proof.
  intros Hd. assert (d ∈ seqZ 0 36) as H by (by apply elem_of_seqZ).
  clear Hd. revert d H. apply Forall_forall. vm_compute. repeat constructor.
Qed.

Lemma digit_range d : 0 ≤ d < 36 → 0 < digit d < 256.
Proof. intros H. rewrite digit_value by done. destruct (d <? 10) eqn:E; lia. Qed.

(** The value of digits, least significant first. *)
Definition value_le (base : Z) (ds : list Z) : Z := foldr (λ d acc, d + base * acc) 0 ds.

Lemma uvtoa_digits_ok base n : 2 ≤ base ≤ 36 → ∀ m ptr v, 0 ≤ v < 2 ^ 32 → v < 2 ^ Z.of_nat n →
  ∃ m' ds, uvtoa_digits (S n) m ptr base v = Ok (m', ptr + len ds)
    ∧ seg m' ptr (digit <$> ds) ∧ only m m' ptr (len ds) ∧ digits base ds ∧ value_le base ds = v
    ∧ (ds = [0] ∨ last ds ≠ Some 0) ∧ (1 ≤ length ds ≤ Nat.max 1 n)%nat.
Proof.
  intros Hb. induction n as [|n IH]; intros m ptr v Hv Hn.
  - assert (v = 0) as -> by lia. simpl. rewrite Z.div_0_l by lia. simpl.
    eexists _, [0]. split_and!; [done| | |apply Forall_cons_2; [lia|apply Forall_nil_2]|simpl; lia|by left|simpl; lia..].
    + simpl. apply seg_one. by rewrite wr8_same.
    + intros b Hb'. apply wr8_other. simpl in *. lia.
  - remember (S n) as k. simpl. pose proof (Z.mod_pos_bound v base ltac:(lia)) as Hmod.
    pose proof (Z.div_mod v base ltac:(lia)) as Hdm.
    assert (0 ≤ v / base) as Hq0 by (apply Z.div_pos; lia).
    assert (v / base ≤ v / 2) as Hq2 by (apply Z.div_le_compat_l; lia).
    assert (v / 2 < 2 ^ Z.of_nat n) as Hq3.
    { apply Z.div_lt_upper_bound; [lia|]. subst k. rewrite Nat2Z.inj_succ, Z.pow_succ_r in Hn by lia. lia. }
    assert (v / base < 2 ^ 32) as Hq4 by (assert (v / 2 ≤ v) by (apply Z.div_le_upper_bound; lia); lia).
    assert (u32 (v - u32 (v / base * base)) = v mod base) as ->.
    { rewrite wrap_sub_r. rewrite u32_small by lia. lia. }
    set (m1 := wr8 m ptr (digit (v mod base))).
    assert (m1 ptr = digit (v mod base)) as Hm1.
    { unfold m1. rewrite wr8_same. apply wrap_small. pose proof (digit_range (v mod base) ltac:(lia)). lia. }
    destruct (v / base =? 0) eqn:E; simpl.
    + apply Z.eqb_eq in E. rewrite E in Hdm.
      assert (v mod base = v) as Hvm by lia. rewrite Hvm in *.
      exists m1, [v]. split_and!; [done| | |apply Forall_cons_2; [lia|apply Forall_nil_2]|simpl; lia| |simpl; lia..].
      * simpl. by apply seg_one.
      * intros b Hb'. apply wr8_other. simpl in *. lia.
      * destruct (decide (v = 0)) as [->|]; [by left|right]. simpl. congruence.
    + apply Z.eqb_neq in E. subst k.
      destruct (IH m1 (ptr + 1) (v / base)) as (m' & ds & Hr & Hseg & Hfr & Hd & Hval & Hlast & Hlen); [lia..|].
      rewrite Hr. exists m', (v mod base :: ds). split_and!.
      * f_equal. f_equal. simpl. lia.
      * rewrite fmap_cons. apply (seg_app _ _ [_]). rewrite seg_one. split; [|done]. rewrite Hfr by lia. done.
      * intros b Hb'. simpl in Hb'. rewrite Hfr by lia. apply wr8_other. lia.
      * by constructor.
      * simpl. fold (value_le base ds). rewrite Hval. lia.
      * right. destruct ds as [|d0 ds']; [simpl in Hlen; lia|]. destruct Hlast as [Hl0|Hl0].
        -- rewrite Hl0 in Hval. unfold value_le in Hval. simpl in Hval. lia.
        -- by rewrite last_cons_cons.
      * simpl. lia.
      * assert (n ≠ 0%nat) by (intros ->; simpl in Hq3; lia). simpl. lia.
Qed.

(** The number a string of digits denotes, most significant first. *)
Definition value_be (base : Z) (ds : list Z) : Z := foldl (λ acc d, acc * base + d) 0 ds.

Lemma value_rev base ds : value_be base (rev ds) = value_le base ds.
Proof.
  induction ds as [|d ds IH]; [done|]. simpl. unfold value_be in *. rewrite foldl_snoc, IH.
  unfold value_le. simpl. lia.
Qed.

Lemma head_rev {A} (l : list A) : head (rev l) = last l.
Proof.
  induction l as [|x l _] using rev_ind; [done|]. rewrite rev_app_distr, last_snoc. done.
Qed.

Lemma fmap_rev {A B} (f : A → B) l : f <$> rev l = rev (f <$> l).
Proof. induction l as [|x l IH]; [done|]. simpl. rewrite fmap_app. by f_equal. Qed.

(** What a rendered number looks like. *)
Record rendered (base v : Z) (m m' : ram) (result : Z) (ds : list Z) : Prop := {
  ren_str : cstr m' result (digit <$> ds);
  ren_digits : digits base ds;
  ren_value : value_be base ds = v;
  ren_canonical : ds = [0] ∨ head ds ≠ Some 0;
  ren_length : (1 ≤ length ds ≤ 32)%nat;
  ren_frame : only m m' result (len ds + 1)
}.

(** Reversing the digits and closing the string. *)
Lemma finish_digits base v m m1 result ds :
  2 ≤ base ≤ 36 → seg m1 result (digit <$> ds) → only m m1 result (len ds) → digits base ds →
  value_le base ds = v → (ds = [0] ∨ last ds ≠ Some 0) → (1 ≤ length ds ≤ 32)%nat →
  ∃ m', swap_loop 33 (wr8 m1 (result + len ds) 0) result (result + len ds - 1) = Ok m'
    ∧ rendered base v m m' result (rev ds).
Proof.
  intros Hb Hseg Hfr Hd Hv Hl Hn.
  assert (length (digit <$> ds) = length ds) as Hlen by (by rewrite length_fmap).
  assert (Forall (λ c, 0 < c < 256) (digit <$> ds)) as Hdr.
  { apply Forall_fmap. eapply Forall_impl; [exact Hd|]. intros d Hd'. apply digit_range. simpl in Hd'. lia. }
  destruct (swap_ok (length ds) (digit <$> ds) 33 (wr8 m1 (result + len ds) 0) result) as (m' & Hr & Hs & Hf).
  { done. } { lia. } { eapply Forall_impl; [exact Hdr|]. simpl. lia. }
  { eapply seg_ext; [|exact Hseg]. intros b Hb'. apply wr8_other. lia. }
  rewrite Hlen in Hr, Hf. exists m'. split; [done|]. split.
  - apply cstr_seg. rewrite fmap_rev, length_rev, Hlen. split_and!; [done| |].
    + apply Forall_rev. eapply Forall_impl; [exact Hdr|]. simpl. lia.
    + rewrite Hf by lia. by rewrite wr8_same.
  - by apply Forall_rev.
  - by rewrite value_rev.
  - rewrite head_rev. destruct Hl as [->|]; [by left|by right].
  - by rewrite length_rev.
  - rewrite length_rev. intros b Hb'. rewrite Hf by lia. rewrite wr8_other by lia. apply Hfr. lia.
Qed.

Lemma uvtoa_ok m result base v : 2 ≤ base ≤ 36 → 0 ≤ v < 2 ^ 32 →
  ∃ m' ds, _uvtoa m result base v = Ok m' ∧ rendered base v m m' result ds.
Proof.
  intros Hb Hv. unfold _uvtoa. rewrite (proj2 (Z.ltb_ge base 2)), (proj2 (Z.ltb_ge 36 base)) by lia.
  destruct (uvtoa_digits_ok base 32 Hb m result v Hv) as (m1 & ds & Hr & Hseg & Hfr & Hd & Hval & Hl & Hn); [lia|].
  rewrite Hr. cbn [mbind res_bind orb].
  destruct (finish_digits base v m m1 result ds) as (m' & Hm' & Hren); [done..|lia|]. eauto.
Qed.

(** [atou] reads back what was written in base 10. *)
Lemma atou_loop_ok ds : ∀ fuel m a acc, digits 10 ds → cstr m a (digit <$> ds) → (length ds < fuel)%nat →
  atou_loop fuel m a (u32 acc) = Ok (u32 (foldl (λ acc d, acc * 10 + d) acc ds)).
Proof.
  induction ds as [|d ds IH]; intros [|fuel] m a acc Hd Hs Hf; cbn [length] in Hf; try lia.
  - simpl in Hs. cbn [atou_loop]. by rewrite Hs.
  - apply Forall_cons in Hd as [Hd Hds]. rewrite fmap_cons in Hs. destruct Hs as (Hc & Hn & Hs).
    cbn [atou_loop foldl]. rewrite Hc, (proj2 (Z.eqb_neq _ _) Hn).
    rewrite digit_value by lia. rewrite (proj2 (Z.ltb_lt d 10)) by lia. unfold schar.
    rewrite (proj2 (Z.ltb_lt _ 128)) by lia. replace (48 + d - 48) with d by lia.
    rewrite wrap_mul_l, wrap_add_l. apply IH; [done..|lia].
Qed.

Lemma vtoa_digit_eq d : 0 ≤ d < 36 → vtoa_digit (u32 (35 + d)) = digit d.
Proof.
  intros Hd. rewrite u32_small by lia. unfold vtoa_digit. rewrite (proj2 (Z.ltb_ge _ _)) by lia.
  f_equal. lia.
Qed.

Lemma s32_small v : 0 ≤ v < 2 ^ 31 → s32 v = v.
Proof.
  intros Hv. unfold s32. rewrite u32_small by lia. by rewrite (proj2 (Z.ltb_lt _ _)) by lia.
Qed.

(** The digits of [_vtoa] are those of [_uvtoa] of the converted value, and the
    last [tmp_value] is never negative. *)
Lemma vtoa_digits_eq base n : 2 ≤ base ≤ 36 → ∀ m ptr v m' p, - 2 ^ 31 ≤ v < 2 ^ 31 →
  uvtoa_digits n m ptr base (u32 v) = Ok (m', p) → ∃ t, vtoa_digits n m ptr base v = Ok (m', p, t) ∧ 0 ≤ t.
Proof.
  intros Hb. induction n as [|n IH]; intros m ptr v m' p Hv H; [done|].
  cbn [uvtoa_digits vtoa_digits] in *. pose proof (u32_range v) as Hu.
  assert (0 ≤ u32 v / base) as Hq0 by (apply Z.div_pos; lia).
  assert (u32 v / base < 2 ^ 31) as Hq.
  { apply Z.div_lt_upper_bound; nia. }
  rewrite s32_small by lia. rewrite (u32_small (u32 v / base)) by lia.
  assert (0 ≤ u32 (u32 v - u32 (u32 v / base * base)) < 36) as Hd.
  { pose proof (Z.mod_pos_bound (u32 v) base ltac:(lia)). pose proof (Z.div_mod (u32 v) base ltac:(lia)).
    rewrite wrap_sub_r. rewrite u32_small; lia. }
  rewrite vtoa_digit_eq by done. destruct (u32 v / base =? 0) eqn:E; simpl in *.
  - injection H as <- <-. exists v. split; [done|]. apply Z.eqb_eq in E.
    destruct (decide (0 ≤ v)); [done|exfalso]. assert (u32 v = v + 2 ^ 32) as Eu.
    { unfold wrap. symmetry. apply (Z.mod_unique _ _ (-1)); lia. }
    assert (u32 v < base) by (apply Z.div_small_iff in E; lia). lia.
  - apply IH; [lia|]. by rewrite (u32_small (u32 v / base)) by lia.
Qed.

Lemma vtoa_eq m result base v : 2 ≤ base ≤ 36 → - 2 ^ 31 ≤ v < 2 ^ 31 →
  _vtoa m result base v = _uvtoa m result base (u32 v).
Proof.
  intros Hb Hv. unfold _vtoa, _uvtoa. rewrite (proj2 (Z.ltb_ge base 2)), (proj2 (Z.ltb_ge 36 base)) by lia.
  destruct (uvtoa_digits_ok base 32 Hb m result (u32 v) (u32_range v)) as (m1 & ds & Hr & _);
    [pose proof (u32_range v); lia|].
  destruct (vtoa_digits_eq base 33 Hb m result v _ _ Hv Hr) as (t & Ht & Ht0).
  cbn [orb]. rewrite Hr, Ht. cbn [mbind res_bind]. by rewrite (proj2 (Z.ltb_ge t 0)) by lia.
Qed.

(** C36: numbers are rendered exactly, except that the signed conversion has no
    sign. In every base from 2 to 36 the digits written are the canonical
    numeral of the value, terminated, with nothing else in memory changed;
    [atou] reads a decimal one back. The signed [_vtoa] of an [int32_t] is the
    unsigned rendering of the value converted to 32 bits: no minus sign is ever
    written. *)
Theorem number_rendering m result base v :
  2 ≤ base ≤ 36 → 0 ≤ v < 2 ^ 32 →
  ∃ m' ds, _uvtoa m result base v = Ok m' ∧ rendered base v m m' result ds
    ∧ (base = 10 → ∀ fuel, (length ds < fuel)%nat → atou fuel m' result = Ok v)
    ∧ (∀ n, - 2 ^ 31 ≤ n < 2 ^ 31 → u32 n = v → _vtoa m result base n = Ok m').
Proof.
  intros Hb Hv. destruct (uvtoa_ok m result base v Hb Hv) as (m' & ds & Hr & Hren).
  exists m', ds. split_and!; [done..| |].
  - intros -> fuel Hf. unfold atou. change 0 with (u32 0). destruct Hren as [Hs Hd Hval _ _ _].
    rewrite (atou_loop_ok ds) by done. unfold value_be in Hval. rewrite Hval. by rewrite u32_small by lia.
  - intros n Hn <-. by rewrite vtoa_eq.
Qed.

(** [itoa(-1)] writes the numeral of 2^32 - 1. *)
Lemma number_rendering_witness :
  ∃ m' ds, itoa (λ _, 0) (-1) 100 = Ok m' ∧ cstr m' 100 (digit <$> ds) ∧ value_be 10 ds = 4294967295
    ∧ atou 33 m' 100 = Ok 4294967295.
Proof.
  destruct (number_rendering (λ _, 0) 100 10 4294967295) as (m' & ds & Hu & Hren & Ha & Hi); [lia|lia|].
  exists m', ds. split; [apply (Hi (-1)); [lia|reflexivity]|]. split; [apply Hren|]. split; [apply Hren|].
  apply Ha; [reflexivity|]. pose proof (ren_length _ _ _ _ _ _ Hren). lia.
Defined.

(** ** Division *)

Lemma udivmod_loop_ok n : ∀ a b, 0 ≤ a < 2 ^ 64 → 1 ≤ b → (n ≤ 64)%nat →
  udivmod_loop n a b (2 ^ Z.of_nat n * (a / 2 ^ Z.of_nat n / b)) ((a / 2 ^ Z.of_nat n) mod b) = (a / b, a mod b).
Proof.
  induction n as [|n IH]; intros a b Ha Hb Hn.
  { simpl udivmod_loop. rewrite Z.pow_0_r, Z.div_1_r, Z.mul_1_l. done. }
  cbn [udivmod_loop]. rewrite Nat2Z.inj_succ, Z.pow_succ_r by lia. set (k := Z.of_nat n) in *.
  assert (0 < 2 ^ k) as Hk by (apply Z.pow_pos_nonneg; lia).
  rewrite (Z.mul_comm 2 (2 ^ k)), <- (Z.div_div a (2 ^ k) 2) by lia.
  rewrite Z.shiftr_div_pow2 by lia. set (h := a / 2 ^ k).
  assert (0 ≤ h < 2 ^ 64) as Hh.
  { split; [apply Z.div_pos; lia|]. apply Z.div_lt_upper_bound; nia. }
  pose proof (Z.div_mod h 2 ltac:(lia)) as Hdm. pose proof (Z.mod_pos_bound h 2 ltac:(lia)) as Hm2.
  set (g := h / 2) in *. set (t := h mod 2) in *.
  pose proof (Z.div_mod g b ltac:(lia)) as Hg. pose proof (Z.mod_pos_bound g b ltac:(lia)) as Hgm.
  assert (0 ≤ g < 2 ^ 63) as Hg2 by lia.
  assert (0 ≤ g / b) as Hgb by (apply Z.div_pos; lia). assert (g mod b ≤ g) as Hge by (apply Z.mod_le; lia).
  assert (Z.land h 1 = t) as -> by (apply (land_mask h 1); lia).
  rewrite Z.shiftl_mul_pow2 by lia. rewrite wrap_small by lia.
  replace (g mod b * 2 ^ 1) with (2 ^ 1 * (g mod b)) by lia. rewrite lor_low by lia.
  assert (2 ^ 1 * (g mod b) + t = h - b * (2 * (g / b))) as Hrem by lia. rewrite Hrem.
  destruct (b <=? h - b * (2 * (g / b))) eqn:E.
  - apply Z.leb_le in E.
    assert (h / b = 2 * (g / b) + 1) as Hq by (symmetry; apply (Z.div_unique _ _ _ (h - b * (2 * (g / b) + 1))); lia).
    assert (h mod b = h - b * (2 * (g / b) + 1)) as Hr by (symmetry; apply (Z.mod_unique _ _ (2 * (g / b) + 1)); lia).
    rewrite <- (IH a b Ha Hb ltac:(lia)). fold k. fold h. rewrite Hq, Hr. f_equal.
    + assert (2 ^ k < 2 ^ 64) by (apply Z.pow_lt_mono_r; lia).
      rewrite Z.shiftl_1_l, wrap_small by lia.
      replace (2 ^ k * 2 * (g / b)) with (2 ^ (k + 1) * (g / b)) by (rewrite Z.pow_add_r by lia; lia).
      rewrite lor_low; [rewrite Z.pow_add_r by lia; lia|lia|]. rewrite Z.pow_add_r by lia. lia.
    + rewrite wrap_small; lia.
  - apply Z.leb_gt in E.
    assert (h / b = 2 * (g / b)) as Hq by (symmetry; apply (Z.div_unique _ _ _ (h - b * (2 * (g / b)))); lia).
    assert (h mod b = h - b * (2 * (g / b))) as Hr by (symmetry; apply (Z.mod_unique _ _ (2 * (g / b))); lia).
    rewrite <- (IH a b Ha Hb ltac:(lia)). fold k. fold h. rewrite Hq, Hr. f_equal. lia.
Qed.

(** The bit-by-bit 64-bit division is division. For every dividend and every
    divisor but zero, for which it panics, [__udivdi3] and [__umoddi3] return the
    quotient and the remainder; no intermediate value overflows 64 bits. *)
Theorem udivmod_exact a b :
  0 ≤ a < 2 ^ 64 → 0 ≤ b < 2 ^ 64 →
  (b ≠ 0 → __udivdi3 a b = Ok (a / b) ∧ __umoddi3 a b = Ok (a mod b))
  ∧ (b = 0 → __udivdi3 a b = Panic "Division by zero in udivmod_64").
Proof.
  intros Ha Hb. split; [|by intros ->]. intros Hn. pose proof (udivmod_loop_ok 64 a b Ha ltac:(lia) ltac:(lia)) as H.
  change (2 ^ Z.of_nat 64) with (2 ^ 64) in H. rewrite (Z.div_small a), Z.div_0_l, Z.mod_0_l, Z.mul_0_r in H by lia.
  unfold __udivdi3, __umoddi3, udivmod_64. rewrite (proj2 (Z.eqb_neq _ _) Hn), H. done.
Qed.

Lemma udivmod_exact_witness :
  __udivdi3 (2 ^ 64 - 1) (2 ^ 63 + 1) = Ok 1 ∧ __umoddi3 (2 ^ 64 - 1) (2 ^ 63 + 1) = Ok (2 ^ 63 - 2).
Proof.
  destruct (proj1 (udivmod_exact (2 ^ 64 - 1) (2 ^ 63 + 1) ltac:(lia) ltac:(lia)) ltac:(lia)) as [H1 H2].
  split; [exact H1|exact H2].
Defined.

(** ** Tokens *)

(** Split at the delimiters, dropping empty pieces; [cur] is the piece so far. *)
Fixpoint tokens (d cur s : list Z) : list (list Z) :=
  match s with
  | [] => match cur with [] => [] | _ => [cur] end
  | c :: s => if decide (c ∈ d)
              then match cur with [] => tokens d [] s | _ => cur :: tokens d [] s end
              else tokens d (cur ++ [c]) s
  end.

Lemma tokens_skip d pre : ∀ s, Forall (λ c, c ∈ d) pre → tokens d [] (pre ++ s) = tokens d [] s.
Proof.
  induction pre as [|c pre IH]; intros s H; [done|]. apply Forall_cons in H as [Hc H].
  simpl. rewrite decide_True by done. by apply IH.
Qed.

Lemma tokens_word d w : ∀ cur s, Forall (λ c, c ∉ d) w → tokens d cur (w ++ s) = tokens d (cur ++ w) s.
Proof.
  induction w as [|c w IH]; intros cur s H; [by rewrite app_nil_r|]. apply Forall_cons in H as [Hc H].
  simpl. rewrite decide_False, IH by done. by rewrite <- app_assoc.
Qed.

Lemma strchr_ok d : ∀ fuel m a ch, 0 < ch < 256 → 0 < a → cstr m a d → (length d < fuel)%nat →
  ∃ r, strchr fuel m a ch = Ok r ∧ (r ≠ NULL ↔ ch ∈ d).
Proof.
  induction d as [|c d IH]; intros [|fuel] m a ch Hch Ha Hs Hf; cbn [length] in Hf; try lia; simpl in Hs;
    cbn [strchr]; rewrite (wrap_small 8 ch) by (simpl; lia).
  - rewrite Hs. simpl. rewrite (proj2 (Z.eqb_neq ch 0)) by lia. exists NULL. split; [done|].
    rewrite elem_of_nil. tauto.
  - destruct Hs as (Hc & Hn & Hs). rewrite Hc, (proj2 (Z.eqb_neq c 0) Hn). simpl.
    destruct (Z.eqb_spec c ch) as [->|Hne].
    + exists a. split; [done|]. split; [left|unfold NULL; lia].
    + destruct (IH fuel m (a + 1) ch) as (r & Hr & Hiff); [lia..|done|lia|]. exists r. split; [done|].
      rewrite elem_of_cons, Hiff. split; [by right|]. intros [->|]; done.
Qed.

Lemma span_ok b d s : ∀ fuel m dl p, bytes_ok m → 0 < dl → cstr m dl d → cstr m p s →
  (length s + length d < fuel)%nat →
  ∃ pre rest, s = pre ++ rest ∧ span fuel m dl p b = Ok (p + len pre)
    ∧ Forall (λ c, bool_decide (c ∈ d) = b) pre
    ∧ match rest with [] => True | c :: _ => bool_decide (c ∈ d) = negb b end.
Proof.
  induction s as [|c s IH]; intros [|fuel] m dl p Hm Hdl Hd Hs Hf; cbn [length] in Hf; try lia; simpl in Hs;
    cbn [span].
  - rewrite Hs. exists [], []. split_and!; [done| |constructor|done]. simpl. f_equal. lia.
  - destruct Hs as (<- & Hn & Hs). rewrite (proj2 (Z.eqb_neq _ 0) Hn). pose proof (Hm p) as Hb.
    destruct (strchr_ok d (S fuel) m dl (m p)) as (r & Hr & Hiff); [lia..|done|lia|].
    rewrite Hr. cbn [mbind res_bind].
    assert (negb (r =? NULL) = bool_decide (m p ∈ d)) as ->.
    { destruct (Z.eqb_spec r NULL); case_bool_decide; naive_solver. }
    destruct (Bool.eqb_spec (bool_decide (m p ∈ d)) b) as [E|E].
    + destruct (IH fuel m dl (p + 1)) as (pre & rest & -> & Hsp & Hpre & Hrest); [done..|lia|].
      exists (m p :: pre), rest. split_and!; [done| |by constructor|done]. rewrite Hsp. f_equal. simpl. lia.
    + exists [], (m p :: s). split_and!; [done| |constructor|].
      * simpl. f_equal. lia.
      * by destruct (bool_decide (m p ∈ d)), b.
Qed.

(** One call, from the position [p] it resumes at. *)
Lemma strtok_ok fuel last m str dl p d s :
  bytes_ok m → 0 < dl → 0 < p → (if negb (str =? NULL) then str else last) = p →
  cstr m dl d → cstr m p s → (length s + length d < fuel)%nat →
  (strtok fuel last m str dl = Ok (NULL, NULL, m) ∧ tokens d [] s = [])
  ∨ ∃ pre w, w ≠ [] ∧ seg m (p + len pre) w ∧ Forall (λ c, c ≠ 0) w ∧
      (s = pre ++ w ∧ tokens d [] s = [w] ∧ strtok fuel last m str dl = Ok (p + len pre, NULL, m)
       ∨ ∃ c r, s = pre ++ w ++ c :: r ∧ tokens d [] s = w :: tokens d [] r
           ∧ strtok fuel last m str dl
             = Ok (p + len pre, p + len pre + len w + 1, wr8 m (p + len pre + len w) 0)).
Proof.
  intros Hm Hdl Hp Ep Hd Hs Hf. unfold strtok. rewrite Ep, (proj2 (Z.eqb_neq p NULL)) by (unfold NULL; lia).
  destruct (span_ok true d s fuel m dl p) as (pre & s1 & -> & -> & Hpre & Hs1); [done..|].
  assert (Forall (λ c, c ∈ d) pre) as Hpre'.
  { eapply Forall_impl; [exact Hpre|]. intros c Hc. by apply bool_decide_eq_true in Hc. }
  rewrite tokens_skip by done. apply cstr_app in Hs as (_ & _ & Hs). cbn [mbind res_bind].
  destruct s1 as [|c1 s1'].
  { simpl in Hs. rewrite Hs. by left. }
  right. set (s1 := c1 :: s1') in *. rewrite length_app in Hf.
  assert (m (p + len pre) ≠ 0) as Hne by (destruct Hs as (? & ? & _); congruence).
  rewrite (proj2 (Z.eqb_neq _ 0) Hne).
  destruct (span_ok false d s1 fuel m dl (p + len pre)) as (w & s2 & Es & -> & Hw & Hs2); [done..|lia|].
  assert (Forall (λ c, c ∉ d) w) as Hw'.
  { eapply Forall_impl; [exact Hw|]. intros c Hc. by apply bool_decide_eq_false in Hc. }
  assert (w ≠ []) as Hwn.
  { intros ->. simpl in Es. rewrite <- Es in Hs2. unfold s1 in Hs1, Hs2. simpl in Hs1, Hs2. congruence. }
  rewrite Es in *. rewrite tokens_word by done. apply cstr_app in Hs as (Hseg & Hnz & Hs).
  exists pre, w. split_and!; [done..|]. cbn [mbind res_bind]. destruct s2 as [|c r].
  - left. simpl in Hs. rewrite Hs, app_nil_r. split_and!; [done| |done]. by destruct w.
  - right. exists c, r. destruct Hs as (-> & Hc & _). rewrite (proj2 (Z.eqb_neq _ 0) Hc).
    split_and!; [done| |done]. cbn [tokens]. rewrite bool_decide_eq_true in Hs2. rewrite decide_True by done.
    by destruct w.
Qed.

(** A client that calls [strtok] until it returns [NULL]: the tokens. *)
Fixpoint strtok_all (n fuel : nat) (last : Z) (m : ram) (str delim : Z) : res (list Z * ram) :=
  match n with
  | O => NoFuel
  | S n =>
      '(token, last, m) ← strtok fuel last m str delim;
      if token =? NULL then Ok ([], m)
      else '(ts, m) ← strtok_all n fuel last m NULL delim; Ok (token :: ts, m)
  end.

Lemma strtok_all_ok n : ∀ fuel last m str dl p d s,
  bytes_ok m → 0 < dl → 0 < p → (if negb (str =? NULL) then str else last) = p →
  cstr m dl d → cstr m p s → p + len s < dl ∨ dl + len d < p →
  (length s + length d < fuel)%nat → (length s + 1 < n)%nat →
  ∃ ps m', strtok_all n fuel last m str dl = Ok (ps, m')
    ∧ Forall2 (cstr m') ps (tokens d [] s) ∧ only m m' p (len s).
Proof.
  induction n as [|n IH]; intros fuel last m str dl p d s Hm Hdl Hp Ep Hd Hs Hdis Hf Hn; [lia|].
  cbn [strtok_all].
  destruct (strtok_ok fuel last m str dl p d s) as [[-> ->]|(pre & w & Hw & Hseg & Hnz & Hc)]; [done..| |].
  { exists [], m. split_and!; [done|constructor|by intros b _]. }
  assert ((p + len pre =? NULL) = false) as Etok by (apply Z.eqb_neq; unfold NULL; lia).
  destruct Hc as [(-> & -> & ->)|(c & r & -> & -> & ->)]; cbn [mbind res_bind]; rewrite Etok.
  - destruct n as [|n]; [lia|]. cbn [strtok_all]. unfold strtok at 1. simpl.
    eexists [_], m. split_and!; [done| |by intros b _]. repeat constructor.
    apply cstr_app in Hs as (_ & _ & Hs). done.
  - rewrite !length_app in *. cbn [length] in *. set (e := p + len pre + len w).
    assert (cstr m (e + 1) r) as Hr.
    { apply cstr_app in Hs as (_ & _ & (_ & _ & (_ & _ & Hr))%cstr_app). exact Hr. }
    destruct (IH fuel (e + 1) (wr8 m e 0) NULL dl (e + 1) d r) as (ps & m' & -> & Hps & Hfr).
    + by apply wr8_bytes.
    + done.
    + lia.
    + done.
    + eapply cstr_ext; [|exact Hd]. intros b Hb. apply wr8_other. lia.
    + eapply cstr_ext; [|exact Hr]. intros b Hb. apply wr8_other. lia.
    + lia.
    + lia.
    + lia.
    + cbn [mbind res_bind]. eexists (_ :: ps), m'. split_and!; [done| |].
      * constructor; [|done]. apply cstr_seg. split_and!; [|done|].
        -- eapply seg_ext; [|exact Hseg]. intros b Hb. rewrite Hfr by lia. apply wr8_other. lia.
        -- rewrite Hfr by lia. by rewrite wr8_same.
      * intros b Hb. rewrite Hfr by lia. apply wr8_other. lia.
Qed.

(** [strtok] tokenizes. Called on a string and then on [NULL] until it
    returns [NULL], it yields pointers to the maximal pieces free of delimiters,
    in order, each terminated in place, and then stops; nothing outside the
    string is written. *)
Theorem strtok_splits n fuel last m p dl d s :
  bytes_ok m → 0 < p → 0 < dl → cstr m p s → cstr m dl d → p + len s < dl ∨ dl + len d < p →
  (length s + length d < fuel)%nat → (length s + 1 < n)%nat →
  ∃ ps m', strtok_all n fuel last m p dl = Ok (ps, m')
    ∧ Forall2 (cstr m') ps (tokens d [] s) ∧ only m m' p (len s).
Proof.
  intros Hm Hp Hdl Hs Hd Hdis Hf Hn. apply (strtok_all_ok n fuel last m p dl p d s); try done.
  by rewrite (proj2 (Z.eqb_neq p NULL)) by (unfold NULL; lia).
Qed.

(** [",ab,,c"] at 100 split at commas. *)
Definition strtok_demo : ram := λ a, default 0 ([44; 97; 98; 44; 44; 99; 0; 0; 44; 0] !! Z.to_nat (a - 100)).

Lemma strtok_splits_witness :
  ∃ ps m', strtok_all 10 10 0 strtok_demo 100 108 = Ok (ps, m') ∧ Forall2 (cstr m') ps [[97; 98]; [99]].
Proof.
  destruct (strtok_splits 10 10 0 strtok_demo 100 108 [44] [44; 97; 98; 44; 44; 99]) as (ps & m' & Hr & Hps & _).
  - intros a. unfold strtok_demo. generalize (Z.to_nat (a - 100)). intros i.
    destruct (_ !! i) as [x|] eqn:E; [|simpl; lia]. apply list_elem_of_lookup_2 in E. simpl.
    repeat (apply elem_of_cons in E as [->|E]; [lia|]). by apply elem_of_nil in E.
  - lia.
  - lia.
  - vm_compute. repeat split; discriminate.
  - vm_compute. repeat split; discriminate.
  - simpl. lia.
  - simpl. lia.
  - simpl. lia.
  - exists ps, m'. split; [exact Hr|exact Hps].
Defined.
