(* ===== verification/Printf.v ===== *)
(** Formatted output: klibcpp/printf_impl.cpp and printf_impl.hpp, and [sprintf]
    and [snprintf] of klibcpp/cstring.cpp.

    [_vprintf] reads its format and its string arguments from memory, renders
    numbers into a local buffer and sends characters to a sink, which may itself
    write memory.  The argument list is the list of 32-bit words on the stack.
    [ftoa] works in floating point and is a parameter: nothing is proved about
    the f conversion. *)
From S2P Require Import Prelude Memory Strings.

(** ** _vprintf *)
Section vprintf.
Context {ctx : Type}.
Abbreviation st := (ctx * ram)%type.
Variable putc : Z → st → st.
(** The words of a double, the target and the precision. *)
Variable ftoa : ram → Z → Z → Z → Z → res ram.
(** Address of the local [char buf[64]]. *)
Variable buf : Z.

Fixpoint put_padding (padding : nat) (sym : Z) (s : st) : st :=
  match padding with
  | O => s
  | S padding => put_padding padding sym (putc sym s)
  end.

Fixpoint put_chars (fuel : nat) (s : st) (str : Z) : res st :=
  match fuel with
  | O => NoFuel
  | S fuel => if s.2 str =? 0 then Ok s else put_chars fuel (putc (s.2 str) s) (str + 1)
  end.

(** "(null)" *)
Definition null_text : list Z := [40; 110; 117; 108; 108; 41].
Definition put_list (l : list Z) (s : st) : st := foldl (λ s c, putc c s) s l.

Definition put_string (fuel : nat) (s : st) (str width : Z) (padRight : bool) (sym : Z) : res st :=
  n ← (if str =? NULL then Ok 6 else strlen fuel s.2 str);
  let n := s32 n in
  let padding := if n <? width then width - n else 0 in
  let s := if negb padRight then put_padding (Z.to_nat padding) sym s else s in
  s ← (if str =? NULL then Ok (put_list null_text s) else put_chars fuel s str);
  Ok (if padRight then put_padding (Z.to_nat padding) 32 s else s).

(** The decimal loops: the number and the position behind it. *)
Fixpoint number (fuel : nat) (m : ram) (format acc : Z) : res (Z * Z) :=
  match fuel with
  | O => NoFuel
  | S fuel =>
      if (48 <=? m format) && (m format <=? 57)
      then number fuel m (format + 1) (s32 (acc * 10 + (m format - 48)))
      else Ok (acc, format)
  end.

(** [va_arg] of one word; an argument that was not passed is not there. *)
Definition va_arg (args : list Z) : res (Z * list Z) :=
  match args with
  | a :: args => Ok (a, args)
  | [] => Fault 0
  end.

Definition convert (fuel : nat) (s : st) (c width precision : Z) (padRight : bool) (sym : Z) (args : list Z) : res (st * list Z) :=
  if c =? 100 then (* d *)
    '(a, args) ← va_arg args; m ← itoa s.2 (s32 a) buf;
    s ← put_string fuel (s.1, m) buf width padRight sym; Ok (s, args)
  else if c =? 117 then (* u *)
    '(a, args) ← va_arg args; m ← utoa s.2 (u32 a) buf;
    s ← put_string fuel (s.1, m) buf width padRight sym; Ok (s, args)
  else if c =? 120 then (* x *)
    '(a, args) ← va_arg args; m ← htoa s.2 (u32 a) buf;
    s ← put_string fuel (s.1, m) buf width padRight sym; Ok (s, args)
  else if c =? 112 then (* p *)
    '(a, args) ← va_arg args; m ← htoa (wr8 (wr8 s.2 buf 48) (buf + 1) 120) (u32 a) (buf + 2);
    s ← put_string fuel (s.1, m) buf width padRight sym; Ok (s, args)
  else if c =? 115 then (* s *)
    '(a, args) ← va_arg args;
    s ← put_string fuel s a width padRight sym; Ok (s, args)
  else if c =? 99 then (* c *)
    '(a, args) ← va_arg args;
    s ← put_string fuel (s.1, wr8 (wr8 s.2 buf a) (buf + 1) 0) buf width padRight sym; Ok (s, args)
  else if c =? 102 then (* f *)
    let prec := if precision =? -1 then 6 else precision in
    '(lo, args) ← va_arg args; '(hi, args) ← va_arg args;
    m ← ftoa s.2 lo hi buf prec;
    s ← put_string fuel (s.1, m) buf width padRight sym; Ok (s, args)
  else Ok (putc c (putc 37 s), args).

(** What follows a [%] that is neither the end nor another [%]. *)
Definition directive (fuel : nat) (s : st) (format : Z) (args : list Z) : res (st * Z * list Z) :=
  let m := s.2 in
  let '(padRight, format) := if m format =? 45 then (true, format + 1) else (false, format) in
  let '(sym, format) := if (m format =? 48) || (m format =? 32) then (m format, format + 1) else (32, format) in
  '(width, format) ← number fuel m format 0;
  '(precision, format) ← (if m format =? 46 then number fuel m (format + 1) 0 else Ok (-1, format));
  let c := m format in
  '(s, args) ← convert fuel s c width precision padRight sym args;
  Ok (s, format + 1, args).

Fixpoint _vprintf (fuel : nat) (s : st) (format : Z) (args : list Z) : res st :=
  match fuel with
  | O => NoFuel
  | S fuel' =>
      let c := s.2 format in
      let format := format + 1 in
      if c =? 0 then Ok s
      else if negb (c =? 37) then _vprintf fuel' (putc c s) format args
      else if s.2 format =? 0 then Ok s
      else if s.2 format =? 37 then _vprintf fuel' (putc 37 s) (format + 1) args
      else '(s, format, args) ← directive fuel s format args; _vprintf fuel' s format args
  end.

Definition _printf (fuel : nat) (s : st) (format : Z) (args : list Z) : res st := _vprintf fuel s format args.
End vprintf.

(** ** Sinks *)

Record BufferCtx := { bbuf : Z; pos : Z }.
Definition buffer_putc (c : Z) (s : BufferCtx * ram) : BufferCtx * ram :=
  let '(ctx, m) := s in
  if bbuf ctx =? NULL then s
  else ({| bbuf := bbuf ctx; pos := u32 (pos ctx + 1) |}, wr8 m (bbuf ctx + pos ctx) c).
Definition buffer_new (buffer : Z) : BufferCtx := {| bbuf := buffer; pos := 0 |}.
Definition buffer_close (s : BufferCtx * ram) : ram :=
  if bbuf s.1 =? NULL then s.2 else wr8 s.2 (bbuf s.1 + pos s.1) 0.

Record SizedBufferCtx := { sbuf : Z; cap : Z; written : Z; total : Z }.
Definition sized_putc (c : Z) (s : SizedBufferCtx * ram) : SizedBufferCtx * ram :=
  let '(ctx, m) := s in
  if negb (sbuf ctx =? NULL) && negb (cap ctx =? 0) && (u32 (written ctx + 1) <? cap ctx)
  then ({| sbuf := sbuf ctx; cap := cap ctx; written := u32 (written ctx + 1); total := u32 (total ctx + 1) |},
        wr8 m (sbuf ctx + written ctx) c)
  else ({| sbuf := sbuf ctx; cap := cap ctx; written := written ctx; total := u32 (total ctx + 1) |}, m).
Definition sized_new (buffer size : Z) : SizedBufferCtx := {| sbuf := buffer; cap := size; written := 0; total := 0 |}.
Definition sized_close (s : SizedBufferCtx * ram) : ram :=
  let '(ctx, m) := s in
  if (sbuf ctx =? NULL) || (cap ctx =? 0) then m
  else
    let term := if written ctx <? cap ctx then written ctx else u32 (cap ctx - 1) in
    wr8 m (sbuf ctx + term) 0.

(** The result and the memory afterwards; [local] is the address of [_vprintf]'s
    buffer. *)
Definition sprintf ftoa (local : Z) (fuel : nat) (m : ram) (buffer format : Z) (args : list Z) : res (Z * ram) :=
  s ← _vprintf buffer_putc ftoa local fuel (buffer_new buffer, m) format args;
  Ok (s32 (pos s.1), buffer_close s).

Definition snprintf ftoa (local : Z) (fuel : nat) (m : ram) (buffer size format : Z) (args : list Z) : res (Z * ram) :=
  s ← _vprintf sized_putc ftoa local fuel (sized_new buffer size, m) format args;
  Ok (s32 (total s.1), sized_close s).

(** ** What a format means *)

(** The conversions with their argument words; a string argument comes with its
    characters. *)
Inductive kind := KD (a : Z) | KU (a : Z) | KX (a : Z) | KP (a : Z) | KC (a : Z) | KS (a : Z) (s : list Z).

(** A piece of a format: a character, [%%], or a directive with the digits of its
    width and precision. *)
Inductive item :=
| Chr (c : Z)
| Pct
| Conv (minus : bool) (sym : option Z) (width : list Z) (prec : option (list Z)) (k : kind).

Definition kind_char (k : kind) : Z :=
  match k with KD _ => 100 | KU _ => 117 | KX _ => 120 | KP _ => 112 | KC _ => 99 | KS _ _ => 115 end.
Definition kind_arg (k : kind) : Z :=
  match k with KD a | KU a | KX a | KP a | KC a | KS a _ => a end.

Abbreviation dec ds := (digit <$> ds).

Definition prec_text (prec : option (list Z)) : list Z := match prec with Some p => 46 :: dec p | None => [] end.

(** The text of the format. *)
Definition show (i : item) : list Z :=
  match i with
  | Chr c => [c]
  | Pct => [37; 37]
  | Conv minus sym width prec k =>
      37 :: (if minus then [45] else []) ++ option_list sym ++ dec width
         ++ prec_text prec ++ [kind_char k]
  end.
Definition item_args (i : item) : list Z := match i with Conv _ _ _ _ k => [kind_arg k] | _ => [] end.

(** [t] is the canonical numeral of [v]. *)
Definition numeral (base v : Z) (t : list Z) : Prop :=
  ∃ ds, t = dec ds ∧ digits base ds ∧ value_be base ds = v ∧ (ds = [0] ∨ head ds ≠ Some 0).

Definition kind_text (k : kind) (t : list Z) : Prop :=
  match k with
  | KD a | KU a => numeral 10 a t
  | KX a => numeral 16 a t
  | KP a => ∃ u, t = 48 :: 120 :: u ∧ numeral 16 a u
  | KC a => t = [a]
  | KS _ s => t = s
  end.

(** Padding on the right is always spaces. *)
Definition padded (minus : bool) (sym width : Z) (t : list Z) : list Z :=
  let padding := (Z.to_nat width - length t)%nat in
  if minus then t ++ replicate padding 32 else replicate padding sym ++ t.

(** The output of a piece: the text padded to the width. *)
Definition item_text (i : item) (out : list Z) : Prop :=
  match i with
  | Chr c => out = [c]
  | Pct => out = [37]
  | Conv minus sym width _ k => ∃ t, kind_text k t ∧
      out = padded minus (default 32 sym) (value_be 10 width) t
  end.

Definition kind_ok (m : ram) (safe : Z → Prop) (k : kind) : Prop :=
  match k with
  | KD a | KU a | KX a | KP a => 0 ≤ a < 2 ^ 32
  | KC a => 0 < a < 256
  | KS a s => if decide (a = NULL) then s = null_text
              else cstr m a s ∧ len s < 2 ^ 31 - 1 ∧ ∀ b, a ≤ b ≤ a + len s → safe b
  end.

Definition item_ok (m : ram) (safe : Z → Prop) (i : item) : Prop :=
  match i with
  | Chr c => 0 < c < 256 ∧ c ≠ 37
  | Pct => True
  | Conv _ sym width prec k =>
      (match sym with Some c => c = 48 ∨ c = 32 | None => head width ≠ Some 0 end)
      ∧ digits 10 width ∧ value_be 10 width < 2 ^ 31
      ∧ (match prec with Some p => digits 10 p ∧ value_be 10 p < 2 ^ 31 | None => True end)
      ∧ kind_ok m safe k
  end.

Definition text_len (i : item) : nat := match i with Conv _ _ _ _ (KS _ s) => length s | _ => 0 end.

(** *** The text of a directive *)

Lemma seg_cons m a c l : seg m a (c :: l) ↔ m a = c ∧ seg m (a + 1) l.
Proof. change (c :: l) with ([c] ++ l). by rewrite seg_app, seg_one. Qed.

Lemma number_ok ds : ∀ fuel m a acc, digits 10 ds → seg m a (dec ds) → 0 ≤ acc →
  foldl (λ acc d, acc * 10 + d) acc ds < 2 ^ 31 → (m (a + len ds) < 48 ∨ 57 < m (a + len ds)) →
  (length ds < fuel)%nat → number fuel m a acc = Ok (foldl (λ acc d, acc * 10 + d) acc ds, a + len ds).
Proof.
  induction ds as [|d ds IH]; intros [|fuel] m a acc Hd Hs Ha Hv Hn Hf; cbn [length] in *; try lia; cbn [number].
  - rewrite Z.add_0_r in *. rewrite (proj2 (andb_false_iff _ _)); [done|].
    destruct Hn; [left; apply Z.leb_gt|right; apply Z.leb_gt]; lia.
  - apply Forall_cons in Hd as [Hd Hds]. rewrite fmap_cons in Hs. apply seg_cons in Hs as [Hc Hs].
    rewrite digit_value, (proj2 (Z.ltb_lt d 10)) in Hc by lia.
    rewrite Hc, (proj2 (Z.leb_le 48 _)), (proj2 (Z.leb_le _ 57)) by lia. cbn [andb foldl] in *.
    assert (∀ x l, digits 10 l → 0 ≤ x → x ≤ foldl (λ acc d, acc * 10 + d) x l) as Hmono.
    { clear. intros x l; revert x. induction l as [|d l IH]; intros x Hd Hx; simpl; [lia|].
      apply Forall_cons in Hd as [Hd Hl]. specialize (IH (x * 10 + d) Hl ltac:(lia)). lia. }
    replace (48 + d - 48) with d by lia. pose proof (Hmono (acc * 10 + d) ds Hds ltac:(lia)) as Hle.
    rewrite s32_small by lia. replace (a + Z.of_nat (S (length ds))) with (a + 1 + len ds) in * by lia.
    apply IH; try done; lia.
Qed.

Lemma kind_char_range k : 97 ≤ kind_char k < 128.
Proof. destruct k; simpl; lia. Qed.

(** How the parts of a directive begin. *)
Lemma tail_head prec k : ∃ c l, prec_text prec ++ [kind_char k] = c :: l ∧ (c = 46 ∨ 97 ≤ c < 128).
Proof.
  pose proof (kind_char_range k). destruct prec; simpl; eauto.
Qed.

Lemma width_head width prec k : digits 10 width → ∃ c l, dec width ++ prec_text prec ++ [kind_char k] = c :: l
  ∧ (48 ≤ c ≤ 57 ∨ c = 46 ∨ 97 ≤ c < 128) ∧ (head width ≠ Some 0 → c ≠ 48).
Proof.
  intros Hd. destruct width as [|d width].
  - destruct (tail_head prec k) as (c & l & E & Hc). exists c, l. split_and!; [done|lia|lia].
  - apply Forall_cons in Hd as [Hd _]. exists (digit d). eexists. split; [done|].
    rewrite digit_value, (proj2 (Z.ltb_lt d 10)) by lia. split; [lia|]. intros Hne Hd48. apply Hne. simpl. f_equal. lia.
Qed.

(** ** The contract of a sink *)

(** [R out s]: the sink in state [s] has received [out]. It writes only at the
    addresses [priv]. *)
Class Sink {ctx} (putc : Z → ctx * ram → ctx * ram) (R : list Z → ctx * ram → Prop) (priv : Z → Prop) := {
  sink_put out s c : 0 ≤ c < 256 → R out s → R (out ++ [c]) (putc c s);
  sink_keep out s c b : R out s → ¬ priv b → (putc c s).2 b = s.2 b;
  sink_bytes s c : bytes_ok s.2 → bytes_ok (putc c s).2;
  sink_stable out x m m' : (∀ b, priv b → m' b = m b) → R out (x, m) → R out (x, m')
}.

Section correct.
Context {ctx : Type} (putc : Z → ctx * ram → ctx * ram) (R : list Z → ctx * ram → Prop) (priv : Z → Prop).
Context `{!Sink putc R priv} (ftoa : ram → Z → Z → Z → Z → res ram) (local : Z).
Hypothesis local_pos : 0 < local.
Hypothesis local_priv : ∀ b, priv b → b < local ∨ local + 64 ≤ b.
Variable m0 : ram.

(** Addresses that [_vprintf] leaves alone. *)
Definition safe (b : Z) : Prop := ¬ priv b ∧ (b < local ∨ local + 64 ≤ b).

Definition outputs (out : list Z) (s : ctx * ram) : Prop :=
  R out s ∧ bytes_ok s.2 ∧ ∀ b, safe b → s.2 b = m0 b.

Lemma outputs_put out s c : 0 ≤ c < 256 → outputs out s → outputs (out ++ [c]) (putc c s).
Proof.
  intros Hc (HR & Hb & Hs). split_and!; [by apply sink_put|by apply (sink_bytes (R := R) (priv := priv))|].
  intros b Hsafe. rewrite (sink_keep out) by (done || apply Hsafe). by apply Hs.
Qed.

Lemma outputs_pad n sym : 0 ≤ sym < 256 → ∀ out s, outputs out s →
  outputs (out ++ replicate n sym) (put_padding putc n sym s)
  ∧ ∀ b, ¬ priv b → (put_padding putc n sym s).2 b = s.2 b.
Proof.
  intros Hsym. induction n as [|n IH]; intros out s H; simpl.
  - by rewrite app_nil_r.
  - destruct (IH (out ++ [sym]) (putc sym s)) as [H1 H2]; [by apply outputs_put|].
    rewrite <- app_assoc in H1. split; [done|]. intros b Hb. rewrite H2 by done.
    apply (sink_keep out); [apply H|done].
Qed.

Lemma outputs_list l : Forall (λ c, 0 ≤ c < 256) l → ∀ out s, outputs out s → outputs (out ++ l) (put_list putc l s).
Proof.
  induction 1 as [|c l Hc _ IH]; intros out s H; simpl; [by rewrite app_nil_r|].
  replace (out ++ c :: l) with ((out ++ [c]) ++ l) by (by rewrite <- app_assoc). apply IH. by apply outputs_put.
Qed.

Lemma outputs_chars t : ∀ fuel out s str, outputs out s → cstr s.2 str t →
  (∀ b, str ≤ b ≤ str + len t → ¬ priv b) → (length t < fuel)%nat →
  ∃ s', put_chars putc fuel s str = Ok s' ∧ outputs (out ++ t) s'.
Proof.
  induction t as [|c t IH]; intros [|fuel] out s str H Hs Hp Hf; cbn [length] in *; try lia; cbn [put_chars].
  - simpl in Hs. rewrite Hs. exists s. split; [done|]. by rewrite app_nil_r.
  - destruct Hs as (Hc & Hn & Hs). rewrite Hc, (proj2 (Z.eqb_neq c 0) Hn).
    assert (0 ≤ c < 256) as Hcb by (rewrite <- Hc; apply H).
    destruct (IH fuel (out ++ [c]) (putc c s) (str + 1)) as (s' & Hr & Ho).
    + by apply outputs_put.
    + eapply cstr_ext; [|exact Hs]. intros b Hb. apply (sink_keep out); [apply H|apply Hp; lia].
    + intros b Hb. apply Hp. lia.
    + lia.
    + exists s'. split; [done|]. by rewrite <- app_assoc in Ho.
Qed.

Lemma put_string_ok fuel out s str t minus sym width :
  outputs out s → 0 ≤ sym < 256 →
  (if decide (str = NULL) then t = null_text
   else cstr s.2 str t ∧ (∀ b, str ≤ b ≤ str + len t → ¬ priv b)) →
  len t < 2 ^ 31 - 1 → (length t < fuel)%nat →
  ∃ s', put_string putc fuel s str width minus sym = Ok s' ∧ outputs (out ++ padded minus sym width t) s'.
Proof.
  intros H Hsym Hstr Hlt Hf. unfold put_string, padded.
  assert ((if str =? NULL then Ok 6 else strlen fuel s.2 str) = Ok (len t)) as ->.
  { destruct (decide (str = NULL)) as [->|Hn]; [by subst t|].
    rewrite (proj2 (Z.eqb_neq _ _) Hn). apply (strlen_ok t fuel s.2 str 0); [|lia..].
    rewrite Z.add_0_r. apply Hstr. }
  cbn [mbind res_bind]. rewrite s32_small by lia.
  set (k := if len t <? width then width - len t else 0).
  assert (Z.to_nat k = Z.to_nat width - length t)%nat as -> by (unfold k; destruct (Z.ltb_spec (len t) width); lia).
  set (n := (Z.to_nat width - length t)%nat).
  assert (∀ out s1, outputs out s1 → (∀ b, ¬ priv b → s1.2 b = s.2 b) →
    ∃ s', (if str =? NULL then Ok (put_list putc null_text s1) else put_chars putc fuel s1 str) = Ok s'
      ∧ outputs (out ++ t) s') as Hbody.
  { clear out H. intros out s1 H Hk. destruct (decide (str = NULL)) as [->|Hn].
    - subst t. eexists. split; [done|]. apply outputs_list; [|done]. repeat (constructor; [lia|]). constructor.
    - rewrite (proj2 (Z.eqb_neq _ _) Hn). destruct Hstr as [Hs Hp].
      apply outputs_chars; [done| |done|done]. eapply cstr_ext; [|exact Hs]. intros b Hb. apply Hk, Hp. lia. }
  destruct minus; cbn [negb].
  - destruct (Hbody out s H) as (s' & -> & Ho); [done|]. cbn [mbind res_bind]. eexists. split; [done|].
    rewrite app_assoc. apply outputs_pad; [lia|done].
  - destruct (outputs_pad n sym Hsym out s H) as [H1 H2].
    destruct (Hbody _ _ H1 H2) as (s' & -> & Ho). cbn [mbind res_bind]. eexists. split; [done|].
    by rewrite <- app_assoc in Ho.
Qed.

(** Writing the local buffer does not disturb the output. *)
Lemma outputs_local out s m' : outputs out s → only s.2 m' local 64 → bytes_ok m' → outputs out (s.1, m').
Proof.
  destruct s as [x m]. intros (HR & Hb & Hs) Ho Hb'. split_and!; [|done|].
  - apply (sink_stable out x m); [|done]. intros b Hp. apply Ho. by apply local_priv.
  - intros b Hsafe. simpl. rewrite Ho by (apply Hsafe). by apply Hs.
Qed.

Lemma rendered_bytes base v m m' a ds :
  2 ≤ base ≤ 36 → rendered base v m m' a ds → bytes_ok m → bytes_ok m'.
Proof.
  intros Hb [Hs Hd _ _ _ Hf] Hm b. apply cstr_seg in Hs as (Hseg & _ & H0). rewrite length_fmap in H0.
  destruct (decide (b = a + len ds)) as [->|Hne]; [rewrite H0; lia|].
  destruct (decide (a ≤ b < a + len ds)); [|rewrite Hf by lia; apply Hm].
  destruct (lookup_lt_is_Some_2 ds (Z.to_nat (b - a)) ltac:(lia)) as [d Hl].
  specialize (Hseg (Z.to_nat (b - a)) (digit d)). rewrite list_lookup_fmap, Hl in Hseg. specialize (Hseg eq_refl).
  replace (a + Z.of_nat (Z.to_nat (b - a))) with b in Hseg by lia. rewrite Hseg.
  pose proof (proj1 (Forall_lookup _ _) Hd _ _ Hl) as Hr. simpl in Hr.
  pose proof (digit_range d ltac:(lia)). lia.
Qed.

(** A number rendered into the local buffer, behind [k] bytes of prefix. *)
Lemma convert_number fuel out s base a k pre :
  2 ≤ base ≤ 36 → 0 ≤ a < 2 ^ 32 → outputs out s → k = len pre → (length pre ≤ 2)%nat →
  seg s.2 local pre → Forall (λ c, c ≠ 0) pre → (66 < fuel)%nat →
  ∃ m t, _uvtoa s.2 (local + k) base a = Ok m ∧ numeral base a t
    ∧ ∀ minus sym width, 0 ≤ sym < 256 →
      ∃ s', put_string putc fuel (s.1, m) local width minus sym = Ok s'
        ∧ outputs (out ++ padded minus sym width (pre ++ t)) s'.
Proof.
  intros Hb Ha H -> Hp Hseg Hnz Hf.
  destruct (uvtoa_ok s.2 (local + len pre) base a Hb Ha) as (m & ds & Hr & Hren).
  pose proof (rendered_bytes _ _ _ _ _ _ Hb Hren (proj1 (proj2 H))) as Hbm.
  destruct Hren as [Hs Hd Hv Hc Hl Hfr].
  exists m, (dec ds). split_and!; [done|by exists ds|]. intros minus sym width Hsym.
  assert (length (pre ++ dec ds) ≤ 34)%nat as Hlen by (rewrite length_app, length_fmap; lia).
  apply put_string_ok; [|done| |lia|lia].
  - apply outputs_local; [done| |done]. intros b Hb'. apply Hfr. lia.
  - rewrite decide_False by (unfold NULL; lia). split.
    + apply cstr_app. split_and!; [|done|done]. eapply seg_ext; [|exact Hseg]. intros b Hb'. apply Hfr. lia.
    + intros b Hb' Hpr. specialize (local_priv b Hpr). lia.
Qed.

Lemma wr8s_bytes m a c b d : bytes_ok m → bytes_ok (wr8 (wr8 m a c) b d).
Proof. intros. by apply wr8_bytes, wr8_bytes. Qed.

Lemma kind_ok_ext m k : (∀ b, safe b → m b = m0 b) → kind_ok m0 safe k → kind_ok m safe k.
Proof.
  intros Hm. destruct k; try done. simpl. destruct (decide (a = NULL)); [done|].
  intros (Hs & Hl & Hb). split_and!; [|done|done]. eapply cstr_ext; [|exact Hs]. intros b Hb'. by apply Hm, Hb.
Qed.

Lemma convert_ok fuel out s k minus sym width prec args :
  outputs out s → kind_ok m0 safe k → 0 ≤ sym < 256 →
  (66 < fuel)%nat → (text_len (Conv minus None [] None k) < fuel)%nat →
  ∃ s' t, convert putc ftoa local fuel s (kind_char k) width prec minus sym (kind_arg k :: args) = Ok (s', args)
    ∧ kind_text k t ∧ outputs (out ++ padded minus sym width t) s'.
Proof.
  intros H Hk Hsym Hf Hft. apply (kind_ok_ext s.2) in Hk; [|apply H].
  assert (seg s.2 local []) as Hnil by (intros i c Hc; by rewrite lookup_nil in Hc).
  destruct k; cbn [kind_ok] in Hk; unfold convert; cbn [kind_char kind_arg va_arg Z.eqb Pos.eqb mbind res_bind].
  - destruct (convert_number fuel out s 10 a 0 []) as (m & t & Hr & Hn & Hput); [done..|simpl; lia|done|constructor|done|].
    unfold itoa. assert (u32 (s32 a) = a) as Ea.
    { unfold s32. rewrite (u32_small a) by lia. destruct (Z.ltb_spec a (2 ^ 31)); [by apply u32_small|].
      unfold wrap. symmetry. apply (Z.mod_unique _ _ (-1)); lia. }
    rewrite vtoa_eq, Ea; [|lia|unfold s32; rewrite (u32_small a) by lia; destruct (Z.ltb_spec a (2 ^ 31)); lia].
    rewrite Z.add_0_r in Hr. rewrite Hr. cbn [mbind res_bind].
    destruct (Hput minus sym width Hsym) as (s' & -> & Ho). exists s', t. done.
  - destruct (convert_number fuel out s 10 a 0 []) as (m & t & Hr & Hn & Hput); [done..|simpl; lia|done|constructor|done|].
    unfold utoa. rewrite u32_small by lia. rewrite Z.add_0_r in Hr. rewrite Hr. cbn [mbind res_bind].
    destruct (Hput minus sym width Hsym) as (s' & -> & Ho). exists s', t. done.
  - destruct (convert_number fuel out s 16 a 0 []) as (m & t & Hr & Hn & Hput); [done..|simpl; lia|done|constructor|done|].
    unfold htoa. rewrite u32_small by lia. rewrite Z.add_0_r in Hr. rewrite Hr. cbn [mbind res_bind].
    destruct (Hput minus sym width Hsym) as (s' & -> & Ho). exists s', t. done.
  - set (m1 := wr8 (wr8 s.2 local 48) (local + 1) 120).
    assert (outputs out (s.1, m1)) as H1.
    { apply outputs_local; [done| |apply wr8s_bytes, H]. intros b Hb. unfold m1. rewrite !wr8_other by lia. done. }
    destruct (convert_number fuel out (s.1, m1) 16 a 2 [48; 120]) as (m & t & Hr & Hn & Hput); [lia|done..|simpl; lia| | |done|].
    { intros [|[|i]] c Hc; simpl in Hc; simplify_eq; unfold m1; simpl.
      - rewrite Z.add_0_r, wr8_other, wr8_same by lia. done.
      - by rewrite wr8_same. }
    { by repeat constructor. }
    unfold htoa. rewrite u32_small by lia. simpl in Hr. rewrite Hr. cbn [mbind res_bind].
    destruct (Hput minus sym width Hsym) as (s' & Hs' & Ho). simpl in Hs'. rewrite Hs'. exists s', (48 :: 120 :: t).
    split_and!; [done| |done]. by exists t.
  - set (m1 := wr8 (wr8 s.2 local a) (local + 1) 0).
    destruct (put_string_ok fuel out (s.1, m1) local [a] minus sym width) as (s' & Hs' & Ho).
    + apply outputs_local; [done| |apply wr8s_bytes, H]. intros b Hb. unfold m1. rewrite !wr8_other by lia. done.
    + done.
    + rewrite decide_False by (unfold NULL; lia). split.
      * cbn [cstr snd]. unfold m1. rewrite wr8_same, wr8_other, wr8_same by lia.
        rewrite wrap_small by (simpl; lia). split_and!; [done|lia|done].
      * intros b Hb Hpr. specialize (local_priv b Hpr). simpl in Hb. lia.
    + simpl. lia.
    + simpl. lia.
    + rewrite Hs'. exists s', [a]. done.
  - destruct (put_string_ok fuel out s a s0 minus sym width) as (s' & -> & Ho); [done..| | |done|].
    + destruct (decide (a = NULL)); [done|]. destruct Hk as (Hs & _ & Hb). split; [done|]. intros b Hb'. by apply Hb.
    + destruct (decide (a = NULL)); [by subst|]. apply Hk.
    + exists s', s0. done.
Qed.

(** Parsing a directive reads its text and nothing else. *)
Lemma directive_ok fuel out s f minus sym width prec k args :
  outputs out s → item_ok m0 safe (Conv minus sym width prec k) →
  seg s.2 f (drop 1 (show (Conv minus sym width prec k))) →
  (length (show (Conv minus sym width prec k)) + 66 < fuel)%nat →
  (text_len (Conv minus sym width prec k) < fuel)%nat →
  ∃ s' o, directive putc ftoa local fuel s f (kind_arg k :: args)
          = Ok (s', f + len (drop 1 (show (Conv minus sym width prec k))), args)
    ∧ item_text (Conv minus sym width prec k) o ∧ outputs (out ++ o) s'.
Proof.
  intros H (Hsym & Hw & Hwv & Hp & Hk) Hseg Hf Hft. cbn [show drop] in *. unfold directive.
  destruct (width_head width prec k Hw) as (c2 & l2 & E2 & Hc2 & Hc2').
  destruct (tail_head prec k) as (c3 & l3 & E3 & Hc3).
  set (f1 := f + len (if minus then [45] else [])). apply seg_app in Hseg as [Hs0 Hseg]. fold f1 in Hseg.
  set (f2 := f1 + len (option_list sym)). apply seg_app in Hseg as [Hs1 Hs2]. fold f2 in Hs2.
  assert ((if s.2 f =? 45 then (true, f + 1) else (false, f)) = (minus, f1)) as ->.
  { unfold f1. destruct minus; [apply seg_one in Hs0; rewrite Hs0; done|].
    assert (s.2 f ≠ 45) as Hn; [|rewrite (proj2 (Z.eqb_neq _ _) Hn), Z.add_0_r; done].
    unfold f2, f1 in *. rewrite Z.add_0_r in *. destruct sym as [c|]; simpl in Hs1.
    - apply seg_one in Hs1. lia.
    - simpl in Hs2. rewrite Z.add_0_r, E2 in Hs2. apply seg_cons in Hs2 as [-> _]. lia. }
  assert ((if (s.2 f1 =? 48) || (s.2 f1 =? 32) then (s.2 f1, f1 + 1) else (32, f1)) = (default 32 sym, f2)) as ->.
  { unfold f2 in *. destruct sym as [c|]; simpl in *.
    - apply seg_one in Hs1. rewrite Hs1. by destruct Hsym as [->| ->].
    - rewrite Z.add_0_r in *. rewrite E2 in Hs2. apply seg_cons in Hs2 as [-> _]. specialize (Hc2' Hsym).
      rewrite (proj2 (Z.eqb_neq c2 48)), (proj2 (Z.eqb_neq c2 32)) by lia. done. }
  set (f3 := f2 + len width). apply seg_app in Hs2 as [Hsw Hs3]. rewrite length_fmap in Hs3. fold f3 in Hs3.
  rewrite !length_cons, !length_app, !length_fmap in *. cbn [length] in *.
  rewrite (number_ok width); [|done|done|lia|done| |lia].
  2:{ fold f3. rewrite E3 in Hs3. apply seg_cons in Hs3 as [-> _]. lia. }
  fold (value_be 10 width). fold f3. cbn [mbind res_bind].
  assert (∃ pr, (if s.2 f3 =? 46 then number fuel s.2 (f3 + 1) 0 else Ok (-1, f3)) = Ok (pr, f3 + len (prec_text prec))
    ∧ s.2 (f3 + len (prec_text prec)) = kind_char k) as (pr & -> & Hkc).
  { apply seg_app in Hs3 as [Hsp Hsk]. apply seg_one in Hsk. destruct prec as [p|]; simpl in *.
    - apply seg_cons in Hsp as [-> Hsp]. destruct Hp as [Hpd Hpv]. rewrite length_fmap in *.
      rewrite (number_ok p); [|done|done|lia|done| |lia].
      + eexists. split; [|done]. f_equal. f_equal. lia.
      + replace (f3 + 1 + len p) with (f3 + Z.of_nat (S (length p))) by lia. rewrite Hsk.
        pose proof (kind_char_range k). lia.
    - rewrite Z.add_0_r in *. rewrite Hsk. pose proof (kind_char_range k).
      rewrite (proj2 (Z.eqb_neq (kind_char k) 46)) by lia. eauto. }
  cbn [mbind res_bind]. rewrite Hkc.
  destruct (convert_ok fuel out s k minus (default 32 sym) (value_be 10 width) pr args) as (s' & t & -> & Ht & Ho); [done|done| |lia|done|].
  { destruct sym as [c|]; simpl; [|lia]. destruct Hsym; lia. }
  cbn [mbind res_bind]. exists s', (padded minus (default 32 sym) (value_be 10 width) t). split_and!; [|by exists t|done].
  do 3 f_equal. unfold f3, f2, f1. rewrite drop_0, !length_app, length_fmap. simpl. lia.
Qed.

Lemma vprintf_ok items : ∀ fuel B out s f args,
  outputs out s → Forall (item_ok m0 safe) items → Forall (λ i, text_len i ≤ B)%nat items →
  cstr m0 f (concat (show <$> items)) → (∀ b, f ≤ b ≤ f + len (concat (show <$> items)) → safe b) →
  (length (concat (show <$> items)) + B + 66 < fuel)%nat →
  ∃ s' outs, _vprintf putc ftoa local fuel s f (concat (item_args <$> items) ++ args) = Ok s'
    ∧ Forall2 item_text items outs ∧ outputs (out ++ concat outs) s'.
Proof.
  induction items as [|i items IH]; intros [|fuel] B out s f args H Hok HB Hs Hsafe Hf; try lia; cbn [_vprintf].
  { simpl in *. destruct H as (HR & Hb & Hag). rewrite Hag, Hs by (apply Hsafe; lia). simpl.
    exists s, []. split_and!; [done|constructor|]. simpl. rewrite app_nil_r. by split_and!. }
  apply Forall_cons in Hok as [Hi Hok]. apply Forall_cons in HB as [HBi HB].
  rewrite fmap_cons in *. cbn [concat] in *. rewrite length_app in *.
  apply cstr_app in Hs as (Hsi & Hnz & Hs).
  assert (seg s.2 f (show i)) as Hsi2.
  { eapply seg_ext; [|exact Hsi]. intros b Hb. apply H, Hsafe. lia. }
  assert (∀ n o s', (1 ≤ n < S fuel)%nat → outputs (out ++ o) s' → item_text i o →
    (length (concat (show <$> items)) + B + 66 < n)%nat →
    ∃ s2 outs, _vprintf putc ftoa local n s' (f + len (show i)) (concat (item_args <$> items) ++ args) = Ok s2
      ∧ Forall2 item_text (i :: items) outs ∧ outputs (out ++ concat outs) s2) as Hrest.
  { intros n o s' Hn Ho Hio Hf'. destruct (IH n B (out ++ o) s' (f + len (show i)) args) as (s2 & outs & Hr & Ht & Ho2);
      [done|done|done|done| |done|].
    - intros b Hb. apply Hsafe. lia.
    - exists s2, (o :: outs). split_and!; [done|by constructor|]. simpl. by rewrite <- app_assoc in Ho2. }
  destruct i as [c| |minus sym width prec k].
  - simpl in Hsi2. apply seg_one in Hsi2. rewrite Hsi2. destruct Hi as [Hc Hc37].
    rewrite (proj2 (Z.eqb_neq c 0)), (proj2 (Z.eqb_neq c 37)) by lia. cbn [negb item_args app concat].
    apply (Hrest fuel [c]); [lia|apply outputs_put; [lia|done]|done|simpl in Hf; lia].
  - simpl in Hsi2. apply seg_cons in Hsi2 as [-> [-> _]%seg_cons]. cbn [Z.eqb Pos.eqb negb item_args app concat].
    replace (f + 1 + 1) with (f + len (show Pct)) by (simpl; lia).
    apply (Hrest fuel [37]); [lia|apply outputs_put; [lia|done]|done|simpl in Hf; lia].
  - set (it := Conv minus sym width prec k) in *.
    assert (show it = 37 :: drop 1 (show it)) as E by done. rewrite E in Hsi2.
    apply seg_cons in Hsi2 as [-> Hsd]. cbn [Z.eqb Pos.eqb negb].
    assert (s.2 (f + 1) ≠ 0 ∧ s.2 (f + 1) ≠ 37) as [Hn0 Hn37].
    { destruct (width_head width prec k) as (c2 & l2 & E2 & Hc2 & _); [apply Hi|].
      unfold it in Hsd. cbn [show drop] in Hsd. destruct minus; simpl in Hsd.
      { apply seg_cons in Hsd as [-> _]. done. }
      destruct sym as [c|]; simpl in Hsd.
      - apply seg_cons in Hsd as [-> _]. destruct Hi as [[->| ->] _]; done.
      - rewrite E2 in Hsd. apply seg_cons in Hsd as [-> _]. lia. }
    rewrite (proj2 (Z.eqb_neq _ _) Hn0), (proj2 (Z.eqb_neq _ _) Hn37).
    change ((item_args it ++ concat (item_args <$> items)) ++ args)
      with (kind_arg k :: concat (item_args <$> items) ++ args).
    destruct (directive_ok (S fuel) out s (f + 1) minus sym width prec k (concat (item_args <$> items) ++ args))
      as (s' & o & Hr & Hio & Ho); [done|done|done|fold it; lia|fold it; lia|].
    fold it in Hr. rewrite Hr. cbn [mbind res_bind].
    replace (f + 1 + len (drop 1 (show it))) with (f + len (show it)) by (rewrite E at 1; simpl; lia).
    apply (Hrest fuel o); [lia|done|done|]. rewrite E in Hf. simpl in Hf. lia.
Qed.
End correct.

(** ** The bounded buffer as a sink *)

Definition sized_range (buffer size b : Z) : Prop := buffer ≤ b < buffer + size.

Record sized_rep (buffer size : Z) (out : list Z) (s : SizedBufferCtx * ram) : Prop := {
  sr_buf : sbuf s.1 = buffer;
  sr_cap : cap s.1 = size;
  sr_written : written s.1 = Z.min (len out) (size - 1);
  sr_total : total s.1 = u32 (len out);
  sr_text : seg s.2 buffer (take (Z.to_nat (size - 1)) out)
}.

Section sized.
Context (buffer size : Z).
Hypothesis buffer_pos : 0 < buffer.
Hypothesis size_range : 0 < size < 2 ^ 32.

Lemma sized_put out s c : 0 ≤ c < 256 → sized_rep buffer size out s → sized_rep buffer size (out ++ [c]) (sized_putc c s).
Proof.
  destruct s as [x m]. intros Hc [Hb Hcap Hw Ht Hs]. simpl in *. unfold sized_putc.
  rewrite Hb, Hcap, Ht, Hw, (proj2 (Z.eqb_neq buffer NULL)), (proj2 (Z.eqb_neq size 0)) by (unfold NULL; lia).
  cbn [negb andb]. rewrite wrap_add_l. assert (u32 (len out + 1) = u32 (len (out ++ [c]))) as Ht'
    by (rewrite length_app; simpl; f_equal; lia).
  rewrite u32_small by lia. destruct (Z.ltb_spec (Z.min (len out) (size - 1) + 1) size) as [Hlt|Hge].
  - split; simpl; [done..| |done|].
    + rewrite length_app. simpl. lia.
    + assert (length out < Z.to_nat (size - 1))%nat as Hl by lia. rewrite Z.min_l by lia.
      rewrite take_ge in Hs by lia. rewrite take_ge by (rewrite length_app; simpl; lia).
      apply seg_app. rewrite seg_one, wr8_same, wrap_small by (simpl; lia). split; [|done].
      eapply seg_ext; [|exact Hs]. intros b Hb'. apply wr8_other. lia.
  - split; simpl; [done..| |done|].
    + rewrite length_app. simpl. lia.
    + by rewrite take_app_le by lia.
Qed.

#[export] Instance sized_sink : Sink sized_putc (sized_rep buffer size) (sized_range buffer size).
Proof using buffer_pos size_range.
  split.
  - intros out s c. apply sized_put.
  - intros out [x m] c b [Hb Hcap Hw _ _] Hn. simpl in *. unfold sized_putc. destruct (_ && _) eqn:E; [|done].
    simpl. apply wr8_other. intros ->. apply Hn. unfold sized_range. lia.
  - intros [x m] c Hm. unfold sized_putc. destruct (_ && _); [|done]. simpl. by apply wr8_bytes.
  - intros out x m m' Hag [Hb Hcap Hw Ht Hs]. split; simpl in *; try done.
    eapply seg_ext; [|exact Hs]. intros b Hb'. apply Hag. unfold sized_range. rewrite length_take in Hb'. lia.
Qed.
End sized.

Lemma snprintf_ok ftoa local fuel m buffer size f items args B :
  0 < buffer → 0 < size < 2 ^ 32 → 0 < local → local + 64 ≤ buffer ∨ buffer + size ≤ local → bytes_ok m →
  Forall (item_ok m (safe (sized_range buffer size) local)) items → Forall (λ i, text_len i ≤ B)%nat items →
  cstr m f (concat (show <$> items)) →
  (∀ b, f ≤ b ≤ f + len (concat (show <$> items)) → safe (sized_range buffer size) local b) →
  (length (concat (show <$> items)) + B + 66 < fuel)%nat →
  ∃ outs m', Forall2 item_text items outs
    ∧ snprintf ftoa local fuel m buffer size f (concat (item_args <$> items) ++ args) = Ok (s32 (len (concat outs)), m')
    ∧ seg m' buffer (take (Z.to_nat (size - 1)) (concat outs))
    ∧ m' (buffer + Z.min (len (concat outs)) (size - 1)) = 0
    ∧ (∀ b, safe (sized_range buffer size) local b → m' b = m b) ∧ bytes_ok m'.
Proof.
  intros Hbuf Hsize Hlocal Hdis Hm Hok HB Hs Hsafe Hf. pose proof (sized_sink buffer size Hbuf Hsize) as Hsink.
  destruct (vprintf_ok sized_putc (sized_rep buffer size) (sized_range buffer size) ftoa local Hlocal
    ltac:(unfold sized_range; lia) m items fuel B [] (sized_new buffer size, m) f args)
    as (s' & outs & Hr & Ht & [[Hb Hcap Hw Htot Htext] [Hbo Hag]]); [|done..|].
  { split_and!; [|done|done]. split; simpl; try done; [lia|]. rewrite take_nil. intros i c Hc. by rewrite lookup_nil in Hc. }
  unfold snprintf. rewrite Hr. cbn [mbind res_bind]. exists outs. eexists. split; [done|]. split.
  { f_equal. f_equal. rewrite Htot. unfold s32. by rewrite wrap_wrap by lia. }
  destruct s' as [x m']. simpl in *. unfold sized_close.
  rewrite Hb, Hcap, Hw, (proj2 (Z.eqb_neq buffer NULL)), (proj2 (Z.eqb_neq size 0)) by (unfold NULL; lia).
  rewrite (proj2 (Z.ltb_lt _ size)) by lia. cbn [orb]. split_and!.
  - eapply seg_ext; [|exact Htext]. intros b Hb'. apply wr8_other. rewrite length_take in Hb'. lia.
  - by rewrite wr8_same.
  - intros b Hb'. rewrite wr8_other; [by apply Hag|]. intros ->. apply (proj1 Hb'). unfold sized_range. lia.
  - by apply wr8_bytes.
Qed.

(** C24: [snprintf] is exact and stays in its buffer. For a format made of
    characters, [%%] and d, u, x, p, c, s directives with flags, width and
    precision, and matching arguments, it returns the length of the whole
    output, leaves in the buffer as much of it as fits and the terminator, and
    changes nothing else in memory but [_vprintf]'s local buffer. The output of
    each directive is the text of its argument padded to the width; the
    precision is ignored, and a d argument is rendered without its sign. *)
Theorem snprintf_exact ftoa local fuel m buffer size f items args B :
  0 < buffer → 0 < size < 2 ^ 32 → 0 < local → local + 64 ≤ buffer ∨ buffer + size ≤ local → bytes_ok m →
  Forall (item_ok m (safe (sized_range buffer size) local)) items → Forall (λ i, text_len i ≤ B)%nat items →
  cstr m f (concat (show <$> items)) →
  (∀ b, f ≤ b ≤ f + len (concat (show <$> items)) → safe (sized_range buffer size) local b) →
  (length (concat (show <$> items)) + B + 66 < fuel)%nat →
  ∃ outs m', Forall2 item_text items outs
    ∧ snprintf ftoa local fuel m buffer size f (concat (item_args <$> items) ++ args) = Ok (s32 (len (concat outs)), m')
    ∧ seg m' buffer (take (Z.to_nat (size - 1)) (concat outs))
    ∧ m' (buffer + Z.min (len (concat outs)) (size - 1)) = 0
    ∧ ∀ b, safe (sized_range buffer size) local b → m' b = m b.
Proof.
  intros Hbuf Hsize Hlocal Hdis Hm Hok HB Hs Hsafe Hf.
  destruct (snprintf_ok ftoa local fuel m buffer size f items args B) as (outs & m' & Ht & Hr & Hseg & H0 & Hag & _); [done..|].
  by exists outs, m'.
Qed.

(** ["%-5d|%05u|%s"] at 100 with its string argument at 113, into 6 bytes at 200. *)
Definition printf_demo : ram := λ a, default 0
  ([37; 45; 53; 100; 124; 37; 48; 53; 117; 124; 37; 115; 0; 97; 98; 0] !! Z.to_nat (a - 100)).
Definition printf_items : list item :=
  [Conv true None [5] None (KD 7); Chr 124; Conv false (Some 48) [5] None (KU 42); Chr 124;
   Conv false None [] None (KS 113 [97; 98])].

Lemma snprintf_exact_witness :
  ∃ outs m', Forall2 item_text printf_items outs
    ∧ snprintf (λ m _ _ _ _, Ok m) 300 100 printf_demo 200 6 100 [7; 42; 113] = Ok (s32 (len (concat outs)), m')
    ∧ m' (200 + Z.min (len (concat outs)) 5) = 0.
Proof.
  destruct (snprintf_exact (λ m _ _ _ _, Ok m) 300 100 printf_demo 200 6 100 printf_items [] 2)
    as (outs & m' & Ht & Hr & _ & H0 & _).
  - lia.
  - lia.
  - lia.
  - lia.
  - intros a. unfold printf_demo. generalize (Z.to_nat (a - 100)). intros i.
    destruct (_ !! i) as [x|] eqn:E; [|simpl; lia]. apply list_elem_of_lookup_2 in E. simpl.
    repeat (apply elem_of_cons in E as [->|E]; [lia|]). by apply elem_of_nil in E.
  - assert (∀ b, 0 ≤ b < 200 → safe (sized_range 200 6) 300 b) as Hsafe.
    { intros b Hb. split; [unfold sized_range|]; lia. }
    repeat apply Forall_cons_2; try apply Forall_nil_2; simpl; try (unfold digits); split_and!; try done; try lia.
    all: try (repeat apply Forall_cons_2; try apply Forall_nil_2; lia).
    intros b Hb. apply Hsafe. simpl in Hb. lia.
  - repeat apply Forall_cons_2; try apply Forall_nil_2; simpl; lia.
  - vm_compute. repeat split; discriminate.
  - intros b Hb. simpl in Hb. split; [unfold sized_range|]; lia.
  - simpl. lia.
  - exists outs, m'. split; [exact Ht|split; [exact Hr|exact H0]].
Defined.
