(* ===== verification/CList.v ===== *)
(** The intrusive circular lists of klibcpp/cllist.hpp on byte memory.

    A node is the address of a [struct list_head]: [next] at offset 0, [prev] at
    offset 4.  [dll m head xs] says that the list at [head] has the entries [xs];
    every operation is shown to do to [xs] what its name says. *)
From S2P Require Import Prelude Memory.

Definition next (m : ram) (n : Z) : Z := rd32 m n.
Definition prev (m : ram) (n : Z) : Z := rd32 m (n + 4).
Definition set_next (m : ram) (n v : Z) : ram := wr32 m n v.
Definition set_prev (m : ram) (n v : Z) : ram := wr32 m (n + 4) v.

Definition INIT_LIST_HEAD (m : ram) (ptr : Z) : ram := set_prev (set_next m ptr ptr) ptr ptr.

Definition __list_add (m : ram) (_new prev next : Z) : ram :=
  let m := set_prev m next _new in
  let m := set_next m _new next in
  let m := set_prev m _new prev in
  set_next m prev _new.
Definition list_add (m : ram) (_new head : Z) : ram := __list_add m _new head (next m head).
Definition list_add_tail (m : ram) (_new head : Z) : ram := __list_add m _new (prev m head) head.

Definition __list_del (m : ram) (prev next : Z) : ram := set_next (set_prev m next prev) prev next.
Definition __list_del_entry (m : ram) (entry : Z) : ram := __list_del m (prev m entry) (next m entry).
Definition list_del (m : ram) (entry : Z) : ram :=
  let m := __list_del m (prev m entry) (next m entry) in
  set_prev (set_next m entry 0) entry 0.
Definition list_del_init (m : ram) (entry : Z) : ram :=
  INIT_LIST_HEAD (__list_del m (prev m entry) (next m entry)) entry.
Definition list_move (m : ram) (list head : Z) : ram :=
  list_add (__list_del m (prev m list) (next m list)) list head.
Definition list_move_tail (m : ram) (list head : Z) : ram :=
  list_add_tail (__list_del m (prev m list) (next m list)) list head.

Definition list_empty (m : ram) (head : Z) : bool := (next m head =? head) || (next m head =? 0).

Fixpoint list_size_loop (fuel : nat) (m : ram) (head p size : Z) : res Z :=
  match fuel with
  | O => NoFuel
  | S fuel => if p =? head then Ok size else list_size_loop fuel m head (next m p) (size + 1)
  end.
Definition list_size (fuel : nat) (m : ram) (head : Z) : res Z := list_size_loop fuel m head (next m head) 0.

(** [list_for_each] with a [break]: the position at which [stop] holds, or [head]. *)
Fixpoint find_from (fuel : nat) (m : ram) (head pos : Z) (stop : Z → bool) : res Z :=
  match fuel with
  | O => NoFuel
  | S fuel =>
      if pos =? head then Ok head
      else if stop pos then Ok pos
      else find_from fuel m head (next m pos) stop
  end.
Definition list_find (fuel : nat) (m : ram) (head : Z) (stop : Z → bool) : res Z :=
  find_from fuel m head (next m head) stop.

(** ** Lists in memory *)

Definition apart (a b : Z) : Prop := a + 8 ≤ b ∨ b + 8 ≤ a.
Definition node (a : Z) : Prop := 0 < a ∧ a + 8 ≤ 2 ^ 32.

Fixpoint all_apart (l : list Z) : Prop :=
  match l with
  | [] => True
  | a :: l => Forall (apart a) l ∧ all_apart l
  end.

(** Consecutive nodes point at each other. *)
Fixpoint links (m : ram) (l : list Z) : Prop :=
  match l with
  | a :: t => match t with
              | b :: _ => next m a = b ∧ prev m b = a ∧ links m t
              | [] => True
              end
  | [] => True
  end.

Definition dll (m : ram) (head : Z) (xs : list Z) : Prop :=
  links m (head :: xs ++ [head]) ∧ all_apart (head :: xs) ∧ Forall node (head :: xs).

Lemma all_apart_app l1 l2 :
  all_apart (l1 ++ l2) ↔ all_apart l1 ∧ all_apart l2 ∧ ∀ a b, a ∈ l1 → b ∈ l2 → apart a b.
Proof.
  induction l1 as [|x l1 IH]; simpl.
  - split; [intros H; split_and!; [done..|]; intros a b Ha; by apply elem_of_nil in Ha|tauto].
  - rewrite IH, Forall_app, !Forall_forall. split.
    + intros [[H1 H2] (H3 & H4 & H5)]. split_and!; [done..|].
      intros a b [->|Ha]%elem_of_cons Hb; [by apply H2|by apply H5].
    + intros ([H1 H2] & H3 & H4). split_and!; try done.
      * intros b Hb. apply H4; [left|done].
      * intros a b Ha Hb. apply H4; [by right|done].
Qed.

Lemma all_apart_mid l1 x l2 : all_apart (l1 ++ x :: l2) ↔
  all_apart (l1 ++ l2) ∧ ∀ a, a ∈ l1 ++ l2 → apart x a.
Proof.
  rewrite !all_apart_app. simpl. rewrite Forall_forall. setoid_rewrite elem_of_app. setoid_rewrite elem_of_cons.
  assert (∀ a b, apart a b → apart b a) as Hsym by (unfold apart; lia).
  split; [intros (H1 & [H2 H3] & H4)|intros ((H1 & H3 & H4) & H2)]; split_and!; try done; eauto.
  - intros a [Ha|Ha]; eauto.
  - intros a b Ha [->|Hb]; eauto.
Qed.

Lemma all_apart_in l a b : all_apart l → a ∈ l → b ∈ l → a = b ∨ apart a b.
Proof.
  intros H Ha Hb. apply list_elem_of_split in Ha as (l1 & l2 & ->).
  apply all_apart_mid in H as [_ H]. apply elem_of_app in Hb as [Hb|[->|Hb]%elem_of_cons];
    [right; apply H, elem_of_app; by left|by left|right; apply H, elem_of_app; by right].
Qed.

Lemma links_mid m l1 : ∀ a l2, links m (l1 ++ a :: l2) ↔ links m (l1 ++ [a]) ∧ links m (a :: l2).
Proof.
  induction l1 as [|x l1 IH]; intros a l2; [simpl; tauto|]. destruct l1 as [|y l1].
  - simpl. tauto.
  - simpl in *. rewrite IH. tauto.
Qed.

(** Links only depend on the fields between their nodes. *)
Lemma links_ext m m' l : (∀ a, a ∈ l → last l ≠ Some a → next m' a = next m a) →
  (∀ b, b ∈ l → head l ≠ Some b → prev m' b = prev m b) → all_apart l → links m l → links m' l.
Proof.
  revert m m'. induction l as [|a [|b l] IH]; intros m m' Hn Hp Ha Hl; [done..|].
  destruct Hl as (H1 & H2 & Hl). destruct Ha as [Hab Ha].
  assert (∀ c, c ∈ b :: l → apart a c) as Hac by (by apply Forall_forall).
  split_and!.
  - rewrite Hn; [done|left|]. rewrite last_cons_cons. intros E%last_Some_elem_of.
    specialize (Hac a E). unfold apart in Hac. lia.
  - rewrite Hp; [done|right; left|]. simpl. intros [= ->]. specialize (Hac b ltac:(left)). unfold apart in Hac. lia.
  - apply (IH m); [| |done|done].
    + intros c Hc Hlast. apply Hn; [by right|]. by rewrite last_cons_cons.
    + intros c Hc Hh. apply Hp; [by right|]. simpl. intros [= ->].
      specialize (Hac c Hc). unfold apart in Hac. lia.
Qed.

(** Field accesses of nodes that are equal or apart. *)
Lemma next_set_prev m a b v : a = b ∨ apart a b → next (set_prev m b v) a = next m a.
Proof. intros H. apply rd32_wr32_other. unfold apart in H. lia. Qed.
Lemma prev_set_next m a b v : a = b ∨ apart a b → prev (set_next m b v) a = prev m a.
Proof. intros H. apply rd32_wr32_other. unfold apart in H. lia. Qed.
Lemma next_set_next m a b v : apart a b → next (set_next m b v) a = next m a.
Proof. intros H. apply rd32_wr32_other. unfold apart in H. lia. Qed.
Lemma prev_set_prev m a b v : apart a b → prev (set_prev m b v) a = prev m a.
Proof. intros H. apply rd32_wr32_other. unfold apart in H. lia. Qed.
Lemma next_set_same m a v : node v → next (set_next m a v) a = v.
Proof. intros H. apply rd32_wr32_same. unfold node in H. lia. Qed.
Lemma prev_set_same m a v : node v → prev (set_prev m a v) a = v.
Proof. intros H. apply rd32_wr32_same. unfold node in H. lia. Qed.

(** The ends of the two halves of a list. *)
Record split_at (head : Z) (l1 l2 s1 : list Z) (p n : Z) (s2 : list Z) : Prop := {
  sp_left : head :: l1 = s1 ++ [p];
  sp_right : l2 ++ [head] = n :: s2
}.

Lemma split_exists head l1 l2 : ∃ s1 p n s2, split_at head l1 l2 s1 p n s2.
Proof.
  destruct (exists_last (l := head :: l1)) as (s1 & p & E); [done|].
  destruct (l2 ++ [head]) as [|n s2] eqn:E2; [by destruct l2|]. by exists s1, p, n, s2.
Qed.

Section split.
Context (m : ram) (head : Z) (l1 l2 s1 : list Z) (p n : Z) (s2 : list Z).
Hypothesis Hsp : split_at head l1 l2 s1 p n s2.
Hypothesis Hap : all_apart (head :: l1 ++ l2).
Hypothesis Hnode : Forall node (head :: l1 ++ l2).

Lemma split_links : links m (head :: (l1 ++ l2) ++ [head]) ↔
  links m (s1 ++ [p]) ∧ next m p = n ∧ prev m n = p ∧ links m (n :: s2).
Proof using Hsp.
  destruct Hsp as [E1 E2]. rewrite <- app_assoc, E2, app_comm_cons, E1, <- app_assoc. simpl.
  rewrite links_mid. simpl. tauto.
Qed.

Lemma split_left a : a ∈ s1 ++ [p] ↔ a = head ∨ a ∈ l1.
Proof using Hsp. destruct Hsp as [E1 _]. rewrite <- E1. apply elem_of_cons. Qed.

Lemma split_right a : a ∈ n :: s2 ↔ a ∈ l2 ∨ a = head.
Proof using Hsp. destruct Hsp as [_ E2]. rewrite <- E2, elem_of_app, list_elem_of_singleton. done. Qed.

Lemma split_apart : all_apart (s1 ++ [p]) ∧ all_apart (n :: s2)
  ∧ (∀ a, a ∈ n :: s2 → last (n :: s2) ≠ Some a → apart p a)
  ∧ (∀ b, b ∈ s1 ++ [p] → list.head (s1 ++ [p]) ≠ Some b → apart n b)
  ∧ (∀ a b, a ∈ head :: l1 ++ l2 → b ∈ head :: l1 ++ l2 → a = b ∨ apart a b)
  ∧ p ∈ head :: l1 ++ l2 ∧ n ∈ head :: l1 ++ l2.
Proof using Hsp Hap.
  assert (p ∈ head :: l1) as Hp.
  { destruct Hsp as [E1 _]. rewrite E1. apply elem_of_app. right. by left. }
  assert (n ∈ l2 ++ [head]) as Hn by (destruct Hsp as [_ E2]; rewrite E2; by left).
  destruct Hap as [Hh Hap']. rewrite Forall_forall in Hh. apply all_apart_app in Hap' as (H1 & H2 & H3).
  assert (∀ a b, apart a b → apart b a) as Hsym by (unfold apart; lia).
  split_and!.
  - destruct Hsp as [E1 _]. rewrite <- E1. split; [|done]. apply Forall_forall. intros a Ha. apply Hh, elem_of_app. by left.
  - destruct Hsp as [_ E2]. rewrite <- E2. apply all_apart_app. split_and!; [done|by repeat constructor|].
    intros a b Ha ->%list_elem_of_singleton. apply Hsym, Hh, elem_of_app. by right.
  - destruct Hsp as [_ E2]. rewrite <- E2, last_snoc. intros a [Ha|Ha%list_elem_of_singleton]%elem_of_app Hne; [|by subst].
    apply elem_of_cons in Hp as [->|Hp]; [apply Hh, elem_of_app; by right|by apply H3].
  - destruct Hsp as [E1 _]. rewrite <- E1. intros b [->|Hb]%elem_of_cons Hne; [done|].
    apply elem_of_app in Hn as [Hn|Hn%list_elem_of_singleton]; [by apply Hsym, H3|]. subst n.
    apply Hh, elem_of_app. by left.
  - intros a b Ha Hb. eapply all_apart_in; [|done..]. done.
  - apply elem_of_cons in Hp as [->|Hp]; [by left|right; apply elem_of_app; by left].
  - apply elem_of_app in Hn as [Hn|Hn%list_elem_of_singleton]; [right; apply elem_of_app; by right|subst; by left].
Qed.

Lemma add_dll _new : node _new → (∀ a, a ∈ head :: l1 ++ l2 → apart _new a) →
  links m (head :: (l1 ++ l2) ++ [head]) → dll (__list_add m _new p n) head (l1 ++ _new :: l2).
Proof using Hsp Hap Hnode.
  intros Hnew Hfresh Hl. apply split_links in Hl as (HL & _ & _ & HR).
  destruct split_apart as (A1 & A2 & A3 & A4 & A5 & Hp & Hn).
  rewrite Forall_forall in Hnode. pose proof (Hnode p Hp) as Np. pose proof (Hnode n Hn) as Nn.
  pose proof (Hfresh p Hp) as Fp. pose proof (Hfresh n Hn) as Fn.
  assert (∀ a b, apart a b → apart b a) as Hsym by (unfold apart; lia).
  assert (∀ a, a ∈ s1 ++ [p] → a ∈ head :: l1 ++ l2) as I1.
  { intros a [->|Ha]%split_left; [by left|right; apply elem_of_app; by left]. }
  assert (∀ a, a ∈ n :: s2 → a ∈ head :: l1 ++ l2) as I2.
  { intros a [Ha| ->]%split_right; [right; apply elem_of_app; by right|by left]. }
  unfold dll. split_and!.
  - destruct Hsp as [E1 E2]. rewrite <- app_assoc, app_comm_cons, E1, <- app_assoc. simpl. rewrite E2.
    rewrite links_mid. unfold __list_add. split; [|simpl; split_and!].
    + eapply links_ext; [| |done|exact HL].
      * intros a Ha Hlast. assert (apart a p) as Hap1.
        { destruct (A5 a p (I1 a Ha) Hp) as [->|]; [|done]. by rewrite last_snoc in Hlast. }
        rewrite next_set_next, next_set_prev, next_set_next, next_set_prev; auto.
      * intros b Hb Hh. rewrite prev_set_next, prev_set_prev, prev_set_next, prev_set_prev; auto.
    + by apply next_set_same.
    + rewrite prev_set_next by auto. by apply prev_set_same.
    + rewrite next_set_next, next_set_prev by auto. by apply next_set_same.
    + rewrite prev_set_next, prev_set_prev, prev_set_next by auto. by apply prev_set_same.
    + eapply (links_ext m _ (n :: s2)); [| |done|exact HR].
      * intros a Ha Hlast. rewrite next_set_next, next_set_prev, next_set_next, next_set_prev; auto.
      * intros b Hb Hh. assert (apart b n) as Hbn.
        { destruct (A5 b n (I2 b Hb) Hn) as [->|]; [|done]. by simpl in Hh. }
        rewrite prev_set_next, prev_set_prev, prev_set_next, prev_set_prev; auto.
  - rewrite app_comm_cons. apply all_apart_mid. done.
  - apply Forall_forall. intros a Ha. rewrite app_comm_cons, elem_of_app, (elem_of_cons l2) in Ha.
    destruct Ha as [Ha|[->|Ha]]; [|done|].
    + apply Hnode. apply elem_of_cons in Ha as [->|Ha]; [by left|right; apply elem_of_app; by left].
    + apply Hnode. right. apply elem_of_app. by right.
Qed.
End split.

(** Adding an entry between two neighbours, and removing one. *)
Lemma list_add_tail_dll m head l1 l2 _new :
  dll m head (l1 ++ l2) → node _new → (∀ a, a ∈ head :: l1 ++ l2 → apart _new a) →
  dll (list_add_tail m _new (default head (hd_error l2))) head (l1 ++ _new :: l2).
Proof.
  intros (Hl & Ha & Hn) Hnew Hfresh. destruct (split_exists head l1 l2) as (s1 & p & n & s2 & Hsp).
  assert (default head (hd_error l2) = n) as -> by (destruct Hsp as [_ E2]; destruct l2; simpl in *; congruence).
  pose proof Hl as Hl'. apply (split_links m head l1 l2 s1 p n s2 Hsp) in Hl' as (_ & _ & E & _).
  unfold list_add_tail. rewrite E. by eapply add_dll.
Qed.

Lemma list_add_dll m head xs _new :
  dll m head xs → node _new → (∀ a, a ∈ head :: xs → apart _new a) → dll (list_add m _new head) head (_new :: xs).
Proof.
  intros (Hl & Ha & Hn) Hnew Hfresh. destruct (split_exists head [] xs) as (s1 & p & n & s2 & Hsp).
  assert (p = head) as ->.
  { destruct Hsp as [E1 _]. destruct s1 as [|x s1]; simpl in E1; [congruence|]. by destruct s1. }
  pose proof Hl as Hl'. apply (split_links m head [] xs s1 head n s2 Hsp) in Hl' as (_ & E & _).
  unfold list_add. rewrite E. apply (add_dll m head [] xs s1 head n s2 Hsp Ha Hn _new); done.
Qed.

Lemma list_del_dll m head l1 x l2 : dll m head (l1 ++ x :: l2) → dll (__list_del_entry m x) head (l1 ++ l2).
Proof.
  intros (Hl & Ha & Hn). destruct (split_exists head l1 l2) as (s1 & p & n & s2 & Hsp).
  assert (all_apart (head :: l1 ++ l2)) as Ha'.
  { rewrite app_comm_cons in *. by apply all_apart_mid in Ha as [? _]. }
  assert (Forall node (head :: l1 ++ l2)) as Hn'.
  { rewrite app_comm_cons in *. rewrite Forall_app in *. destruct Hn as [? [? ?]%Forall_cons]. done. }
  destruct (split_apart head l1 l2 s1 p n s2 Hsp Ha') as (A1 & A2 & A3 & A4 & A5 & Hp & Hn2).
  pose proof Hsp as [E1 E2].
  assert (links m (s1 ++ [p]) ∧ prev m x = p ∧ next m x = n ∧ links m (n :: s2)) as (HL & Hpx & Hnx & HR).
  { rewrite <- app_assoc, app_comm_cons, E1, <- app_assoc in Hl. simpl in Hl. rewrite E2, links_mid in Hl.
    simpl in Hl. tauto. }
  assert (∀ a, a ∈ s1 ++ [p] → a ∈ head :: l1 ++ l2) as I1.
  { intros a Hin. apply (split_left head l1 l2 s1 p n s2 Hsp) in Hin as [->|Hin]; [by left|right; apply elem_of_app; by left]. }
  assert (∀ a, a ∈ n :: s2 → a ∈ head :: l1 ++ l2) as I2.
  { intros a Hin. apply (split_right head l1 l2 s1 p n s2 Hsp) in Hin as [Hin| ->]; [right; apply elem_of_app; by right|by left]. }
  assert (∀ a b, apart a b → apart b a) as Hsym by (unfold apart; lia).
  pose proof (proj1 (Forall_forall _ _) Hn') as Hnode.
  split_and!; [|done..]. apply (split_links _ head l1 l2 s1 p n s2 Hsp).
  unfold __list_del_entry. rewrite Hpx, Hnx. unfold __list_del. split_and!.
  - eapply links_ext; [| |done|exact HL].
    + intros a Hin Hlast. rewrite next_set_next, next_set_prev; auto.
      destruct (A5 a p (I1 a Hin) Hp) as [->|]; [|done]. by rewrite last_snoc in Hlast.
    + intros b Hb Hh. rewrite prev_set_next, prev_set_prev; auto.
  - apply next_set_same. auto.
  - rewrite prev_set_next by auto. apply prev_set_same. auto.
  - eapply links_ext; [| |done|exact HR].
    + intros a Hin Hlast. rewrite next_set_next, next_set_prev; auto.
    + intros b Hb Hh. rewrite prev_set_next, prev_set_prev; auto.
      destruct (A5 b n (I2 b Hb) Hn2) as [->|]; [|done]. by simpl in Hh.
Qed.

Lemma init_dll m head : node head → dll (INIT_LIST_HEAD m head) head [].
Proof.
  intros Hn. unfold dll, INIT_LIST_HEAD. simpl. split_and!; try done; [..|apply Forall_cons_2; [done|apply Forall_nil_2]].
  - rewrite next_set_prev by (by left). by apply next_set_same.
  - by apply prev_set_same.
Qed.

Lemma dll_next m head xs : dll m head xs → next m head = default head (hd_error xs).
Proof. intros (H & _). destruct xs; simpl in *; tauto. Qed.

Lemma head_fresh m head xs x : dll m head xs → x ∈ xs → x ≠ head.
Proof.
  intros (_ & [Ha _] & _) Hx ->. rewrite Forall_forall in Ha. specialize (Ha head Hx). unfold apart in Ha. lia.
Qed.

(** Walking from an entry reaches the rest of the list in order. *)
Lemma links_next m head l1 x l2 : links m (head :: (l1 ++ x :: l2) ++ [head]) → next m x = default head (hd_error l2).
Proof.
  intros H. rewrite <- app_assoc, <- app_comm_cons, (app_comm_cons l1) in H.
  apply links_mid in H as [_ H]. destruct l2; simpl in *; tauto.
Qed.

(** The entries before the first one at which [stop] holds, and the rest. *)
Fixpoint break_at (stop : Z → bool) (xs : list Z) : list Z * list Z :=
  match xs with
  | [] => ([], [])
  | x :: t => if stop x then ([], xs) else let '(a, b) := break_at stop t in (x :: a, b)
  end.

Lemma break_at_app stop xs : (break_at stop xs).1 ++ (break_at stop xs).2 = xs.
Proof.
  induction xs as [|x t IH]; simpl; [done|]. destruct (stop x); [done|]. destruct (break_at stop t). simpl in *. by f_equal.
Qed.

Lemma find_from_ok m head stop l2 : ∀ l1 fuel, dll m head (l1 ++ l2) → (length l2 < fuel)%nat →
  find_from fuel m head (default head (hd_error l2)) stop = Ok (default head (hd_error (break_at stop l2).2)).
Proof.
  induction l2 as [|x l2 IH]; intros l1 [|fuel] Hd Hf; cbn [length] in Hf; try lia; cbn [find_from hd_error from_option id].
  - by rewrite Z.eqb_refl.
  - assert (x ≠ head) as Hx by (eapply head_fresh; [done|]; apply elem_of_app; right; by left).
    rewrite (proj2 (Z.eqb_neq x head) Hx). simpl. destruct (stop x); [done|].
    rewrite (links_next m head l1 x l2) by apply Hd. destruct (break_at stop l2) as [a b].
    apply (IH (l1 ++ [x]) fuel); [|lia]. by rewrite <- app_assoc.
Qed.

Lemma list_find_ok m head stop xs fuel : dll m head xs → (length xs < fuel)%nat →
  list_find fuel m head stop = Ok (default head (hd_error (break_at stop xs).2)).
Proof.
  intros Hd Hf. unfold list_find. rewrite (dll_next m head xs Hd). by apply (find_from_ok m head stop xs []).
Qed.

Lemma list_size_ok m head l2 : ∀ l1 fuel n, dll m head (l1 ++ l2) → (length l2 < fuel)%nat →
  list_size_loop fuel m head (default head (hd_error l2)) n = Ok (n + Z.of_nat (length l2)).
Proof.
  induction l2 as [|x l2 IH]; intros l1 [|fuel] n Hd Hf; cbn [length] in *; try lia;
    cbn [list_size_loop hd_error from_option id].
  - rewrite Z.eqb_refl. f_equal. simpl. lia.
  - assert (x ≠ head) as Hx by (eapply head_fresh; [done|]; apply elem_of_app; right; by left).
    rewrite (proj2 (Z.eqb_neq x head) Hx), (links_next m head l1 x l2) by apply Hd.
    rewrite (IH (l1 ++ [x])); [f_equal; lia| |lia]. by rewrite <- app_assoc.
Qed.

Lemma list_empty_ok m head xs : dll m head xs → list_empty m head = bool_decide (xs = []).
Proof.
  intros Hd. unfold list_empty. rewrite (dll_next m head xs Hd). destruct xs as [|x xs]; simpl.
  - by rewrite Z.eqb_refl.
  - assert (x ≠ head) as Hx by (eapply head_fresh; [done|]; by left).
    destruct Hd as (_ & _ & [_ [Hn _]%Forall_cons]%Forall_cons). unfold node in Hn.
    rewrite (proj2 (Z.eqb_neq x head) Hx), (proj2 (Z.eqb_neq x 0)) by lia. done.
Qed.

(** The byte [b] is outside the node [n]. *)
Definition outside (n b : Z) : Prop := b < n ∨ n + 8 ≤ b.

Lemma list_add_frame m _new p n b :
  outside _new b → outside p b → outside n b → __list_add m _new p n b = m b.
Proof.
  intros H1 H2 H3. unfold __list_add, set_next, set_prev, outside in *. rewrite !wr32_other8 by lia. done.
Qed.

Lemma list_del_frame m p n b : outside p b → outside n b → __list_del m p n b = m b.
Proof. intros H1 H2. unfold __list_del, set_next, set_prev, outside in *. rewrite !wr32_other8 by lia. done. Qed.

(** The neighbours of a position or an entry are nodes of the list. *)
Lemma dll_prev_in m head l1 l2 : dll m head (l1 ++ l2) → prev m (default head (hd_error l2)) ∈ head :: l1.
Proof.
  intros (Hl & Ha & Hn). destruct (split_exists head l1 l2) as (s1 & p & n & s2 & Hsp).
  assert (default head (hd_error l2) = n) as -> by (destruct Hsp as [_ E2]; destruct l2; simpl in *; congruence).
  apply (split_links m head l1 l2 s1 p n s2 Hsp) in Hl as (_ & _ & -> & _).
  destruct Hsp as [-> _]. apply elem_of_app. right. by left.
Qed.

Lemma dll_entry_prev m head l1 x l2 : dll m head (l1 ++ x :: l2) → prev m x ∈ head :: l1.
Proof. intros H. apply (dll_prev_in m head l1 (x :: l2) H). Qed.

Lemma dll_entry_next m head l1 x l2 : dll m head (l1 ++ x :: l2) → next m x ∈ head :: l2.
Proof.
  intros (Hl & _). rewrite (links_next m head l1 x l2 Hl). destruct l2; simpl; [by left|right; by left].
Qed.

Lemma dll_ext m m' head xs : dll m head xs →
  (∀ n b, n ∈ head :: xs → n ≤ b < n + 8 → m' b = m b) → dll m' head xs.
Proof.
  intros (Hl & Ha & Hn) Hext. split_and!; [|done..]. destruct (split_exists head xs []) as (s1 & p & n & s2 & Hsp).
  rewrite <- (app_nil_r xs) in Hl |- *. apply (split_links _ head xs [] s1 p n s2 Hsp).
  apply (split_links _ head xs [] s1 p n s2 Hsp) in Hl as (HL & Hp & Hq & HR).
  assert (∀ n, n ∈ head :: xs → next m' n = next m n ∧ prev m' n = prev m n) as Hf.
  { intros k Hk. split; apply rd32_ext; intros b Hb; apply (Hext k b Hk); lia. }
  destruct Hsp as [E1 E2]. simpl in E2. injection E2 as <- <-.
  assert (p ∈ head :: xs) as Hpin by (rewrite E1; apply elem_of_app; right; by left).
  split_and!.
  - rewrite <- E1 in *. eapply links_ext; [| |done|exact HL]; intros k Hk _; by apply Hf.
  - rewrite <- Hp. by apply Hf.
  - rewrite <- Hq. apply Hf. by left.
  - done.
Qed.

(** Only bytes of the nodes [ns] may differ. *)
Definition untouched (ns : list Z) (m m' : ram) : Prop := ∀ b, (∀ n, n ∈ ns → outside n b) → m' b = m b.

Lemma untouched_trans ns m1 m2 m3 : untouched ns m1 m2 → untouched ns m2 m3 → untouched ns m1 m3.
Proof. intros H1 H2 b Hb. by rewrite H2, H1. Qed.

Lemma add_untouched ns m x p n : x ∈ ns → p ∈ ns → n ∈ ns → untouched ns m (__list_add m x p n).
Proof. intros Hx Hp Hn b Hb. apply list_add_frame; by apply Hb. Qed.

Lemma del_untouched ns m p n : p ∈ ns → n ∈ ns → untouched ns m (__list_del m p n).
Proof. intros Hp Hn b Hb. apply list_del_frame; by apply Hb. Qed.

Lemma set_untouched ns m x v w : x ∈ ns → untouched ns m (set_prev (set_next m x v) x w).
Proof. intros Hx b Hb. specialize (Hb x Hx). unfold set_next, set_prev, outside in *. by rewrite !wr32_other8 by lia. Qed.

(** The effect of an operation: the list it leaves, and the nodes it may write. *)
Definition yields (m m' : ram) (head : Z) (xs ns : list Z) : Prop := dll m' head xs ∧ untouched ns m m'.

Section effects.
Context (m : ram) (head : Z) (l1 l2 : list Z) (x : Z).
Hypothesis Hx : node x.
Hypothesis Hfr : ∀ a, a ∈ head :: l1 ++ l2 → apart x a.
Abbreviation nodes := (x :: head :: l1 ++ l2).

Lemma add_tail_effect : dll m head (l1 ++ l2) →
  yields m (list_add_tail m x (default head (hd_error l2))) head (l1 ++ x :: l2) nodes.
Proof using Hx Hfr.
  intros Hd. split; [by apply list_add_tail_dll|]. apply add_untouched; [by left| |].
  - apply elem_of_cons. right. pose proof (dll_prev_in m head l1 l2 Hd) as Hp. set_solver.
  - destruct l2; simpl; set_solver.
Qed.

Lemma add_effect : dll m head (l1 ++ l2) → yields m (list_add m x head) head (x :: l1 ++ l2) nodes.
Proof using Hx Hfr.
  intros Hd. split; [by apply list_add_dll|]. unfold list_add. rewrite (dll_next _ _ _ Hd).
  apply add_untouched; [set_solver..|]. destruct (l1 ++ l2); simpl; set_solver.
Qed.

Lemma del_effect : dll m head (l1 ++ x :: l2) → yields m (__list_del_entry m x) head (l1 ++ l2) nodes.
Proof using Type.
  clear Hx Hfr. intros Hd. split; [by apply list_del_dll|].
  pose proof (dll_entry_prev m head l1 x l2 Hd). pose proof (dll_entry_next m head l1 x l2 Hd).
  apply del_untouched; set_solver.
Qed.

(** Writing the fields of the entry that is no longer in the list. *)
Lemma clear_effect v w : dll m head (l1 ++ x :: l2) →
  yields m (set_prev (set_next (__list_del_entry m x) x v) x w) head (l1 ++ l2) nodes.
Proof using Hfr.
  clear Hx. intros [Hl Hu]%del_effect. split; [|eapply untouched_trans; [exact Hu|apply set_untouched; by left]].
  eapply dll_ext; [exact Hl|]. intros n b Hn Hb. specialize (Hfr n Hn). unfold apart, set_next, set_prev in *.
  by rewrite !wr32_other8 by lia.
Qed.
End effects.

(** C22: the intrusive lists implement sequences. Starting from an initialized
    head, adding at either end or before an entry, removing an entry and moving it do to the
    sequence of entries what they say, and write no byte outside the nodes of the list and the entry;
    a deleted entry is left with null links, or as a list of its own. [list_empty], [list_size] and
    the loops of [list_for_each] see exactly that sequence, and the loops end. *)
Theorem list_refines_sequence m head l1 l2 x fuel stop :
  node head → (length (l1 ++ x :: l2) < fuel)%nat → node x → (∀ a, a ∈ head :: l1 ++ l2 → apart x a) →
  let nodes := x :: head :: l1 ++ l2 in
  yields m (INIT_LIST_HEAD m head) head [] [head]
  ∧ (dll m head (l1 ++ l2) →
     yields m (list_add_tail m x (default head (hd_error l2))) head (l1 ++ x :: l2) nodes
     ∧ yields m (list_add_tail m x head) head (l1 ++ l2 ++ [x]) nodes
     ∧ yields m (list_add m x head) head (x :: l1 ++ l2) nodes)
  ∧ (dll m head (l1 ++ x :: l2) →
     yields m (__list_del_entry m x) head (l1 ++ l2) nodes
     ∧ (let m' := list_del m x in yields m m' head (l1 ++ l2) nodes ∧ next m' x = 0 ∧ prev m' x = 0)
     ∧ (let m' := list_del_init m x in yields m m' head (l1 ++ l2) nodes ∧ dll m' x [])
     ∧ yields m (list_move m x head) head (x :: l1 ++ l2) nodes
     ∧ yields m (list_move_tail m x head) head (l1 ++ l2 ++ [x]) nodes
     ∧ list_empty m head = false
     ∧ list_size fuel m head = Ok (Z.of_nat (length (l1 ++ x :: l2)))
     ∧ list_find fuel m head stop = Ok (default head (hd_error (break_at stop (l1 ++ x :: l2)).2))).
Proof.
  intros Hh Hf Hx Hfr nodes.
  assert (∀ m0, dll m0 head (l1 ++ l2) → yields m0 (list_add_tail m0 x head) head (l1 ++ l2 ++ [x]) nodes) as Htail.
  { intros m0 Hd. pose proof (add_tail_effect m0 head (l1 ++ l2) [] x Hx) as H. rewrite app_nil_r, <- app_assoc in H. by apply H. }
  split_and!; [split; [by apply init_dll|apply set_untouched; by left]| |].
  - intros Hd. split_and!; [by apply add_tail_effect|by apply Htail|by apply add_effect].
  - intros Hd. destruct (del_effect m head l1 l2 x Hd) as [Hdel Hun]. cbv zeta. split_and!.
    + done.
    + by apply (clear_effect m head l1 l2 x Hfr 0 0).
    + unfold list_del. rewrite next_set_prev by (by left). by apply rd32_wr32_same.
    + by apply rd32_wr32_same.
    + by apply (clear_effect m head l1 l2 x Hfr x x).
    + by apply init_dll.
    + destruct (add_effect _ head l1 l2 x Hx Hfr Hdel) as [H1 H2]. split; [done|by eapply untouched_trans].
    + destruct (Htail _ Hdel) as [H1 H2]. split; [done|by eapply untouched_trans].
    + rewrite (list_empty_ok m head _ Hd). apply bool_decide_eq_false. by destruct l1.
    + unfold list_size. rewrite (dll_next _ _ _ Hd). by rewrite (list_size_ok m head _ []).
    + by apply list_find_ok.
Qed.

Lemma list_refines_sequence_witness :
  let m := list_add_tail (INIT_LIST_HEAD (λ _, 0) 16) 32 16 in
  dll m 16 [32] ∧ list_size 5 m 16 = Ok 1 ∧ yields m (list_del m 32) 16 [] [32; 16].
Proof.
  assert (∀ a, a ∈ [16] → apart 32 a) as Hfr by (intros a ->%list_elem_of_singleton; unfold apart; lia).
  assert (node 16 ∧ node 32) as [H16 H32] by (unfold node; lia).
  destruct (list_refines_sequence (λ _, 0) 16 [] [] 32 5 (λ _, false) H16 ltac:(simpl; lia) H32 Hfr) as ([Hi _] & _ & _).
  destruct (list_refines_sequence (INIT_LIST_HEAD (λ _, 0) 16) 16 [] [] 32 5 (λ _, false) H16 ltac:(simpl; lia) H32 Hfr)
    as (_ & Hadd & _). destruct (Hadd Hi) as ([Ha _] & _ & _). split; [exact Ha|].
  destruct (list_refines_sequence (list_add_tail (INIT_LIST_HEAD (λ _, 0) 16) 32 16) 16 [] [] 32 5 (λ _, false)
    H16 ltac:(simpl; lia) H32 Hfr) as (_ & _ & Hs). destruct (Hs Ha) as (_ & [Hd _] & _ & _ & _ & _ & Hsz & _).
  split; [exact Hsz|exact Hd].
Defined.
