(* ===== verification/Heap.v ===== *)
(** The kernel heap: kernel/include/mm/heap.hpp and kernel/src/mm/heap.cpp.

    The chunks live in memory with boundary tags ([prevFoot], [head] with the
    two in-use bits) and, when free, the links of a list ordered by size.  The
    code runs over any state that offers what the class [HeapMem] asks for: the fields, memory
    accesses, and pages. [Heap] is the model of such a state that the heap's theorems are about:
    memory between [startAddr] and [endAddr] and at the list head, and new pages of any
    content; [Backing.v] has the page tables and the frame allocator as another. Locking is
    modelled in [Locks.v]. *)
From S2P Require Import Prelude Memory Layout CList.

(** ** Constants of heap.cpp *)
Definition PINUSE_BIT : Z := 1.
Definition CINUSE_BIT : Z := 2.
Definition RESERV_BIT : Z := 4.
Definition INUSE_BITS : Z := Z.lor PINUSE_BIT CINUSE_BIT.
Definition FLAG_BITS : Z := Z.lor INUSE_BITS RESERV_BIT.
Definition HEAPCHUNK_SIZE : Z := 16.
Definition KMALLOC_ALIGN_MASK : Z := 8 - 1.
Definition MIN_CHUNK_SIZE : Z := Z.land (HEAPCHUNK_SIZE + KMALLOC_ALIGN_MASK) (not32 KMALLOC_ALIGN_MASK).
Definition CHUNK_OVERHEAD : Z := 4.
Definition MIN_REQUEST : Z := MIN_CHUNK_SIZE - CHUNK_OVERHEAD - 1.
Definition HEAP_MIN_SIZE : Z := KERNEL_HEAP_INITIAL_SIZE.

Definition pad_request (req : Z) : Z := Z.land (u32 (req + CHUNK_OVERHEAD + KMALLOC_ALIGN_MASK)) (not32 KMALLOC_ALIGN_MASK).
Definition request2size (req : Z) : Z := if req <? MIN_REQUEST then MIN_CHUNK_SIZE else pad_request req.
Definition chunk2mem (p : Z) : Z := u32 (p + 8).
Definition mem2chunk (p : Z) : Z := u32 (p - 8).
Definition chunk_plus_offset (p s : Z) : Z := u32 (p + s).
Definition chunk_minus_offset (p s : Z) : Z := u32 (p - s).
(** [&chunk->list] and [list_entry]. *)
Definition list_of (p : Z) : Z := u32 (p + 8).
Definition list_entry (l : Z) : Z := u32 (l - 8).

(** ** Code on a state of the heap *)
Definition M (St A : Type) : Type := St → res (A * St).
#[export] Instance M_ret St : MRet (M St) := fun A a h => Ok (a, h).
#[export] Instance M_bind St : MBind (M St) := fun A B f c h => '(a, h) ← c h; f a h.

Definition gets {St A} (f : St → A) : M St A := λ h, Ok (f h, h).
Definition modify {St} (f : St → St) : M St () := λ h, Ok ((), f h).
Definition assert_ {St} (b : bool) (text : string) : M St () := λ h, _ ← kassert b text; Ok ((), h).
Definition panic {St A} (msg : string) : M St A := λ _, Panic msg.
Definition fault {St A} (a : Z) : M St A := λ _, Fault a.
Definition out_of_fuel {St A} : M St A := λ _, NoFuel.

(** What the heap with its list head at [hd] asks of its state: its fields, memory accesses,
    and to give the pages at an address back. *)
Class HeapMem (hd : Z) (St : Type) := {
  start_of : St → Z;
  end_of : St → Z;
  max_of : St → Z;
  set_fields : Z → Z → Z → Z → St → St;
  put_end : Z → St → St;
  load : Z → M St Z;
  store : Z → Z → M St ();
  unmap_backing : Z → Z → M St ()
}.
Arguments start_of hd {St _}. Arguments end_of hd {St _}. Arguments max_of hd {St _}.
Arguments set_fields hd {St _}. Arguments put_end hd {St _}.
Arguments load hd {St _}. Arguments store hd {St _}. Arguments unmap_backing hd {St _}.

Section heap.
Context (hd : Z) {St : Type} `{HeapMem hd St}.
Local Abbreviation load := (load hd).
Local Abbreviation store := (store hd).
Local Abbreviation startAddr := (start_of hd).
Local Abbreviation endAddr := (end_of hd).
Local Abbreviation maxAddr := (max_of hd).
Local Abbreviation M := (M St).
(** [map_heap_backing] of an address and a size, with the permissions of the heap. *)
Variable map_heap_backing : Z → Z → M ().

(** ** Chunks *)
Definition get_prevFoot (p : Z) : M Z := load p.
Definition set_prevFoot (p v : Z) : M () := store p v.
Definition get_chunk_head (p : Z) : M Z := load (u32 (p + 4)).
Definition set_chunk_head (p v : Z) : M () := store (u32 (p + 4)) v.
Definition chunksize (p : Z) : M Z := v ← get_chunk_head p; mret (Z.land v (not32 FLAG_BITS)).
Definition pinuse (p : Z) : M bool := v ← get_chunk_head p; mret (negb (Z.land v PINUSE_BIT =? 0)).
Definition cinuse (p : Z) : M bool := v ← get_chunk_head p; mret (negb (Z.land v CINUSE_BIT =? 0)).
Definition ok_inuse (p : Z) : M bool := v ← get_chunk_head p; mret (negb (Z.land v INUSE_BITS =? PINUSE_BIT)).
Definition ok_address (p : Z) (h : St) : bool := (startAddr h <=? p) && (p <? endAddr h).
Definition clear_pinuse (p : Z) : M () := v ← get_chunk_head p; set_chunk_head p (Z.land v (not32 PINUSE_BIT)).
Definition set_pinuse (p : Z) : M () := v ← get_chunk_head p; set_chunk_head p (Z.lor v PINUSE_BIT).
Definition set_inuse (p s : Z) : M () :=
  v ← get_chunk_head p;
  _ ← set_chunk_head p (Z.lor (Z.lor (Z.land v PINUSE_BIT) CINUSE_BIT) s);
  set_pinuse (chunk_plus_offset p s).
Definition set_size_and_pinuse (p s : Z) : M () := set_chunk_head p (Z.lor s PINUSE_BIT).
Definition set_foot (p s : Z) : M () := set_prevFoot (chunk_plus_offset p s) s.

(** ** The free list *)

(** [list_for_each] with a [break] on the size of the chunk. *)
Fixpoint scan (fuel : nat) (iter size : Z) : M Z :=
  match fuel with
  | O => out_of_fuel
  | S fuel =>
      if iter =? hd then mret hd
      else
        c ← chunksize (list_entry iter);
        if size <=? c then mret iter
        else n ← load iter; scan fuel n size
  end.

Definition findSmallestChunk (fuel : nat) (size : Z) : M Z :=
  first ← load hd;
  iter ← scan fuel first size;
  if iter =? hd then mret 0 else mret (list_entry iter).

(** The lists of cllist.hpp, access by access. *)
Definition init_head : M () := _ ← store hd hd; store (u32 (hd + 4)) hd.
Definition head_empty : M bool := n ← load hd; mret ((n =? hd) || (n =? 0)).

(** [list_add_tail(&chunk->list, pos)] *)
Definition add_before (chunk pos : Z) : M () :=
  p ← load (u32 (pos + 4));
  _ ← store (u32 (pos + 4)) (list_of chunk);
  _ ← store (list_of chunk) pos;
  _ ← store (u32 (list_of chunk + 4)) p;
  store p (list_of chunk).

Definition insertChunk (fuel : nat) (chunk : Z) : M () :=
  e ← head_empty;
  if e : bool then add_before chunk hd
  else
    csize ← chunksize chunk;
    first ← load hd;
    iter ← scan fuel first csize;
    add_before chunk iter.

Definition removeChunk (chunk : Z) : M () :=
  p ← load (u32 (list_of chunk + 4));
  n ← load (list_of chunk);
  _ ← store (u32 (n + 4)) p;
  store p n.

(** ** Growing and shrinking *)
Definition align_heap_size (size : Z) : Z := align_up size PAGE_SIZE.

Definition expand_unlocked (newSize : Z) : M () :=
  s ← gets startAddr; e ← gets endAddr; mx ← gets maxAddr;
  _ ← assert_ (u32 (e - s) <? newSize) "newSize > this->endAddr - this->startAddr";
  let newSize := align_heap_size newSize in
  _ ← assert_ (u32 (s + newSize) <=? mx) "this->startAddr + newSize <= this->maxAddr";
  let oldEnd := e in
  _ ← modify (put_end hd (u32 (s + newSize)));
  map_heap_backing oldEnd (u32 (u32 (s + newSize) - oldEnd)).

(** A heap smaller than [HEAP_MIN_SIZE] gives back a wrapped number of pages. *)
Definition contract_unlocked (newSize : Z) : M Z :=
  s ← gets startAddr; e ← gets endAddr;
  _ ← assert_ (newSize <? u32 (e - s)) "newSize < this->endAddr - this->startAddr";
  let newSize := align_heap_size newSize in
  let newSize := if newSize <? HEAP_MIN_SIZE then HEAP_MIN_SIZE else newSize in
  let oldEnd := e in
  _ ← modify (put_end hd (u32 (s + newSize)));
  let size := u32 (oldEnd - u32 (s + newSize)) in
  if size =? 0 then mret newSize
  else _ ← unmap_backing hd (u32 (s + newSize)) size; mret newSize.

(** [Heap::Heap] *)
Definition construct (start size max p : Z) : M () :=
  let size := align_heap_size size in
  let end_ := u32 (start + size) in
  _ ← assert_ (start mod PAGE_SIZE =? 0) "start % mm::PAGE_SIZE == 0";
  _ ← assert_ (end_ mod PAGE_SIZE =? 0) "end % mm::PAGE_SIZE == 0";
  _ ← modify (set_fields hd start end_ max p);
  _ ← init_head;
  _ ← map_heap_backing start size;
  _ ← set_prevFoot start 0;
  _ ← set_size_and_pinuse start size;
  insertChunk 2 start.

(** The free chunk at the highest address. *)
Fixpoint highest (fuel : nat) (iter tmp : Z) : M Z :=
  match fuel with
  | O => out_of_fuel
  | S fuel =>
      if iter =? hd then mret tmp
      else n ← load iter; highest fuel n (if tmp <? iter then iter else tmp)
  end.

(** After an expansion: extend the top hole, or make the new pages one. *)
Definition grow (fuel : nat) (nb : Z) : M () :=
  s ← gets startAddr; oldEndAddr ← gets endAddr;
  let oldSize := u32 (oldEndAddr - s) in
  _ ← expand_unlocked (u32 (oldSize + nb));
  e ← head_empty;
  tmp ← (if e : bool then mret 0 else first ← load hd; highest fuel first 0);
  end_ ← gets endAddr;
  top ← (if negb (tmp =? 0) then
           let topChunk := list_entry tmp in
           p ← pinuse topChunk; c ← cinuse topChunk;
           if negb p && c then panic "(alloc) Memory Corrupt"
           else
             oldCsize ← chunksize topChunk;
             if negb (chunk_plus_offset topChunk oldCsize =? oldEndAddr) then mret None
             else _ ← removeChunk topChunk; mret (Some (topChunk, u32 (end_ - topChunk)))
         else mret None);
  let '(topChunk, csize) := default (oldEndAddr, u32 (end_ - oldEndAddr)) top in
  _ ← set_size_and_pinuse topChunk csize;
  insertChunk fuel topChunk.

(** Take [nb] bytes from [hole], splitting off the rest when it is large enough. *)
Definition carve (fuel : nat) (hole nb : Z) : M Z :=
  c ← chunksize hole;
  _ ← assert_ (nb <=? c) "chunksize(hole) >= nb";
  _ ← removeChunk hole;
  c ← chunksize hole;
  nb ← (if u32 (nb + MIN_CHUNK_SIZE) <=? c then
          let nsize := u32 (c - nb) in
          let _new := chunk_plus_offset hole nb in
          _ ← set_chunk_head _new nsize;
          _ ← insertChunk fuel _new;
          mret nb
        else mret c);
  _ ← set_inuse hole nb;
  mret (chunk2mem hole).

Fixpoint alloc_unlocked (n fuel : nat) (size : Z) : M Z :=
  match n with
  | O => out_of_fuel
  | S n =>
      let nb := request2size size in
      hole ← findSmallestChunk fuel nb;
      if hole =? 0 then _ ← grow fuel nb; alloc_unlocked n fuel size
      else carve fuel hole nb
  end.
(** Growing makes a hole of at least [nb] bytes, so one retry is enough. *)
Definition alloc (fuel : nat) (size : Z) : M Z := alloc_unlocked 2 fuel size.

Definition corrupt {A} : M A := panic "(free) Memory Corrupt".

(** Merge with a free predecessor: the block and its size. *)
Definition merge_prev (block size : Z) : M (Z * Z) :=
  p ← pinuse block;
  if p : bool then mret (block, size)
  else
    prevsize ← get_prevFoot block;
    let prev := chunk_minus_offset block prevsize in
    ok ← gets (ok_address prev);
    if negb ok then corrupt
    else _ ← removeChunk prev; mret (prev, u32 (size + prevsize)).

(** Merge with a free successor: the size. *)
Definition merge_next (fuel : nat) (block next size : Z) : M Z :=
  ok ← gets (ok_address next);
  if negb ok then mret size
  else
    p ← pinuse next;
    if negb p then _ ← insertChunk fuel block; corrupt
    else
      c ← cinuse next;
      if c : bool then _ ← clear_pinuse next; mret size
      else
        nextsize ← chunksize next;
        e ← gets endAddr;
        if e <? chunk_plus_offset next nextsize then _ ← insertChunk fuel block; corrupt
        else _ ← removeChunk next; mret (u32 (size + nextsize)).

(** Give pages back when the block ends the heap; else write its footer. *)
Definition trim (block size : Z) : M (Z * Z) :=
  s ← gets startAddr; e ← gets endAddr;
  if chunk_plus_offset block size =? e then
    let oldSize := u32 (e - s) in
    let newSize := u32 (block - s) in
    let newSize := if negb (newSize mod PAGE_SIZE =? 0) then u32 (newSize + MIN_CHUNK_SIZE) else newSize in
    newSize ← contract_unlocked newSize;
    if u32 (oldSize - newSize) <? size then mret (block, u32 (size - u32 (oldSize - newSize)))
    else mret (0, 0)
  else _ ← set_foot block size; mret (block, size).

Definition free_unlocked (fuel : nat) (ptr : Z) : M () :=
  if ptr =? 0 then mret ()
  else
    let block := mem2chunk ptr in
    size ← chunksize block;
    let next := chunk_plus_offset block size in
    ok ← gets (ok_address ptr);
    if negb ok then corrupt
    else
      iu ← ok_inuse block;
      if negb iu then corrupt
      else
        '(block, size) ← merge_prev block size;
        size ← merge_next fuel block next size;
        '(block, size) ← trim block size;
        if negb (block =? 0) && negb (size =? 0) then
          _ ← set_size_and_pinuse block size;
          insertChunk fuel block
        else mret ().
Definition free := free_unlocked.

(** Split off the part before the next page boundary: the aligned chunk. *)
Definition lead_split (fuel : nat) (mem_ chunk : Z) : M Z :=
  if negb (mem_ mod PAGE_SIZE =? 0) then
    let br := mem2chunk (u32 (Z.land mem_ (u32 (- PAGE_SIZE)) + PAGE_SIZE)) in
    let pos := if MIN_CHUNK_SIZE <=? u32 (br - chunk) then br else u32 (br + PAGE_SIZE) in
    let newChunk := pos in
    let leadsize := u32 (pos - chunk) in
    c ← chunksize chunk;
    let newSize := u32 (c - leadsize) in
    _ ← set_inuse newChunk newSize;
    _ ← set_size_and_pinuse chunk leadsize;
    _ ← set_prevFoot newChunk leadsize;
    _ ← insertChunk fuel chunk;
    mret newChunk
  else mret chunk.

(** Free the part of the chunk behind the [nb] bytes asked for. *)
Definition cut_remainder (fuel : nat) (chunk csize nb : Z) : M () :=
  if u32 (nb + MIN_CHUNK_SIZE) <? csize then
    let remainderSize := u32 (csize - nb) in
    let remainder := chunk_plus_offset chunk nb in
    _ ← set_inuse chunk nb;
    _ ← set_inuse remainder remainderSize;
    free_unlocked fuel (chunk2mem remainder)
  else mret ().

(** What [palignedAlloc] does with the block at [m] that [alloc] gave it. *)
Definition align_block (fuel : nat) (nb m : Z) : M Z :=
  chunk ← lead_split fuel m (mem2chunk m);
  csize ← chunksize chunk;
  _ ← cut_remainder fuel chunk csize nb;
  let m := chunk2mem chunk in
  c ← chunksize chunk;
  _ ← assert_ (nb <=? c) "chunksize(chunk) >= nb";
  _ ← assert_ (m mod PAGE_SIZE =? 0) "((size_t)mem % mm::PAGE_SIZE) == 0";
  i ← cinuse chunk;
  _ ← assert_ i "cinuse(chunk)";
  mret m.

Definition palignedAlloc (fuel : nat) (size : Z) : M Z :=
  let nb := request2size size in
  let req := u32 (nb + PAGE_SIZE + MIN_CHUNK_SIZE - CHUNK_OVERHEAD) in
  m ← alloc fuel req;
  if m =? 0 then mret m else align_block fuel nb m.

(** [heap_malloc] and [heap_free]; there is no heap before its construction. *)
Definition heap_malloc (fuel : nat) (heap : option St) (size align : Z) : res (Z * option St) :=
  match heap with
  | Some h => '(addr, h) ← (if negb (align =? 0) then palignedAlloc fuel size h else alloc fuel size h); Ok (addr, Some h)
  | None => Ok (0, None)
  end.
Definition heap_free (fuel : nat) (heap : option St) (addr : Z) : res (option St) :=
  match heap with
  | Some h => '(_, h) ← free fuel addr h; Ok (Some h)
  | None => Ok None
  end.
End heap.

(** ** The memory as a model

    Memory can be accessed at the list head and between [startAddr] and [endAddr]; any other
    access faults. *)
Record Heap := MkHeap { startAddr : Z; endAddr : Z; maxAddr : Z; perms : Z; mem : ram }.
Definition with_mem (m : ram) (h : Heap) : Heap := MkHeap (startAddr h) (endAddr h) (maxAddr h) (perms h) m.
Definition with_end (e : Z) (h : Heap) : Heap := MkHeap (startAddr h) e (maxAddr h) (perms h) (mem h).

Definition accessible (hd : Z) (h : Heap) (a : Z) : bool :=
  ((startAddr h <=? a) && (a + 4 <=? endAddr h)) || ((hd <=? a) && (a <=? hd + 4)).

(** The pages given back are behind [endAddr] already; a wrapped number of them faults. *)
#[export] Instance heap_mem (hd : Z) : HeapMem hd Heap := {
  start_of := startAddr;
  end_of := endAddr;
  max_of := maxAddr;
  set_fields s e x p h := MkHeap s e x p (mem h);
  put_end := with_end;
  load a h := if accessible hd h a then Ok (rd32 (mem h) a, h) else Fault a;
  store a v h := if accessible hd h a then Ok ((), with_mem (wr32 (mem h) a v) h) else Fault a;
  unmap_backing va size h := if 2 ^ 32 <=? va + size then Fault (u32 (va + size)) else Ok ((), h)
}.

(** New pages at [virt_addr], with whatever their frames contain; [backed] says whether there
    are frames for [pages] of them. *)
Definition map_heap_backing (junk : ram) (backed : Z → Z → bool) (virt_addr size : Z) : M Heap () :=
  if size =? 0 then mret ()
  else if backed virt_addr (size / PAGE_SIZE)
  then modify (λ h, with_mem (λ a, if (virt_addr <=? a) && (a <? virt_addr + size) then u8 (junk a) else mem h a) h)
  else panic "no free frames".

(** A new heap on memory [m]. *)
Definition heap_init (hd : Z) (junk : ram) (backed : Z → Z → bool) (start size max p : Z) (m : ram) : res Heap :=
  '(_, h) ← construct hd (map_heap_backing junk backed) start size max p (MkHeap 0 0 0 0 m); Ok h.
