(* ===== verification/HeapInv.v ===== *)
(** The heap keeps its chunks apart: an invariant of the boundary tags and the
    free list of [Heap.v], preserved by [alloc] and [free].

    [heap_rep h cs fl]: the chunks [cs] fill the heap, each with its size and
    flags in its tag, no two free ones adjacent; the free ones are the entries
    [fl] of the list, ordered by size.  [feet] is the part of the invariant that
    [free] relies on and [alloc] does not restore when it splits a chunk. *)
From Stdlib Require Import Sorted.
From S2P Require Import Prelude Memory Layout CList Heap.

(** ** Running code step by step *)

Lemma M_step {St A B} (c : M St A) (f : A → M St B) h a h' : c h = Ok (a, h') → (c ≫= f) h = f a h'.
Proof. intros E. unfold mbind, M_bind. by rewrite E. Qed.

(** Run the first action of a sequence with the equation [E]. *)
Ltac mrun E := rewrite (M_step _ _ _ _ _ E).

Lemma gets_step {St A B} (g : St → A) (f : A → M St B) h : (gets g ≫= f) h = f (g h) h.
Proof. done. Qed.
Lemma modify_step {St B} (g : St → St) (f : () → M St B) h : (modify g ≫= f) h = f () (g h).
Proof. done. Qed.
Lemma ret_step {St A B} (a : A) (f : A → M St B) h : (mret a ≫= f) h = f a h.
Proof. done. Qed.
Lemma assert_step {St B} (b : bool) t (f : () → M St B) h : b = true → (assert_ b t ≫= f) h = f () h.
Proof. by intros ->. Qed.

(** The fields of the model. *)
Ltac fields := cbn [start_of end_of max_of put_end heap_mem].

Lemma M_assoc {St A B C} (c : M St A) (f : A → M St B) (g : B → M St C) h :
  ((c ≫= f) ≫= g) h = (c ≫= (λ a, f a ≫= g)) h.
Proof. unfold mbind, M_bind, res_bind. destruct (c h) as [[a h']|m|x|]; done. Qed.

(** Two steps whose joint effect is known, inside a longer program. *)
Lemma M_seq_step {St A B} (c d : M St ()) (a : A) (f : A → M St B) h h' :
  (_ ← c; d) h = Ok ((), h') → ((_ ← c; _ ← d; mret a) ≫= f) h = f a h'.
Proof.
  unfold mbind, M_bind, res_bind. destruct (c h) as [[[] h1]|m|x|]; try discriminate.
  cbn. destruct (d h1) as [[[] h2]|m|x|]; try discriminate. by intros [= ->].
Qed.

Lemma M_ext {St A B} (c c' : M St A) (f : A → M St B) h : c h = c' h → (c ≫= f) h = (c' ≫= f) h.
Proof. intros E. unfold mbind, M_bind. by rewrite E. Qed.

(** ** The chunks of a heap *)

Record chunk := Chunk { addr : Z; csz : Z; used : bool }.
#[export] Instance chunk_eq_dec : EqDecision chunk.
Proof. solve_decision. Defined.

Definition b2n (b : bool) (v : Z) : Z := if b then v else 0.
Definition tag (c : chunk) (pin : bool) : Z := csz c + b2n (used c) 2 + b2n pin 1.

(** [cs] fill the memory from [a] to [e], with their boundary tags; [pin] says
    whether the chunk before [a] is in use. No two free chunks are adjacent. *)
Fixpoint tiles (m : ram) (a e : Z) (pin : bool) (cs : list chunk) : Prop :=
  match cs with
  | [] => a = e
  | c :: cs =>
      addr c = a ∧ csz c mod 8 = 0 ∧ 16 ≤ csz c ∧ rd32 m (a + 4) = tag c pin
      ∧ (used c = false → pin = true) ∧ tiles m (a + csz c) e (used c) cs
  end.

(** The footer of a free chunk, kept in the chunk behind it. *)
Fixpoint feet (m : ram) (cs : list chunk) : Prop :=
  match cs with
  | c :: t => match t with
              | d :: _ => (used c = false → rd32 m (addr d) = csz c) ∧ feet m t
              | [] => True
              end
  | [] => True
  end.

Definition is_free (c : chunk) : bool := negb (used c).
Definition frees (cs : list chunk) : list chunk := base.filter (λ c, used c = false) cs.
Definition links_of (fl : list chunk) : list Z := (λ c, addr c + 8) <$> fl.
Abbreviation by_size := (StronglySorted (λ c d, csz c ≤ csz d)).

(** The heap [h] consists of the chunks [cs], with free list [fl]. *)
Record heap_rep (hd : Z) (h : Heap) (cs fl : list chunk) : Prop := {
  hr_bytes : bytes_ok (mem h);
  hr_start : startAddr h mod PAGE_SIZE = 0;
  hr_end : endAddr h mod PAGE_SIZE = 0;
  hr_bounds : 0 < startAddr h ∧ startAddr h + HEAP_MIN_SIZE ≤ endAddr h ∧ endAddr h ≤ maxAddr h ∧ maxAddr h < 2 ^ 31;
  hr_hd : 0 < hd ∧ hd + 8 ≤ 2 ^ 32 ∧ (hd + 8 ≤ startAddr h ∨ maxAddr h ≤ hd);
  hr_tiles : tiles (mem h) (startAddr h) (endAddr h) true cs;
  hr_free : fl ≡ₚ frees cs;
  hr_list : dll (mem h) hd (links_of fl);
  hr_sorted : by_size fl
}.

(** *** Tags *)

Lemma tag_range c pin : 0 ≤ csz c → csz c ≤ tag c pin ≤ csz c + 3.
Proof. unfold tag, b2n. destruct (used c), pin; lia. Qed.

Lemma tag_size v s : s mod 8 = 0 → 0 ≤ v < 2 ^ 32 → s ≤ v < s + 8 → Z.land v (not32 FLAG_BITS) = s.
Proof.
  intros Hs Hv Hr. change FLAG_BITS with (2 ^ 3 - 1). rewrite land_not_mask by lia. dlia.
Qed.

Lemma tag_pinuse c pin : csz c mod 8 = 0 → negb (Z.land (tag c pin) PINUSE_BIT =? 0) = pin.
Proof.
  intros Hs. change PINUSE_BIT with (Z.shiftl 1 0). rewrite land_bit, Z.testbit_eqb by lia.
  unfold tag, b2n. destruct (used c), pin; [apply Z.eqb_eq|apply Z.eqb_neq|apply Z.eqb_eq|apply Z.eqb_neq]; dlia.
Qed.

Lemma tag_cinuse c pin : csz c mod 8 = 0 → negb (Z.land (tag c pin) CINUSE_BIT =? 0) = used c.
Proof.
  intros Hs. change CINUSE_BIT with (Z.shiftl 1 1). rewrite land_bit, Z.testbit_eqb by lia.
  unfold tag, b2n. destruct (used c), pin; [apply Z.eqb_eq|apply Z.eqb_eq|apply Z.eqb_neq|apply Z.eqb_neq]; dlia.
Qed.

Lemma tag_inuse c pin : csz c mod 8 = 0 →
  negb (Z.land (tag c pin) INUSE_BITS =? PINUSE_BIT) = negb (negb (used c) && pin).
Proof.
  intros Hs. change INUSE_BITS with (2 ^ 2 - 1). rewrite land_mask by lia. f_equal. change PINUSE_BIT with 1.
  unfold tag, b2n. destruct (used c), pin; simpl; [apply Z.eqb_neq|apply Z.eqb_neq|apply Z.eqb_eq|apply Z.eqb_neq]; dlia.
Qed.

Lemma tag_set_pinuse c pin : csz c mod 8 = 0 → Z.lor (tag c pin) PINUSE_BIT = tag c true.
Proof.
  intros Hs. assert (tag c pin = 2 ^ 1 * (csz c / 2 + b2n (used c) 1) + b2n pin 1) as ->.
  { unfold tag, b2n. destruct (used c), pin; dlia. }
  rewrite <- lor_low by (unfold b2n; destruct pin; lia). rewrite <- Z.lor_assoc.
  assert (Z.lor (b2n pin 1) PINUSE_BIT = 1) as -> by (by destruct pin).
  rewrite lor_low by lia. unfold tag, b2n. destruct (used c); dlia.
Qed.

Lemma tag_clear_pinuse c pin : csz c mod 8 = 0 → 0 ≤ csz c → csz c + 8 ≤ 2 ^ 32 →
  Z.land (tag c pin) (not32 PINUSE_BIT) = tag c false.
Proof.
  intros Hs H0 H1. pose proof (tag_range c pin H0). change PINUSE_BIT with (2 ^ 1 - 1).
  rewrite land_not_mask by lia. unfold tag, b2n in *. destruct (used c), pin; dlia.
Qed.

Lemma tag_set_inuse c pin s : csz c mod 8 = 0 → s mod 8 = 0 → 0 ≤ s →
  Z.lor (Z.lor (Z.land (tag c pin) PINUSE_BIT) CINUSE_BIT) s = tag (Chunk (addr c) s true) pin.
Proof.
  intros Hc Hs H0. assert (Z.land (tag c pin) PINUSE_BIT = b2n pin 1) as ->.
  { change PINUSE_BIT with (2 ^ 1 - 1). rewrite land_mask by lia. unfold tag, b2n. destruct (used c), pin; dlia. }
  assert (Z.lor (b2n pin 1) CINUSE_BIT = b2n pin 1 + 2) as -> by (by destruct pin).
  rewrite Z.lor_comm. replace s with (2 ^ 3 * (s / 8)) at 1 by dlia.
  rewrite lor_low by (destruct pin; simpl; lia). unfold tag. simpl. destruct pin; simpl; dlia.
Qed.

Lemma tag_free a s : s mod 8 = 0 → Z.lor s PINUSE_BIT = tag (Chunk a s false) true.
Proof.
  intros Hs. replace s with (2 ^ 3 * (s / 8)) at 1 by dlia. change PINUSE_BIT with 1. rewrite lor_low by lia.
  unfold tag. simpl. dlia.
Qed.

(** *** Tilings *)

Definition pin_after (pin : bool) (cs : list chunk) : bool := foldl (λ _ c, used c) pin cs.

Lemma tiles_app m cs1 : ∀ a e pin cs2, tiles m a e pin (cs1 ++ cs2) ↔
  ∃ mid, tiles m a mid pin cs1 ∧ tiles m mid e (pin_after pin cs1) cs2.
Proof.
  induction cs1 as [|c cs1 IH]; intros a e pin cs2; simpl.
  - split; [intros H; by exists a|by intros (mid & <- & H)].
  - rewrite IH. unfold pin_after. split; naive_solver.
Qed.

Lemma tiles_le m cs : ∀ a e pin, tiles m a e pin cs → a ≤ e.
Proof.
  induction cs as [|c cs IH]; intros a e pin H; simpl in H; [lia|]. destruct H as (_ & _ & ? & _ & _ & H).
  apply IH in H. lia.
Qed.

(** The chunk at a position. *)
Lemma tiles_mid m a e pin pre c post : tiles m a e pin (pre ++ c :: post) →
  tiles m a (addr c) pin pre ∧ csz c mod 8 = 0 ∧ 16 ≤ csz c ∧ rd32 m (addr c + 4) = tag c (pin_after pin pre)
  ∧ (used c = false → pin_after pin pre = true) ∧ tiles m (addr c + csz c) e (used c) post
  ∧ a ≤ addr c ∧ addr c + csz c ≤ e.
Proof.
  intros (mid & H1 & (<- & Hm & Hs & Ht & Hp & H2))%tiles_app.
  pose proof (tiles_le _ _ _ _ _ H1). pose proof (tiles_le _ _ _ _ _ H2). split_and!; done || lia.
Qed.

Lemma tiles_in m a e pin cs c : tiles m a e pin cs → c ∈ cs →
  csz c mod 8 = 0 ∧ 16 ≤ csz c ∧ a ≤ addr c ∧ addr c + csz c ≤ e.
Proof. intros H (pre & post & ->)%list_elem_of_split. apply tiles_mid in H. naive_solver. Qed.

Lemma tiles_aligned m cs : ∀ a e pin c, tiles m a e pin cs → a mod 8 = 0 → c ∈ cs → addr c mod 8 = 0.
Proof.
  induction cs as [|d cs IH]; intros a e pin c H Ha Hc; [by apply elem_of_nil in Hc|].
  destruct H as (Hd & Hm & _ & _ & _ & H). apply elem_of_cons in Hc as [->|Hc]; [by subst|].
  eapply IH; [exact H| |done]. dlia.
Qed.

(** Tags are all a tiling depends on. *)
Lemma tiles_ext m m' cs : ∀ a e pin, (∀ c, c ∈ cs → rd32 m' (addr c + 4) = rd32 m (addr c + 4)) →
  tiles m a e pin cs → tiles m' a e pin cs.
Proof.
  induction cs as [|c cs IH]; intros a e pin He H; [done|]. destruct H as (<- & Hm & Hs & Ht & Hp & H).
  split_and!; try done; [rewrite He by (by left); done|]. apply IH; [|done]. intros d Hd. apply He. by right.
Qed.

(** Different positions hold chunks that do not overlap. *)
Lemma tiles_disjoint m a e pin pre c post d : tiles m a e pin (pre ++ c :: post) → d ∈ pre ++ post →
  addr d + csz d ≤ addr c ∨ addr c + csz c ≤ addr d.
Proof.
  intros H Hd. apply tiles_mid in H as (H1 & _ & _ & _ & _ & H2 & _).
  apply elem_of_app in Hd as [Hd|Hd].
  - left. by eapply tiles_in in H1 as (_ & _ & _ & ?).
  - right. by eapply tiles_in in H2 as (_ & _ & ? & _).
Qed.

Lemma tiles_pair m a e pin cs c d : tiles m a e pin cs → c ∈ cs → d ∈ cs →
  c = d ∨ addr c + csz c ≤ addr d ∨ addr d + csz d ≤ addr c.
Proof.
  intros H (pre & post & ->)%list_elem_of_split Hd.
  apply elem_of_app in Hd as [Hd|[->|Hd]%elem_of_cons]; [right|by left|right].
  - destruct (tiles_disjoint _ _ _ _ _ _ _ d H); [apply elem_of_app; by left|lia..].
  - destruct (tiles_disjoint _ _ _ _ _ _ _ d H); [apply elem_of_app; by right|lia..].
Qed.

Lemma tiles_place m a e pin pre c post x : tiles m a e pin (pre ++ c :: post) → x ∈ pre ++ post →
  addr x + csz x ≤ addr c ∨ addr x = addr c + csz c ∨ addr c + csz c + 16 ≤ addr x.
Proof.
  intros H Hx. apply tiles_mid in H as (H1 & _ & _ & _ & _ & H2 & _). apply elem_of_app in Hx as [Hx|Hx].
  - left. by eapply tiles_in in H1 as (_ & _ & _ & ?).
  - destruct post as [|d post]; [by apply elem_of_nil in Hx|]. destruct H2 as (? & _ & ? & _ & _ & H2).
    apply elem_of_cons in Hx as [->|Hx]; [lia|]. destruct (tiles_in _ _ _ _ _ _ H2 Hx) as (_ & _ & ? & _). lia.
Qed.

Lemma frees_app cs1 cs2 : frees (cs1 ++ cs2) = frees cs1 ++ frees cs2.
Proof. apply filter_app. Qed.

Lemma elem_of_frees c cs : c ∈ frees cs ↔ used c = false ∧ c ∈ cs.
Proof. unfold frees. by rewrite list_elem_of_filter. Qed.

(** ** Accesses *)
Section access.
Context (hd : Z) (h : Heap).
Implicit Types (c : chunk) (a v : Z).

Lemma load_in a : startAddr h ≤ a → a + 4 ≤ endAddr h → load hd a h = Ok (rd32 (mem h) a, h).
Proof.
  intros H1 H2. cbn [load heap_mem]. unfold accessible.
  by rewrite (proj2 (Z.leb_le (startAddr h) a)), (proj2 (Z.leb_le (a + 4) (endAddr h))) by lia.
Qed.

Lemma store_in a v : startAddr h ≤ a → a + 4 ≤ endAddr h → store hd a v h = Ok ((), with_mem (wr32 (mem h) a v) h).
Proof.
  intros H1 H2. cbn [store heap_mem]. unfold accessible.
  by rewrite (proj2 (Z.leb_le (startAddr h) a)), (proj2 (Z.leb_le (a + 4) (endAddr h))) by lia.
Qed.

Lemma load_hd a : a = hd ∨ a = hd + 4 → load hd a h = Ok (rd32 (mem h) a, h).
Proof.
  intros H. cbn [load heap_mem]. unfold accessible.
  rewrite (proj2 (Z.leb_le hd a)), (proj2 (Z.leb_le a (hd + 4))) by lia. by rewrite orb_true_r.
Qed.

(** Where a chunk may start. *)
Definition inside c : Prop :=
  0 < startAddr h ∧ startAddr h ≤ addr c ∧ addr c + 16 ≤ endAddr h ∧ endAddr h < 2 ^ 31.

(** The size can be read off its tag. *)
Definition readable c : Prop :=
  inside c ∧ csz c mod 8 = 0 ∧ 0 ≤ csz c ∧ addr c + csz c ≤ endAddr h
  ∧ ∃ v, rd32 (mem h) (addr c + 4) = v ∧ csz c ≤ v < csz c + 8.

Lemma get_head_in c : inside c → get_chunk_head hd (addr c) h = Ok (rd32 (mem h) (addr c + 4), h).
Proof. intros (H0 & H1 & H2 & H3). unfold get_chunk_head. rewrite u32_small by lia. apply load_in; lia. Qed.

Lemma set_head_in c v : inside c →
  set_chunk_head hd (addr c) v h = Ok ((), with_mem (wr32 (mem h) (addr c + 4) v) h).
Proof. intros (H0 & H1 & H2 & H3). unfold set_chunk_head. rewrite u32_small by lia. apply store_in; lia. Qed.

Lemma chunksize_in c : readable c → chunksize hd (addr c) h = Ok (csz c, h).
Proof.
  intros (Hi & Hm & H0 & He & v & Hv & Hr). unfold chunksize. mrun (get_head_in c Hi). rewrite Hv.
  destruct Hi. rewrite (tag_size v (csz c)) by (done || lia). done.
Qed.

(** Where a node of a list may be. *)
Definition place (n : Z) : Prop :=
  n = hd ∧ 0 < hd ∧ hd + 8 ≤ 2 ^ 32 ∨ 0 < startAddr h ∧ startAddr h ≤ n ∧ n + 8 ≤ endAddr h ∧ endAddr h < 2 ^ 31.

Lemma store_next m n v : place n → store hd n v (with_mem m h) = Ok ((), with_mem (set_next m n v) h).
Proof.
  intros [[-> _]|Hn]; cbn [store heap_mem]; unfold accessible; cbn [startAddr endAddr with_mem].
  - rewrite (proj2 (Z.leb_le hd hd)), (proj2 (Z.leb_le hd (hd + 4))) by lia. by rewrite orb_true_r.
  - by rewrite (proj2 (Z.leb_le (startAddr h) n)), (proj2 (Z.leb_le (n + 4) (endAddr h))) by lia.
Qed.

Lemma store_prev m n v : place n → store hd (u32 (n + 4)) v (with_mem m h) = Ok ((), with_mem (set_prev m n v) h).
Proof.
  intros [[-> [? ?]]|Hn]; rewrite u32_small by lia; cbn [store heap_mem]; unfold accessible; cbn [startAddr endAddr with_mem].
  - rewrite (proj2 (Z.leb_le hd (hd + 4))), Z.leb_refl by lia. by rewrite orb_true_r.
  - by rewrite (proj2 (Z.leb_le (startAddr h) (n + 4))), (proj2 (Z.leb_le (n + 4 + 4) (endAddr h))) by lia.
Qed.

Lemma with_mem_same : with_mem (mem h) h = h.
Proof. by destruct h. Qed.

Lemma store_prev_here n v : place n → store hd (u32 (n + 4)) v h = Ok ((), with_mem (set_prev (mem h) n v) h).
Proof. intros Hn. rewrite <- store_prev by done. by rewrite with_mem_same. Qed.

Lemma place_in c : inside c → place (addr c + 8).
Proof. intros (? & ? & ? & ?). right. lia. Qed.

Lemma list_of_in c : inside c → list_of (addr c) = addr c + 8 ∧ list_entry (addr c + 8) = addr c.
Proof. intros (H0 & H1 & H2 & H3). unfold list_of, list_entry. rewrite !u32_small by lia. lia. Qed.
End access.

(** ** The free list *)
Lemma elem_of_links n fl : n ∈ links_of fl ↔ ∃ c, c ∈ fl ∧ n = addr c + 8.
Proof. unfold links_of. rewrite list_elem_of_fmap. naive_solver. Qed.

Section freelist.
Context (hd : Z) (h : Heap).
Hypothesis Hhd : 0 < hd ∧ hd + 8 ≤ 2 ^ 32.

Definition listed (fl : list chunk) : Prop := dll (mem h) hd (links_of fl) ∧ Forall (readable h) fl.

Definition first_link (fl : list chunk) : Z := default hd (hd_error (links_of fl)).

Lemma first_link_cons c fl : first_link (c :: fl) = addr c + 8.
Proof. done. Qed.

Lemma links_of_app fl1 fl2 : links_of (fl1 ++ fl2) = links_of fl1 ++ links_of fl2.
Proof. apply fmap_app. Qed.

(** The chunks too small for [size], and the rest. *)
Fixpoint smaller (size : Z) (fl : list chunk) : list chunk :=
  match fl with c :: t => if size <=? csz c then [] else c :: smaller size t | [] => [] end.
Fixpoint fitting (size : Z) (fl : list chunk) : list chunk :=
  match fl with c :: t => if size <=? csz c then fl else fitting size t | [] => [] end.

Lemma scan_ok size fl2 : ∀ fl1 fuel, listed (fl1 ++ fl2) → (length fl2 < fuel)%nat →
  scan hd fuel (first_link fl2) size h = Ok (first_link (fitting size fl2), h).
Proof.
  induction fl2 as [|c fl2 IH]; intros fl1 [|fuel] [Hd Hr] Hf; cbn [length] in Hf; try lia; cbn [scan].
  - unfold first_link. simpl. by rewrite Z.eqb_refl.
  - rewrite first_link_cons. rewrite links_of_app in Hd.
    assert (addr c + 8 ≠ hd) as Hne by (eapply head_fresh; [exact Hd|]; apply elem_of_app; right; by left).
    rewrite (proj2 (Z.eqb_neq _ _) Hne).
    assert (readable h c) as Hc by (rewrite Forall_app, Forall_cons in Hr; tauto).
    destruct (list_of_in h c (proj1 Hc)) as [_ ->]. mrun (chunksize_in hd h c Hc). simpl.
    destruct (size <=? csz c); [done|]. destruct Hc as [(? & ? & ? & ?) _].
    mrun (load_in hd h (addr c + 8) ltac:(lia) ltac:(lia)).
    fold (next (mem h) (addr c + 8)).
    rewrite (links_next (mem h) hd (links_of fl1) (addr c + 8) (links_of fl2)) by apply Hd.
    apply (IH (fl1 ++ [c])); [|lia]. rewrite <- app_assoc. split; [|done]. by rewrite links_of_app.
Qed.

Lemma load_node fl n k : listed fl → n ∈ hd :: links_of fl → k = 0 ∨ k = 4 →
  load hd (u32 (n + k)) h = Ok (rd32 (mem h) (n + k), h).
Proof using Hhd.
  intros [_ Hr] [->|(c & Hc & ->)%elem_of_links]%elem_of_cons Hk.
  - rewrite u32_small by lia. apply load_hd. lia.
  - rewrite Forall_forall in Hr. destruct (Hr c Hc) as [(? & ? & ? & ?) _]. rewrite u32_small by lia.
    apply load_in; lia.
Qed.

Lemma place_node fl n : listed fl → n ∈ hd :: links_of fl → place hd h n.
Proof using Hhd.
  intros [_ Hr] [->|(c & Hc & ->)%elem_of_links]%elem_of_cons; [by left|].
  rewrite Forall_forall in Hr. apply place_in, (Hr c Hc).
Qed.

Lemma smaller_fitting size fl : smaller size fl ++ fitting size fl = fl.
Proof. induction fl as [|c fl IH]; simpl; [done|]. destruct (size <=? csz c); simpl; by rewrite ?IH. Qed.

(** Bytes outside the nodes of a list. *)
Definition off_list (fl : list chunk) (b : Z) : Prop := Forall (λ n, outside n b) (hd :: links_of fl).

Lemma off_list_in fl b n : off_list fl b → n ∈ hd :: links_of fl → outside n b.
Proof. unfold off_list. rewrite Forall_forall. auto. Qed.

Lemma add_before_ok fl1 fl2 c : listed (fl1 ++ fl2) → inside h c →
  (∀ n, n ∈ hd :: links_of (fl1 ++ fl2) → apart (addr c + 8) n) →
  ∃ m', add_before hd (addr c) (first_link fl2) h = Ok ((), with_mem m' h)
    ∧ dll m' hd (links_of (fl1 ++ c :: fl2)) ∧ (∀ b, off_list (fl1 ++ c :: fl2) b → m' b = mem h b)
    ∧ (bytes_ok (mem h) → bytes_ok m').
Proof using Hhd.
  intros Hl Hc Hfr. pose proof Hl as [Hd Hr]. rewrite links_of_app in Hd. unfold add_before.
  assert (first_link fl2 ∈ hd :: links_of (fl1 ++ fl2)) as Hpos.
  { unfold first_link. destruct fl2 as [|d fl2]; simpl; [by left|right].
    rewrite links_of_app. apply elem_of_app. right. by left. }
  mrun (load_node _ (first_link fl2) 4 Hl Hpos ltac:(by right)).
  destruct (list_of_in h c Hc) as [-> _].
  pose proof (dll_prev_in _ _ _ _ Hd) as Hp. fold (first_link fl2) in Hp.
  change (rd32 (mem h) (first_link fl2 + 4)) with (prev (mem h) (first_link fl2)).
  assert (prev (mem h) (first_link fl2) ∈ hd :: links_of (fl1 ++ fl2)) as Hp'.
  { rewrite links_of_app. apply elem_of_cons in Hp as [->|Hp]; [by left|right; apply elem_of_app; by left]. }
  erewrite M_step by (by eapply store_prev_here, place_node).
  erewrite M_step by (by apply store_next, place_in). erewrite M_step by (by apply store_prev, place_in).
  rewrite store_next by (by eapply place_node). eexists. split; [done|]. split_and!.
  - rewrite links_of_app. apply (list_add_tail_dll (mem h) hd (links_of fl1) (links_of fl2) (addr c + 8)); [done| |].
    + destruct Hc as (? & ? & ? & ?). unfold node. lia.
    + intros a Ha. apply Hfr. by rewrite links_of_app.
  - intros b Hb. assert (∀ n, n ∈ hd :: links_of (fl1 ++ fl2) → outside n b) as Ho.
    { intros n Hn. apply (off_list_in _ _ _ Hb). rewrite links_of_app in *. simpl.
      apply elem_of_cons in Hn as [->|[Hn|Hn]%elem_of_app]; [by left|right; apply elem_of_app; by left|].
      right. apply elem_of_app. right. by right. }
    apply list_add_frame; [|by apply Ho..]. apply (off_list_in _ _ _ Hb). right.
    rewrite links_of_app. apply elem_of_app. right. by left.
  - intros Hb. unfold list_add_tail, __list_add, set_next, set_prev. auto 10 using wr32_bytes.
Qed.

Lemma head_empty_ok xs : dll (mem h) hd xs → head_empty hd h = Ok (bool_decide (xs = []), h).
Proof. intros Hd. unfold head_empty. mrun (load_hd hd h hd ltac:(by left)). by rewrite <- (list_empty_ok _ _ _ Hd). Qed.

Lemma insert_ok fl c fuel : listed fl → readable h c →
  (∀ n, n ∈ hd :: links_of fl → apart (addr c + 8) n) → (length fl < fuel)%nat →
  ∃ m', insertChunk hd fuel (addr c) h = Ok ((), with_mem m' h)
    ∧ dll m' hd (links_of (smaller (csz c) fl ++ c :: fitting (csz c) fl))
    ∧ (∀ b, off_list (c :: fl) b → m' b = mem h b) ∧ (bytes_ok (mem h) → bytes_ok m').
Proof using Hhd.
  intros Hl Hc Hfr Hf. pose proof (smaller_fitting (csz c) fl) as E. unfold insertChunk.
  mrun (head_empty_ok _ (proj1 Hl)).
  destruct (add_before_ok (smaller (csz c) fl) (fitting (csz c) fl) c) as (m' & Hr & Hd & Hfrm & Hb);
    [by rewrite E|apply Hc|by rewrite E|].
  exists m'. split_and!; [|done| |done].
  - destruct fl as [|d fl]; [done|]. rewrite bool_decide_eq_false_2 by done.
    mrun (chunksize_in hd h c Hc). mrun (load_hd hd h hd ltac:(by left)). change (rd32 (mem h) hd) with (next (mem h) hd).
    rewrite (dll_next _ _ _ (proj1 Hl)). fold (first_link (d :: fl)).
    by mrun (scan_ok (csz c) (d :: fl) [] fuel Hl Hf).
  - intros b Hb'. apply Hfrm. unfold off_list in *. rewrite Forall_cons in *. destruct Hb' as [H1 H2].
    split; [done|]. simpl in H2. apply Forall_cons in H2 as [H2 H3]. rewrite <- E in H3.
    rewrite links_of_app in *. simpl. rewrite Forall_app, Forall_cons in *. tauto.
Qed.

Lemma remove_ok fl1 c fl2 : listed (fl1 ++ c :: fl2) →
  ∃ m', removeChunk hd (addr c) h = Ok ((), with_mem m' h)
    ∧ dll m' hd (links_of (fl1 ++ fl2)) ∧ (∀ b, off_list (fl1 ++ c :: fl2) b → m' b = mem h b)
    ∧ (bytes_ok (mem h) → bytes_ok m').
Proof using Hhd.
  intros Hl. pose proof Hl as [Hd Hr]. rewrite links_of_app in Hd. simpl in Hd. unfold removeChunk.
  assert (inside h c) as Hc by (rewrite Forall_app, Forall_cons in Hr; apply Hr).
  destruct (list_of_in h c Hc) as [-> _].
  assert (addr c + 8 ∈ hd :: links_of (fl1 ++ c :: fl2)) as Hin.
  { right. rewrite links_of_app. apply elem_of_app. right. by left. }
  pose proof (dll_entry_prev _ _ _ _ _ Hd) as Hp. pose proof (dll_entry_next _ _ _ _ _ Hd) as Hn.
  assert (prev (mem h) (addr c + 8) ∈ hd :: links_of (fl1 ++ c :: fl2)) as Hp'.
  { rewrite links_of_app. apply elem_of_cons in Hp as [->|Hp]; [by left|right; apply elem_of_app; by left]. }
  assert (next (mem h) (addr c + 8) ∈ hd :: links_of (fl1 ++ c :: fl2)) as Hn'.
  { rewrite links_of_app. apply elem_of_cons in Hn as [->|Hn]; [by left|right; apply elem_of_app; right; by right]. }
  destruct Hc as (? & ? & ? & ?). mrun (load_node _ _ 4 Hl Hin ltac:(by right)).
  mrun (load_in hd h (addr c + 8) ltac:(lia) ltac:(lia)).
  erewrite M_step by (by eapply store_prev_here, place_node).
  rewrite store_next by (by eapply place_node). eexists. split; [done|]. split_and!.
  - rewrite links_of_app. by apply list_del_dll.
  - intros b Hb. apply list_del_frame; by apply (off_list_in _ _ _ Hb).
  - intros Hb. unfold __list_del_entry, __list_del, set_next, set_prev. auto 10 using wr32_bytes.
Qed.
End freelist.

(** ** Facts about a represented heap *)
Section rep.
Context (hd : Z) (h : Heap) (cs fl : list chunk).
Hypothesis Hrep : heap_rep hd h cs fl.

Lemma rep_hd : 0 < hd ∧ hd + 8 ≤ 2 ^ 32.
Proof using Hrep. destruct Hrep as [_ _ _ _ ? _ _ _ _]. lia. Qed.

Lemma rep_chunk c : c ∈ cs → csz c mod 8 = 0 ∧ 16 ≤ csz c ∧ startAddr h ≤ addr c ∧ addr c + csz c ≤ endAddr h
  ∧ addr c mod 8 = 0.
Proof using Hrep.
  intros Hc. destruct (tiles_in _ _ _ _ _ _ (hr_tiles _ _ _ _ Hrep) Hc) as (? & ? & ? & ?). split_and!; try done.
  eapply tiles_aligned; [apply Hrep| |done]. pose proof (hr_start _ _ _ _ Hrep) as Hs. unfold PAGE_SIZE in Hs. dlia.
Qed.

Lemma rep_inside c : c ∈ cs → inside h c.
Proof using Hrep.
  intros Hc. destruct (rep_chunk c Hc) as (? & ? & ? & ? & _). pose proof (hr_bounds _ _ _ _ Hrep).
  unfold inside. lia.
Qed.

Lemma rep_readable c : c ∈ cs → readable h c.
Proof using Hrep.
  intros Hc. pose proof (rep_inside c Hc) as Hi. destruct (rep_chunk c Hc) as (? & ? & ? & ? & _).
  apply list_elem_of_split in Hc as (pre & post & ->).
  destruct (tiles_mid _ _ _ _ _ _ _ (hr_tiles _ _ _ _ Hrep)) as (_ & _ & _ & Ht & _).
  split_and!; try done; [lia|]. eexists. split; [exact Ht|]. pose proof (tag_range c (pin_after true pre)). lia.
Qed.

Lemma rep_free_in c : c ∈ fl → c ∈ cs ∧ used c = false.
Proof using Hrep.
  intros Hc. rewrite (hr_free _ _ _ _ Hrep), elem_of_frees in Hc. tauto.
Qed.

Lemma rep_listed : listed hd h fl.
Proof using Hrep.
  split; [apply Hrep|]. apply Forall_forall. intros c Hc. by apply rep_readable, rep_free_in.
Qed.

(** A byte of the heap that no entry of [fl'] uses for its links. *)
Lemma off_list_intro fl' b : startAddr h ≤ b < endAddr h →
  (∀ x, x ∈ fl' → b < addr x + 8 ∨ addr x + 16 ≤ b) → off_list hd fl' b.
Proof using Hrep.
  intros Hb Hx. pose proof (hr_hd _ _ _ _ Hrep). pose proof (hr_bounds _ _ _ _ Hrep).
  apply Forall_cons. split; [unfold outside; lia|]. apply Forall_forall. intros n (x & Hin & ->)%elem_of_links.
  specialize (Hx x Hin). unfold outside. lia.
Qed.

Lemma rep_disjoint c d : c ∈ cs → d ∈ cs → c = d ∨ addr c + csz c ≤ addr d ∨ addr d + csz d ≤ addr c.
Proof using Hrep. eapply tiles_pair, Hrep. Qed.

Lemma find_ok nb fuel : (length fl < fuel)%nat →
  findSmallestChunk hd fuel nb h = Ok (match fitting nb fl with [] => 0 | c :: _ => addr c end, h).
Proof using Hrep.
  intros Hf. unfold findSmallestChunk. mrun (load_hd hd h hd ltac:(by left)).
  change (rd32 (mem h) hd) with (next (mem h) hd). rewrite (dll_next _ _ _ (hr_list _ _ _ _ Hrep)).
  fold (first_link hd fl). mrun (scan_ok hd h rep_hd nb fl [] fuel rep_listed Hf).
  destruct (fitting nb fl) as [|c t] eqn:E.
  - unfold first_link. simpl. by rewrite Z.eqb_refl.
  - assert (c ∈ fl) as Hc.
    { rewrite <- (smaller_fitting nb fl), E. apply elem_of_app. right. by left. }
    rewrite first_link_cons. assert (addr c + 8 ≠ hd) as Hne.
    { eapply head_fresh; [apply Hrep|]. apply elem_of_links. by exists c. }
    rewrite (proj2 (Z.eqb_neq _ _) Hne). destruct (list_of_in h c) as [_ ->]; [|done].
    by apply rep_inside, rep_free_in.
Qed.
End rep.

Lemma fitting_head size fl c t : fitting size fl = c :: t → size ≤ csz c.
Proof.
  induction fl as [|d fl IH]; simpl; [done|]. destruct (Z.leb_spec size (csz d)); [|done]. by intros [= <- <-].
Qed.

Lemma fitting_nil size fl : fitting size fl = [] → ∀ c, c ∈ fl → csz c < size.
Proof.
  induction fl as [|d fl IH]; simpl; [by intros _ c Hc%elem_of_nil|].
  destruct (Z.leb_spec size (csz d)); [done|]. intros E c [->|Hc]%elem_of_cons; auto.
Qed.

Lemma smaller_lt size fl c : c ∈ smaller size fl → csz c < size.
Proof.
  induction fl as [|d fl IH]; simpl; [by intros Hc%elem_of_nil|].
  destruct (Z.leb_spec size (csz d)); [by intros Hc%elem_of_nil|]. intros [->|Hc]%elem_of_cons; auto.
Qed.

Lemma sorted_app (l1 l2 : list chunk) :
  by_size (l1 ++ l2) ↔ by_size l1 ∧ by_size l2 ∧ ∀ c d, c ∈ l1 → d ∈ l2 → csz c ≤ csz d.
Proof.
  induction l1 as [|x l1 IH]; simpl.
  - split; [intros H; split_and!; [constructor|done|by intros c d ?%elem_of_nil]|tauto].
  - split.
    + intros H. apply StronglySorted_inv in H as [H Hx]. apply IH in H as (H1 & H2 & H3).
      rewrite Forall_app, !Forall_forall in Hx. destruct Hx as [Hx1 Hx2]. split_and!; [|done|].
      * constructor; [done|]. by apply Forall_forall.
      * intros c d [->|Hc]%elem_of_cons Hd; eauto.
    + intros (H1 & H2 & H3). apply StronglySorted_inv in H1 as [H1 Hx]. constructor.
      * apply IH. split_and!; [done..|]. intros c d Hc Hd. apply H3; [by right|done].
      * apply Forall_app. split; [done|]. apply Forall_forall. intros d Hd. apply H3; [by left|done].
Qed.

(** Inserting before the first chunk of at least its size keeps the order. *)
Lemma insert_sorted c fl : by_size fl → by_size (smaller (csz c) fl ++ c :: fitting (csz c) fl).
Proof.
  intros H. rewrite <- (smaller_fitting (csz c) fl) in H. apply sorted_app in H as (H1 & H2 & H3).
  assert (∀ d, d ∈ fitting (csz c) fl → csz c ≤ csz d) as Hge.
  { intros d Hd. destruct (fitting (csz c) fl) as [|e t] eqn:E; [by apply elem_of_nil in Hd|].
    pose proof (fitting_head _ _ _ _ E). apply elem_of_cons in Hd as [->|Hd]; [done|].
    apply StronglySorted_inv in H2 as [_ H2]. rewrite Forall_forall in H2. specialize (H2 d Hd). lia. }
  apply sorted_app. split_and!; [done| |].
  - constructor; [done|]. by apply Forall_forall.
  - intros a d Ha [->|Hd]%elem_of_cons; [|by apply H3]. pose proof (smaller_lt _ _ _ Ha). lia.
Qed.

Lemma insert_perm c fl : smaller (csz c) fl ++ c :: fitting (csz c) fl ≡ₚ c :: fl.
Proof. rewrite <- Permutation_middle. by rewrite smaller_fitting. Qed.

Lemma by_size_remove fl1 c fl2 : by_size (fl1 ++ c :: fl2) → by_size (fl1 ++ fl2).
Proof.
  rewrite !sorted_app. intros (H1 & H2 & H3). apply StronglySorted_inv in H2 as [H2 _].
  split_and!; [done..|]. intros x y Hx Hy. apply H3; [done|by right].
Qed.

(** ** Carving a chunk out of a hole *)

Lemma inside_mem h c m : inside (with_mem m h) c ↔ inside h c.
Proof. done. Qed.

Lemma readable_ext h c m : (∀ b, addr c + 4 ≤ b < addr c + 8 → m b = mem h b) → readable h c → readable (with_mem m h) c.
Proof.
  intros Hm (Hi & H1 & H2 & H3 & v & Hv & Hr). split_and!; try done. exists v. split; [|done]. rewrite <- Hv.
  apply rd32_ext. intros b Hb. apply Hm. lia.
Qed.

(** [set_inuse] writes two tags. *)
Lemma set_inuse_ok hd h c d s :
  inside h c → inside h d → addr d = addr c + s → 8 ≤ s →
  set_inuse hd (addr c) s h
  = Ok ((), with_mem (wr32 (wr32 (mem h) (addr c + 4)
        (Z.lor (Z.lor (Z.land (rd32 (mem h) (addr c + 4)) PINUSE_BIT) CINUSE_BIT) s))
      (addr d + 4) (Z.lor (rd32 (mem h) (addr d + 4)) PINUSE_BIT)) h).
Proof.
  intros Hc Hd E Hs. unfold set_inuse. mrun (get_head_in hd h c Hc). mrun (set_head_in hd h c (Z.lor
    (Z.lor (Z.land (rd32 (mem h) (addr c + 4)) PINUSE_BIT) CINUSE_BIT) s) Hc).
  unfold set_pinuse, chunk_plus_offset. rewrite <- E. set (h1 := with_mem _ h).
  assert (inside h1 d) as Hd1 by done. rewrite u32_small by (unfold inside in Hd; lia).
  mrun (get_head_in hd h1 d Hd1). rewrite (set_head_in hd h1 d _ Hd1). simpl.
  rewrite (rd32_wr32_other (mem h)) by lia. done.
Qed.

(** What carving does to the bytes: nothing outside the links of the list, the
    links of the hole and the new tags. *)
Definition carve_frame (hd : Z) (m m' : ram) (fl : list chunk) (c : chunk) (s k : Z) : Prop :=
  ∀ b, off_list hd fl b → (b < addr c + 4 ∨ addr c + 16 ≤ b) →
    (b < addr c + s + 4 ∨ addr c + s + k ≤ b) → m' b = m b.

Section carve.
Context (hd : Z) (h : Heap) (pre : list chunk) (c : chunk) (post fl1 fl2 : list chunk).
Hypothesis Hrep : heap_rep hd h (pre ++ c :: post) (fl1 ++ c :: fl2).

Let cs := pre ++ c :: post.
Let fl := fl1 ++ c :: fl2.

Lemma carve_c : c ∈ cs ∧ used c = false ∧ pin_after true pre = true.
Proof using Hrep.
  assert (c ∈ fl) as Hc by (apply elem_of_app; right; by left).
  destruct (rep_free_in _ _ _ _ Hrep c Hc) as [H1 H2]. split_and!; [done..|].
  destruct (tiles_mid _ _ _ _ _ _ _ (hr_tiles _ _ _ _ Hrep)) as (_ & _ & _ & _ & H & _). by apply H.
Qed.

Lemma rest_free : fl1 ++ fl2 ≡ₚ frees (pre ++ post).
Proof using Hrep.
  pose proof (hr_free _ _ _ _ Hrep) as Hp. rewrite frees_app in *. unfold frees in *.
  rewrite filter_cons_True in Hp by apply carve_c. rewrite <- !Permutation_middle in Hp.
  by apply Permutation_cons_inv in Hp.
Qed.

Lemma rest_in x : x ∈ fl1 ++ fl2 → x ∈ pre ++ post ∧ used x = false.
Proof using Hrep. rewrite rest_free, elem_of_frees. tauto. Qed.

Lemma rest_apart x : x ∈ pre ++ post → x ∈ cs ∧ (addr x + csz x ≤ addr c ∨ addr c + csz c ≤ addr x).
Proof using Hrep.
  intros Hx. split; [|eapply tiles_disjoint; [apply Hrep|done]].
  unfold cs. rewrite elem_of_app, elem_of_cons in *. tauto.
Qed.

(** Bytes of the hole and tags of the other chunks are not links of the rest. *)
Lemma hole_off b : addr c ≤ b < addr c + csz c → off_list hd (fl1 ++ fl2) b.
Proof using Hrep.
  intros Hb. destruct (rep_chunk _ _ _ _ Hrep c (proj1 carve_c)) as (_ & _ & ? & ? & _).
  apply (off_list_intro _ _ _ _ Hrep); [lia|]. intros x [Hx _]%rest_in.
  destruct (rest_apart x Hx) as [Hin ?]. destruct (rep_chunk _ _ _ _ Hrep x Hin) as (_ & ? & _). lia.
Qed.

Lemma tag_off x b : x ∈ cs → addr x ≤ b < addr x + 8 → off_list hd fl b.
Proof using Hrep.
  intros Hx Hb. destruct (rep_chunk _ _ _ _ Hrep x Hx) as (_ & ? & ? & ? & _).
  apply (off_list_intro _ _ _ _ Hrep); [lia|]. intros y [Hy _]%(rep_free_in _ _ _ _ Hrep).
  destruct (rep_chunk _ _ _ _ Hrep y Hy) as (_ & ? & _).
  destruct (rep_disjoint _ _ _ _ Hrep x y Hx Hy) as [->|?]; lia.
Qed.

Lemma off_rest b : off_list hd fl b → off_list hd (fl1 ++ fl2) b.
Proof using.
  unfold off_list, fl. rewrite !links_of_app. simpl. rewrite !Forall_cons, !Forall_app, Forall_cons. tauto.
Qed.

(** A change that leaves the tags of the other chunks alone. *)
Lemma rest_tags m' : (∀ b, off_list hd fl b → (b < addr c ∨ addr c + csz c ≤ b) → m' b = mem h b) →
  ∀ x, x ∈ pre ++ post → rd32 m' (addr x + 4) = rd32 (mem h) (addr x + 4).
Proof using Hrep.
  intros Hm x Hx. destruct (rest_apart x Hx) as [Hin Hd]. destruct (rep_chunk _ _ _ _ Hrep x Hin) as (_ & ? & _).
  apply rd32_ext. intros b Hb. apply Hm; [apply (tag_off x b Hin); lia|lia].
Qed.

(** The common beginning: check the size and take the hole off the list. *)
Lemma carve_start fuel nb : nb ≤ csz c →
  ∃ m1, dll m1 hd (links_of (fl1 ++ fl2)) ∧ (∀ b, off_list hd fl b → m1 b = mem h b) ∧ bytes_ok m1
    ∧ carve hd fuel (addr c) nb h
      = (nb ← (if u32 (nb + MIN_CHUNK_SIZE) <=? csz c then
                 _ ← set_chunk_head hd (chunk_plus_offset (addr c) nb) (u32 (csz c - nb));
                 _ ← insertChunk hd fuel (chunk_plus_offset (addr c) nb);
                 mret nb
               else mret (csz c));
         _ ← set_inuse hd (addr c) nb; mret (chunk2mem (addr c))) (with_mem m1 h).
Proof using Hrep.
  intros Hle. pose proof (rep_readable _ _ _ _ Hrep c (proj1 carve_c)) as Hc.
  destruct (remove_ok hd h (rep_hd _ _ _ _ Hrep) fl1 c fl2 (rep_listed _ _ _ _ Hrep)) as (m1 & Hr & Hd & Hfr & Hb).
  specialize (Hb (hr_bytes _ _ _ _ Hrep)). exists m1. split_and!; [done..|].
  unfold carve. mrun (chunksize_in hd h c Hc). rewrite assert_step by (by apply Z.leb_le). mrun Hr.
  assert (readable (with_mem m1 h) c) as Hc1.
  { apply readable_ext; [|done]. intros b Hb'. apply Hfr. apply (tag_off c b (proj1 carve_c)). lia. }
  by mrun (chunksize_in hd _ c Hc1).
Qed.

Definition whole : chunk := Chunk (addr c) (csz c) true.
Definition front (nb : Z) : chunk := Chunk (addr c) nb true.
Definition remainder (nb : Z) : chunk := Chunk (addr c + nb) (csz c - nb) false.

(** What carving with a remainder has done once the remainder is on the list. *)
Record split_done (nb : Z) (m : ram) : Prop := {
  sd_list : dll m hd (links_of (smaller (csz c - nb) (fl1 ++ fl2) ++ remainder nb :: fitting (csz c - nb) (fl1 ++ fl2)));
  sd_bytes : bytes_ok m;
  sd_frame b : off_list hd fl b → (b < addr c + 8 ∨ addr c + 16 ≤ b) → (b < addr c + nb + 4 ∨ addr c + nb + 16 ≤ b) → m b = mem h b;
  sd_tag : rd32 m (addr c + nb + 4) = csz c - nb
}.

Section split.
Context (nb : Z) (Hm8 : nb mod 8 = 0) (Hnb : 16 ≤ nb) (Hle : nb + 16 ≤ csz c).

Lemma split_new : csz (remainder nb) mod 8 = 0 ∧ inside h (remainder nb) ∧ addr c + csz c ≤ endAddr h ∧ startAddr h ≤ addr c
  ∧ endAddr h < 2 ^ 31 ∧ 0 < startAddr h.
Proof using Hrep Hm8 Hnb Hle.
  destruct (rep_chunk _ _ _ _ Hrep c (proj1 carve_c)) as (Hc8 & _ & Hcs & Hce & _). pose proof (hr_bounds _ _ _ _ Hrep) as Hbd.
  change HEAP_MIN_SIZE with 1048576 in Hbd. split_and!; try lia; [simpl; clear - Hm8 Hc8; dlia|unfold inside; simpl; lia..].
Qed.

Lemma split_insert fuel m1 : (length fl < fuel)%nat → dll m1 hd (links_of (fl1 ++ fl2)) → (∀ b, off_list hd fl b → m1 b = mem h b) → bytes_ok m1 →
  ∃ m3, (_ ← set_chunk_head hd (addr c + nb) (csz c - nb); insertChunk hd fuel (addr c + nb)) (with_mem m1 h) = Ok ((), with_mem m3 h)
    ∧ split_done nb m3.
Proof using Hrep Hm8 Hnb Hle.
  intros Hf Hd1 Hf1 Hb1. destruct split_new as (Hn8 & Hin & Hce & Hcs & Hend & Hst). set (new := remainder nb) in *. set (h1 := with_mem m1 h).
  change (addr c + nb) with (addr new). mrun (set_head_in hd h1 new (csz c - nb) Hin).
  set (m2 := wr32 (mem h1) (addr new + 4) (csz c - nb)). set (h2 := with_mem m2 h1).
  assert (listed hd h2 (fl1 ++ fl2)) as Hl2.
  { split.
    - eapply dll_ext; [exact Hd1|]. intros n b Hn Hb. apply wr32_other8.
      destruct (decide (addr new + 4 ≤ b < addr new + 8)) as [Hw|]; [|lia]. exfalso.
      pose proof (off_list_in hd _ _ n (hole_off b ltac:(simpl in *; lia)) Hn) as Ho. unfold outside in Ho. lia.
    - apply Forall_forall. intros x Hx. destruct (rest_in x Hx) as [Hx' _]. destruct (rest_apart x Hx') as [Hxin Hxa].
      destruct (rep_chunk _ _ _ _ Hrep x Hxin) as (_ & ? & _).
      apply (readable_ext h); [|by apply (rep_readable _ _ _ _ Hrep)]. intros b Hb. unfold m2.
      rewrite wr32_other8 by (simpl; lia). apply Hf1. apply (tag_off x b Hxin). lia. }
  assert (readable h2 new) as Hnew.
  { split_and!; [done|done|unfold new; simpl; lia|unfold h2, h1, new; simpl; lia|]. exists (csz c - nb). split.
    - simpl. unfold m2. apply rd32_wr32_same. lia.
    - unfold new. simpl. lia. }
  destruct (insert_ok hd h2 (rep_hd _ _ _ _ Hrep) (fl1 ++ fl2) new fuel Hl2 Hnew) as (m3 & Hr3 & Hd3 & Hf3 & Hb3).
  { intros n Hn. pose proof (off_list_in hd _ (addr new + 8) n (hole_off (addr new + 8) ltac:(simpl; lia)) Hn) as Ho1.
    pose proof (off_list_in hd _ (addr new + 15) n (hole_off (addr new + 15) ltac:(simpl; lia)) Hn) as Ho2.
    unfold outside, apart in *. lia. }
  { unfold fl in Hf. rewrite length_app in *. simpl in Hf. lia. }
  assert (∀ b, off_list hd (fl1 ++ fl2) b → (b < addr new + 8 ∨ addr new + 16 ≤ b) → m3 b = m2 b) as Hf3'.
  { intros b Ho Hb. apply Hf3. unfold off_list in *. rewrite Forall_cons in *. destruct Ho as [Ho1 Ho2]. split; [done|].
    simpl. apply Forall_cons. split; [unfold outside; simpl in *; lia|done]. }
  exists m3. split; [exact Hr3|]. split; [exact Hd3|by apply Hb3, wr32_bytes| |].
  - intros b Ho H1 H2. change (addr c + nb) with (addr new) in H2. rewrite Hf3' by (by apply off_rest || lia).
    unfold m2. rewrite wr32_other8 by lia. by apply Hf1.
  - change (addr c + nb) with (addr new). rewrite <- (rd32_wr32_same (mem h1) (addr new + 4) (csz c - nb)) by lia.
    apply rd32_ext. intros b Hb. apply Hf3'; [apply hole_off; simpl in *; lia|lia].
Qed.

(** The two tags written last make the heap of the block and the remainder. *)
Definition tagged_split (m : ram) : ram := wr32 (wr32 m (addr c + 4) (tag (front nb) true)) (addr c + nb + 4) (tag (remainder nb) true).

Lemma split_frame m : split_done nb m → carve_frame hd (mem h) (tagged_split m) fl c nb 16.
Proof using Hnb.
  intros [_ _ Hfr _] b Ho H1 H2. unfold tagged_split. rewrite !wr32_other8 by lia. apply Hfr; [done|lia..].
Qed.

Lemma split_rep m : split_done nb m → heap_rep hd (with_mem (tagged_split m) h) (pre ++ front nb :: remainder nb :: post)
  (smaller (csz c - nb) (fl1 ++ fl2) ++ remainder nb :: fitting (csz c - nb) (fl1 ++ fl2)).
Proof using Hrep Hm8 Hnb Hle.
  intros Hsd. pose proof (split_frame m Hsd) as Hfin. destruct Hsd as [Hd3 Hb3 _ _]. pose proof carve_c as (Hcin & Hfree & Hpin).
  destruct split_new as (Hn8 & Hin & Hce & Hcs & Hend & Hst). set (new := remainder nb) in *. set (m5 := tagged_split m) in *.
  assert (∀ x, x ∈ pre ++ post → rd32 m5 (addr x + 4) = rd32 (mem h) (addr x + 4)) as Hrest.
  { apply rest_tags. intros b Ho Hb. apply Hfin; [done|lia|lia]. }
  destruct (tiles_mid _ _ _ _ _ _ _ (hr_tiles _ _ _ _ Hrep)) as (T1 & _ & _ & _ & _ & T2 & _).
  split; try apply Hrep; cbn [mem with_mem].
  - by do 2 apply wr32_bytes.
  - change (tiles m5 (startAddr h) (endAddr h) true (pre ++ front nb :: new :: post)). apply tiles_app. exists (addr c). split.
    { eapply tiles_ext; [|exact T1]. intros x Hx. apply Hrest, elem_of_app. by left. }
    rewrite Hpin. simpl. split_and!; try done; try lia.
    + unfold m5, tagged_split. rewrite rd32_wr32_other by lia. apply rd32_wr32_same. unfold tag. simpl. lia.
    + unfold m5, tagged_split. apply rd32_wr32_same. unfold tag. simpl. lia.
    + replace (addr c + nb + (csz c - nb)) with (addr c + csz c) by lia. rewrite Hfree in T2.
      eapply tiles_ext; [|exact T2]. intros x Hx. apply Hrest, elem_of_app. by right.
  - change (csz c - nb) with (csz new). rewrite insert_perm, rest_free, !frees_app. unfold frees.
    rewrite filter_cons_False, filter_cons_True by done. by rewrite Permutation_middle.
  - eapply dll_ext; [exact Hd3|]. intros n b Hn Hb. unfold m5, tagged_split.
    assert (n = addr new + 8 ∨ n ∈ hd :: links_of (fl1 ++ fl2)) as Hn'.
    { apply elem_of_cons in Hn as [->|(x & Hx & ->)%elem_of_links]; [right; by left|]. change (csz c - nb) with (csz new) in Hx.
      rewrite insert_perm in Hx. apply elem_of_cons in Hx as [->|Hx]; [by left|right; right]. apply elem_of_links. by exists x. }
    destruct Hn' as [->|Hn']; [rewrite !wr32_other8 by (simpl in *; lia); done|].
    destruct (decide (addr c ≤ b < addr c + csz c)) as [Hw|]; [|rewrite !wr32_other8 by lia; done].
    pose proof (off_list_in hd _ _ n (hole_off b Hw) Hn') as Ho. unfold outside in Ho. lia.
  - change (csz c - nb) with (csz new). apply insert_sorted. eapply by_size_remove, Hrep.
Qed.

Lemma carve_split fuel : (length fl < fuel)%nat →
  ∃ h' fl', carve hd fuel (addr c) nb h = Ok (addr c + 8, h')
    ∧ heap_rep hd h' (pre ++ front nb :: remainder nb :: post) fl'
    ∧ (∃ m', h' = with_mem m' h ∧ carve_frame hd (mem h) m' fl c nb 16).
Proof using Hrep Hm8 Hnb Hle.
  intros Hf. pose proof carve_c as (Hcin & _ & Hpin). destruct (rep_chunk _ _ _ _ Hrep c Hcin) as (Hc8 & _).
  destruct split_new as (Hn8 & Hin & Hce & Hcs & Hend & Hst). destruct (carve_start fuel nb ltac:(lia)) as (m1 & Hd1 & Hf1 & Hb1 & ->).
  change MIN_CHUNK_SIZE with 16. unfold chunk_plus_offset. rewrite (u32_small (nb + 16)), (u32_small (addr c + nb)),
    (u32_small (csz c - nb)), (proj2 (Z.leb_le _ _) Hle) by lia.
  destruct (split_insert fuel m1 Hf Hd1 Hf1 Hb1) as (m3 & Hr3 & Hsd).
  rewrite (M_seq_step _ _ _ _ _ _ Hr3). set (h3 := with_mem m3 h).
  assert (rd32 m3 (addr c + 4) = tag c true) as Ht3.
  { destruct (tiles_mid _ _ _ _ _ _ _ (hr_tiles _ _ _ _ Hrep)) as (_ & _ & _ & Ht & _). rewrite Hpin in Ht.
    rewrite <- Ht. apply rd32_ext. intros b Hb. apply (sd_frame _ _ Hsd); [apply (tag_off c b Hcin)|..]; lia. }
  assert (inside h3 c) as Hc3 by (apply (rep_inside _ _ _ _ Hrep c Hcin)).
  mrun (set_inuse_ok hd h3 c (remainder nb) nb Hc3 Hin eq_refl ltac:(lia)). cbn [mem with_mem h3 addr remainder].
  rewrite Ht3, (sd_tag _ _ Hsd), (tag_set_inuse c true nb), (tag_free (addr c + nb) (csz c - nb)) by (done || lia).
  assert (chunk2mem (addr c) = addr c + 8) as -> by (unfold chunk2mem; apply u32_small; lia).
  eexists _, _. split; [done|]. split; [exact (split_rep m3 Hsd)|]. eexists. split; [done|by apply split_frame].
Qed.
End split.

(** A hole taken whole changes its own tag and the one of the chunk behind it. *)
Section whole.
Context (d : chunk) (post' : list chunk) (Ep : post = d :: post') (m1 : ram).
Context (Hd1 : dll m1 hd (links_of (fl1 ++ fl2))) (Hf1 : ∀ b, off_list hd fl b → m1 b = mem h b) (Hb1 : bytes_ok m1).
Let m2 : ram := wr32 (wr32 m1 (addr c + 4) (tag whole true)) (addr d + 4) (tag d true).

Lemma whole_next : d ∈ cs ∧ csz d mod 8 = 0 ∧ 16 ≤ csz d ∧ addr d = addr c + csz c ∧ rd32 (mem h) (addr d + 4) = tag d false
  ∧ tiles (mem h) (addr d + csz d) (endAddr h) true post'.
Proof using Hrep Ep.
  pose proof carve_c as (_ & Hfree & _). assert (d ∈ pre ++ post) as Hdin by (rewrite Ep; apply elem_of_app; right; by left).
  destruct (rest_apart d Hdin) as [Hdin2 _]. destruct (rep_chunk _ _ _ _ Hrep d Hdin2) as (Hd8 & Hd16 & _).
  destruct (tiles_mid _ _ _ _ _ _ _ (hr_tiles _ _ _ _ Hrep)) as (_ & _ & _ & _ & _ & T2 & _).
  rewrite Hfree, Ep in T2. destruct T2 as (E & _ & _ & Htd & Hu & T3). assert (used d = true) as Hud.
  { destruct (used d); [done|]. by discriminate Hu. }
  rewrite Hud in T3. rewrite E in *. done.
Qed.

Lemma whole_rest x : x ∈ pre ++ post' → rd32 m2 (addr x + 4) = rd32 (mem h) (addr x + 4).
Proof using Hrep Ep Hf1.
  intros Hx. destruct whole_next as (_ & _ & Hd16 & Ead & _ & T3). pose proof carve_c as (Hcin & _).
  destruct (tiles_mid _ _ _ _ _ _ _ (hr_tiles _ _ _ _ Hrep)) as (T1 & _).
  assert (x ∈ pre ++ post) as Hx1 by (rewrite Ep, elem_of_app, elem_of_cons in *; tauto).
  destruct (rest_apart x Hx1) as [Hxin Hxa]. destruct (rep_chunk _ _ _ _ Hrep x Hxin) as (_ & ? & _).
  assert (addr x + csz x ≤ addr c ∨ addr d + csz d ≤ addr x) as Hxd.
  { apply elem_of_app in Hx as [Hx|Hx]; [left; by eapply tiles_in in T1 as (_ & _ & _ & ?)|].
    right. by eapply tiles_in in T3 as (_ & _ & ? & _). }
  destruct (rep_chunk _ _ _ _ Hrep c Hcin) as (_ & ? & _). unfold m2. rewrite !rd32_wr32_other by lia.
  apply rd32_ext. intros b Hb. apply Hf1. apply (tag_off x b Hxin). lia.
Qed.

Lemma whole_rep : heap_rep hd (with_mem m2 h) (pre ++ whole :: post) (fl1 ++ fl2).
Proof using Hrep Ep Hd1 Hf1 Hb1.
  destruct whole_next as (Hdin & Hd8 & Hd16 & Ead & Htd & T3). pose proof carve_c as (Hcin & Hfree & Hpin).
  destruct (rep_chunk _ _ _ _ Hrep c Hcin) as (Hc8 & Hc16 & Hcs & Hce & _). pose proof (hr_bounds _ _ _ _ Hrep) as Hbd.
  destruct (tiles_mid _ _ _ _ _ _ _ (hr_tiles _ _ _ _ Hrep)) as (T1 & _ & _ & _ & _ & T2 & _).
  rewrite Hfree, Ep in T2. destruct T2 as (_ & _ & _ & _ & Hu & T2).
  assert (used d = true) as Hud by (destruct (used d); [done|by discriminate Hu]).
  destruct (rep_chunk _ _ _ _ Hrep d Hdin) as (_ & _ & _ & Hde & _). pose proof (tag_range d true ltac:(lia)) as Htr.
  split; try apply Hrep; cbn [mem with_mem].
  - unfold m2. by apply wr32_bytes, wr32_bytes.
  - change (tiles m2 (startAddr h) (endAddr h) true (pre ++ whole :: post)). apply tiles_app. exists (addr c).
    split; [eapply tiles_ext; [|exact T1]; intros x Hx; apply whole_rest, elem_of_app; by left|].
    rewrite Hpin, Ep. simpl. split_and!; try done.
    + unfold m2. rewrite rd32_wr32_other by lia. apply rd32_wr32_same. unfold tag, whole. simpl. lia.
    + rewrite <- Ead. unfold m2. apply rd32_wr32_same. lia.
    + rewrite Hud, <- Ead. eapply tiles_ext; [|exact T3]. intros x Hx. apply whole_rest, elem_of_app. by right.
  - rewrite rest_free, !frees_app. unfold frees. by rewrite filter_cons_False by done.
  - eapply dll_ext; [exact Hd1|]. intros n b Hn Hb. unfold m2.
    assert (outside n (addr c + 4) ∧ outside n (addr c + 7)) as [O1 O2].
    { split; (eapply off_list_in; [apply hole_off; lia|done]). }
    assert (outside n (addr d + 4) ∧ outside n (addr d + 7)) as [O3 O4].
    { split; (eapply off_list_in; [apply off_rest, (tag_off d _ Hdin); lia|done]). }
    unfold outside in *. rewrite !wr32_other8 by lia. done.
  - eapply by_size_remove, Hrep.
Qed.
End whole.

Lemma carve_whole fuel nb d post' : post = d :: post' → 16 ≤ nb ≤ csz c → csz c < nb + 16 →
  ∃ h', carve hd fuel (addr c) nb h = Ok (addr c + 8, h')
    ∧ heap_rep hd h' (pre ++ whole :: post) (fl1 ++ fl2)
    ∧ (∃ m', h' = with_mem m' h ∧ carve_frame hd (mem h) m' fl c (csz c) 8).
Proof using Hrep.
  intros Ep Hnb Hle. pose proof carve_c as (Hcin & Hfree & Hpin).
  destruct (rep_chunk _ _ _ _ Hrep c Hcin) as (Hc8 & Hc16 & Hcs & Hce & _). pose proof (hr_bounds _ _ _ _ Hrep) as Hbd.
  destruct (carve_start fuel nb ltac:(lia)) as (m1 & Hd1 & Hf1 & Hb1 & ->).
  change MIN_CHUNK_SIZE with 16. rewrite (u32_small (nb + 16)), (proj2 (Z.leb_gt _ _)) by lia. rewrite ret_step.
  destruct (tiles_mid _ _ _ _ _ _ _ (hr_tiles _ _ _ _ Hrep)) as (_ & _ & _ & Ht & _). rewrite Hpin in Ht.
  destruct (whole_next _ _ Ep) as (Hdin & Hd8 & Hd16 & Ead & Htd & _). set (h1 := with_mem m1 h).
  assert (∀ x, x ∈ cs → rd32 m1 (addr x + 4) = rd32 (mem h) (addr x + 4)) as Htag1.
  { intros x Hx. apply rd32_ext. intros b Hb. apply Hf1. apply (tag_off x b Hx). lia. }
  assert (inside h1 c ∧ inside h1 d) as [Hc1 Hd2] by (split; by apply (rep_inside _ _ _ _ Hrep)).
  mrun (set_inuse_ok hd h1 c d (csz c) Hc1 Hd2 Ead ltac:(lia)). cbn [mem with_mem h1]. rewrite !Htag1, Ht, Htd by done.
  rewrite (tag_set_inuse c true (csz c)), (tag_set_pinuse d) by (done || lia). fold whole.
  assert (chunk2mem (addr c) = addr c + 8) as -> by (unfold chunk2mem; apply u32_small; lia).
  eexists. split; [done|]. split; [exact (whole_rep _ _ Ep _ Hd1 Hf1 Hb1)|]. eexists. split; [done|].
  intros b Ho H1 H2. rewrite !wr32_other8 by lia. by apply Hf1.
Qed.

(** A hole taken whole at the end of the heap: the tag behind it is not there. *)
Lemma carve_end fuel nb : post = [] → hd + 8 ≤ startAddr h → 16 ≤ nb ≤ csz c → csz c < nb + 16 →
  carve hd fuel (addr c) nb h = Fault (endAddr h + 4).
Proof using Hrep.
  intros Ep Hlow Hnb Hle. pose proof carve_c as (Hcin & Hfree & Hpin).
  destruct (rep_chunk _ _ _ _ Hrep c Hcin) as (Hc8 & Hc16 & Hcs & Hce & _).
  pose proof (hr_bounds _ _ _ _ Hrep) as Hbd.
  destruct (carve_start fuel nb ltac:(lia)) as (m1 & Hd1 & Hf1 & Hb1 & ->).
  change MIN_CHUNK_SIZE with 16. rewrite (u32_small (nb + 16)), (proj2 (Z.leb_gt _ _)) by lia. rewrite ret_step.
  destruct (tiles_mid _ _ _ _ _ _ _ (hr_tiles _ _ _ _ Hrep)) as (_ & _ & _ & _ & _ & T2 & _). rewrite Ep in T2. simpl in T2.
  unfold set_inuse. rewrite M_assoc. assert (inside (with_mem m1 h) c) as Hc1 by (by apply (rep_inside _ _ _ _ Hrep)).
  mrun (get_head_in hd _ c Hc1). rewrite M_assoc. match goal with |- context [set_chunk_head hd (addr c) ?v] =>
    mrun (set_head_in hd _ c v Hc1) end.
  unfold set_pinuse, get_chunk_head, chunk_plus_offset. rewrite T2, (u32_small (endAddr h)), (u32_small (endAddr h + 4)) by lia.
  unfold mbind, M_bind. cbn [load heap_mem]. unfold accessible. simpl.
  rewrite (proj2 (Z.leb_gt (endAddr h + 4 + 4) (endAddr h))), andb_false_r by lia.
  rewrite (proj2 (Z.leb_gt (endAddr h + 4) (hd + 4))), andb_false_r by lia. done.
Qed.
End carve.

(** ** Requests *)

Lemma request2size_ok size : 0 ≤ size < 2 ^ 31 →
  request2size size mod 8 = 0 ∧ 16 ≤ request2size size ∧ size + 4 ≤ request2size size ≤ size + 16.
Proof.
  intros Hs. unfold request2size. change MIN_REQUEST with 11. destruct (Z.ltb_spec size 11).
  - change MIN_CHUNK_SIZE with 16. split_and!; [done|lia..].
  - unfold pad_request. change KMALLOC_ALIGN_MASK with (2 ^ 3 - 1). change CHUNK_OVERHEAD with 4.
    rewrite u32_small by lia. rewrite land_not_mask by lia. change (2 ^ 3) with 8. split_and!; dlia.
Qed.

(** ** Making a stretch of memory a free chunk *)

(** What [heap_rep] says of the object and its bounds. *)
Record heap_env (hd : Z) (h : Heap) : Prop := {
  he_bytes : bytes_ok (mem h);
  he_start : startAddr h mod PAGE_SIZE = 0;
  he_end : endAddr h mod PAGE_SIZE = 0;
  he_bounds : 0 < startAddr h ∧ startAddr h + HEAP_MIN_SIZE ≤ endAddr h ∧ endAddr h ≤ maxAddr h ∧ maxAddr h < 2 ^ 31;
  he_hd : 0 < hd ∧ hd + 8 ≤ 2 ^ 32 ∧ (hd + 8 ≤ startAddr h ∨ maxAddr h ≤ hd)
}.

Lemma rep_env hd h cs fl : heap_rep hd h cs fl → heap_env hd h.
Proof. intros []. by split. Qed.

(** The chunks [pre] and [post] around a gap of [s] bytes at [a], and the list of
    their free chunks; [pb] is what the tag behind the gap says about it. *)
Record gap (hd : Z) (h : Heap) (pre post fl : list chunk) (a s : Z) (pb : bool) : Prop := {
  g_env : heap_env hd h;
  g_pre : tiles (mem h) (startAddr h) a true pre;
  g_size : s mod 8 = 0 ∧ 16 ≤ s;
  g_post : tiles (mem h) (a + s) (endAddr h) pb post;
  g_free : fl ≡ₚ frees (pre ++ post);
  g_list : dll (mem h) hd (links_of fl);
  g_sorted : by_size fl
}.

Section gap.
Context (hd : Z) (h : Heap) (pre post fl : list chunk) (a s : Z) (pb : bool).
Hypothesis Hgap : gap hd h pre post fl a s pb.

Lemma gap_chunk x : x ∈ pre ++ post → csz x mod 8 = 0 ∧ 16 ≤ csz x ∧ startAddr h ≤ addr x ∧ addr x + csz x ≤ endAddr h
  ∧ (addr x + csz x ≤ a ∨ a + s ≤ addr x)
  ∧ ∃ pin, rd32 (mem h) (addr x + 4) = tag x pin.
Proof using Hgap.
  destruct Hgap as [_ T1 Hs T2 _ _ _]. pose proof (tiles_le _ _ _ _ _ T1). pose proof (tiles_le _ _ _ _ _ T2).
  intros [Hx|Hx]%elem_of_app; apply list_elem_of_split in Hx as (l1 & l2 & E); rewrite E in *.
  - apply tiles_mid in T1 as (_ & ? & ? & ? & _ & _ & ? & ?). split_and!; try done; try lia. eauto.
  - apply tiles_mid in T2 as (_ & ? & ? & ? & _ & _ & ? & ?). split_and!; try done; try lia. eauto.
Qed.

Lemma gap_disjoint x y : x ∈ pre ++ post → y ∈ pre ++ post → x = y ∨ addr x + csz x ≤ addr y ∨ addr y + csz y ≤ addr x.
Proof using Hgap.
  destruct Hgap as [_ T1 Hs T2 _ _ _].
  intros [Hx|Hx]%elem_of_app [Hy|Hy]%elem_of_app; [by eapply (tiles_pair _ _ _ _ _ _ _ T1)| | |by eapply (tiles_pair _ _ _ _ _ _ _ T2)].
  - eapply tiles_in in T1 as (_ & _ & _ & ?); [|exact Hx]. eapply tiles_in in T2 as (_ & _ & ? & _); [|exact Hy]. lia.
  - eapply tiles_in in T1 as (_ & _ & _ & ?); [|exact Hy]. eapply tiles_in in T2 as (_ & _ & ? & _); [|exact Hx]. lia.
Qed.

Lemma gap_readable x : x ∈ pre ++ post → readable h x.
Proof using Hgap.
  intros Hx. destruct (gap_chunk x Hx) as (? & ? & ? & ? & _ & pin & Ht).
  destruct Hgap as [[_ _ _ Hb _] _ _ _ _ _ _]. split_and!; [unfold inside; lia|done|lia|done|].
  exists (tag x pin). split; [done|]. pose proof (tag_range x pin). lia.
Qed.

Lemma gap_listed : listed hd h fl.
Proof using Hgap.
  split; [apply Hgap|]. apply Forall_forall. intros x Hx. apply gap_readable.
  rewrite (g_free _ _ _ _ _ _ _ _ Hgap), elem_of_frees in Hx. tauto.
Qed.

Lemma gap_off b : startAddr h ≤ b < endAddr h →
  (∀ x, x ∈ frees (pre ++ post) → b < addr x + 8 ∨ addr x + 16 ≤ b) → off_list hd fl b.
Proof using Hgap.
  intros Hb Hx. destruct Hgap as [[_ _ _ Hbd Hhd] _ _ _ Hf _ _].
  apply Forall_cons. split; [unfold outside; lia|]. apply Forall_forall. intros n (x & Hin & ->)%elem_of_links.
  rewrite Hf in Hin. specialize (Hx x Hin). unfold outside. lia.
Qed.

(** Bytes of the gap, and tags, are not links. *)
Lemma gap_off_gap b : a ≤ b < a + s → off_list hd fl b.
Proof using Hgap.
  intros Hb. pose proof (tiles_le _ _ _ _ _ (g_pre _ _ _ _ _ _ _ _ Hgap)). pose proof (tiles_le _ _ _ _ _ (g_post _ _ _ _ _ _ _ _ Hgap)).
  apply gap_off; [lia|]. intros x [_ Hx]%elem_of_frees. destruct (gap_chunk x Hx) as (_ & ? & _ & _ & ? & _). lia.
Qed.

Lemma gap_off_tag x b : x ∈ pre ++ post → addr x ≤ b < addr x + 8 → off_list hd fl b.
Proof using Hgap.
  intros Hx Hb. destruct (gap_chunk x Hx) as (_ & ? & ? & ? & _ & _).
  apply gap_off; [lia|]. intros y [_ Hy]%elem_of_frees. destruct (gap_chunk y Hy) as (_ & ? & _ & _ & _ & _).
  destruct (gap_disjoint x y Hx Hy) as [->|?]; lia.
Qed.

Definition gap_frame (m' : ram) : Prop :=
  ∀ b, off_list hd fl b → (b < a + 4 ∨ a + 16 ≤ b) → m' b = mem h b.

(** Writing in the gap keeps it. *)
Lemma gap_write m' : bytes_ok m' → (∀ b, ¬ a ≤ b < a + s → m' b = mem h b) → gap hd (with_mem m' h) pre post fl a s pb.
Proof using Hgap.
  intros Hb Hm. pose proof Hgap as [[_ Hst He Hbd Hhd] T1 Hs T2 Hf Hd Hso].
  assert (∀ x, x ∈ pre ++ post → rd32 m' (addr x + 4) = rd32 (mem h) (addr x + 4)) as Ht.
  { intros x Hx. destruct (gap_chunk x Hx) as (_ & ? & _ & _ & ? & _). apply rd32_ext. intros c Hc. apply Hm. lia. }
  split; try done; cbn [mem with_mem startAddr endAddr].
  - eapply tiles_ext; [|exact T1]. intros x Hx. apply Ht, elem_of_app. by left.
  - eapply tiles_ext; [|exact T2]. intros x Hx. apply Ht, elem_of_app. by right.
  - eapply dll_ext; [exact Hd|]. intros n b Hn Hc. apply Hm. intros Hw.
    pose proof (off_list_in hd _ _ n (gap_off_gap b Hw) Hn) as Ho. unfold outside in Ho. lia.
Qed.

(** The gap becomes a free chunk: its tag is there, it goes on the list. *)
Lemma place_tagged fuel : pb = false → pin_after true pre = true → rd32 (mem h) (a + 4) = tag (Chunk a s false) true → (length fl < fuel)%nat →
  ∃ m' fl', insertChunk hd fuel a h = Ok ((), with_mem m' h)
    ∧ heap_rep hd (with_mem m' h) (pre ++ Chunk a s false :: post) fl'
    ∧ ∀ b, off_list hd fl b → (b < a + 8 ∨ a + 16 ≤ b) → m' b = mem h b.
Proof using Hgap.
  intros Hpb Hpin Htag Hfu. pose proof Hgap as [[Hby Hst He Hbd Hhd] T1 [Hs8 Hs16] T2 Hf Hd Hso]. rewrite Hpb in T2.
  pose proof (tiles_le _ _ _ _ _ T1) as L1. pose proof (tiles_le _ _ _ _ _ T2) as L2.
  set (c := Chunk a s false) in *.
  assert (readable h c) as Hc1.
  { split_and!; [unfold inside, c; simpl; lia|done|unfold c; simpl; lia|unfold c; simpl; lia|]. exists (tag c true). split; [done|].
    pose proof (tag_range c true ltac:(unfold c; simpl; lia)). lia. }
  destruct (insert_ok hd h ltac:(lia) fl c fuel gap_listed Hc1) as (m2 & Hr2 & Hd2 & Hf2 & Hb2); [|done|].
  { intros n Hn. pose proof (off_list_in hd _ _ n (gap_off_gap (a + 8) ltac:(lia)) Hn) as O1.
    pose proof (off_list_in hd _ _ n (gap_off_gap (a + 15) ltac:(lia)) Hn) as O2.
    unfold outside, apart in *. simpl. lia. }
  exists m2, (smaller (csz c) fl ++ c :: fitting (csz c) fl). split; [exact Hr2|].
  assert (∀ b, off_list hd fl b → (b < a + 8 ∨ a + 16 ≤ b) → m2 b = mem h b) as Hfr.
  { intros b Ho Hb. apply Hf2. unfold off_list in *. rewrite Forall_cons in *.
    destruct Ho as [O1 O2]. split; [done|]. simpl. apply Forall_cons. split; [unfold outside; simpl; lia|done]. }
  split; [|done].
  assert (∀ x, x ∈ pre ++ post → rd32 m2 (addr x + 4) = rd32 (mem h) (addr x + 4)) as Hrest.
  { intros x Hx. destruct (gap_chunk x Hx) as (_ & ? & _ & _ & ? & _). apply rd32_ext. intros b Hb.
    apply Hfr; [apply (gap_off_tag x b Hx)|]; lia. }
  split; try done; cbn [mem with_mem startAddr endAddr].
  - by apply Hb2.
  - apply tiles_app. exists a. rewrite Hpin. split.
    { eapply tiles_ext; [|exact T1]. intros x Hx. apply Hrest, elem_of_app. by left. }
    simpl. split_and!; try done.
    + fold c. rewrite <- Htag. apply rd32_ext. intros b Hb. apply Hfr; [apply gap_off_gap; lia|lia].
    + eapply tiles_ext; [|exact T2]. intros x Hx. apply Hrest, elem_of_app. by right.
  - rewrite insert_perm, Hf, !frees_app. unfold frees. rewrite filter_cons_True by done.
    by rewrite Permutation_middle.
  - by apply insert_sorted.
Qed.
End gap.

Lemma place_free hd h pre post fl a s pb fuel : gap hd h pre post fl a s pb → pb = false → pin_after true pre = true → (length fl < fuel)%nat →
  ∃ m' fl', (_ ← set_size_and_pinuse hd a s; insertChunk hd fuel a) h = Ok ((), with_mem m' h)
    ∧ heap_rep hd (with_mem m' h) (pre ++ Chunk a s false :: post) fl' ∧ gap_frame hd h fl a m'.
Proof.
  intros Hgap Hpb Hpin Hfu. pose proof Hgap as [[Hby _ _ Hbd _] T1 [Hs8 Hs16] T2 _ _ _].
  pose proof (tiles_le _ _ _ _ _ T1) as L1. pose proof (tiles_le _ _ _ _ _ T2) as L2.
  set (c := Chunk a s false). assert (inside h c) as Hin by (unfold inside, c; simpl; lia).
  unfold set_size_and_pinuse. rewrite (tag_free a s) by done. fold c. mrun (set_head_in hd h c (tag c true) Hin).
  set (m1 := wr32 (mem h) (addr c + 4) (tag c true)). assert (0 ≤ tag c true < 2 ^ 32) as Htr by (unfold tag, c; simpl; lia).
  assert (∀ b, ¬ (a + 4 ≤ b < a + 8) → m1 b = mem h b) as Hm1 by (intros b Hb; apply wr32_other8; unfold c; simpl; lia).
  assert (gap hd (with_mem m1 h) pre post fl a s pb) as Hg1.
  { apply (gap_write _ _ _ _ _ _ _ _ Hgap); [by apply wr32_bytes|]. intros b Hb. apply Hm1. lia. }
  destruct (place_tagged _ _ _ _ _ _ _ _ Hg1 fuel Hpb Hpin) as (m2 & fl' & Hr & Hrep & Hfr); [by apply rd32_wr32_same|done|].
  exists m2, fl'. split; [exact Hr|]. split; [exact Hrep|]. intros b Ho Hb.
  rewrite Hfr; [apply Hm1; lia|done|lia].
Qed.

(** ** Merging a gap with its neighbours *)

Lemma gap_of_used hd h pre c post fl :
  heap_rep hd h (pre ++ c :: post) fl → used c = true → gap hd h pre post fl (addr c) (csz c) true.
Proof.
  intros Hrep Hu. destruct (tiles_mid _ _ _ _ _ _ _ (hr_tiles _ _ _ _ Hrep)) as (T1 & ? & ? & _ & _ & T2 & _).
  rewrite Hu in T2. split; try done; [by eapply rep_env|..|apply Hrep|apply Hrep].
  rewrite (hr_free _ _ _ _ Hrep), !frees_app. unfold frees. by rewrite filter_cons_False by (by rewrite Hu).
Qed.

Lemma pin_after_snoc pin cs c : pin_after pin (cs ++ [c]) = used c.
Proof. unfold pin_after. by rewrite foldl_app. Qed.

(** Taking a free neighbour off the list keeps the tags. *)
Lemma gap_remove hd h pre post fl a s pb p :
  gap hd h pre post fl a s pb → p ∈ pre ++ post → used p = false →
  ∃ m' f1 f2, fl = f1 ++ p :: f2 ∧ removeChunk hd (addr p) h = Ok ((), with_mem m' h)
    ∧ dll m' hd (links_of (f1 ++ f2)) ∧ bytes_ok m' ∧ by_size (f1 ++ f2)
    ∧ (∀ b, off_list hd fl b → m' b = mem h b)
    ∧ (∀ x, x ∈ pre ++ post → rd32 m' (addr x + 4) = rd32 (mem h) (addr x + 4)).
Proof.
  intros Hg Hp Hu. assert (p ∈ fl) as Hfl by (rewrite (g_free _ _ _ _ _ _ _ _ Hg); by apply elem_of_frees).
  apply list_elem_of_split in Hfl as (f1 & f2 & ->).
  destruct (g_env _ _ _ _ _ _ _ _ Hg) as [Hby _ _ _ Hhd].
  destruct (remove_ok hd h ltac:(lia) f1 p f2 (gap_listed _ _ _ _ _ _ _ _ Hg)) as (m' & Hr & Hd & Hf & Hb).
  exists m', f1, f2. split_and!; try done; [by apply Hb|eapply by_size_remove, Hg|].
  intros x Hx. apply rd32_ext. intros b Hb'. apply Hf, (gap_off_tag _ _ _ _ _ _ _ _ Hg x b Hx). lia.
Qed.

Lemma env_mem hd h m' : heap_env hd h → bytes_ok m' → heap_env hd (with_mem m' h).
Proof. intros [] Hb. by split. Qed.

Lemma absorb_prev hd h pre p post fl a s pb :
  gap hd h (pre ++ [p]) post fl a s pb → used p = false →
  ∃ m' fl', removeChunk hd (addr p) h = Ok ((), with_mem m' h)
    ∧ gap hd (with_mem m' h) pre post fl' (addr p) (csz p + s) pb
    ∧ pin_after true pre = true ∧ addr p + csz p = a ∧ (length fl' < length fl)%nat
    ∧ (∀ b, off_list hd fl b → m' b = mem h b) ∧ (∀ b, off_list hd fl b → off_list hd fl' b).
Proof.
  intros Hg Hu. destruct (gap_remove hd h _ _ _ _ _ _ p Hg) as (m' & f1 & f2 & -> & Hr & Hd & Hb & Hs & Hf & Ht); [|done|].
  { rewrite !elem_of_app. left. right. by left. }
  pose proof Hg as [Henv T1 [Hs8 Hs16] T2 Hfr _ _]. apply tiles_mid in T1 as (T0 & Hp8 & Hp16 & _ & Hpin & T1 & _ & _). simpl in T1.
  exists m', (f1 ++ f2). split_and!; [done| |by apply Hpin|done| |done|].
  - split; [by apply env_mem| | | | |done|done]; cbn [mem with_mem startAddr endAddr].
    + eapply tiles_ext; [|exact T0]. intros x Hx. apply Ht. rewrite !elem_of_app. by left; left.
    + split; [clear - Hs8 Hp8; dlia|lia].
    + replace (addr p + (csz p + s)) with (a + s) by lia. eapply tiles_ext; [|exact T2]. intros x Hx.
      apply Ht. rewrite !elem_of_app. by right.
    + rewrite <- app_assoc, !frees_app in Hfr. rewrite frees_app. unfold frees in *.
      rewrite filter_cons_True, filter_nil in Hfr by done. cbn [app] in Hfr.
      rewrite <- !Permutation_middle in Hfr. by apply Permutation_cons_inv in Hfr.
  - rewrite !length_app. simpl. lia.
  - intros b. unfold off_list. rewrite !links_of_app. simpl. rewrite !Forall_cons, !Forall_app, Forall_cons. tauto.
Qed.

Lemma absorb_next hd h pre d post fl a s pb :
  gap hd h pre (d :: post) fl a s pb → used d = false →
  ∃ m' fl', removeChunk hd (addr d) h = Ok ((), with_mem m' h)
    ∧ gap hd (with_mem m' h) pre post fl' a (s + csz d) false
    ∧ addr d = a + s ∧ (length fl' < length fl)%nat
    ∧ (∀ b, off_list hd fl b → m' b = mem h b) ∧ (∀ b, off_list hd fl b → off_list hd fl' b).
Proof.
  intros Hg Hu. destruct (gap_remove hd h _ _ _ _ _ _ d Hg) as (m' & f1 & f2 & -> & Hr & Hd & Hb & Hs & Hf & Ht); [|done|].
  { rewrite elem_of_app. right. by left. }
  pose proof Hg as [Henv T1 [Hs8 Hs16] T2 Hfr _ _]. destruct T2 as (E & Hp8 & Hp16 & _ & _ & T2).
  exists m', (f1 ++ f2). split_and!; [done| |done| |done|].
  - split; [by apply env_mem| | | | |done|done]; cbn [mem with_mem startAddr endAddr].
    + eapply tiles_ext; [|exact T1]. intros x Hx. apply Ht. rewrite !elem_of_app. by left.
    + split; [clear - Hs8 Hp8; dlia|lia].
    + replace (a + (s + csz d)) with (a + s + csz d) by lia. rewrite Hu in T2. eapply tiles_ext; [|exact T2]. intros x Hx.
      apply Ht. rewrite elem_of_app. right. by right.
    + rewrite !frees_app in *. unfold frees in *. rewrite filter_cons_True in Hfr by done.
      rewrite <- !Permutation_middle in Hfr. by apply Permutation_cons_inv in Hfr.
  - rewrite !length_app. simpl. lia.
  - intros b. unfold off_list. rewrite !links_of_app. simpl. rewrite !Forall_cons, !Forall_app, Forall_cons. tauto.
Qed.

Definition useds (cs : list chunk) : list chunk := base.filter (λ c, used c = true) cs.

Lemma useds_app cs1 cs2 : useds (cs1 ++ cs2) = useds cs1 ++ useds cs2.
Proof. apply filter_app. Qed.
Lemma useds_free c cs : used c = false → useds (c :: cs) = useds cs.
Proof. intros H. unfold useds. by rewrite filter_cons_False by (by rewrite H). Qed.
Lemma useds_used c cs : used c = true → useds (c :: cs) = c :: useds cs.
Proof. intros H. unfold useds. by rewrite filter_cons_True. Qed.

(** Reading the flags of a tag. *)
Lemma tag_reads hd h c pin : inside h c → csz c mod 8 = 0 → rd32 (mem h) (addr c + 4) = tag c pin →
  pinuse hd (addr c) h = Ok (pin, h) ∧ cinuse hd (addr c) h = Ok (used c, h)
  ∧ ok_inuse hd (addr c) h = Ok (negb (negb (used c) && pin), h).
Proof.
  intros Hi H8 Ht. unfold pinuse, cinuse, ok_inuse. rewrite !(M_step _ _ _ _ _ (get_head_in hd h c Hi)), Ht.
  by rewrite tag_pinuse, tag_cinuse, tag_inuse.
Qed.

(** The chunk behind a free one knows its size. *)
Lemma feet_mid m cs1 : ∀ c cs2, feet m (cs1 ++ c :: cs2) ↔ feet m (cs1 ++ [c]) ∧ feet m (c :: cs2).
Proof.
  induction cs1 as [|x cs1 IH]; intros c cs2; [simpl; tauto|]. destruct cs1 as [|y cs1]; [simpl; tauto|].
  simpl in *. rewrite IH. tauto.
Qed.

Lemma feet_before m pre p c post : feet m ((pre ++ [p]) ++ c :: post) → used p = false → rd32 m (addr c) = csz p.
Proof. rewrite <- app_assoc. simpl. rewrite feet_mid. simpl. naive_solver. Qed.

Lemma feet_ext m m' cs : (∀ x, x ∈ tail cs → rd32 m' (addr x) = rd32 m (addr x)) → feet m cs → feet m' cs.
Proof.
  induction cs as [|c [|d t] IH]; intros He H; [done..|]. destruct H as [H1 H2]. split.
  - intros Hc. rewrite He by (by left). by apply H1.
  - apply IH; [|done]. intros x Hx. apply He. by right.
Qed.

Lemma feet_app m cs1 : ∀ cs2, feet m (cs1 ++ cs2) → feet m cs1 ∧ feet m cs2.
Proof.
  induction cs1 as [|c [|d t] IH]; intros cs2 H; [done| |].
  - split; [done|]. destruct cs2; [done|]. apply H.
  - destruct H as [H1 H2]. destruct (IH cs2 H2). done.
Qed.

Lemma feet_snoc m cs c : feet m cs → pin_after true cs = true → feet m (cs ++ [c]).
Proof.
  destruct cs as [|d cs _] using rev_ind; [done|]. rewrite pin_after_snoc. intros H Hu.
  rewrite <- app_assoc. apply feet_mid. split; [done|]. simpl. split; [congruence|done].
Qed.

(** How much memory a step of [free] may change. *)
Definition free_frame (hd : Z) (m m' : ram) (fl fl' : list chunk) (lo hi : Z) : Prop :=
  (∀ b, off_list hd fl b → ¬ lo ≤ b < hi → m' b = m b)
  ∧ (∀ b, off_list hd fl b → off_list hd fl' b) ∧ (length fl' ≤ length fl)%nat.

(** A free chunk before [c] has its footer. *)
Definition footed (m : ram) (pre : list chunk) (c : chunk) : Prop :=
  ∀ pre' p, pre = pre' ++ [p] → used p = false → rd32 m (addr c) = csz p.

Lemma feet_footed m pre c post : feet m (pre ++ c :: post) → footed m pre c.
Proof. intros Hf pre' p -> Hu. by eapply feet_before. Qed.

Lemma merge_prev_ok hd h pre c post fl :
  heap_rep hd h (pre ++ c :: post) fl → used c = true → footed (mem h) pre c →
  ∃ m' pre' fl' a s, merge_prev hd (addr c) (csz c) h = Ok ((a, s), with_mem m' h)
    ∧ gap hd (with_mem m' h) pre' post fl' a s true ∧ pin_after true pre' = true
    ∧ a + s = addr c + csz c ∧ a ≤ addr c ∧ useds pre' = useds pre ∧ (∃ suf, pre = pre' ++ suf)
    ∧ free_frame hd (mem h) m' fl fl' 0 0.
Proof.
  intros Hrep Hu Hfeet. pose proof (gap_of_used _ _ _ _ _ _ Hrep Hu) as Hg.
  assert (c ∈ pre ++ c :: post) as Hc by (apply elem_of_app; right; by left).
  destruct (rep_chunk _ _ _ _ Hrep c Hc) as (H8 & H16 & Hlo & Hhi & _). pose proof (hr_bounds _ _ _ _ Hrep) as Hbd.
  destruct (tiles_mid _ _ _ _ _ _ _ (hr_tiles _ _ _ _ Hrep)) as (T1 & _ & _ & Ht & _).
  destruct (tag_reads hd h c _ (rep_inside _ _ _ _ Hrep c Hc) H8 Ht) as (Hpin & _ & _).
  unfold merge_prev. mrun Hpin. destruct (pin_after true pre) eqn:Epin.
  - exists (mem h), pre, fl, (addr c), (csz c). rewrite with_mem_same. split_and!; try done.
    exists []. by rewrite app_nil_r.
  - destruct pre as [|p pre _] using rev_ind; [done|]. rewrite pin_after_snoc in Epin.
    assert (p ∈ (pre ++ [p]) ++ c :: post) as Hp by (rewrite !elem_of_app; left; right; by left).
    destruct (rep_chunk _ _ _ _ Hrep p Hp) as (Hp8 & Hp16 & Hplo & _).
    unfold get_prevFoot. mrun (load_in hd h (addr c) ltac:(lia) ltac:(lia)).
    rewrite (Hfeet pre p eq_refl Epin).
    destruct (absorb_prev hd h pre p post fl _ _ _ Hg Epin) as (m' & fl' & Hr & Hg' & Hpin' & E & Hlen & Hfr & Hof).
    unfold chunk_minus_offset. replace (addr c - csz p) with (addr p) by lia.
    rewrite !(u32_small) by lia. rewrite gets_step. unfold ok_address. fields.
    rewrite (proj2 (Z.leb_le (startAddr h) (addr p))), (proj2 (Z.ltb_lt (addr p) (endAddr h))) by lia. cbn [andb negb].
    mrun Hr. exists m', pre, fl', (addr p), (csz c + csz p). split_and!; try done; try lia.
    + by rewrite (Z.add_comm (csz c)).
    + by rewrite useds_app, useds_free, app_nil_r.
    + by exists [p].
    + split_and!; [auto|done|lia].
Qed.

Lemma merge_next_ok hd h pre post fl a s fuel :
  gap hd h pre post fl a s true →
  ∃ m' post' fl' s', merge_next hd fuel a (a + s) s h = Ok (s', with_mem m' h)
    ∧ gap hd (with_mem m' h) pre post' fl' a s' false
    ∧ useds post' = useds post ∧ (∃ pref, post = pref ++ post') ∧ s ≤ s'
    ∧ free_frame hd (mem h) m' fl fl' (a + s + 4) (a + s + 8).
Proof.
  intros Hg. pose proof Hg as [Henv T1 Hs T2 Hf Hd Hso]. pose proof Henv as [Hby _ _ Hbd Hhd].
  pose proof (tiles_le _ _ _ _ _ T1) as L1.
  unfold merge_next. rewrite gets_step. unfold ok_address. fields. destruct post as [|d post].
  - simpl in T2. rewrite (proj2 (Z.ltb_ge (a + s) (endAddr h))), andb_false_r by lia. cbn [negb].
    exists (mem h), [], fl, s. rewrite with_mem_same. split; [done|]. split; [by split|].
    split; [done|]. split; [by exists []|]. split; [lia|]. split_and!; [auto|auto|lia].
  - assert (d ∈ pre ++ d :: post) as Hdin by (apply elem_of_app; right; by left).
    destruct T2 as (E & Hd8 & Hd16 & Ht & _ & T3). pose proof (tiles_le _ _ _ _ _ T3) as L3.
    rewrite (proj2 (Z.ltb_lt (a + s) (endAddr h))), (proj2 (Z.leb_le (startAddr h) (a + s))) by lia. cbn [andb negb].
    rewrite <- E in *. pose proof (gap_readable _ _ _ _ _ _ _ _ Hg d Hdin) as Hrd.
    destruct (tag_reads hd h d _ (proj1 Hrd) Hd8 Ht) as (Hpi & Hci & _).
    mrun Hpi. cbn [negb]. mrun Hci. destruct (used d) eqn:Eu.
    + unfold clear_pinuse. rewrite M_assoc. mrun (get_head_in hd h d (proj1 Hrd)). rewrite Ht.
      rewrite tag_clear_pinuse by (done || lia). mrun (set_head_in hd h d (tag d false) (proj1 Hrd)).
      set (m' := wr32 (mem h) (addr d + 4) (tag d false)). exists m', (d :: post), fl, s.
      pose proof (tag_range d false ltac:(lia)) as Htr.
      split_and!; try done.
      2:{ by exists []. }
      2:{ split_and!; [|auto|lia]. intros b _ Hb. apply wr32_other8. lia. }
      split; try done; cbn [mem with_mem startAddr endAddr].
      * apply env_mem; [done|]. by apply wr32_bytes.
      * eapply tiles_ext; [|exact T1]. intros x Hx. apply rd32_wr32_other.
        eapply tiles_in in T1 as (_ & ? & _ & ?); [|exact Hx]. lia.
      * rewrite <- E. simpl. split_and!; try done; [apply rd32_wr32_same; lia|by rewrite Eu|].
        rewrite Eu. eapply tiles_ext; [|exact T3]. intros x Hx. apply rd32_wr32_other.
        eapply tiles_in in T3 as (_ & ? & ? & _); [|exact Hx]. lia.
      * eapply dll_ext; [exact Hd|]. intros n b Hn Hb. apply wr32_other8.
        assert (outside n (addr d + 4) ∧ outside n (addr d + 7)) as [O1 O2].
        { split; (eapply off_list_in; [apply (gap_off_tag _ _ _ _ _ _ _ _ Hg d _ Hdin); lia|done]). }
        unfold outside in *. lia.
    + mrun (chunksize_in hd h d Hrd). rewrite gets_step. fields. unfold chunk_plus_offset.
      rewrite (u32_small (addr d + csz d)), (proj2 (Z.ltb_ge _ _)) by lia.
      destruct (absorb_next hd h pre d post fl a s true Hg Eu) as (m' & fl' & Hr & Hg' & _ & Hlen & Hfr & Hof).
      mrun Hr. rewrite u32_small by lia. exists m', post, fl', (s + csz d). split_and!; try done; try lia.
      * by rewrite useds_free.
      * by exists [d].
      * split_and!; [auto|done|lia].
Qed.

Lemma tiles_end m e pb post : tiles m e e pb post → post = [].
Proof.
  destruct post as [|d post]; [done|]. intros (_ & _ & ? & _ & _ & T). apply tiles_le in T. lia.
Qed.

Lemma tiles_nonempty m a e pb post : tiles m a e pb post → post ≠ [] → a + 16 ≤ e.
Proof.
  destruct post as [|d post]; [done|]. intros (_ & _ & ? & _ & _ & T) _. apply tiles_le in T. lia.
Qed.

(** The new end of a heap whose last [s] bytes, from [a] on, are free. *)
Definition new_end (h : Heap) (a : Z) : Z :=
  startAddr h + Z.max HEAP_MIN_SIZE
    ((a - startAddr h + (if decide (a mod PAGE_SIZE = 0) then 0 else 16) + 4095) / 4096 * 4096).

Lemma contract_ok hd h a s : heap_env hd h → startAddr h ≤ a → a + s = endAddr h → 0 < s →
  (a mod PAGE_SIZE = 0 ∨ 16 < s) →
  contract_unlocked hd (let newSize := a - startAddr h in
    if negb (newSize mod PAGE_SIZE =? 0) then newSize + MIN_CHUNK_SIZE else newSize) h
  = Ok (new_end h a - startAddr h, with_end (new_end h a) h)
  ∧ a ≤ new_end h a ≤ endAddr h ∧ new_end h a mod PAGE_SIZE = 0 ∧ startAddr h + HEAP_MIN_SIZE ≤ new_end h a
  ∧ (a mod PAGE_SIZE ≠ 0 → a + 16 ≤ new_end h a).
Proof.
  intros [_ Hst He Hbd _] Hlo Hend Hs Hc. unfold PAGE_SIZE in Hst, He, Hc.
  change HEAP_MIN_SIZE with 1048576 in Hbd. change MIN_CHUNK_SIZE with 16.
  assert ((a - startAddr h) mod PAGE_SIZE = a mod PAGE_SIZE) as Emod by (unfold PAGE_SIZE; clear - Hst; dlia).
  cbv zeta. rewrite Emod.
  set (k := if decide (a mod PAGE_SIZE = 0) then 0 else 16).
  assert ((if negb (a mod PAGE_SIZE =? 0) then a - startAddr h + 16 else a - startAddr h) = a - startAddr h + k) as ->.
  { unfold k. destruct (Z.eqb_spec (a mod PAGE_SIZE) 0); simpl; [rewrite decide_True by done|rewrite decide_False by done]; lia. }
  assert (0 ≤ k ≤ 16 ∧ (k = 0 ∨ k = 16 ∧ 16 < s) ∧ (a mod 4096 ≠ 0 → k = 16)) as (Hk & Hk2 & Hk3).
  { unfold k, PAGE_SIZE. case_decide; [lia|]. split; [lia|]. split; [right; destruct Hc; [done|lia]|done]. }
  set (q := (a - startAddr h + k + 4095) / 4096 * 4096).
  assert (new_end h a = startAddr h + Z.max 1048576 q) as En by done.
  assert (a - startAddr h + k ≤ q ≤ endAddr h - startAddr h ∧ q mod 4096 = 0) as [Hq Hq0].
  { unfold q. clear - Hst He Hend Hk Hk2 Hlo Hs. split; [|apply Z.mod_mul; lia].
    assert (endAddr h = startAddr h + (endAddr h - startAddr h) / 4096 * 4096) as Ee by dlia. dlia. }
  unfold contract_unlocked. rewrite !gets_step. fields. rewrite (u32_small (endAddr h - startAddr h)) by lia.
  rewrite assert_step by (apply Z.ltb_lt; lia). unfold align_heap_size.
  rewrite align_up_page by lia. fold q. change HEAP_MIN_SIZE with 1048576.
  assert ((if q <? 1048576 then 1048576 else q) = Z.max 1048576 q) as -> by (destruct (Z.ltb_spec q 1048576); lia).
  rewrite <- En, (u32_small (new_end h a)), (u32_small (endAddr h - new_end h a)) by lia. rewrite modify_step. fields.
  assert ((if endAddr h - new_end h a =? 0 then mret (Z.max 1048576 q)
    else _ ← unmap_backing hd (new_end h a) (endAddr h - new_end h a); mret (Z.max 1048576 q)) (with_end (new_end h a) h)
    = Ok (Z.max 1048576 q, with_end (new_end h a) h)) as ->.
  { destruct (_ =? 0); [done|]. unfold mbind, M_bind. cbn [unmap_backing heap_mem]. by rewrite (proj2 (Z.leb_gt _ _)) by lia. }
  split_and!; try lia.
  - replace (new_end h a - startAddr h) with (Z.max 1048576 q) by lia. done.
  - unfold PAGE_SIZE. rewrite En. clear - Hst Hq0. destruct (Z.max_spec 1048576 q) as [[_ ->]|[_ ->]]; dlia.
  - intros Hne. unfold PAGE_SIZE in Hne. rewrite (Hk3 Hne) in Hq. lia.
Qed.

Lemma env_end hd h e : heap_env hd h → startAddr h + HEAP_MIN_SIZE ≤ e ≤ endAddr h → e mod PAGE_SIZE = 0 → heap_env hd (with_end e h).
Proof. intros [? ? ? ? ?] He Hm. split; simpl; try done; lia. Qed.

(** [trim] on a hole at the end of the heap gives back whole pages of it, or all of it. *)
Lemma trim_top_ok hd h pre fl a s :
  gap hd h pre [] fl a s false → a + s = endAddr h → a mod PAGE_SIZE = 0 ∨ 16 < s →
  let h' := with_end (new_end h a) h in
  new_end h a ≤ endAddr h
  ∧ ((∃ s', trim hd a s h = Ok ((a, s'), h') ∧ 0 < s' ∧ gap hd h' pre [] fl a s' false)
     ∨ trim hd a s h = Ok ((0, 0), h') ∧ new_end h a = a ∧ heap_rep hd h' pre fl).
Proof.
  intros Hg E Hc. pose proof Hg as [Henv T1 [Hs8 Hs16] T2 Hf Hd Hso]. pose proof Henv as [Hby Hst He Hbd Hhd].
  pose proof (tiles_le _ _ _ _ _ T1) as L1.
  destruct (contract_ok hd h a s Henv L1 E ltac:(lia) Hc) as (Hr & Hne & Hpg & Hmin & Hmis).
  pose proof (env_end hd h (new_end h a) Henv ltac:(lia) Hpg) as Henv'. split; [lia|].
  unfold trim. rewrite !gets_step. fields. unfold chunk_plus_offset.
  rewrite (u32_small (a + s)), (proj2 (Z.eqb_eq _ _) E) by lia.
  rewrite (u32_small (a - startAddr h)), (u32_small (endAddr h - startAddr h)) by lia. cbv zeta in Hr.
  change MIN_CHUNK_SIZE with 16 in *. rewrite (u32_small (a - startAddr h + 16)) by lia. mrun Hr.
  rewrite (u32_small (endAddr h - startAddr h - _)) by lia.
  replace (endAddr h - startAddr h - (new_end h a - startAddr h)) with (endAddr h - new_end h a) by lia.
  destruct (Z.ltb_spec (endAddr h - new_end h a) s) as [Hlt|Hge].
  - left. exists (new_end h a - a). rewrite u32_small by lia.
    replace (s - (endAddr h - new_end h a)) with (new_end h a - a) by lia. split_and!; [done|lia|].
    split; try done; cbn [mem with_end startAddr endAddr]; [|simpl; lia].
    assert ((new_end h a - a) mod 8 = 0) as Hm8.
    { unfold PAGE_SIZE in *. clear - Hpg He Hs8 E. dlia. }
    split; [done|]. destruct (decide (a mod PAGE_SIZE = 0)) as [Hz|Hz]; [|specialize (Hmis Hz); lia].
    assert ((new_end h a - a) mod 4096 = 0) as Hm4.
    { unfold PAGE_SIZE in *. clear - Hpg Hz. dlia. }
    clear - Hm4 Hlt E. dlia.
  - assert (new_end h a = a) as Ea by lia. right.
    split_and!; [done..|]. destruct Henv' as [? ? ? ? ?]. split; try done; cbn [mem with_end startAddr endAddr].
    + by rewrite Ea.
    + by rewrite app_nil_r in Hf.
Qed.

(** In front of another chunk, [trim] writes the footer of the hole. *)
Lemma trim_foot_ok hd h pre d post fl a s :
  gap hd h pre (d :: post) fl a s false →
  let m' := wr32 (mem h) (a + s) s in
  trim hd a s h = Ok ((a, s), with_mem m' h) ∧ gap hd (with_mem m' h) pre (d :: post) fl a s false
  ∧ rd32 m' (addr d) = s.
Proof.
  intros Hg m'. pose proof Hg as [Henv T1 [Hs8 Hs16] T2 Hf Hd Hso]. pose proof Henv as [Hby Hst He Hbd Hhd].
  pose proof (tiles_le _ _ _ _ _ T1) as L1. pose proof (tiles_le _ _ _ _ _ T2) as L2.
  assert (d ∈ pre ++ d :: post) as Hdin by (apply elem_of_app; right; by left).
  pose proof T2 as (Ed & Hd8 & Hd16 & Ht & _ & T3). pose proof (tiles_le _ _ _ _ _ T3) as L3.
  unfold trim. rewrite !gets_step. fields. unfold chunk_plus_offset.
  rewrite (u32_small (a + s)), (proj2 (Z.eqb_neq (a + s) _)) by lia.
  unfold set_foot, set_prevFoot, chunk_plus_offset. rewrite (u32_small (a + s)) by lia.
  mrun (store_in hd h (a + s) s ltac:(lia) ltac:(lia)).
  split_and!; [done| |rewrite Ed; apply rd32_wr32_same; lia].
  split; try done; cbn [mem with_mem startAddr endAddr].
  - apply env_mem; [done|]. by apply wr32_bytes.
  - eapply tiles_ext; [|exact T1]. intros x Hx. apply rd32_wr32_other.
    eapply tiles_in in T1 as (_ & ? & _ & ?); [|exact Hx]. lia.
  - eapply tiles_ext; [|exact T2]. intros x Hx. apply rd32_wr32_other.
    eapply tiles_in in T2 as (_ & ? & ? & _); [|exact Hx]. lia.
  - eapply dll_ext; [exact Hd|]. intros n b Hn Hb. apply wr32_other8.
    assert (outside n (addr d) ∧ outside n (addr d + 3)) as [O1 O2].
    { split; (eapply off_list_in; [apply (gap_off_tag _ _ _ _ _ _ _ _ Hg d _ Hdin); lia|done]). }
    unfold outside in *. lia.
Qed.

Lemma trim_ok hd h pre post fl a s :
  gap hd h pre post fl a s false → (post = [] → a mod PAGE_SIZE = 0 ∨ 16 < s) →
  ∃ h' a' s', trim hd a s h = Ok ((a', s'), h') ∧ startAddr h' = startAddr h
    ∧ (endAddr h' = match post with [] => new_end h a | _ => endAddr h end ∧ endAddr h' ≤ endAddr h)
    ∧ (∀ b, ¬ a + s ≤ b < a + s + 4 → mem h' b = mem h b)
    ∧ (a' = a ∧ 0 < s' ∧ gap hd h' pre post fl a s' false
         ∧ match post with d :: _ => rd32 (mem h') (addr d) = s' | [] => True end
       ∨ a' = 0 ∧ post = [] ∧ endAddr h' = a ∧ heap_rep hd h' pre fl).
Proof.
  intros Hg Hc. destruct post as [|d post].
  - assert (a + s = endAddr h) as E by (pose proof (g_post _ _ _ _ _ _ _ _ Hg) as T; by simpl in T).
    destruct (trim_top_ok hd h pre fl a s Hg E (Hc eq_refl)) as [Hle [(s' & Hr & Hs' & Hg')|(Hr & Ea & Hrep)]];
      [exists (with_end (new_end h a) h), a, s'|exists (with_end (new_end h a) h), 0, 0]; split_and!; try done;
      [by left|by right].
  - destruct (trim_foot_ok hd h pre d post fl a s Hg) as (Hr & Hg' & Hft).
    eexists _, a, s. split_and!; [exact Hr|done|done|done| |]; [intros b Hb; apply wr32_other8; lia|].
    left. split_and!; try done. pose proof (g_size _ _ _ _ _ _ _ _ Hg). lia.
Qed.

(** Where the chunks around a gap are. *)
Lemma gap_place hd h pre post fl a s pb x : gap hd h pre post fl a s pb → x ∈ pre ++ post →
  addr x = a + s ∨ a + s + 16 ≤ addr x ∨ addr x + csz x ≤ a.
Proof.
  intros [_ T1 _ T2 _ _ _] [Hx|Hx]%elem_of_app.
  - right. right. by eapply tiles_in in T1 as (_ & _ & _ & ?).
  - destruct post as [|d post]; [by apply elem_of_nil in Hx|]. destruct T2 as (Ed & _ & Hd & _ & _ & T2).
    apply elem_of_cons in Hx as [->|Hx]; [by left|]. right. left.
    destruct (tiles_in _ _ _ _ _ _ T2 Hx) as (_ & _ & ? & _). lia.
Qed.

Lemma elem_of_tail_in {A} (x : A) l : x ∈ tail l → x ∈ l.
Proof. destruct l; [done|by right]. Qed.

(** The footers around a gap, but for the one right behind it, outlive writes that spare them. *)
Lemma feet_around hd h pre post fl a s pb m m' : gap hd h pre post fl a s pb →
  (∀ x b, x ∈ pre ++ post → addr x ≠ a + s → addr x ≤ b < addr x + 4 → m' b = m b) →
  feet m pre ∧ feet m post → feet m' pre ∧ feet m' post.
Proof.
  intros Hg Hm [F1 F2]. pose proof (g_post _ _ _ _ _ _ _ _ Hg) as Tp. pose proof (g_size _ _ _ _ _ _ _ _ Hg) as [_ Hs].
  split; (eapply feet_ext; [|eassumption]); intros x Hx; apply rd32_ext; intros b Hb; apply elem_of_tail_in in Hx as Hx';
    apply (Hm x b); try done; try (apply elem_of_app; tauto).
  - eapply tiles_in in Hx' as (_ & ? & _ & ?); [|apply (g_pre _ _ _ _ _ _ _ _ Hg)]. lia.
  - destruct post as [|d post]; [by apply elem_of_nil in Hx|].
    destruct Tp as (? & _ & ? & _ & _ & Tp). eapply tiles_in in Tp as (_ & _ & ? & _); [|exact Hx]. lia.
Qed.

(** A chunk between the two sides, with its footer. *)
Lemma feet_filled m pre c post : pin_after true pre = true → feet m pre ∧ feet m post →
  match post with d :: _ => rd32 m (addr d) = csz c | [] => True end → feet m (pre ++ c :: post).
Proof. intros Hp [F1 F2] Hd. apply feet_mid. split; [by apply feet_snoc|]. by destruct post. Qed.

(** The bytes of an allocated block: up to the footer of the chunk behind it. *)
Definition block_byte (d : chunk) (b : Z) : Prop := addr d + 8 ≤ b < addr d + csz d + 4.

Lemma block_off hd h pre post fl a s pb d b :
  gap hd h pre post fl a s pb → d ∈ pre ++ post → used d = true → block_byte d b → b < endAddr h → off_list hd fl b.
Proof.
  intros Hg Hd Hu Hb He. destruct (gap_chunk _ _ _ _ _ _ _ _ Hg d Hd) as (_ & ? & ? & ? & _). unfold block_byte in Hb.
  eapply gap_off; [done|lia|]. intros y [Hy Hin]%elem_of_frees.
  destruct (gap_chunk _ _ _ _ _ _ _ _ Hg y Hin) as (_ & ? & _).
  destruct (gap_disjoint _ _ _ _ _ _ _ _ Hg d y Hd Hin) as [->|?]; [congruence|lia].
Qed.

(** Where the last used chunk of [cs] ends. *)
Definition used_end (start : Z) (cs : list chunk) : Z := default start ((λ x, addr x + csz x) <$> last (useds cs)).
(** Where the heap ends when a chunk between [pre] and [post] has been freed: with used chunks
    behind it, where it did; else behind the last used chunk, as [new_end] says. *)
Definition kept_end (h : Heap) (pre post : list chunk) : Z :=
  match useds post with [] => new_end h (used_end (startAddr h) pre) | _ => endAddr h end.

Lemma used_end_tiles m a e cs : tiles m a e true cs → pin_after true cs = true → used_end a cs = e.
Proof.
  intros Ht Hp. unfold used_end. destruct cs as [|c cs _] using rev_ind; [by simpl in Ht|]. rewrite pin_after_snoc in Hp.
  apply tiles_app in Ht as (mid & _ & E & _ & _ & _ & _ & Ht). rewrite useds_app, useds_used by done.
  change (useds []) with (@nil chunk). rewrite last_snoc.
  simpl in *. lia.
Qed.

Lemma kept_end_eq m h pre pre' post post' e suf pref b :
  pre = pre' ++ suf → post = pref ++ post' → useds (pre' ++ post') = useds (pre ++ post) →
  tiles m (startAddr h) e true pre' → pin_after true pre' = true → tiles m b (endAddr h) false post' →
  kept_end h pre post = match post' with [] => new_end h e | _ => endAddr h end.
Proof.
  intros -> -> Hus Ht Hp Ht2. rewrite !useds_app in Hus. assert (useds suf = [] ∧ useds pref = []) as [Es Ep].
  { apply (f_equal length) in Hus. rewrite !length_app in Hus. split; apply nil_length_inv; lia. }
  unfold kept_end, used_end. rewrite !useds_app, Es, Ep, app_nil_r. fold (used_end (startAddr h) pre').
  rewrite (used_end_tiles _ _ _ _ Ht Hp). destruct post' as [|d post']; [done|]. destruct Ht2 as (_ & _ & _ & _ & Hd & _).
  rewrite app_nil_l, useds_used; [done|]. destruct (used d); [done|]. by discriminate Hd.
Qed.

Section free.
Context (hd : Z) (h : Heap) (pre : list chunk) (c : chunk) (post fl : list chunk) (fuel : nat).
Hypothesis Hrep : heap_rep hd h (pre ++ c :: post) fl.
Hypothesis Hu : used c = true.
Hypothesis Hfeet : footed (mem h) pre c.
Hypothesis Hlast : post ≠ [] ∨ 16 < csz c.
Hypothesis Hfuel : (length fl < fuel)%nat.

(** The merges of [free] on a used chunk. *)
Lemma free_merge : ∃ m2 pre' post' fl2 a s,
  free hd fuel (addr c + 8) h
  = (r ← trim hd a s; let '(block, size) := r in
     if negb (block =? 0) && negb (size =? 0) then _ ← set_size_and_pinuse hd block size; insertChunk hd fuel block
     else mret ()) (with_mem m2 h)
  ∧ gap hd (with_mem m2 h) pre' post' fl2 a s false ∧ pin_after true pre' = true
  ∧ useds (pre' ++ post') = useds (pre ++ post) ∧ (∃ suf pref, pre = pre' ++ suf ∧ post = pref ++ post')
  ∧ (post' = [] → 16 < s) ∧ (length fl2 < fuel)%nat
  ∧ (∀ b, off_list hd fl b → ¬ addr c + csz c + 4 ≤ b < addr c + csz c + 8 → m2 b = mem h b)
  ∧ (∀ b, off_list hd fl b → off_list hd fl2 b).
Proof using All.
  assert (c ∈ pre ++ c :: post) as Hc by (apply elem_of_app; right; by left).
  destruct (rep_chunk _ _ _ _ Hrep c Hc) as (H8 & H16 & Hlo & Hhi & _). pose proof (hr_bounds _ _ _ _ Hrep) as Hbd.
  destruct (tiles_mid _ _ _ _ _ _ _ (hr_tiles _ _ _ _ Hrep)) as (_ & _ & _ & Ht & _ & T2 & _).
  destruct (tag_reads hd h c _ (rep_inside _ _ _ _ Hrep c Hc) H8 Ht) as (_ & _ & Hok).
  unfold free, free_unlocked. rewrite (proj2 (Z.eqb_neq (addr c + 8) 0)) by lia.
  assert (mem2chunk (addr c + 8) = addr c) as -> by (unfold mem2chunk; rewrite u32_small; lia).
  mrun (chunksize_in hd h c (rep_readable _ _ _ _ Hrep c Hc)). rewrite gets_step. unfold ok_address at 1. fields.
  rewrite (proj2 (Z.leb_le (startAddr h) (addr c + 8))), (proj2 (Z.ltb_lt (addr c + 8) (endAddr h))) by lia. cbn [andb negb].
  mrun Hok. rewrite Hu. cbn [andb negb].
  destruct (merge_prev_ok hd h pre c post fl Hrep Hu Hfeet)
    as (m1 & pre' & fl1 & a & s & Hr1 & Hg1 & Hpin & Eas & Hac & Hus1 & [suf Epre] & (Hf1 & Hof1 & Hl1)).
  mrun Hr1. unfold chunk_plus_offset. rewrite (u32_small (addr c + csz c)), <- Eas by lia.
  destruct (merge_next_ok hd _ pre' post fl1 a s fuel Hg1)
    as (m2 & post' & fl2 & s' & Hr2 & Hg2 & Hus2 & [pref Epost] & Hss & (Hf2 & Hof2 & Hl2)).
  mrun Hr2. exists m2, pre', post', fl2, a, s'. split; [done|]. split; [done|]. split; [done|].
  split; [by rewrite !useds_app, Hus1, Hus2|]. split; [by exists suf, pref|]. split_and!.
  - intros ->. rewrite app_nil_r in Epost. destruct Hlast as [Hne|]; [|lia].
    pose proof (g_post _ _ _ _ _ _ _ _ Hg2) as Te. simpl in Te.
    pose proof (tiles_nonempty _ _ _ _ _ T2 Hne). lia.
  - lia.
  - intros b Ho Hb. rewrite Hf2; [apply Hf1; [done|lia]|by apply Hof1|lia].
  - intros b Ho. by apply Hof2, Hof1.
Qed.

(** What is left on both sides of the hole after the merges. *)
Lemma freed_sides pre' post' suf pref : pre = pre' ++ suf → post = pref ++ post' →
  (∀ x, x ∈ pre' ++ post' → x ∈ pre ++ post)
  ∧ (feet (mem h) (pre ++ c :: post) → feet (mem h) pre' ∧ feet (mem h) post').
Proof using All.
  intros -> ->. split; [intros x; rewrite !elem_of_app; tauto|].
  intros F. apply feet_app in F as [F1 F2]. apply feet_app in F1 as [F1 _].
  apply (feet_app (mem h) [c]) in F2 as [_ F2]. by apply feet_app in F2 as [_ F2].
Qed.

(** Writes to the free chunks, to the tag behind [c] and to the footer of the hole spare the
    allocated blocks and the other footers. *)
Lemma freed_spares h2 pre' post' fl2 a s m' :
  gap hd h2 pre' post' fl2 a s false → (∀ x, x ∈ pre' ++ post' → x ∈ pre ++ post) →
  useds (pre' ++ post') = useds (pre ++ post) →
  (∀ b, off_list hd fl b → ¬ addr c + csz c + 4 ≤ b < addr c + csz c + 8 → ¬ a + s ≤ b < a + s + 4 →
        m' b = mem h b) →
  (∀ d b, d ∈ useds (pre ++ post) → block_byte d b → b < endAddr h → m' b = mem h b)
  ∧ ∀ x b, x ∈ pre' ++ post' → addr x ≠ a + s → addr x ≤ b < addr x + 4 → m' b = mem h b.
Proof using All.
  intros Hg Hsub Hus Hm. pose proof (gap_of_used _ _ _ _ _ _ Hrep Hu) as Hg0.
  pose proof (g_size _ _ _ _ _ _ _ _ Hg) as [_ Hs]. pose proof (g_size _ _ _ _ _ _ _ _ Hg0) as [_ Hcs].
  assert (∀ x, x ∈ pre ++ post → addr x + csz x ≤ addr c ∨ addr c + csz c ≤ addr x ∧ 16 ≤ csz x) as Hx0.
  { intros x Hx. destruct (gap_chunk _ _ _ _ _ _ _ _ Hg0 x Hx) as (_ & ? & _ & _ & ? & _). lia. }
  assert (∀ x, x ∈ pre' ++ post' → 16 ≤ csz x ∧ (addr x + csz x ≤ a ∨ a + s ≤ addr x)) as Hx1.
  { intros x Hx. destruct (gap_chunk _ _ _ _ _ _ _ _ Hg x Hx) as (_ & ? & _ & _ & ? & _). lia. }
  split.
  - intros d b Hin Hb He. assert (d ∈ pre' ++ post' ∧ used d = true) as [Hin' Hud].
    { rewrite <- Hus in Hin. unfold useds in Hin. rewrite list_elem_of_filter in Hin. tauto. }
    destruct (Hx1 d Hin'). specialize (Hsub d Hin'). destruct (Hx0 d Hsub) as [?|[? ?]]; unfold block_byte in Hb;
      (apply Hm; [by eapply (block_off _ _ _ _ _ _ _ _ d b Hg0)|lia..]).
  - intros x b Hx Hne Hb. pose proof (Hx1 x Hx). pose proof (Hx0 x (Hsub x Hx)).
    pose proof (gap_place _ _ _ _ _ _ _ _ x Hg0 (Hsub x Hx)). pose proof (gap_place _ _ _ _ _ _ _ _ x Hg Hx).
    apply Hm; [apply (gap_off_tag _ _ _ _ _ _ _ _ Hg0 x b (Hsub x Hx)); lia|lia..].
Qed.

(** Freeing keeps the heap and every other block. *)
Lemma free_ok : ∃ h' cs' fl',
  free hd fuel (addr c + 8) h = Ok ((), h') ∧ heap_rep hd h' cs' fl' ∧ (feet (mem h) (pre ++ c :: post) → feet (mem h') cs')
  ∧ useds cs' = useds (pre ++ post) ∧ startAddr h' = startAddr h ∧ endAddr h' = kept_end h pre post
  ∧ ∀ d b, d ∈ useds (pre ++ post) → block_byte d b → b < endAddr h → mem h' b = mem h b.
Proof using All.
  destruct free_merge as (m2 & pre' & post' & fl2 & a & s & -> & Hg & Hpin & Hus & (suf & pref & Epre & Epost) & Hs16 & Hl2 & Hf2 & Hof2).
  set (h2 := with_mem m2 h) in *.
  destruct (trim_ok hd h2 pre' post' fl2 a s Hg) as (h3 & a' & s' & Hr & Hst3 & [Hend3 He3] & Hm3 & Hcase); [auto|]. mrun Hr.
  change (startAddr h2) with (startAddr h) in Hst3.
  assert (endAddr h3 = kept_end h pre post) as Hend.
  { by rewrite Hend3, (kept_end_eq (mem h2) h pre pre' post post' a suf pref (a + s) Epre Epost Hus (g_pre _ _ _ _ _ _ _ _ Hg) Hpin (g_post _ _ _ _ _ _ _ _ Hg)). }
  destruct (freed_sides pre' post' suf pref Epre Epost) as [Hsub Hsplit].
  destruct (freed_spares h2 pre' post' fl2 a s (mem h3) Hg Hsub Hus) as [Hblocks Hfoot].
  { intros b Ho H1 H2. rewrite Hm3 by done. by apply Hf2. }
  destruct Hcase as [(-> & Hs0 & Hg3 & Hft)|(-> & -> & He & Hrep3)].
  - pose proof (hr_bounds _ _ _ _ Hrep) as Hbd. pose proof (tiles_le _ _ _ _ _ (g_pre _ _ _ _ _ _ _ _ Hg3)) as L3.
    pose proof (g_size _ _ _ _ _ _ _ _ Hg3) as Hs3.
    cbv iota beta. rewrite (proj2 (Z.eqb_neq a 0)), (proj2 (Z.eqb_neq s' 0)) by lia. cbn [negb andb].
    destruct (place_free hd h3 pre' post' fl2 a s' false fuel Hg3 eq_refl Hpin Hl2) as (m4 & fl4 & Hr4 & Hrep4 & Hfr4).
    exists (with_mem m4 h3), (pre' ++ Chunk a s' false :: post'), fl4.
    split_and!; [exact Hr4|done| | |done|exact Hend|].
    + intros F. assert (∀ x b, x ∈ pre' ++ post' → addr x ≤ b < addr x + 4 → m4 b = mem h3 b) as Hpf.
      { intros x b Hx Hb. destruct (gap_chunk _ _ _ _ _ _ _ _ Hg3 x Hx) as (_ & ? & _ & _ & ? & _).
        apply Hfr4; [apply (gap_off_tag _ _ _ _ _ _ _ _ Hg3 x b Hx)|]; lia. }
      apply feet_filled; [done| |].
      * apply (feet_around _ _ _ _ _ _ _ _ (mem h) _ Hg); [|by apply Hsplit]. intros x b Hx Hne Hb. cbn [mem with_mem].
        rewrite (Hpf x b) by done. by apply (Hfoot x b).
      * destruct post' as [|d post']; [done|]. cbn [mem with_mem csz]. rewrite <- Hft.
        apply rd32_ext. intros b Hb. apply (Hpf d b); [|done]. apply elem_of_app. right. by left.
    + by rewrite useds_app, useds_free, <- useds_app by done.
    + intros d b Hin Hb Hlt. pose proof Hin as Hin'. rewrite <- Hus in Hin'. apply list_elem_of_filter in Hin' as [Hud Hin'].
      destruct (gap_chunk _ _ _ _ _ _ _ _ Hg3 d Hin') as (_ & ? & _ & ? & ? & _).
      simpl. rewrite Hfr4; [by apply (Hblocks d)| |unfold block_byte in Hb; lia].
      apply Hof2. by eapply (block_off _ _ _ _ _ _ _ _ d b (gap_of_used _ _ _ _ _ _ Hrep Hu) (Hsub d Hin')).
  - exists h3, pre', fl2. split_and!; [done|done| | |done|exact Hend|done]; [|by rewrite app_nil_r in Hus].
    intros F. apply (feet_around _ _ _ _ _ _ _ _ (mem h) (mem h3) Hg); [exact Hfoot|by apply Hsplit].
Qed.
End free.

(** ** Allocation from a hole *)

Lemma rep_block_off hd h cs fl d b : heap_rep hd h cs fl → d ∈ useds cs → block_byte d b → b < endAddr h → off_list hd fl b.
Proof.
  intros Hrep Hd Hb He. unfold useds in Hd. apply list_elem_of_filter in Hd as [Hu Hd]. unfold block_byte in Hb.
  destruct (rep_chunk _ _ _ _ Hrep d Hd) as (_ & ? & ? & ? & _).
  eapply off_list_intro; [done|lia|]. intros y [Hy Hyf]%(rep_free_in _ _ _ _ Hrep).
  destruct (rep_chunk _ _ _ _ Hrep y Hy) as (_ & ? & _).
  destruct (rep_disjoint _ _ _ _ Hrep d y Hd Hy) as [->|?]; [congruence|lia].
Qed.

(** What an allocation of [nb] bytes from the chunk [c] does. *)
Record allocated (hd : Z) (h : Heap) (cs pre : list chunk) (c : chunk) (post : list chunk) (nb : Z)
    (h' : Heap) (cs' fl' : list chunk) : Prop := {
  al_rep : heap_rep hd h' cs' fl';
  al_blocks : ∃ s post', nb ≤ s ≤ csz c ∧ cs' = pre ++ Chunk (addr c) s true :: post' ∧ post' ≠ [] ∧ useds post' = useds post;
  al_pin : pin_after true pre = true;
  al_same : startAddr h' = startAddr h ∧ endAddr h' = endAddr h;
  al_data d b : d ∈ useds cs → block_byte d b → b < endAddr h → mem h' b = mem h b;
  al_feet : feet (mem h) cs → (csz c < nb + 16 ∨ post = []) → feet (mem h') cs'
}.

Lemma carve_allocated hd h pre c post fl nb fuel :
  heap_rep hd h (pre ++ c :: post) fl → c ∈ fl → nb mod 8 = 0 → 16 ≤ nb ≤ csz c →
  nb + 16 ≤ csz c ∨ post ≠ [] → (length fl < fuel)%nat →
  ∃ h' cs' fl', carve hd fuel (addr c) nb h = Ok (addr c + 8, h') ∧ allocated hd h (pre ++ c :: post) pre c post nb h' cs' fl'.
Proof.
  intros Hrep Hc H8 Hnb Hfit Hfu. apply list_elem_of_split in Hc as (f1 & f2 & ->).
  destruct (carve_c _ _ _ _ _ _ _ Hrep) as (Hcin & Hfree & Hpin).
  destruct (rep_chunk _ _ _ _ Hrep c Hcin) as (Hc8 & Hc16 & Hclo & Hchi & _).
  assert (∀ m' s k, carve_frame hd (mem h) m' (f1 ++ c :: f2) c s k → 16 ≤ s → s + k ≤ csz c ∨ s = csz c ∧ k = 8 →
    (∀ d b, d ∈ useds (pre ++ c :: post) → block_byte d b → b < endAddr h → m' b = mem h b)
    ∧ (∀ x, x ∈ pre ++ post → rd32 m' (addr x) = rd32 (mem h) (addr x))) as Hkeep.
  { intros m' s k Hfr Hs Hk. split.
    - intros d b Hd Hb He. pose proof (rep_block_off _ _ _ _ _ _ Hrep Hd Hb He) as Ho.
      unfold useds in Hd. apply list_elem_of_filter in Hd as [Hu Hd]. unfold block_byte in Hb.
      destruct (rep_disjoint _ _ _ _ Hrep c d Hcin Hd) as [->|?]; [congruence|]. apply Hfr; [done|lia..].
    - intros x Hx. destruct (rest_apart _ _ _ _ _ _ _ Hrep x Hx) as [Hxin Hxa].
      destruct (rep_chunk _ _ _ _ Hrep x Hxin) as (_ & ? & _).
      pose proof (tiles_place _ _ _ _ _ _ _ x (hr_tiles _ _ _ _ Hrep) Hx).
      apply rd32_ext. intros b Hb. apply Hfr; [apply (tag_off _ _ _ _ _ _ _ Hrep x b Hxin)| |]; lia. }
  assert (∀ cs1 cs2, feet (mem h) (cs1 ++ c :: cs2) → feet (mem h) cs1 ∧ feet (mem h) cs2) as Hsplit.
  { intros cs1 cs2 H. apply feet_app in H as [H1 H2]. split; [done|]. apply (feet_app (mem h) [c] cs2) in H2. apply H2. }
  assert (∀ m', (∀ x, x ∈ pre ++ post → rd32 m' (addr x) = rd32 (mem h) (addr x)) → feet (mem h) (pre ++ c :: post) →
    feet m' pre ∧ feet m' post) as Hfeet.
  { intros m' He [F1 F2]%Hsplit. split; (eapply feet_ext; [|done]; intros x Hx%elem_of_tail_in; apply He, elem_of_app; tauto). }
  destruct (decide (nb + 16 ≤ csz c)) as [Hsp|Hwh].
  - destruct (carve_split _ _ _ _ _ _ _ Hrep nb H8 ltac:(lia) Hsp fuel Hfu) as (h' & fl' & Hr & Hrep' & m' & -> & Hfr).
    destruct (Hkeep m' nb 16 Hfr ltac:(lia) ltac:(lia)) as [K1 K2].
    exists (with_mem m' h). eexists _, fl'. split; [exact Hr|]. split; [done| |done|done|done|].
    + exists nb. eexists. split; [lia|]. split; [done|]. split; [done|]. by rewrite useds_free.
    + intros F [?| ->]; [lia|]. destruct (Hfeet m' K2 F) as [F1 _]. simpl mem.
      apply feet_mid. split; [by apply feet_snoc|]. simpl. done.
  - destruct post as [|d post']; [by destruct Hfit|]. destruct (carve_whole _ _ _ _ _ _ _ Hrep fuel nb d post' eq_refl Hnb ltac:(lia))
      as (h' & Hr & Hrep' & m' & -> & Hfr).
    destruct (Hkeep m' (csz c) 8 Hfr ltac:(lia) ltac:(lia)) as [K1 K2].
    exists (with_mem m' h). eexists _, _. split; [exact Hr|]. split; [exact Hrep'| |done|done|done|].
    + exists (csz c). eexists. split; [lia|]. done.
    + intros F _. destruct (Hfeet m' K2 F) as [F1 F2]. simpl mem. apply feet_mid. split; [by apply feet_snoc|].
      split; [done|done].
Qed.
