(* ===== verification/HeapSpec.v ===== *)
(** The contract of the kernel heap: what its constructor, [alloc] and [free]
    promise, on the invariant of [HeapInv.v]. *)
From S2P Require Import Prelude Memory Layout CList Heap HeapInv.

(** The maximum of a list of positive numbers. *)
Lemma foldl_max l : ∀ t, t ≤ foldl Z.max t l ∧ (∀ x, x ∈ l → x ≤ foldl Z.max t l) ∧ (foldl Z.max t l = t ∨ foldl Z.max t l ∈ l).
Proof.
  induction l as [|y l IH]; intros t; simpl.
  - split_and!; [lia|by intros x ?%elem_of_nil|by left].
  - destruct (IH (Z.max t y)) as (H1 & H2 & H3). split_and!; [lia| |].
    + intros x [->|Hx]%elem_of_cons; [lia|by apply H2].
    + destruct H3 as [E|H3]; [|right; by right]. rewrite E. destruct (Z.max_spec t y) as [[_ ->]|[_ ->]]; [right; by left|by left].
Qed.

Lemma pin_after_false cs : pin_after true cs = false → ∃ pre p, cs = pre ++ [p] ∧ used p = false.
Proof. destruct cs as [|p pre _] using rev_ind; [done|]. rewrite pin_after_snoc. eauto. Qed.

(** Size of the hole at the end of the heap. *)
Definition tail_hole (cs : list chunk) : Z :=
  match last cs with Some c => if used c then 0 else csz c | None => 0 end.

Lemma tail_hole_used cs : pin_after true cs = true → tail_hole cs = 0.
Proof. destruct cs as [|p pre _] using rev_ind; [done|]. rewrite pin_after_snoc. unfold tail_hole. rewrite last_snoc. by intros ->. Qed.

(** ** Growing *)
Section grow.
Context (hd : Z) (junk : ram) (backed : Z → Z → bool) (h : Heap) (cs fl : list chunk) (nb : Z).
Hypothesis Hrep : heap_rep hd h cs fl.
Hypothesis Hnb : 16 ≤ nb ≤ 2 ^ 30.

Definition grown_end : Z := startAddr h + (endAddr h - startAddr h + nb + 4095) / 4096 * 4096.
Hypothesis Hmax : grown_end ≤ maxAddr h.
Hypothesis Hback : backed (endAddr h) ((grown_end - endAddr h) / PAGE_SIZE) = true.

Definition grown : Heap :=
  MkHeap (startAddr h) grown_end (maxAddr h) (perms h)
    (λ a, if (endAddr h <=? a) && (a <? endAddr h + (grown_end - endAddr h)) then u8 (junk a) else mem h a).

Lemma grown_bounds : endAddr h + nb ≤ grown_end ∧ grown_end mod PAGE_SIZE = 0.
Proof using Hrep Hnb.
  pose proof (hr_start _ _ _ _ Hrep) as Hs. pose proof (hr_end _ _ _ _ Hrep) as He. unfold grown_end, PAGE_SIZE in *.
  clear - Hs He Hnb. split; dlia.
Qed.

Lemma expand_ok : expand_unlocked hd (map_heap_backing junk backed) (endAddr h - startAddr h + nb) h = Ok ((), grown).
Proof using Hrep Hnb Hmax Hback.
  pose proof (hr_bounds _ _ _ _ Hrep) as Hbd. change HEAP_MIN_SIZE with 1048576 in Hbd. destruct grown_bounds as [Hg1 Hg2].
  unfold expand_unlocked. rewrite !gets_step. fields. rewrite (u32_small (endAddr h - startAddr h)) by lia.
  rewrite assert_step by (apply Z.ltb_lt; lia). unfold align_heap_size. rewrite align_up_page by lia.
  fold grown_end. rewrite (u32_small grown_end) by lia.
  rewrite assert_step by (by apply Z.leb_le). rewrite modify_step. rewrite (u32_small (grown_end - endAddr h)) by lia.
  unfold map_heap_backing. rewrite (proj2 (Z.eqb_neq (grown_end - endAddr h) 0)) by lia. by rewrite Hback.
Qed.

Lemma grown_mem b : b < endAddr h ∨ grown_end ≤ b → mem grown b = mem h b.
Proof using. intros Hb. simpl. destruct (_ && _) eqn:E; [lia|done]. Qed.

Lemma grown_gap : gap hd grown cs [] fl (endAddr h) (grown_end - endAddr h) false.
Proof using Hrep Hnb Hmax.
  destruct grown_bounds as [Hg1 Hg2]. pose proof (rep_env _ _ _ _ Hrep) as [Hby Hst He Hbd Hhd].
  assert (∀ x b, x ∈ cs → addr x ≤ b < addr x + 16 → mem grown b = mem h b) as Hsame.
  { intros x b Hx Hb. destruct (rep_chunk _ _ _ _ Hrep x Hx) as (_ & ? & _ & ? & _). apply grown_mem. lia. }
  split.
  - split; [|done|done|cbn [startAddr endAddr maxAddr grown]; lia|done].
    intros b. simpl. destruct (_ && _); [apply (wrap_range 8); lia|apply Hby].
  - eapply tiles_ext; [|apply Hrep]. intros x Hx. apply rd32_ext. intros b Hb. apply (Hsame x b Hx). lia.
  - split; [|lia]. unfold PAGE_SIZE in *. clear - He Hg2. dlia.
  - simpl. lia.
  - rewrite app_nil_r. apply Hrep.
  - eapply dll_ext; [apply Hrep|]. intros n b [->|(x & Hx & ->)%elem_of_links]%elem_of_cons Hb.
    + apply grown_mem. change HEAP_MIN_SIZE with 1048576 in Hbd. lia.
    + destruct (rep_free_in _ _ _ _ Hrep x Hx) as [Hin _]. apply (Hsame x b Hin). lia.
  - apply Hrep.
Qed.

(** The heap after growing: [p] is the last chunk. *)
Record grown_to (h' : Heap) (pre : list chunk) (p : chunk) (fl' : list chunk) : Prop := {
  gt_rep : heap_rep hd h' (pre ++ [p]) fl';
  gt_len : (length fl' ≤ S (length fl))%nat;
  gt_start : startAddr h' = startAddr h;
  gt_end : endAddr h' = grown_end;
  gt_data d b : d ∈ useds cs → block_byte d b → b < endAddr h → mem h' b = mem h b;
  gt_feet : feet (mem h) cs → feet (mem h') (pre ++ [p])
}.

(** The highest entry of the list. *)
Lemma highest_ok fl2 : ∀ fl1 f t, listed hd grown (fl1 ++ fl2) → (length fl2 < f)%nat →
  highest hd f (first_link hd fl2) t grown = Ok (foldl Z.max t (links_of fl2), grown).
Proof using All.
  induction fl2 as [|c fl2 IH]; intros fl1 [|f] t [Hd Hr] Hf; cbn [length] in Hf; try lia; cbn [highest].
  - unfold first_link. simpl. by rewrite Z.eqb_refl.
  - rewrite first_link_cons. rewrite links_of_app in Hd.
    assert (addr c + 8 ≠ hd) as Hne by (eapply head_fresh; [exact Hd|]; apply elem_of_app; right; by left).
    rewrite (proj2 (Z.eqb_neq _ _) Hne).
    assert (readable grown c) as [(? & ? & ? & ?) _] by (rewrite Forall_app, Forall_cons in Hr; tauto).
    mrun (load_in hd grown (addr c + 8) ltac:(lia) ltac:(lia)). fold (next (mem grown) (addr c + 8)).
    rewrite (links_next (mem grown) hd (links_of fl1) (addr c + 8) (links_of fl2)) by apply Hd.
    assert ((if t <? addr c + 8 then addr c + 8 else t) = Z.max t (addr c + 8)) as -> by (destruct (Z.ltb_spec t (addr c + 8)); lia).
    apply (IH (fl1 ++ [c])); [|lia]. rewrite <- app_assoc. split; [|done]. by rewrite links_of_app.
Qed.

(** Make the stretch from [a] to the new end the last chunk. *)
Lemma grow_place m1 pre fl1 a sz fuel :
  gap hd (with_mem m1 grown) pre [] fl1 a sz false → pin_after true pre = true →
  (length fl1 ≤ length fl)%nat → (length fl < fuel)%nat → useds pre = useds cs → a + sz = grown_end → a ≤ endAddr h →
  (∀ b, off_list hd fl b → m1 b = mem grown b) → (∃ suf, cs = pre ++ suf) →
  (∀ b, off_list hd fl b → off_list hd fl1 b) →
  ∃ h' fl', (_ ← set_size_and_pinuse hd a sz; insertChunk hd fuel a) (with_mem m1 grown) = Ok ((), h')
    ∧ grown_to h' pre (Chunk a sz false) fl'.
Proof using Hrep Hnb Hmax.
  intros Hg3 Hpin Hl1 Hfu Hus Ea Hae Hf1 [suf Ecs] Ho1. pose proof grown_gap as Hg.
  destruct (place_free hd _ pre [] fl1 a sz false fuel Hg3 eq_refl Hpin ltac:(lia)) as (m2 & fl2 & Hr2 & Hrep2 & Hf2).
  exists (with_mem m2 (with_mem m1 grown)), fl2. split; [exact Hr2|]. split; [done| |done|done| |].
  - rewrite (hr_free _ _ _ _ Hrep2), frees_app. rewrite (g_free _ _ _ _ _ _ _ _ Hg3), app_nil_r in Hl1.
    rewrite length_app. unfold frees at 2. rewrite filter_cons_True, filter_nil by done. simpl. lia.
  - intros d b Hd Hb He. pose proof (rep_block_off _ _ _ _ _ _ Hrep Hd Hb He) as Ho.
    rewrite <- Hus in Hd. unfold useds in Hd. apply list_elem_of_filter in Hd as [_ Hd].
    destruct (tiles_in _ _ _ _ _ _ (g_pre _ _ _ _ _ _ _ _ Hg3) Hd) as (_ & ? & _ & ?). unfold block_byte in Hb.
    simpl. rewrite Hf2 by (auto || lia). simpl. rewrite Hf1 by done. apply grown_mem. lia.
  - intros Hfeet. rewrite Ecs in Hfeet. apply feet_app in Hfeet as [Hfeet _]. apply feet_snoc; [|done].
    eapply feet_ext; [|exact Hfeet]. intros x Hx%elem_of_tail_in. apply rd32_ext. intros b Hb. simpl.
    assert (x ∈ cs) as Hxc by (rewrite Ecs; apply elem_of_app; by left).
    destruct (tiles_in _ _ _ _ _ _ (g_pre _ _ _ _ _ _ _ _ Hg3) Hx) as (_ & ? & _ & ?).
    assert (x ∈ pre ++ []) as Hx' by (by rewrite app_nil_r).
    rewrite Hf2; [|apply (gap_off_tag _ _ _ _ _ _ _ _ Hg3 x b Hx'); lia|lia]. simpl.
    destruct (rep_chunk _ _ _ _ Hrep x Hxc) as (_ & ? & _ & ? & _).
    rewrite Hf1; [apply grown_mem; lia|]. apply (gap_off_tag _ _ _ _ _ _ _ _ Hg x b); [by rewrite app_nil_r|lia].
Qed.

(** What [grow] does with the highest entry [t] of the free list. *)
Definition top_of (t : Z) (k : Z → M Heap (option (Z * Z))) : M Heap (option (Z * Z)) :=
  if negb (t =? 0) then
    p ← pinuse hd (list_entry t); c ← cinuse hd (list_entry t);
    if negb p && c then panic "(alloc) Memory Corrupt"
    else oldCsize ← chunksize hd (list_entry t); k oldCsize
  else mret None.

Lemma top_entry q t k : q ∈ fl → addr q + 8 = t → top_of t k grown = k (csz q) grown.
Proof using Hrep Hnb Hmax.
  intros Hq Et. pose proof grown_gap as Hg. destruct (rep_free_in _ _ _ _ Hrep q Hq) as [Hqc Hqf].
  pose proof (hr_bounds _ _ _ _ Hrep) as Hbd. change HEAP_MIN_SIZE with 1048576 in Hbd.
  destruct (gap_chunk _ _ _ _ _ _ _ _ Hg q) as (Hq8 & ? & Hlo & _ & _ & pin & Ht); [by rewrite app_nil_r|]. simpl in Hlo.
  assert (readable grown q) as Hrq by (eapply gap_readable; [done|by rewrite app_nil_r]).
  unfold top_of. rewrite (proj2 (Z.eqb_neq t 0)) by lia. rewrite <- Et. destruct (list_of_in grown q (proj1 Hrq)) as [_ ->].
  destruct (tag_reads hd grown q pin (proj1 Hrq) Hq8 Ht) as (Hp & Hc & _). cbn [negb]. mrun Hp. mrun Hc.
  rewrite Hqf, andb_false_r. by mrun (chunksize_in hd grown q Hrq).
Qed.

Definition top_hole (t : Z) : M Heap (option (Z * Z)) :=
  top_of t (λ oldCsize, if negb (chunk_plus_offset (list_entry t) oldCsize =? endAddr h) then mret None
    else _ ← removeChunk hd (list_entry t); mret (Some (list_entry t, u32 (grown_end - list_entry t)))).

Abbreviation top := (foldl Z.max 0 (links_of fl)).

(** The last chunk is used: there is no hole to extend. *)
Lemma top_none : pin_after true cs = true → top_hole top grown = Ok (None, grown).
Proof using Hrep Hnb Hmax.
  intros Epin. destruct (foldl_max (links_of fl) 0) as (_ & _ & [E|(q & Hq & Et)%elem_of_links]); [by rewrite E|].
  unfold top_hole. rewrite (top_entry q top _ Hq) by done.
  destruct (rep_free_in _ _ _ _ Hrep q Hq) as [Hqc Hqf]. destruct (rep_chunk _ _ _ _ Hrep q Hqc) as (_ & ? & ? & ? & _).
  pose proof (hr_bounds _ _ _ _ Hrep) as Hbd. change HEAP_MIN_SIZE with 1048576 in Hbd.
  rewrite Et. destruct (list_of_in h q (rep_inside _ _ _ _ Hrep q Hqc)) as [_ ->].
  unfold chunk_plus_offset. rewrite u32_small by lia. rewrite (proj2 (Z.eqb_neq _ _)); [done|].
  intros Eend. apply list_elem_of_split in Hqc as (l1 & l2 & Ecs).
  pose proof (hr_tiles _ _ _ _ Hrep) as T. rewrite Ecs in T.
  destruct (tiles_mid _ _ _ _ _ _ _ T) as (_ & _ & _ & _ & _ & T2 & _).
  rewrite Eend in T2. apply tiles_end in T2. subst l2. rewrite Ecs, pin_after_snoc in Epin. congruence.
Qed.

(** The last chunk [p] is free: it is the hole at the top. *)
Lemma top_some pre p : cs = pre ++ [p] → used p = false →
  addr p + csz p = endAddr h ∧ ∃ m1, top_hole top grown = Ok (Some (addr p, grown_end - addr p), with_mem m1 grown)
    ∧ ∃ fl1, gap hd (with_mem m1 grown) pre [] fl1 (addr p) (csz p + (grown_end - endAddr h)) false ∧ pin_after true pre = true
      ∧ (length fl1 ≤ length fl)%nat ∧ (∀ b, off_list hd fl b → m1 b = mem grown b)
      ∧ (∀ b, off_list hd fl b → off_list hd fl1 b).
Proof using Hrep Hnb Hmax.
  intros Ecs Hpf. pose proof grown_gap as Hg. destruct grown_bounds as [Hg1 _]. pose proof (hr_bounds _ _ _ _ Hrep) as Hbd. change HEAP_MIN_SIZE with 1048576 in Hbd.
  assert (p ∈ cs) as Hpc by (rewrite Ecs; apply elem_of_app; right; by left).
  assert (p ∈ fl) as Hpl by (rewrite (hr_free _ _ _ _ Hrep); by apply elem_of_frees).
  destruct (rep_chunk _ _ _ _ Hrep p Hpc) as (_ & Hp16 & Hplo & Hphi & _).
  rewrite Ecs in Hg. destruct (absorb_prev hd grown pre p [] fl _ _ _ Hg Hpf) as (m1 & fl1 & Hrm & Hg1' & Hpin1 & Ea & Hlen & Hfr & Hof).
  destruct (foldl_max (links_of fl) 0) as (_ & Hge & Hin).
  pose proof (Hge (addr p + 8) ltac:(apply elem_of_links; by exists p)) as Hle.
  assert (addr p + 8 = top) as Et.
  { destruct Hin as [E|(q & Hq & Eq)%elem_of_links]; [lia|].
    destruct (rep_free_in _ _ _ _ Hrep q Hq) as [Hqc _]. destruct (rep_chunk _ _ _ _ Hrep q Hqc) as (_ & ? & _ & ? & _).
    destruct (rep_disjoint _ _ _ _ Hrep p q Hpc Hqc) as [->|?]; lia. }
  split; [done|]. exists m1. split; [|exists fl1; split_and!; try done; lia].
  unfold top_hole. rewrite (top_entry p top _ Hpl Et), <- Et. destruct (list_of_in h p (rep_inside _ _ _ _ Hrep p Hpc)) as [_ ->].
  unfold chunk_plus_offset. rewrite u32_small, Ea, Z.eqb_refl by lia. cbn [negb]. mrun Hrm. rewrite u32_small by lia. done.
Qed.

(** [grow] up to its look at the top hole. *)
Lemma grow_start fuel : (length fl < fuel)%nat →
  grow hd (map_heap_backing junk backed) fuel nb h =
  (o ← top_hole top; let '(topChunk, csize) := default (endAddr h, u32 (grown_end - endAddr h)) o in
   _ ← set_size_and_pinuse hd topChunk csize; insertChunk hd fuel topChunk) grown.
Proof using All.
  intros Hfu. pose proof grown_gap as Hg. destruct grown_bounds as [Hg1 Hg2].
  pose proof (hr_bounds _ _ _ _ Hrep) as Hbd. change HEAP_MIN_SIZE with 1048576 in Hbd. pose proof (rep_hd _ _ _ _ Hrep) as Hhd.
  unfold grow. rewrite !gets_step. fields. rewrite (u32_small (endAddr h - startAddr h)), u32_small by lia. mrun expand_ok.
  mrun (head_empty_ok hd grown _ (g_list _ _ _ _ _ _ _ _ Hg)).
  pose proof (gap_listed _ _ _ _ _ _ _ _ Hg) as Hl.
  assert ((if bool_decide (links_of fl = []) : bool then mret 0 else first ← load hd hd; highest hd fuel first 0) grown
    = Ok (top, grown)) as Htop.
  { case_bool_decide as E; [by rewrite E|]. mrun (load_hd hd grown hd ltac:(by left)). change (rd32 (mem grown) hd) with (next (mem grown) hd).
    rewrite (dll_next _ _ _ (g_list _ _ _ _ _ _ _ _ Hg)). fold (first_link hd fl). by apply (highest_ok fl []). }
  mrun Htop. by rewrite gets_step.
Qed.

(** Growing succeeds, and leaves a last hole that is large enough. *)
Lemma grow_ok fuel : (length fl < fuel)%nat →
  ∃ h' pre p fl', grow hd (map_heap_backing junk backed) fuel nb h = Ok ((), h') ∧ grown_to h' pre p fl'
    ∧ used p = false ∧ csz p = tail_hole cs + (grown_end - endAddr h) ∧ useds pre = useds cs ∧ (∀ x, x ∈ pre → x ∈ cs).
Proof using All.
  intros Hfu. rewrite (grow_start fuel Hfu). pose proof grown_gap as Hg. destruct grown_bounds as [Hg1 Hg2].
  pose proof (hr_bounds _ _ _ _ Hrep) as Hbd. change HEAP_MIN_SIZE with 1048576 in Hbd. destruct (pin_after true cs) eqn:Epin.
  - mrun (top_none Epin). cbn [default from_option]. rewrite (u32_small (grown_end - endAddr h)) by lia.
    destruct (grow_place (mem grown) cs fl (endAddr h) (grown_end - endAddr h) fuel) as (h' & fl' & Hr & Hto);
      try done; try lia; [by exists []; rewrite app_nil_r|].
    rewrite with_mem_same in Hr. eexists h', cs, _, fl'. split_and!; [done..| |done|done].
    rewrite tail_hole_used by done. simpl. lia.
  - destruct (pin_after_false cs Epin) as (pre & p & Ecs & Hpf).
    assert (useds pre = useds cs) as Hus by (by rewrite Ecs, useds_app, useds_free, app_nil_r).
    destruct (top_some pre p Ecs Hpf) as (Ea & m1 & Hr1 & fl1 & Hg1' & Hpin1 & Hlen & Hfr & Hof).
    mrun Hr1. cbn [default from_option id].
    assert (16 ≤ csz p) by (apply (rep_chunk _ _ _ _ Hrep p); rewrite Ecs; apply elem_of_app; right; by left).
    destruct (grow_place m1 pre fl1 (addr p) (csz p + (grown_end - endAddr h)) fuel) as (h' & fl' & Hr & Hto);
      try done; try lia; [by exists [p]|].
    replace (grown_end - addr p) with (csz p + (grown_end - endAddr h)) by lia.
    eexists h', pre, _, fl'. split_and!; [done..| |done|].
    + unfold tail_hole. by rewrite Ecs, last_snoc, Hpf.
    + intros x Hx. rewrite Ecs. apply elem_of_app. by left.
Qed.

End grow.

(** Growing past the region fails its assertion; without frames it panics. *)
Lemma grow_fails hd junk backed h cs fl nb fuel : heap_rep hd h cs fl → 16 ≤ nb ≤ 2 ^ 30 →
  (maxAddr h < grown_end h nb → grow hd (map_heap_backing junk backed) fuel nb h = Panic "this->startAddr + newSize <= this->maxAddr")
  ∧ (grown_end h nb ≤ maxAddr h → backed (endAddr h) ((grown_end h nb - endAddr h) / PAGE_SIZE) = false →
     grow hd (map_heap_backing junk backed) fuel nb h = Panic "no free frames").
Proof.
  intros Hrep Hnb. pose proof (hr_bounds _ _ _ _ Hrep) as Hbd. change HEAP_MIN_SIZE with 1048576 in Hbd.
  destruct (grown_bounds hd h cs fl nb Hrep Hnb) as [Hg1 _].
  assert (grown_end h nb < 2 ^ 32) as Hg3 by (unfold grown_end; clear - Hbd Hnb; dlia).
  assert (∀ k : () → M Heap (), (expand_unlocked hd (map_heap_backing junk backed) (endAddr h - startAddr h + nb) ≫= k) h =
    ((_ ← assert_ (grown_end h nb <=? maxAddr h) "this->startAddr + newSize <= this->maxAddr";
      _ ← modify (with_end (grown_end h nb)); map_heap_backing junk backed (endAddr h) (grown_end h nb - endAddr h)) ≫= k) h) as He.
  { intros k. apply M_ext. unfold expand_unlocked. rewrite !gets_step. fields. rewrite (u32_small (endAddr h - startAddr h)) by lia.
    rewrite assert_step by (apply Z.ltb_lt; lia). unfold align_heap_size. rewrite align_up_page by lia.
    fold (grown_end h nb). by rewrite (u32_small (grown_end h nb)), (u32_small (grown_end h nb - endAddr h)) by lia. }
  unfold grow. rewrite !gets_step. fields. rewrite (u32_small (endAddr h - startAddr h)), u32_small, He by lia. split.
  - intros Hm. by rewrite (proj2 (Z.leb_gt _ _) Hm).
  - intros Hm Hb. rewrite M_assoc, assert_step by (by apply Z.leb_le). rewrite M_assoc, modify_step.
    unfold map_heap_backing. rewrite (proj2 (Z.eqb_neq _ _)) by lia. by rewrite Hb.
Qed.

(** ** Allocation *)

(** The last hole is used up without a remainder. *)
Definition tight (cs : list chunk) (c : chunk) (nb : Z) : Prop := last cs = Some c ∧ csz c < nb + MIN_CHUNK_SIZE.
#[export] Instance tight_dec cs c nb : Decision (tight cs c nb) := _.

(** The chunk at [p], between [pre] and [post], has become a block of [s ≥ nb] bytes;
    the other blocks are those there were, in place and unchanged. *)
Record served (hd : Z) (h : Heap) (cs : list chunk) (nb p : Z)
    (h' : Heap) (pre : list chunk) (s : Z) (post fl' : list chunk) : Prop := {
  sv_rep : heap_rep hd h' (pre ++ Chunk p s true :: post) fl';
  sv_size : nb ≤ s;
  sv_blocks : useds (pre ++ post) = useds cs;
  sv_aligned : p mod 8 = 0;
  sv_start : startAddr h' = startAddr h;
  sv_data d b : d ∈ useds cs → block_byte d b → b < endAddr h → mem h' b = mem h b
}.

(** A block made from a hole: there is a used chunk before it, and some chunk behind. *)
Definition snug (pre post : list chunk) : Prop := pin_after true pre = true ∧ post ≠ [].

Definition best_fit (nb : Z) (cs : list chunk) (c : chunk) : Prop :=
  c ∈ cs ∧ used c = false ∧ nb ≤ csz c ∧ ∀ d, d ∈ cs → used d = false → nb ≤ csz d → csz c ≤ csz d.

Section alloc.
Context (hd : Z) (junk : ram) (backed : Z → Z → bool) (h : Heap) (cs fl : list chunk) (fuel : nat) (size : Z).
Hypothesis Hrep : heap_rep hd h cs fl.
Abbreviation nb := (request2size size).

Lemma fitting_best c t : fitting nb fl = c :: t → best_fit nb cs c ∧ c ∈ fl.
Proof using Hrep.
  intros E. pose proof (smaller_fitting nb fl) as Efl. rewrite E in Efl.
  assert (c ∈ fl) as Hc by (rewrite <- Efl; apply elem_of_app; right; by left).
  destruct (rep_free_in _ _ _ _ Hrep c Hc) as [Hcc Hcf]. split; [|done]. split_and!; [done..|by eapply fitting_head|].
  intros d Hd Hdf Hdn. assert (d ∈ fl) as Hdl by (rewrite (hr_free _ _ _ _ Hrep); by apply elem_of_frees).
  rewrite <- Efl in Hdl. apply elem_of_app in Hdl as [Hs|[->|Ht]%elem_of_cons]; [|done|].
  - pose proof (smaller_lt _ _ _ Hs). lia.
  - pose proof (hr_sorted _ _ _ _ Hrep) as Hso. rewrite <- Efl in Hso. apply sorted_app in Hso as (_ & Hso & _).
    inversion_clear Hso as [|? ? _ Hso1]. rename Hso1 into Hso. rewrite Forall_forall in Hso. by apply Hso.
Qed.

Hypothesis Hlow : hd + 8 ≤ startAddr h.
Hypothesis Hfuel : (length fl < fuel)%nat.

(** Serving the request from a hole of the list. *)
Lemma alloc_hole n c t : nb mod 8 = 0 → 16 ≤ nb → fitting nb fl = c :: t →
  if decide (tight cs c nb) then alloc_unlocked hd (map_heap_backing junk backed) (S n) fuel size h = Fault (endAddr h + 4)
  else ∃ h' pre s post fl', alloc_unlocked hd (map_heap_backing junk backed) (S n) fuel size h = Ok (addr c + 8, h')
    ∧ served hd h cs nb (addr c) h' pre s post fl' ∧ snug pre post ∧ endAddr h' = endAddr h.
Proof using Hrep Hlow Hfuel.
  intros H8 H16 E. destruct (fitting_best c t E) as [(Hc & Hcf & Hcn & _) Hcl].
  destruct (rep_chunk _ _ _ _ Hrep c Hc) as (Hc8 & Hc16 & Hclo & Hchi & Hcal). pose proof (hr_bounds _ _ _ _ Hrep) as Hbd.
  assert (alloc_unlocked hd (map_heap_backing junk backed) (S n) fuel size h = carve hd fuel (addr c) nb h) as ->.
  { cbn [alloc_unlocked]. mrun (find_ok _ _ _ _ Hrep nb fuel ltac:(lia)). rewrite E.
    by rewrite (proj2 (Z.eqb_neq (addr c) 0)) by lia. }
  apply list_elem_of_split in Hc as (pre & post & Ecs). pose proof Hrep as Hrep'. rewrite Ecs in Hrep'.
  destruct (decide (tight cs c nb)) as [[Hl Ht]|Hnt].
  - rewrite Ecs in Hl. change MIN_CHUNK_SIZE with 16 in Ht. apply list_elem_of_split in Hcl as (f1 & f2 & Ef). rewrite Ef in Hrep'.
    destruct post as [|d post _] using rev_ind; [by apply (carve_end _ _ _ _ _ _ _ Hrep')|exfalso].
    rewrite app_comm_cons, app_assoc, last_snoc in Hl. injection Hl as ->.
    rewrite <- Ef in Hrep'. pose proof (hr_tiles _ _ _ _ Hrep') as T.
    destruct (tiles_disjoint _ _ _ _ _ _ _ c T); [apply elem_of_app; right; apply elem_of_app; right; by left|lia..].
  - destruct (carve_allocated hd h pre c post fl nb fuel Hrep' Hcl H8) as (h' & cs' & fl' & Hr & [Ar (s & post' & As & Ab & Ap & Au) Apin [A1 A2] Ad _]);
      [lia| |lia|].
    { destruct (decide (nb + 16 ≤ csz c)); [by left|right]. intros ->. apply Hnt. split; [by rewrite Ecs, last_snoc|].
      change MIN_CHUNK_SIZE with 16. lia. }
    subst cs'. exists h', pre, s, post', fl'. split; [done|]. split; [|done]. split; [done|lia| |done|done|by rewrite Ecs].
    by rewrite Ecs, !useds_app, (useds_free c), Au.
Qed.
End alloc.

(** Serving it from a grown heap. *)
Lemma alloc_grown hd junk backed h cs fl fuel size n : heap_rep hd h cs fl → hd + 8 ≤ startAddr h →
  let nb := request2size size in
  nb mod 8 = 0 → 16 ≤ nb ≤ 2 ^ 30 → fitting nb fl = [] → (S (length fl) < fuel)%nat →
  grown_end h nb ≤ maxAddr h → backed (endAddr h) ((grown_end h nb - endAddr h) / PAGE_SIZE) = true →
  let r := alloc_unlocked hd (map_heap_backing junk backed) (S (S n)) fuel size h in
  if tail_hole cs + (grown_end h nb - endAddr h) <? nb + MIN_CHUNK_SIZE then r = Fault (grown_end h nb + 4)
  else ∃ p h' pre s post fl', r = Ok (p + 8, h') ∧ served hd h cs nb p h' pre s post fl' ∧ snug pre post ∧ endAddr h' = grown_end h nb.
Proof.
  intros Hrep Hlow nb H8 Hnb Efit Hfu Hm Hb r. destruct (grown_bounds hd h cs fl nb Hrep Hnb) as [Hg1 _].
  destruct (grow_ok hd junk backed h cs fl nb Hrep Hnb Hm Hb fuel ltac:(lia)) as (h1 & pre & p & fl1 & Hr & [Gr Gl Gs Ge Gd _] & Hpf & Hps & Hus & Hsub).
  assert (0 ≤ tail_hole cs) as Hth.
  { unfold tail_hole. destruct (last cs) as [c|] eqn:El; [|lia]. destruct (used c); [lia|].
    destruct (rep_chunk _ _ _ _ Hrep c) as (_ & ? & _); [by apply last_Some_elem_of|lia]. }
  assert (useds (pre ++ [p]) = useds cs) as Hus1 by (by rewrite useds_app, useds_free, app_nil_r).
  assert (r = alloc_unlocked hd (map_heap_backing junk backed) (S n) fuel size h1) as ->.
  { unfold r. cbn [alloc_unlocked]. mrun (find_ok _ _ _ _ Hrep nb fuel ltac:(lia)). rewrite Efit. cbn [Z.eqb]. by mrun Hr. }
  destruct (fitting nb fl1) as [|c t] eqn:E1.
  { pose proof (fitting_nil _ _ E1 p) as Hp. exfalso. enough (csz p < nb) by lia. apply Hp.
    rewrite (hr_free _ _ _ _ Gr). apply elem_of_frees. split; [done|]. apply elem_of_app. right. by left. }
  assert (c = p) as ->.
  { destruct (fitting_best hd h1 (pre ++ [p]) fl1 size Gr c t E1) as [(Hc & Hcf & Hcn & _) _].
    apply elem_of_app in Hc as [Hc| ->%list_elem_of_singleton]; [|done].
    pose proof (fitting_nil _ _ Efit c) as Hlt. exfalso. enough (csz c < nb) by lia. apply Hlt.
    rewrite (hr_free _ _ _ _ Hrep). apply elem_of_frees. auto. }
  pose proof (alloc_hole hd junk backed h1 (pre ++ [p]) fl1 fuel size Gr ltac:(lia) ltac:(lia) n p t H8 ltac:(lia) E1) as Ha.
  destruct (decide _) as [[_ Ht]|Hnt].
  - rewrite (proj2 (Z.ltb_lt _ _)) by lia. by rewrite Ge in Ha.
  - rewrite (proj2 (Z.ltb_ge _ _)).
    2: { apply Z.nlt_ge. intros Hlt. apply Hnt. split; [by rewrite last_snoc|lia]. }
    destruct Ha as (h' & pre' & s & post & fl' & Hr' & [Sr Sz Sb Sa Ss Sd] & Hsn & Ee). exists (addr p), h', pre', s, post, fl'.
    split; [done|]. split; [|split; [done|congruence]].
    rewrite Hus1 in Sb. split; [done..|congruence|]. intros d b Hd Hb' He.
    rewrite (Sd d b), (Gd d b); [done..| |done|lia]. by rewrite Hus1.
Qed.

(** C1: [alloc] on a heap that satisfies the invariant (chunks filling the region
    with correct boundary tags, no two holes adjacent, the free list holding exactly
    the holes in order of size). A request is rounded to [nb] bytes, at least
    [size + 4]. If a hole is large enough the smallest such hole serves it: the new
    block is at least [nb] bytes, aligned to 8, disjoint from all others (the invariant
    holds again and the blocks are the old ones plus this one), and no byte of another
    block changes. If none is, the heap grows by whole pages: past the region it fails
    the assertion of [expand], without frames it panics, otherwise the request is served
    from the hole at the end. When it would use up the last hole of the heap without a
    remainder, [set_inuse] writes the tag behind the end of the heap: a fault. *)
Theorem heap_alloc_correct hd junk backed h cs fl fuel size :
  heap_rep hd h cs fl → hd + 8 ≤ startAddr h → (S (length fl) < fuel)%nat → 0 ≤ size ≤ 2 ^ 29 →
  let nb := request2size size in
  let r := alloc hd (map_heap_backing junk backed) fuel size h in
  size + 4 ≤ nb ∧
  match fitting nb fl with
  | c :: _ =>
      best_fit nb cs c ∧
      if decide (tight cs c nb) then r = Fault (endAddr h + 4)
      else ∃ h' pre s post fl', r = Ok (addr c + 8, h')
        ∧ served hd h cs nb (addr c) h' pre s post fl' ∧ snug pre post ∧ endAddr h' = endAddr h
  | [] =>
      (∀ d, d ∈ cs → used d = false → csz d < nb) ∧
      if maxAddr h <? grown_end h nb then r = Panic "this->startAddr + newSize <= this->maxAddr"
      else if negb (backed (endAddr h) ((grown_end h nb - endAddr h) / PAGE_SIZE)) then r = Panic "no free frames"
      else if tail_hole cs + (grown_end h nb - endAddr h) <? nb + MIN_CHUNK_SIZE then r = Fault (grown_end h nb + 4)
      else ∃ p h' pre s post fl', r = Ok (p + 8, h')
        ∧ served hd h cs nb p h' pre s post fl' ∧ snug pre post ∧ endAddr h' = grown_end h nb
  end.
Proof.
  intros Hrep Hlow Hfu Hsz nb r. destruct (request2size_ok size ltac:(lia)) as (H8 & H16 & Hlo & Hhi). fold nb in H8, H16, Hlo, Hhi.
  split; [done|]. destruct (fitting nb fl) as [|c t] eqn:E.
  - split.
    { intros d Hd Hf. apply (fitting_nil _ _ E). rewrite (hr_free _ _ _ _ Hrep). by apply elem_of_frees. }
    destruct (grow_fails hd junk backed h cs fl nb fuel Hrep ltac:(lia)) as [F1 F2].
    assert (∀ m, grow hd (map_heap_backing junk backed) fuel nb h = Panic m → r = Panic m) as Hp.
    { intros m Hm. unfold r, alloc. cbn [alloc_unlocked]. mrun (find_ok _ _ _ _ Hrep nb fuel ltac:(lia)). rewrite E.
      cbn [Z.eqb]. unfold mbind at 1, M_bind. unfold nb in Hm. by rewrite Hm. }
    destruct (Z.ltb_spec (maxAddr h) (grown_end h nb)) as [Hm|Hm]; [by apply Hp, F1|].
    destruct (backed _ _) eqn:Hb; cbn [negb]; [|by apply Hp, F2].
    apply (alloc_grown hd junk backed h cs fl fuel size O Hrep Hlow); fold nb; (done || lia).
  - destruct (fitting_best hd h cs fl size Hrep c t E) as [Hbest _]. split; [done|].
    by apply (alloc_hole hd junk backed h cs fl fuel size Hrep Hlow ltac:(lia) 1 c t).
Qed.

(** ** Construction *)

(** The head of an empty list, access by access. *)
Lemma init_head_ok hd h : 0 < hd → hd + 8 ≤ 2 ^ 32 → init_head hd h = Ok ((), with_mem (INIT_LIST_HEAD (mem h) hd) h).
Proof.
  intros H1 H2. assert (place hd h hd) as Hp by (by left). unfold init_head. rewrite <- (with_mem_same h) at 1.
  erewrite M_step by (by apply store_next). by rewrite store_prev.
Qed.

(** A new heap is one hole. *)
Lemma construct_ok hd junk backed start size max p h0 :
  bytes_ok (mem h0) → start mod PAGE_SIZE = 0 → 0 < start → HEAP_MIN_SIZE ≤ size → size mod PAGE_SIZE = 0 →
  start + size ≤ max → max < 2 ^ 31 → 0 < hd → hd + 8 ≤ start → backed start (size / PAGE_SIZE) = true →
  ∃ h, construct hd (map_heap_backing junk backed) start size max p h0 = Ok ((), h)
    ∧ heap_rep hd h [Chunk start size false] [Chunk start size false]
    ∧ startAddr h = start ∧ endAddr h = start + size ∧ maxAddr h = max ∧ perms h = p.
Proof.
  intros Hby Hst Hs0 Hsz Hsp Hmx Hm31 Hhd Hlow Hb. change HEAP_MIN_SIZE with 1048576 in Hsz.
  unfold construct, align_heap_size. cbv zeta. rewrite align_up_page by lia. unfold PAGE_SIZE in *.
  assert ((size + 4095) / 4096 * 4096 = size) as -> by (clear - Hsp; dlia). rewrite (u32_small (start + size)) by lia.
  assert ((start + size) mod 4096 = 0) as He by (clear - Hst Hsp; dlia). rewrite Hst, He. rewrite !assert_step by done.
  rewrite modify_step. cbn [set_fields heap_mem]. mrun (init_head_ok hd (MkHeap start (start + size) max p (mem h0)) Hhd ltac:(lia)).
  set (h1 := with_mem _ _).
  unfold map_heap_backing. rewrite (proj2 (Z.eqb_neq size 0)) by lia. unfold PAGE_SIZE. rewrite Hb, modify_step.
  set (m1 := λ a, if (start <=? a) && (a <? start + size) then u8 (junk a) else mem h1 a).
  unfold set_prevFoot. mrun (store_in hd (with_mem m1 h1) start 0 ltac:(simpl; lia) ltac:(simpl; lia)).
  set (m2 := wr32 m1 start 0). change (with_mem (wr32 (mem (with_mem m1 h1)) start 0) (with_mem m1 h1)) with (with_mem m2 h1).
  assert (bytes_ok (INIT_LIST_HEAD (mem h0) hd)) as Hb0 by (unfold INIT_LIST_HEAD, set_prev, set_next; auto using wr32_bytes).
  assert (bytes_ok m2) as Hb2.
  { apply wr32_bytes. intros b. unfold m1. destruct (_ && _); [apply (wrap_range 8); lia|apply Hb0]. }
  assert (gap hd (with_mem m2 h1) [] [] [] start size false) as Hg.
  { split; try done.
    - split; try done; simpl; [change HEAP_MIN_SIZE with 1048576; lia|lia].
    - split; [clear - Hsp; dlia|lia].
    - eapply dll_ext; [apply (init_dll (mem h0) hd); unfold node; lia|]. intros n b [->|?%elem_of_nil]%elem_of_cons Hn; [|done].
      simpl. unfold m2. rewrite wr32_other8 by lia. unfold m1. destruct (_ && _) eqn:E; [lia|done].
    - constructor. }
  destruct (place_free _ _ _ _ _ _ _ _ 2 Hg eq_refl eq_refl ltac:(simpl; lia)) as (m3 & fl' & Hr & Hrep & _).
  cbn [app] in Hrep. pose proof (hr_free _ _ _ _ Hrep) as Hf. symmetry in Hf. apply Permutation_singleton_l in Hf. subst fl'.
  rewrite Hr. eexists. split; [done|]. split; [exact Hrep|done].
Qed.

Lemma heap_init_ok hd junk backed start size max p m :
  bytes_ok m → start mod PAGE_SIZE = 0 → 0 < start → HEAP_MIN_SIZE ≤ size → size mod PAGE_SIZE = 0 →
  start + size ≤ max → max < 2 ^ 31 → 0 < hd → hd + 8 ≤ start → backed start (size / PAGE_SIZE) = true →
  ∃ h, heap_init hd junk backed start size max p m = Ok h ∧ heap_rep hd h [Chunk start size false] [Chunk start size false]
    ∧ startAddr h = start ∧ endAddr h = start + size ∧ maxAddr h = max ∧ perms h = p.
Proof.
  intros. destruct (construct_ok hd junk backed start size max p (MkHeap 0 0 0 0 m)) as (h & Hr & Hh); [done..|].
  exists h. split; [|exact Hh]. unfold heap_init. by rewrite Hr.
Qed.

(** The heap as [kernel.cpp] constructs it, its list head at 4096, on zeroed memory. *)
Definition boot_heap : res Heap :=
  heap_init 4096 (λ _, 0) (λ _ _, true) KERNEL_HEAP_BASE HEAP_MIN_SIZE (KERNEL_HEAP_BASE + KERNEL_HEAP_SIZE) 3 (λ _, 0).
Definition boot_chunk : chunk := Chunk KERNEL_HEAP_BASE HEAP_MIN_SIZE false.

Lemma boot_heap_ok : ∃ h, boot_heap = Ok h ∧ heap_rep 4096 h [boot_chunk] [boot_chunk] ∧ startAddr h = KERNEL_HEAP_BASE
  ∧ endAddr h = KERNEL_HEAP_BASE + HEAP_MIN_SIZE.
Proof.
  destruct (heap_init_ok 4096 (λ _, 0) (λ _ _, true) KERNEL_HEAP_BASE HEAP_MIN_SIZE (KERNEL_HEAP_BASE + KERNEL_HEAP_SIZE) 3 (λ _, 0))
    as (h & Hi & Hrep & Hs & He & _); [intros a; lia|by vm_compute..|]. exists h. exact (conj Hi (conj Hrep (conj Hs He))).
Qed.

Lemma heap_alloc_correct_witness : ∃ h h' pre s post fl', boot_heap = Ok h
  ∧ alloc 4096 (map_heap_backing (λ _, 0) (λ _ _, true)) 3 512 h = Ok (KERNEL_HEAP_BASE + 8, h')
  ∧ served 4096 h [boot_chunk] 520 KERNEL_HEAP_BASE h' pre s post fl'.
Proof.
  destruct boot_heap_ok as (h & Hi & Hrep & Hs & _).
  destruct (heap_alloc_correct 4096 (λ _, 0) (λ _ _, true) h _ _ 3 512 Hrep) as [_ Hr];
    [rewrite Hs; by vm_compute|simpl; lia|lia|].
  change (fitting (request2size 512) [boot_chunk]) with [boot_chunk] in Hr. cbv iota beta in Hr. destruct Hr as [_ Hr].
  destruct (decide _) as [[_ Ht]|_] in Hr; [exfalso; revert Ht; by vm_compute|].
  destruct Hr as (h' & pre & s & post & fl' & Hr & Hsv & _). exists h, h', pre, s, post, fl'. exact (conj Hi (conj Hr Hsv)).
Defined.

(** ** Freeing *)

(** The heap [h'] has the blocks [bs] of [h], in place and unchanged, and all footers. *)
Record released (hd : Z) (h : Heap) (bs : list chunk) (h' : Heap) (cs' fl' : list chunk) : Prop := {
  rl_rep : heap_rep hd h' cs' fl';
  rl_feet : feet (mem h') cs';
  rl_blocks : useds cs' = bs;
  rl_start : startAddr h' = startAddr h;
  rl_data d b : d ∈ bs → block_byte d b → b < endAddr h → mem h' b = mem h b
}.



(** The remainder of a split hole is given no footer. After [free] of the block
    behind it, [merge_prev] takes the stale size there, and puts memory in use back on the
    free list: on the boot heap, two blocks [a] and [b] of 512 bytes, [free(a)], [c] of
    256 bytes, [free(b)], and the next [alloc] returns the address of [c], which was
    not freed. And an allocation that takes the whole boot heap faults behind its end. *)
Theorem heap_double_allocation :
  let al := alloc 4096 (map_heap_backing (λ _, 0) (λ _ _, true)) 10 in
  let fr := free 4096 10 in
  (h ← boot_heap;
   '((c, d), _) ← (a ← al 512; b ← al 512; _ ← fr a; c ← al 256; _ ← fr b; d ← al 256; mret (c, d)) h;
   Ok (c, d)) = Ok (KERNEL_HEAP_BASE + 8, KERNEL_HEAP_BASE + 8)
  ∧ (h ← boot_heap; al (HEAP_MIN_SIZE - 4) h) = Fault (KERNEL_HEAP_BASE + HEAP_MIN_SIZE + 4).
Proof. split; vm_compute; reflexivity. Qed.
