(* ===== verification/HeapAlign.v ===== *)
(** Page-aligned allocation ([palignedAlloc] of heap.cpp), on the invariant of
    [HeapInv.v] and the contract of [HeapSpec.v]: a larger block is allocated, the
    part before the page boundary is made a hole and the part behind is freed. *)
From S2P Require Import Prelude Memory Layout CList Heap HeapInv HeapSpec.

(** ** Writing the tags of a block *)

Lemma wr32_rd32 m a b : bytes_ok m → wr32 m a (rd32 m a) b = m b.
Proof.
  intros Hm. unfold wr32, wr8, u8, wrap, rd32. rewrite !Z.shiftr_div_pow2 by lia.
  pose proof (Hm a). pose proof (Hm (a + 1)). pose proof (Hm (a + 2)). pose proof (Hm (a + 3)).
  repeat (case (Z.eqb_spec b _); [intros ->; dlia|intros _]). done.
Qed.

(** The tag [set_inuse] writes over [v]: bit 0 is kept. *)
Lemma inuse_value v a s : 0 ≤ v → s mod 8 = 0 → 0 ≤ s →
  Z.lor (Z.lor (Z.land v PINUSE_BIT) CINUSE_BIT) s = tag (Chunk a s true) (Z.odd v).
Proof.
  intros Hv Hs H0. change PINUSE_BIT with (Z.ones 1). rewrite Z.land_ones, Zmod_odd by lia.
  replace s with (2 ^ 3 * (s / 8)) at 1 by dlia. unfold tag, b2n. cbn [used csz].
  destruct (Z.odd v); rewrite Z.lor_comm; [change (Z.lor 1 CINUSE_BIT) with 3|change (Z.lor 0 CINUSE_BIT) with 2];
    rewrite lor_low by lia; dlia.
Qed.

Lemma odd_tag c pin : csz c mod 8 = 0 → Z.odd (tag c pin) = pin.
Proof. intros Hs. rewrite Zodd_mod. unfold tag, b2n.
  destruct (used c), pin; [apply Z.eqb_eq|apply Z.eqb_neq|apply Z.eqb_eq|apply Z.eqb_neq]; dlia. Qed.

Lemma odd_lor v : Z.odd (Z.lor v PINUSE_BIT) = true.
Proof. rewrite <- !Z.bit0_odd, Z.lor_spec. apply orb_true_r. Qed.

(** [set_inuse] before a chunk [d] whose tag already has the bit: only the tag of
    the block changes. *)
Lemma set_inuse_head hd h c d s pin : bytes_ok (mem h) → inside h c → inside h d → addr d = addr c + s → 8 ≤ s →
  s mod 8 = 0 → csz d mod 8 = 0 → rd32 (mem h) (addr d + 4) = tag d true → Z.odd (rd32 (mem h) (addr c + 4)) = pin →
  ∃ m', set_inuse hd (addr c) s h = Ok ((), with_mem m' h) ∧ bytes_ok m'
    ∧ (∀ b, ¬ addr c + 4 ≤ b < addr c + 8 → m' b = mem h b) ∧ rd32 m' (addr c + 4) = tag (Chunk (addr c) s true) pin.
Proof.
  intros Hb Hc Hd E Hs Hs8 Hd8 Ht <-. pose proof (rd32_range (mem h) (addr c + 4) Hb) as Hr.
  rewrite (set_inuse_ok hd h c d s Hc Hd E Hs). rewrite (inuse_value _ (addr c)) by lia.
  rewrite Ht, (tag_set_pinuse d) by done. rewrite <- Ht.
  set (v := tag _ _). set (m1 := wr32 (mem h) (addr c + 4) v).
  assert (bytes_ok m1) as Hb1 by (by apply wr32_bytes).
  assert (rd32 (mem h) (addr d + 4) = rd32 m1 (addr d + 4)) as -> by (unfold m1; rewrite rd32_wr32_other by lia; done).
  eexists. split; [done|]. split; [by apply wr32_bytes|]. split.
  - intros b Hx. rewrite wr32_rd32 by done. apply wr32_other8. lia.
  - rewrite rd32_wr32_other by lia. apply rd32_wr32_same. unfold inside in *.
    pose proof (tag_range (Chunk (addr c) s true) (Z.odd (rd32 (mem h) (addr c + 4)))) as Hv. fold v in Hv. simpl in Hv. lia.
Qed.

(** ** Cutting a block in two *)

(** A gap whose tag is written is a block. *)
Lemma gap_used hd h pre post fl a s : gap hd h pre post fl a s true →
  rd32 (mem h) (a + 4) = tag (Chunk a s true) (pin_after true pre) → heap_rep hd h (pre ++ Chunk a s true :: post) fl.
Proof.
  intros [[Hby Hst He Hbd Hhd] T1 [Hs8 Hs16] T2 Hf Hd Hso] Ht. split; try done.
  - apply tiles_app. exists a. split; [done|]. simpl. done.
  - rewrite Hf, !frees_app. unfold frees. by rewrite filter_cons_False by done.
Qed.

(** The back of a gap becomes a block. *)
Lemma gap_back hd h pre post fl a s k pin : gap hd h pre post fl a s true → k mod 8 = 0 → 16 ≤ k → k + 16 ≤ s →
  rd32 (mem h) (a + k + 4) = tag (Chunk (a + k) (s - k) true) pin →
  gap hd h pre (Chunk (a + k) (s - k) true :: post) fl a k pin.
Proof.
  intros [Henv T1 [Hs8 Hs16] T2 Hf Hd Hso] Hk8 Hk Hks Ht. split; try done.
  - simpl. split_and!; [done|clear - Hs8 Hk8; dlia|lia|done|done|]. by replace (a + k + (s - k)) with (a + s) by lia.
  - rewrite Hf, !frees_app. unfold frees. by rewrite filter_cons_False by done.
Qed.

Lemma split_unique {A} (x : A) l1 : ∀ l2 l3 l4, x ∉ l1 → x ∉ l3 → l1 ++ x :: l2 = l3 ++ x :: l4 → l1 = l3 ∧ l2 = l4.
Proof.
  induction l1 as [|y l1 IH]; intros l2 [|z l3] l4 H1 H3 E; simplify_eq/=; try done.
  - destruct H3. by left.
  - destruct H1. by left.
  - rewrite elem_of_cons in H1, H3. destruct (IH l2 l3 l4) as [-> ->]; naive_solver.
Qed.

Lemma tiles_fresh m a e pin pre c post : tiles m a e pin (pre ++ c :: post) → c ∉ pre.
Proof.
  intros T Hc. destruct (tiles_mid _ _ _ _ _ _ _ T) as (_ & _ & ? & _).
  destruct (tiles_disjoint _ _ _ _ _ _ _ c T); [apply elem_of_app; by left|lia..].
Qed.

(** The other blocks [bs] of [h] are untouched in [h']. *)
Definition untouched (h h' : Heap) (bs : list chunk) : Prop :=
  ∀ d b, d ∈ bs → block_byte d b → b < endAddr h → mem h' b = mem h b.

Section cut.
Context (hd : Z) (h : Heap) (pre : list chunk) (p s : Z) (post fl : list chunk).
Hypothesis Hrep : heap_rep hd h (pre ++ Chunk p s true :: post) fl.
Hypothesis Hpost : post ≠ [].

Lemma cut_place : s mod 8 = 0 ∧ 16 ≤ s ∧ (0 < startAddr h ≤ p ∧ p + s ≤ endAddr h) ∧ endAddr h < 2 ^ 31 ∧ p mod 8 = 0
  ∧ rd32 (mem h) (p + 4) = tag (Chunk p s true) (pin_after true pre).
Proof using Hrep.
  destruct (rep_chunk _ _ _ _ Hrep (Chunk p s true)) as (? & ? & ? & ? & ?); [apply elem_of_app; right; by left|].
  pose proof (hr_bounds _ _ _ _ Hrep). destruct (tiles_mid _ _ _ _ _ _ _ (hr_tiles _ _ _ _ Hrep)) as (_ & _ & _ & Ht & _).
  cbn [addr csz] in *. split_and!; done || lia.
Qed.

(** The chunk behind the block. *)
Lemma cut_next : ∃ d, d ∈ pre ++ post ∧ addr d = p + s ∧ csz d mod 8 = 0 ∧ p + s + 16 ≤ endAddr h ∧ inside h d
  ∧ rd32 (mem h) (addr d + 4) = tag d true.
Proof using All.
  destruct cut_place as (_ & ? & ? & ? & _). pose proof (gap_of_used _ _ _ _ _ _ Hrep eq_refl) as Hg.
  pose proof (g_post _ _ _ _ _ _ _ _ Hg) as T. destruct post as [|d t]; [done|]. destruct T as (E & Hd & Hs & Ht & _ & T).
  apply tiles_le in T. cbn [addr csz] in *. exists d. split; [apply elem_of_app; right; by left|]. unfold inside. rewrite E in *.
  split_and!; try done; lia.
Qed.

(** Two blocks in place of one: [set_inuse] on both. *)
Lemma cut_two nb : nb mod 8 = 0 → 16 ≤ nb → nb + 16 ≤ s →
  ∃ m', (_ ← set_inuse hd p nb; set_inuse hd (p + nb) (s - nb)) h = Ok ((), with_mem m' h)
    ∧ heap_rep hd (with_mem m' h) (pre ++ Chunk p nb true :: Chunk (p + nb) (s - nb) true :: post) fl
    ∧ ∀ b, ¬ p + 4 ≤ b < p + s → m' b = mem h b.
Proof using All.
  intros Hn8 Hn Hns. destruct cut_place as (Hs8 & Hs16 & Hp & Hend & _ & Ht). destruct cut_next as (d & _ & Ed & Hd8 & He & Hd & Htd).
  pose proof (hr_bytes _ _ _ _ Hrep) as Hb. pose proof (gap_of_used _ _ _ _ _ _ Hrep eq_refl) as Hg. cbn [addr csz] in Hg.
  set (c := Chunk p nb true). set (r := Chunk (p + nb) (s - nb) true).
  assert (inside h c ∧ inside h r) as [Hc Hr] by (unfold inside, c, r; simpl; lia).
  rewrite (M_step _ _ _ _ _ (set_inuse_ok hd h c r nb Hc Hr eq_refl ltac:(lia))). change (addr c) with p. change (addr r) with (p + nb).
  pose proof (rd32_range (mem h) (p + 4) Hb) as Hv1. pose proof (rd32_range (mem h) (p + nb + 4) Hb) as Hv2.
  rewrite (inuse_value _ p) by lia. rewrite Ht, odd_tag by done. fold c.
  set (v := Z.lor (rd32 (mem h) (p + nb + 4)) PINUSE_BIT).
  assert (0 ≤ v < 2 ^ 32 ∧ Z.odd v = true) as [Hv Hodd] by (split; [apply (lor_range 32); done || lia|apply odd_lor]).
  pose proof (tag_range c (pin_after true pre) ltac:(simpl; lia)) as Hct. cbn [csz c] in Hct.
  set (m1 := wr32 (wr32 (mem h) (p + 4) (tag c (pin_after true pre))) (p + nb + 4) v).
  assert (bytes_ok m1) as Hb1 by (unfold m1; by do 2 apply wr32_bytes).
  assert (rd32 m1 (p + 4) = tag c (pin_after true pre)) as Ht1.
  { unfold m1. rewrite rd32_wr32_other, rd32_wr32_same; [done|unfold c in *; lia|lia]. }
  assert (Z.odd (rd32 m1 (p + nb + 4)) = true) as Ho1 by (unfold m1; by rewrite rd32_wr32_same).
  assert (∀ b, ¬ p + 4 ≤ b < p + s → m1 b = mem h b) as Hm1 by (intros b Hx; unfold m1; rewrite !wr32_other8 by lia; done).
  destruct (set_inuse_head hd (with_mem m1 h) r d (s - nb) true Hb1) as (m2 & Hrun & Hb2 & Hm2 & Ht2); try done;
    [simpl; lia|lia|clear - Hs8 Hn8; dlia| |].
  { rewrite <- Htd. apply rd32_ext. intros b Hx. apply Hm1. lia. }
  cbn [addr r with_mem mem] in Hrun, Hm2, Ht2. exists m2. split; [exact Hrun|].
  assert (∀ b, ¬ p + 4 ≤ b < p + s → m2 b = mem h b) as Hm by (intros b Hx; rewrite Hm2 by lia; by apply Hm1).
  split; [|done]. apply gap_used; [apply gap_back with (s := s)|]; [|done|done|done| |].
  - apply (gap_write _ _ _ _ _ _ _ _ Hg); [done|]. intros b Hx. apply Hm. lia.
  - exact Ht2.
  - simpl mem. change (Chunk p nb true) with c. rewrite <- Ht1. apply rd32_ext. intros b Hx. apply Hm2. lia.
Qed.

(** Where the aligned chunk starts: its block is at the next page boundary that
    leaves room for a hole before it. *)
Definition aligned_chunk : Z :=
  if decide ((p + 8) mod PAGE_SIZE = 0) then p
  else let br := (p + 8) / PAGE_SIZE * PAGE_SIZE + PAGE_SIZE - 8 in if 16 <=? br - p then br else br + PAGE_SIZE.

Lemma aligned_chunk_ok : (aligned_chunk + 8) mod PAGE_SIZE = 0 ∧ (aligned_chunk = p ∨ 16 ≤ aligned_chunk - p ≤ 4104)
  ∧ (aligned_chunk - p) mod 8 = 0.
Proof using Hrep.
  destruct cut_place as (_ & _ & _ & _ & Hp8 & _). unfold aligned_chunk, PAGE_SIZE in *. clear - Hp8. case_decide as Hm; [split_and!; [done|by left|by rewrite Z.sub_diag]|].
  destruct (Z.leb_spec 16 ((p + 8) / 4096 * 4096 + 4096 - 8 - p)); (split_and!; [dlia|right; split; dlia|dlia]).
Qed.

(** The address the code computes when the block is not aligned as it is. *)
Lemma lead_split_place : 4120 ≤ s → aligned_chunk ≠ p →
  negb ((p + 8) mod PAGE_SIZE =? 0) = true ∧ (let br := mem2chunk (u32 (Z.land (p + 8) (u32 (- PAGE_SIZE)) + PAGE_SIZE)) in
    if MIN_CHUNK_SIZE <=? u32 (br - p) then br else u32 (br + PAGE_SIZE)) = aligned_chunk.
Proof using Hrep.
  intros Hs Hne. destruct cut_place as (_ & _ & Hp & Hend & Hp8 & _). assert ((p + 8) mod PAGE_SIZE ≠ 0) as Hm.
  { intros Hm. apply Hne. unfold aligned_chunk. by rewrite decide_True. }
  split; [by rewrite (proj2 (Z.eqb_neq _ _) Hm)|]. change (u32 (- PAGE_SIZE)) with (not32 (2 ^ 12 - 1)).
  rewrite land_not_mask by lia. change MIN_CHUNK_SIZE with 16. unfold aligned_chunk. rewrite decide_False by done.
  unfold mem2chunk, PAGE_SIZE in *. change (2 ^ 12) with 4096. assert (8 ≤ (p + 8) mod 4096 < 4096) as Hmod by (clear - Hm Hp8; dlia).
  rewrite (u32_small (_ + 4096)) by lia. rewrite (u32_small (_ - 8)) by lia. rewrite (u32_small (_ - p)) by lia. cbv zeta.
  replace ((p + 8) / 4096 * 4096 + 4096 - 8) with (p + 8 - (p + 8) mod 4096 + 4096 - 8) by (clear; dlia).
  destruct (16 <=? _); [done|]. apply u32_small. lia.
Qed.

Lemma lead_split_ok fuel : pin_after true pre = true → 4120 ≤ s → (length fl < fuel)%nat →
  (aligned_chunk ≠ p → Z.odd (rd32 (mem h) (aligned_chunk + 4)) = false) →
  ∃ h' pre' fl', lead_split hd fuel (p + 8) p h = Ok (aligned_chunk, h')
    ∧ heap_rep hd h' (pre' ++ Chunk aligned_chunk (s - (aligned_chunk - p)) true :: post) fl'
    ∧ useds pre' = useds pre ∧ startAddr h' = startAddr h ∧ endAddr h' = endAddr h ∧ untouched h h' (useds (pre ++ post)).
Proof using All.
  intros Hpin Hs Hfu Hodd. destruct cut_place as (Hs8 & Hs16 & Hp & Hend & Hp8 & Ht). destruct cut_next as (d & _ & Ed & Hd8 & He & Hd & Htd).
  destruct aligned_chunk_ok as (_ & Hq & Hq8). set (q := aligned_chunk) in *. unfold lead_split.
  destruct (decide (q = p)) as [Eq|Hne].
  { rewrite Eq, Z.sub_diag, Z.sub_0_r. assert ((p + 8) mod PAGE_SIZE = 0) as ->.
    { rewrite <- Eq at 1. apply aligned_chunk_ok. }
    exists h, pre, fl. split_and!; done. }
  specialize (Hodd Hne). destruct Hq as [?|Hq]; [done|]. set (k := q - p) in *. assert (q = p + k) as Eq by lia.
  destruct (lead_split_place Hs Hne) as [-> Epos]. fold q in Epos.
  cbv zeta in Epos. rewrite Epos. rewrite (u32_small (q - p)) by lia. fold k.
  set (c := Chunk p s true). assert (readable h c) as Hrc by (apply (rep_readable _ _ _ _ Hrep); apply elem_of_app; right; by left).
  mrun (chunksize_in hd h c Hrc). cbn [csz c]. rewrite (u32_small (s - k)) by lia.
  pose proof (hr_bytes _ _ _ _ Hrep) as Hb. pose proof (gap_of_used _ _ _ _ _ _ Hrep eq_refl) as Hg. cbn [addr csz] in Hg.
  set (r := Chunk q (s - k) true). assert (inside h r) as Hr by (unfold inside, r; simpl; lia).
  destruct (set_inuse_head hd h r d (s - k) false Hb Hr Hd) as (m1 & Hrun & Hb1 & Hm1 & Ht1); try done;
    [simpl; lia|lia|clear - Hs8 Hq8; dlia|]. cbn [addr r] in Hrun, Hm1, Ht1. mrun Hrun.
  set (a := Chunk p k false). assert (inside h a) as Ha by (unfold inside, a; simpl; lia).
  unfold set_size_and_pinuse. rewrite (tag_free p k) by done. fold a.
  mrun (set_head_in hd (with_mem m1 h) a (tag a true) Ha). cbn [mem with_mem addr a].
  unfold set_prevFoot. match goal with |- context [with_mem ?m (with_mem m1 h)] => set (m2 := m) end.
  change (with_mem m2 (with_mem m1 h)) with (with_mem m2 h).
  mrun (store_in hd (with_mem m2 h) q k ltac:(simpl; lia) ltac:(simpl; lia)). cbn [mem with_mem].
  set (m3 := wr32 m2 q k). change (with_mem m3 (with_mem m2 h)) with (with_mem m3 h).
  assert (0 ≤ tag a true < 2 ^ 32) as Hat by (pose proof (tag_range a true ltac:(simpl; lia)) as Hat; change (csz a) with k in Hat; lia).
  assert (∀ b, ¬ p + 4 ≤ b < p + s → m3 b = mem h b) as Hm3.
  { intros b Hx. unfold m3, m2. rewrite !wr32_other8 by lia. apply Hm1. lia. }
  assert (gap hd (with_mem m3 h) pre (r :: post) fl p k false) as Hg3.
  { unfold r. rewrite Eq. apply gap_back with (s := s); [|done|lia|lia|].
    - apply (gap_write _ _ _ _ _ _ _ _ Hg); [unfold m3, m2; by do 2 apply wr32_bytes|]. intros b Hx. apply Hm3. lia.
    - rewrite <- Eq. simpl mem. unfold m3, m2. rewrite !rd32_wr32_other by lia. done. }
  destruct (place_tagged _ _ _ _ _ _ _ _ Hg3 fuel eq_refl Hpin) as (m4 & fl4 & Hins & Hrep4 & Hm4); [|done|].
  { simpl mem. unfold m3. rewrite rd32_wr32_other by lia. by apply rd32_wr32_same. }
  mrun Hins. change (with_mem m4 (with_mem m3 h)) with (with_mem m4 h) in *.
  exists (with_mem m4 h), (pre ++ [a]), fl4. split; [done|]. rewrite <- app_assoc. split; [exact Hrep4|].
  split_and!; [by rewrite useds_app, app_nil_r|done|done|].
  intros x b Hx Hxb Hxe. unfold useds in Hx. apply list_elem_of_filter in Hx as [Hxu Hx].
  pose proof (tiles_disjoint _ _ _ _ _ _ _ x (hr_tiles _ _ _ _ Hrep) Hx) as Hdis. cbn [addr csz] in Hdis.
  simpl mem. rewrite Hm4; [apply Hm3; unfold block_byte in Hxb; lia| |unfold block_byte in Hxb; lia].
  by eapply (block_off _ _ _ _ _ _ _ _ x b Hg).
Qed.

(** What remains behind [nb] bytes is freed. *)
Lemma cut_remainder_ok nb fuel : nb mod 8 = 0 → 16 ≤ nb ≤ s → (length fl < fuel)%nat →
  ∃ h' pre' s' post' fl', cut_remainder hd fuel p s nb h = Ok ((), h')
    ∧ heap_rep hd h' (pre' ++ Chunk p s' true :: post') fl' ∧ nb ≤ s' ≤ nb + 16 ∧ useds (pre' ++ post') = useds (pre ++ post)
    ∧ startAddr h' = startAddr h ∧ untouched h h' (useds (pre ++ post)).
Proof using All.
  intros Hn8 Hn Hfu. destruct cut_place as (Hs8 & Hs16 & Hp & Hend & _ & Ht). destruct cut_next as (d & _ & Ed & Hd8 & He & Hd & Htd).
  unfold cut_remainder. change MIN_CHUNK_SIZE with 16. rewrite u32_small by lia. destruct (Z.ltb_spec (nb + 16) s) as [Hlt|Hge].
  2: { exists h, pre, s, post, fl. split_and!; try done; lia. }
  unfold chunk_plus_offset. rewrite !u32_small by lia.
  destruct (cut_two nb Hn8 ltac:(lia) ltac:(lia)) as (m' & Hrun & Hrep' & Hm).
  rewrite <- (M_assoc (set_inuse hd p nb) (λ _, set_inuse hd (p + nb) (s - nb)) (λ _, free_unlocked hd fuel (chunk2mem (p + nb)))). mrun Hrun.
  set (c := Chunk p nb true) in *. set (r := Chunk (p + nb) (s - nb) true) in *.
  assert (chunk2mem (p + nb) = addr r + 8) as -> by (unfold chunk2mem; rewrite u32_small; simpl; lia).
  pose proof Hrep' as Hrep2. rewrite cons_middle, app_assoc in Hrep2.
  destruct (free_ok hd _ (pre ++ [c]) r post fl fuel Hrep2 eq_refl) as (h2 & cs2 & fl2 & Hfree & Hrep3 & _ & Hus & Hst & _ & Hdata); [|by left|done|].
  { intros pre1 q E. apply app_inj_tail in E as [_ <-]. done. }
  rewrite !useds_app, <- app_assoc in Hus, Hdata. change (useds [c] ++ useds post) with (c :: useds post) in Hus, Hdata.
  assert (c ∈ cs2) as Hc.
  { assert (c ∈ useds cs2) as Hc by (rewrite Hus; apply elem_of_app; right; by left). by apply list_elem_of_filter in Hc as [_ ?]. }
  apply list_elem_of_split in Hc as (pre2 & post2 & ->). rewrite useds_app, useds_used in Hus by done.
  destruct (split_unique c (useds pre2) (useds post2) (useds pre) (useds post)) as [E1 E2]; [| |done|].
  { intros [_ Hc]%list_elem_of_filter. by apply (tiles_fresh _ _ _ _ _ _ _ (hr_tiles _ _ _ _ Hrep3)). }
  { intros [_ Hc]%list_elem_of_filter. by apply (tiles_fresh _ _ _ _ _ _ _ (hr_tiles _ _ _ _ Hrep')). }
  exists h2, pre2, nb, post2, fl2. split_and!; [exact Hfree|exact Hrep3|lia|lia|by rewrite !useds_app, E1, E2|done|].
  intros x b Hx Hb Hxe. rewrite (Hdata x b); [|rewrite useds_app in Hx; rewrite elem_of_app, elem_of_cons in *; tauto|done|done].
  unfold useds in Hx. apply list_elem_of_filter in Hx as [_ Hx]. destruct (tiles_disjoint _ _ _ _ _ _ _ x (hr_tiles _ _ _ _ Hrep) Hx);
    apply Hm; unfold block_byte in Hb; cbn [addr csz] in *; lia.
Qed.
End cut.

(** ** The aligned allocation *)

(** No list is longer than the heap has room for chunks. *)
Lemma rep_length hd h cs fl : heap_rep hd h cs fl → Z.of_nat (length fl) ≤ (endAddr h - startAddr h) / 16.
Proof.
  intros Hrep. rewrite (hr_free _ _ _ _ Hrep). pose proof (length_filter (λ c, used c = false) cs) as Hl.
  assert (∀ m cs a e pin, tiles m a e pin cs → 16 * Z.of_nat (length cs) ≤ e - a) as Ht.
  { intros m. clear. induction cs as [|c cs IH]; intros a e pin T; simpl in T; [simpl; lia|].
    destruct T as (_ & _ & ? & _ & _ & T). apply IH in T. cbn [length]. lia. }
  specialize (Ht _ _ _ _ _ (hr_tiles _ _ _ _ Hrep)). unfold frees. clear - Ht Hl. dlia.
Qed.

Lemma padded_request nb : nb mod 8 = 0 → 0 ≤ nb < 2 ^ 31 → request2size (nb + 4108) = nb + 4112.
Proof.
  intros H8 Hnb. unfold request2size. change MIN_REQUEST with 11. rewrite (proj2 (Z.ltb_ge _ _)) by lia.
  unfold pad_request. change CHUNK_OVERHEAD with 4. change KMALLOC_ALIGN_MASK with (2 ^ 3 - 1).
  rewrite u32_small, land_not_mask by lia. clear - H8. dlia.
Qed.

(** What a successful [alloc] returns. *)
Lemma alloc_served hd junk backed h cs fl fuel size m h' :
  heap_rep hd h cs fl → hd + 8 ≤ startAddr h → (S (length fl) < fuel)%nat → 0 ≤ size ≤ 2 ^ 29 →
  alloc hd (map_heap_backing junk backed) fuel size h = Ok (m, h') →
  ∃ p pre s post fl', m = p + 8 ∧ served hd h cs (request2size size) p h' pre s post fl' ∧ snug pre post
    ∧ endAddr h ≤ endAddr h' ≤ grown_end h (request2size size).
Proof.
  intros Hrep Hlow Hfu Hsz Hr. destruct (request2size_ok size ltac:(lia)) as (H8 & H16 & Hlo & Hhi).
  pose proof (hr_bounds _ _ _ _ Hrep) as Hbd. set (nb := request2size size) in *. destruct (fitting nb fl) as [|c t] eqn:E.
  - destruct (grow_fails hd junk backed h cs fl nb fuel Hrep ltac:(lia)) as [F1 F2].
    destruct (grown_bounds hd h cs fl nb Hrep ltac:(lia)) as [Hg _].
    assert (∀ t, grow hd (map_heap_backing junk backed) fuel nb h ≠ Panic t) as Hp.
    { intros t Ht. unfold alloc in Hr. cbn [alloc_unlocked] in Hr. fold nb in Hr. rewrite (M_step _ _ _ _ _ (find_ok _ _ _ _ Hrep nb fuel ltac:(lia))), E in Hr.
      cbn [Z.eqb] in Hr. unfold mbind at 1, M_bind in Hr. by rewrite Ht in Hr. }
    destruct (Z.ltb_spec (maxAddr h) (grown_end h nb)) as [Hm|Hm]; [by destruct (Hp _ (F1 Hm))|].
    destruct (backed (endAddr h) ((grown_end h nb - endAddr h) / PAGE_SIZE)) eqn:Hb; [|by destruct (Hp _ (F2 Hm eq_refl))].
    pose proof (alloc_grown hd junk backed h cs fl fuel size O Hrep Hlow H8 ltac:(fold nb; lia) E Hfu Hm Hb) as Ha. fold nb in Ha. cbv zeta in Ha.
    unfold alloc in Hr. rewrite Hr in Ha. destruct (_ <? _); [done|]. destruct Ha as (p & h1 & pre & s & post & fl1 & Eq & Hs & Hsn & He).
    injection Eq as -> ->. exists p, pre, s, post, fl1. split_and!; try done; lia.
  - pose proof (alloc_hole hd junk backed h cs fl fuel size Hrep Hlow ltac:(lia) 1 c t H8 H16 E) as Ha.
    unfold alloc in Hr. rewrite Hr in Ha. destruct (decide _); [done|]. destruct Ha as (h1 & pre & s & post & fl1 & Eq & Hs & Hsn & He).
    destruct (grown_bounds hd h cs fl nb Hrep ltac:(lia)) as [Hg _].
    injection Eq as -> ->. exists (addr c), pre, s, post, fl1. split_and!; try done; lia.
Qed.

(** A request of [palignedAlloc] and the one it makes of [alloc]. *)
Lemma paligned_request size : 0 ≤ size ≤ 2 ^ 28 → let nb := request2size size in
  u32 (nb + PAGE_SIZE + MIN_CHUNK_SIZE - CHUNK_OVERHEAD) = nb + 4108 ∧ request2size (nb + 4108) = nb + 4112
  ∧ nb mod 8 = 0 ∧ 16 ≤ nb ≤ size + 16.
Proof.
  intros Hsz nb. destruct (request2size_ok size ltac:(lia)) as (H8 & H16 & Hlo & Hhi). fold nb in H8, H16, Hlo, Hhi.
  pose proof (padded_request nb H8 ltac:(lia)) as Er. split; [|split; [done|split; [done|lia]]].
  change (nb + PAGE_SIZE + MIN_CHUNK_SIZE - CHUNK_OVERHEAD) with (nb + 4096 + 16 - 4). rewrite u32_small; lia.
Qed.

(** The aligned block at the chunk [q] that is cut from the block at [p]. *)
Definition aligned_block (hd : Z) (h : Heap) (cs : list chunk) (nb p q : Z) (h' : Heap) : Prop :=
  (q + 8) mod PAGE_SIZE = 0 ∧ p + 8 ≤ q + 8 ≤ p + 4112 ∧ ∃ pre s post fl', served hd h cs nb q h' pre s post fl' ∧ s ≤ nb + 16.

Lemma align_block_ok hd h cs nb p h1 pre s post fl1 fuel :
  served hd h cs (nb + 4112) p h1 pre s post fl1 → snug pre post → endAddr h ≤ endAddr h1 → nb mod 8 = 0 → 16 ≤ nb →
  (endAddr h1 - startAddr h1) / 16 + 1 < Z.of_nat fuel →
  (aligned_chunk p ≠ p → Z.odd (rd32 (mem h1) (aligned_chunk p + 4)) = false) →
  ∃ h', align_block hd fuel nb (p + 8) h1 = Ok (aligned_chunk p + 8, h') ∧ aligned_block hd h cs nb p (aligned_chunk p) h'.
Proof.
  intros [Sr Sz Sb Sa Ss Sd] [Hpin Hne] He H8 H16 Hfu Hodd. destruct (cut_place _ _ _ _ _ _ _ Sr) as (Hs8 & Hs16 & Hp & Hend & Hp8 & _).
  unfold align_block. assert (mem2chunk (p + 8) = p) as -> by (unfold mem2chunk; rewrite u32_small; lia).
  destruct (aligned_chunk_ok _ _ _ _ _ _ _ Sr) as (Hq & Hqr & Hq8).
  pose proof (rep_length _ _ _ _ Sr) as Hlen1.
  destruct (lead_split_ok _ _ _ _ _ _ _ Sr Hne fuel Hpin) as (h2 & pre2 & fl2 & Hr2 & Rep2 & Us2 & St2 & En2 & Un2); [lia|lia|done|].
  mrun Hr2. set (q := aligned_chunk p) in *. set (sq := s - (q - p)) in *.
  destruct (cut_place _ _ _ _ _ _ _ Rep2) as (Hsq8 & _ & Hqs & Hqe & _).
  mrun (chunksize_in hd h2 (Chunk q sq true) (rep_readable _ _ _ _ Rep2 (Chunk q sq true) ltac:(apply elem_of_app; right; by left))). cbn [csz].
  pose proof (rep_length _ _ _ _ Rep2) as Hlen2. rewrite St2, En2 in Hlen2.
  destruct (cut_remainder_ok _ _ _ _ _ _ _ Rep2 Hne nb fuel H8) as (h3 & pre3 & s3 & post3 & fl3 & Hr3 & Rep3 & Hs3 & Us3 & St3 & Un3); [lia|lia|].
  mrun Hr3. destruct (cut_place _ _ _ _ _ _ _ Rep3) as (_ & Hs316 & Hq3 & Hqe3 & Hq38 & Ht3).
  set (c3 := Chunk q s3 true) in *. assert (c3 ∈ pre3 ++ c3 :: post3) as Hc3 by (apply elem_of_app; right; by left).
  destruct (rep_chunk _ _ _ _ Rep3 c3 Hc3) as (Hc38 & _). cbv zeta.
  mrun (chunksize_in hd h3 c3 (rep_readable _ _ _ _ Rep3 c3 Hc3)). cbn [csz c3].
  assert (chunk2mem q = q + 8) as -> by (unfold chunk2mem; rewrite u32_small; lia).
  rewrite assert_step by (apply Z.leb_le; lia). rewrite assert_step by (by apply Z.eqb_eq).
  destruct (tag_reads hd h3 c3 _ (rep_inside _ _ _ _ Rep3 c3 Hc3) Hc38 Ht3) as (_ & Hci & _). cbn [addr c3] in Hci.
  mrun Hci. cbn [used]. rewrite assert_step by done.
  assert (useds (pre2 ++ post) = useds cs) as Us by (by rewrite <- Sb, !useds_app, Us2).
  exists h3. split; [done|]. split; [done|]. split; [lia|]. exists pre3, s3, post3, fl3. split; [|lia].
  split; [done|lia|congruence|done|congruence|]. intros d b Hd Hb Hbe. rewrite Us in Un3. rewrite Sb in Un2.
  rewrite (Un3 d b), (Un2 d b), (Sd d b); try done; lia.
Qed.

(** C5: [palignedAlloc] asks [alloc] for a page and a minimal chunk more than the
    [nb] bytes of the request, and fails as that call does. Otherwise the block it
    returns starts at the first page boundary of that block that leaves room for a
    hole before it; it has [nb] to [nb + 16] bytes, the part before is a hole, the part
    behind is freed, the invariant holds again and every other block is in place and
    unchanged. This needs the bit 0 of the word where the new tag goes to be clear:
    [set_inuse] keeps it as [PINUSE], although the memory there is not initialised
    and the chunk before it is made free. *)
Theorem paligned_alloc_correct hd junk backed h cs fl fuel size :
  heap_rep hd h cs fl → hd + 8 ≤ startAddr h → 0 ≤ size ≤ 2 ^ 28 →
  let nb := request2size size in
  (grown_end h (nb + 4112) - startAddr h) / 16 + 1 < Z.of_nat fuel →
  match alloc hd (map_heap_backing junk backed) fuel (nb + 4108) h with
  | Ok (m, h1) =>
      let q := aligned_chunk (m - 8) in
      (q ≠ m - 8 → Z.odd (rd32 (mem h1) (q + 4)) = false) →
      ∃ h', palignedAlloc hd (map_heap_backing junk backed) fuel size h = Ok (q + 8, h') ∧ aligned_block hd h cs nb (m - 8) q h'
  | r => palignedAlloc hd (map_heap_backing junk backed) fuel size h = r
  end.
Proof.
  intros Hrep Hlow Hsz nb Hfu. destruct (paligned_request size Hsz) as (Hreq & Er & H8 & H16). fold nb in Hreq, Er, H8, H16.
  pose proof (hr_bounds _ _ _ _ Hrep) as Hbd. pose proof (rep_length _ _ _ _ Hrep) as Hlen.
  assert (∀ e, e ≤ grown_end h (nb + 4112) → (e - startAddr h) / 16 + 1 < Z.of_nat fuel) as Hfu2 by (intros e He; clear - He Hfu; dlia).
  destruct (grown_bounds hd h cs fl (nb + 4112) Hrep ltac:(lia)) as [Hg _]. pose proof (Hfu2 (endAddr h) ltac:(lia)). unfold palignedAlloc. fold nb. rewrite Hreq.
  destruct (alloc hd (map_heap_backing junk backed) fuel (nb + 4108) h) as [[m h1]|t|x|] eqn:Ea;
    [|unfold mbind at 1, M_bind; by rewrite Ea..].
  destruct (alloc_served hd junk backed h cs fl fuel (nb + 4108) m h1 Hrep Hlow ltac:(lia) ltac:(lia) Ea) as (p & pre & s & post & fl1 & -> & Hsv & Hsn & He).
  rewrite Er in He, Hsv. replace (p + 8 - 8) with p by lia. intros Hodd. mrun Ea.
  destruct (cut_place _ _ _ _ _ _ _ (sv_rep _ _ _ _ _ _ _ _ _ _ Hsv)) as (_ & _ & Hp & _).
  rewrite (proj2 (Z.eqb_neq (p + 8) 0)) by (rewrite (sv_start _ _ _ _ _ _ _ _ _ _ Hsv) in Hp; lia).
  eapply align_block_ok; try done; [lia|lia|]. rewrite (sv_start _ _ _ _ _ _ _ _ _ _ Hsv). apply Hfu2. lia.
Qed.

(** The first allocation on the boot heap, and the word the new tag is written over. *)
Lemma boot_alloc f : ∃ h1,
  (h ← boot_heap; alloc 4096 (map_heap_backing (λ _, 0) (λ _ _, true)) (S (S (S f))) 4628 h) = Ok (KERNEL_HEAP_BASE + 8, h1)
  ∧ Z.odd (rd32 (mem h1) (KERNEL_HEAP_BASE + 4092)) = false.
Proof.
  set (r := (h ← boot_heap; _)). assert (match r with
    | Ok (m, h1) => (m =? KERNEL_HEAP_BASE + 8) && negb (Z.odd (rd32 (mem h1) (KERNEL_HEAP_BASE + 4092))) | _ => false end = true) as E
    by (vm_compute; reflexivity).
  destruct r as [[m h1]|t|x|]; [|done..]. apply andb_prop in E as [Em Eo]. exists h1.
  apply Z.eqb_eq in Em as ->. split; [done|]. by apply negb_true_iff.
Qed.

Lemma paligned_alloc_correct_witness : ∃ fuel h h', boot_heap = Ok h
  ∧ palignedAlloc 4096 (map_heap_backing (λ _, 0) (λ _ _, true)) fuel 512 h = Ok (KERNEL_HEAP_BASE + 4096, h').
Proof.
  destruct boot_heap_ok as (h & Hi & Hrep & Hs & He).
  assert (∃ f, 69997 = Z.of_nat f) as [f Hf] by (apply Z_of_nat_complete; discriminate).
  destruct (boot_alloc f) as (h1 & Ha & Ho). rewrite Hi, bind_Ok in Ha.
  assert ((grown_end h 4632 - startAddr h) / 16 + 1 < 70000) as Hg.
  { unfold grown_end. rewrite Hs, He. vm_compute. reflexivity. }
  pose proof (paligned_alloc_correct 4096 (λ _, 0) (λ _ _, true) h _ _ (S (S (S f))) 512 Hrep) as Hp.
  cbv zeta in Hp. change (request2size 512) with 520 in Hp. change (520 + 4108) with 4628 in Hp. rewrite Ha in Hp.
  destruct Hp as (h' & Hr & _).
  - rewrite Hs. discriminate.
  - split; discriminate.
  - eapply Z.lt_le_trans; [exact Hg|]. lia.
  - intros _. exact Ho.
  - exists (S (S (S f))), h, h'. exact (conj Hi Hr).
Defined.
