(* ===== verification/Backing.v ===== *)
(** The kernel heap on the memory managers.

    The code of [Heap.v] runs over any state with a [HeapMem]. Here the state is the machine of
    [Vmm.v] with the frame allocator of [Pmm.v]: accesses go through the page tables, and growing
    and shrinking map and unmap pages as heap.cpp does. [backs] says that such a state stands
    behind a state of the heap's model; every call that returns in the model returns the same
    here, in a state behind the model's, so that the contracts of [HeapSpec.v] and [HeapAlign.v]
    hold for the heap of the kernel. *)
From S2P Require Import Prelude Bitmap Memory Layout CList Pmm Vmm Heap HeapInv HeapSpec.

(** The fields of the heap, outside its memory. *)
Record fields := Fields { f_start : Z; f_end : Z; f_max : Z; f_perms : Z }.
Definition set_end (e : Z) (F : fields) : fields := Fields (f_start F) e (f_max F) (f_perms F).
Definition state : Type := fields * machine pmm.

(** Where byte [i] of the word at [a] is, from the physical addresses [p] of its first byte and
    [q] of its last: the word may lie in two pages. *)
Definition byte_at (a p q i : Z) : Z := if (a + i) / 4096 =? a / 4096 then p + i else q - (3 - i).

Definition load_word (a : Z) (m : machine pmm) : res (Z * machine pmm) :=
  '(p, m) ← translate a m;
  '(q, m) ← translate (u32 (a + 3)) m;
  Ok (rd32 (λ b, Vmm.mem m (byte_at a p q (b - a))) a, m).

Definition store_word (a v : Z) (m : machine pmm) : res (machine pmm) :=
  '(p, m) ← translate a m;
  '(q, m) ← translate (u32 (a + 3)) m;
  let at_ := byte_at a p q in
  Ok (Vmm.with_mem (wr8 (wr8 (wr8 (wr8 (Vmm.mem m) (at_ 0) v) (at_ 1) (Z.shiftr v 8)) (at_ 2) (Z.shiftr v 16)) (at_ 3) (Z.shiftr v 24)) m).

Definition map_heap_backing (virt_addr size perms : Z) (m : machine pmm) : res (machine pmm) :=
  if size =? 0 then Ok m
  else
    let pages := size / PAGE_SIZE in
    '(phys, fs) ← alloc_frames pages (frames m);
    map_pages virt_addr phys pages (Z.lor perms Flags.Present) (with_frames fs m).

(** The physical address only serves a warning. *)
Definition unmap_heap_backing (virt_addr size : Z) (m : machine pmm) : res (machine pmm) :=
  '(phys, m) ← virt_to_phys virt_addr m;
  unmap_pages virt_addr (size / PAGE_SIZE) m.

#[export] Instance backed_mem (hd : Z) : HeapMem hd state := {
  start_of st := f_start st.1;
  end_of st := f_end st.1;
  max_of st := f_max st.1;
  set_fields s e x p st := (Fields s e x p, st.2);
  put_end e st := (set_end e st.1, st.2);
  load a st := '(v, m) ← load_word a st.2; Ok (v, (st.1, m));
  store a v st := m ← store_word a v st.2; Ok ((), (st.1, m));
  unmap_backing va size st := m ← unmap_heap_backing va size st.2; Ok ((), (st.1, m))
}.

Definition map_new (va size : Z) : M state () := λ st, m ← map_heap_backing va size (f_perms st.1) st.2; Ok ((), (st.1, m)).

(** ** How the heap's memory lies in the machine's *)

Section backs.
Context (hd : Z).

(** The pages of the heap, and the one with the head of its list. *)
Definition heap_page (F : fields) (p : Z) : Prop := f_start F / 4096 ≤ p < f_end F / 4096 ∨ p = hd / 4096.
Definition in_heap (F : fields) (a : Z) : Prop := f_start F ≤ a < f_end F ∨ hd ≤ a < hd + 8.
Definition phys (M : ram) (D a : Z) : Z := 4096 * default 0 (page_of M D (a / 4096)) + a mod 4096.

Record shape (F : fields) : Prop := {
  sh_hd : 0 ≤ hd ∧ hd mod 4096 + 8 ≤ 4096 ∧ hd mod 4 = 0 ∧ hd / 4096 < f_start F / 4096;
  sh_pages : f_start F mod 4096 = 0 ∧ f_end F mod 4096 = 0 ∧ f_max F mod 4096 = 0;
  sh_range : f_start F ≤ f_end F ≤ f_max F;
  sh_max : f_max F ≤ 4096 * 0xFFC00
}.

Record backs (D : Z) (A : gset Z) (F : fields) (m : machine pmm) (h : Heap) : Prop := {
  b_wf : wf m D A;
  b_fields : startAddr h = f_start F ∧ endAddr h = f_end F ∧ maxAddr h = f_max F;
  b_shape : shape F;
  b_page p : heap_page F p → ∃ f, page_of (Vmm.mem m) D p = Some f ∧ data_frame (Vmm.mem m) D A f;
  b_inj p q f : heap_page F p → heap_page F q → page_of (Vmm.mem m) D p = Some f → page_of (Vmm.mem m) D q = Some f → p = q;
  b_top p : f_end F / 4096 ≤ p < f_max F / 4096 → page_of (Vmm.mem m) D p = None;
  b_mem a : in_heap F a → Heap.mem h a = Vmm.mem m (phys (Vmm.mem m) D a)
}.

Lemma in_heap_page F a : shape F → in_heap F a → heap_page F (a / 4096) ∧ 0 ≤ a / 4096 < 0xFFC00.
Proof.
  intros [(H0 & H8 & _ & Hlt) [Hs [He _]] Hr Hm] [Ha|Ha].
  - split; [left; dlia|dlia].
  - assert (a / 4096 = hd / 4096) as E by dlia. split; [by right|]. rewrite E. dlia.
Qed.

Lemma in_page_heap D A F m h a : backs D A F m h → in_heap F a →
  ∃ f, page_of (Vmm.mem m) D (a / 4096) = Some f ∧ data_frame (Vmm.mem m) D A f ∧ 0 ≤ a / 4096 < 0xFFC00
    ∧ phys (Vmm.mem m) D a = 4096 * f + a mod 4096.
Proof.
  intros Hb Ha. destruct (in_heap_page F a (b_shape _ _ _ _ _ Hb) Ha) as [Hp Hr]. destruct (b_page _ _ _ _ _ Hb _ Hp) as (f & Hf & Hdf).
  exists f. split_and!; try done; try lia. unfold phys. by rewrite Hf.
Qed.

Lemma page_addr a : a = 4096 * (a / 4096) + a mod 4096.
Proof. dlia. Qed.

Lemma backs_tlb D A F m h t : backs D A F m h → wf (upd (Vmm.mem m) t m) D A → backs D A F (upd (Vmm.mem m) t m) h.
Proof. intros [] ?. by split. Qed.

Lemma translate_backed D A F m h a : backs D A F m h → in_heap F a →
  ∃ t, translate a m = Ok (phys (Vmm.mem m) D a, upd (Vmm.mem m) t m) ∧ backs D A F (upd (Vmm.mem m) t m) h.
Proof.
  intros Hb Ha. destruct (in_page_heap _ _ _ _ _ a Hb Ha) as (f & Hf & Hdf & Hr & ->). pose proof (b_wf _ _ _ _ _ Hb) as Hwf.
  destruct (translate_page nowhere nowhere D m (a / 4096) f (a mod 4096)) as (t & E & Ht);
    [apply Hwf|lia|apply Z.mod_pos_bound; lia|by intros []|by intros []|done|].
  exists t. rewrite <- page_addr in E. split; [rewrite E; by destruct m|].
  apply backs_tlb; [done|]. apply wf_upd_tlb; [done|]. apply view_upd; [apply Hwf|apply Hwf|done].
Qed.

(** The byte of an address that is in no other place. *)
Lemma phys_inj D A F m h a b : backs D A F m h → in_heap F a → in_heap F b →
  phys (Vmm.mem m) D a = phys (Vmm.mem m) D b → a = b.
Proof.
  intros Hb Ha Hb' E. destruct (in_heap_page F a (b_shape _ _ _ _ _ Hb) Ha) as [Pa _].
  destruct (in_heap_page F b (b_shape _ _ _ _ _ Hb) Hb') as [Pb _].
  destruct (b_page _ _ _ _ _ Hb _ Pa) as (f & Hf & _), (b_page _ _ _ _ _ Hb _ Pb) as (g & Hg & _).
  unfold phys in E. rewrite Hf, Hg in E. simpl in E. assert (f = g ∧ a mod 4096 = b mod 4096) as [-> Em] by dlia.
  pose proof (b_inj _ _ _ _ _ Hb _ _ g Pa Pb Hf Hg). dlia.
Qed.

(** No page is mapped or unmapped, or changes its frame. *)
Definition same_pages (D : Z) (m m' : machine pmm) : Prop :=
  ∀ q, 0 ≤ q < 2 ^ 20 → page_of (Vmm.mem m') D q = page_of (Vmm.mem m) D q.

Lemma same_pages_trans D m m1 m2 : same_pages D m m1 → same_pages D m1 m2 → same_pages D m m2.
Proof. intros H1 H2 q Hq. by rewrite H2, H1. Qed.

(** A byte written at its place in the machine's memory is written in the heap's. *)
Lemma byte_stored D A F m h a v : backs D A F m h → in_heap F a →
  backs D A F (Vmm.with_mem (wr8 (Vmm.mem m) (phys (Vmm.mem m) D a) v) m) (with_mem (wr8 (Heap.mem h) a v) h)
  ∧ (∀ b, in_heap F b → phys (wr8 (Vmm.mem m) (phys (Vmm.mem m) D a) v) D b = phys (Vmm.mem m) D b)
  ∧ same_pages D m (Vmm.with_mem (wr8 (Vmm.mem m) (phys (Vmm.mem m) D a) v) m).
Proof.
  intros Hb Ha. destruct (in_page_heap _ _ _ _ _ a Hb Ha) as (f & Hf & Hdf & Hr & Hph). pose proof (b_wf _ _ _ _ _ Hb) as Hwf.
  set (M := wr8 _ _ _). destruct (data_write (Vmm.mem m) M D A f) as (HT & Hpg & Hdf'); [apply Hwf|done| |].
  { intros b Hb'. apply wr8_other. unfold in_frame in Hb'. pose proof (Z.mod_pos_bound a 4096 ltac:(lia)). lia. }
  assert (∀ p, heap_page F p → 0 ≤ p < 2 ^ 20) as Hpr.
  { intros p [Hp| ->]; destruct (b_shape _ _ _ _ _ Hb) as [(? & ? & _ & ?) (? & ? & ?) ? ?]; dlia. }
  assert (∀ b, in_heap F b → phys M D b = phys (Vmm.mem m) D b) as Hphys.
  { intros b Hbh. unfold phys. rewrite Hpg; [done|]. destruct (in_heap_page F b (b_shape _ _ _ _ _ Hb) Hbh). lia. }
  split; [|split; [exact Hphys|exact Hpg]]. split; try apply Hb; cbn [Vmm.mem Vmm.with_mem Heap.mem with_mem].
  - destruct Hwf as [Hv _ Hdir Hfr H0 HD]. split; try done. destruct Hv as [? ? ? ? Ht]. split; try done; [by apply wr8_bytes|].
    eapply coherent_mono; [exact Ht|done|]. intros q g Hq _ Hg. right. cbn. by rewrite Hpg.
  - intros p Hp. destruct (b_page _ _ _ _ _ Hb p Hp) as (g & Hg & Hdg). exists g. rewrite Hpg by (by apply Hpr). split; [done|by apply Hdf'].
  - intros p q g Hp Hq. rewrite !Hpg by (by apply Hpr). by apply (b_inj _ _ _ _ _ Hb).
  - intros p Hp. rewrite Hpg; [by apply (b_top _ _ _ _ _ Hb)|]. destruct (b_shape _ _ _ _ _ Hb) as [(? & ? & _ & ?) (? & ? & ?) ? ?]. dlia.
  - intros b Hbh. rewrite (Hphys b Hbh). destruct (decide (b = a)) as [->|Hne]; [unfold M; by rewrite !wr8_same|].
    unfold M. rewrite !wr8_other; [by apply (b_mem _ _ _ _ _ Hb)| |done].
    intros E. by apply Hne, (phys_inj _ _ _ _ _ _ _ Hb Hbh Ha).
Qed.

(** Both ends of a word, and its bytes. *)
Lemma byte_at_phys M D a i : 0 ≤ i < 4 → byte_at a (phys M D a) (phys M D (a + 3)) i = phys M D (a + i).
Proof.
  intros Hi. unfold byte_at, phys. destruct (Z.eqb_spec ((a + i) / 4096) (a / 4096)) as [E|E].
  - rewrite E. assert ((a + i) mod 4096 = a mod 4096 + i) by dlia. lia.
  - assert ((a + i) / 4096 = (a + 3) / 4096) as -> by dlia. assert ((a + i) mod 4096 + 3 - i = (a + 3) mod 4096) by dlia. lia.
Qed.

Lemma accessible_bytes D A F m h a i : backs D A F m h → accessible hd h a = true → 0 ≤ i < 4 → in_heap F (a + i) ∧ 0 ≤ a ∧ a + 4 ≤ 2 ^ 32.
Proof.
  intros Hb Hac Hi. destruct (b_fields _ _ _ _ _ Hb) as (Hs & He & _). unfold accessible in Hac. rewrite Hs, He in Hac.
  destruct (b_shape _ _ _ _ _ Hb) as [(? & ? & _ & ?) (? & ? & _) ? ?].
  apply orb_prop in Hac as [H'|H']; apply andb_prop in H' as [Lo%Z.leb_le Hi'%Z.leb_le]; (split; [|dlia]); [left|right]; lia.
Qed.

Lemma word_translated D A F m h a : backs D A F m h → accessible hd h a = true →
  ∃ t1 m1 t2, m1 = upd (Vmm.mem m) t1 m ∧ translate a m = Ok (phys (Vmm.mem m) D a, m1)
    ∧ translate (u32 (a + 3)) m1 = Ok (phys (Vmm.mem m) D (a + 3), upd (Vmm.mem m) t2 m1) ∧ backs D A F (upd (Vmm.mem m) t2 m1) h.
Proof.
  intros Hb Hac. destruct (accessible_bytes _ _ _ _ _ a 0 Hb Hac ltac:(lia)) as (H0 & Ha0 & Ha4). rewrite Z.add_0_r in H0.
  destruct (accessible_bytes _ _ _ _ _ a 3 Hb Hac ltac:(lia)) as [H3 _].
  destruct (translate_backed _ _ _ _ _ _ Hb H0) as (t1 & E1 & Hb1). destruct (translate_backed _ _ _ _ _ _ Hb1 H3) as (t2 & E2 & Hb2).
  rewrite u32_small by lia. exists t1, (upd (Vmm.mem m) t1 m), t2. done.
Qed.

Lemma load_backed D A F m h a : backs D A F m h → accessible hd h a = true →
  ∃ m', load_word a m = Ok (rd32 (Heap.mem h) a, m') ∧ backs D A F m' h ∧ same_pages D m m'.
Proof.
  intros Hb Hac. destruct (word_translated _ _ _ _ _ _ Hb Hac) as (t1 & m1 & t2 & Em & E1 & E2 & Hb2).
  unfold load_word. rewrite E1. cbn [mbind res_bind]. rewrite E2. cbn [mbind res_bind].
  eexists. split; [|split; [exact Hb2|by intros q Hq]]. do 2 f_equal. apply rd32_ext. intros b Hbr. cbn [Vmm.mem upd Vmm.with_mem].
  rewrite byte_at_phys by lia. replace (a + (b - a)) with b by lia. symmetry. apply (b_mem _ _ _ _ _ Hb).
  replace b with (a + (b - a)) by lia. apply (accessible_bytes _ _ _ _ _ a (b - a) Hb Hac). lia.
Qed.

Lemma store_backed D A F m h a v : backs D A F m h → accessible hd h a = true →
  ∃ m', store_word a v m = Ok m' ∧ backs D A F m' (with_mem (wr32 (Heap.mem h) a v) h) ∧ same_pages D m m'.
Proof.
  intros Hb Hac. destruct (word_translated _ _ _ _ _ _ Hb Hac) as (t1 & m1 & t2 & Em & E1 & E2 & Hb2).
  unfold store_word. rewrite E1. cbn [mbind res_bind]. rewrite E2. cbn [mbind res_bind]. cbv zeta.
  rewrite !byte_at_phys by lia. set (m2 := upd _ t2 m1) in *. change (Vmm.mem m2) with (Vmm.mem m). set (M := Vmm.mem m) in *.
  assert (∀ i, 0 ≤ i < 4 → in_heap F (a + i)) as Hin by (intros i Hi; apply (accessible_bytes _ _ _ _ _ a i Hb Hac Hi)).
  eexists. split; [done|]. unfold wr32. rewrite <- (Z.add_0_r a) at 2.
  destruct (byte_stored _ _ _ _ _ (a + 0) v Hb2 (Hin 0 ltac:(lia))) as (Hs0 & P0 & Q0).
  destruct (byte_stored _ _ _ _ _ (a + 1) (Z.shiftr v 8) Hs0 (Hin 1 ltac:(lia))) as (Hs1 & P1 & Q1).
  destruct (byte_stored _ _ _ _ _ (a + 2) (Z.shiftr v 16) Hs1 (Hin 2 ltac:(lia))) as (Hs2 & P2 & Q2).
  destruct (byte_stored _ _ _ _ _ (a + 3) (Z.shiftr v 24) Hs2 (Hin 3 ltac:(lia))) as (Hs3 & _ & Q3).
  assert (same_pages D m2 _) as Hsp by (eapply same_pages_trans; [exact Q0|]; eapply same_pages_trans; [exact Q1|]; eapply same_pages_trans; [exact Q2|exact Q3]).
  change (same_pages D m2) with (same_pages D m) in Hsp. clear Q0 Q1 Q2 Q3. revert Hs3 Hsp. cbn [Vmm.mem Vmm.with_mem Heap.mem with_mem] in *. change (Vmm.mem m2) with M in *.
  rewrite (P2 (a + 3)), (P1 (a + 3)), (P0 (a + 3)), (P1 (a + 2)), (P0 (a + 2)), (P0 (a + 1)) by (apply Hin; lia).
  rewrite !Z.add_0_r. by split.
Qed.

(** An access to a page that is not mapped. *)
Definition unmapped_at (D : Z) (m : machine pmm) (a : Z) : Prop := 0 ≤ a < 4096 * 0xFFC00 ∧ page_of (Vmm.mem m) D (a / 4096) = None.

Lemma unmapped_same D m m1 a : same_pages D m m1 → unmapped_at D m a → unmapped_at D m1 a.
Proof. intros Hs [Ha Hn]. split; [done|]. rewrite Hs; [done|dlia]. Qed.

Lemma translate_unmapped D A F m h a : backs D A F m h → unmapped_at D m a → translate a m = Fault a.
Proof.
  intros Hb [Ha Hn]. rewrite (page_addr a). apply (access_fault m D A (a / 4096)); [apply Hb|dlia|apply Z.mod_pos_bound; lia|done].
Qed.

(** ** Growing *)

(** A run of frames from the allocator: data frames that were free. *)
Lemma alloc_run m D A n a fs : wf m D A → 0 < n ≤ 2 ^ 20 → alloc_frames n (frames m) = Ok (a, fs) →
  ∃ f, a = 4096 * f ∧ 0 ≤ f ∧ f + n ≤ 2 ^ 20 ∧ wf (with_frames fs m) D (A ∪ run f n)
    ∧ (∀ g, f ≤ g < f + n → (g ∉ A) ∧ data_frame (Vmm.mem m) D (A ∪ run f n) g)
    ∧ ∀ g, data_frame (Vmm.mem m) D A g → data_frame (Vmm.mem m) D (A ∪ run f n) g.
Proof.
  intros [Hv HT Hdir Hfr H0 HD] Hn E. destruct (alloc_frames_ok _ A n a fs Hfr) as (f & -> & Hf & Hm & Hd & _ & Hi); [done|done|].
  rewrite MAX_FRAMES_eq in Hm. exists f. split_and!; [done|done|done| | |].
  - split; [by apply view_frames| |done|exact Hi|set_solver|set_solver].
    destruct HT as [? Hh ?]. split; [done| |done]. intros i Hr Hb. destruct (Hh i Hr Hb). set_solver.
  - intros g Hg%elem_of_run. assert (g ∉ A) as HgA by set_solver. split; [done|].
    split_and!; [set_solver|by intros ->|by intros ->|]. intros i Hr Hb. destruct (tb_held _ _ _ HT i Hr Hb) as [Hin _]. by intros <-.
  - intros g (? & ? & ? & ?). split_and!; [set_solver|done..].
Qed.

Lemma align_page n : 0 ≤ n → n + 4096 ≤ 2 ^ 32 →
  n ≤ align_heap_size n < n + 4096 ∧ align_heap_size n mod 4096 = 0.
Proof. intros H0 Hn. unfold align_heap_size. rewrite align_up_page by lia. dlia. Qed.

(** Where the heap ends after growing to [n] bytes, and by how many pages. *)
Definition grown_to (F : fields) (n : Z) : Z := f_start F + align_heap_size n.
Definition new_pages (F : fields) (n : Z) : Z := (grown_to F n - f_end F) / 4096.

(** The frame allocator has a run for the new pages. With [room] it also has a frame for every
    page table that may be missing. *)
Definition has_run (A : gset Z) (F : fields) (n : Z) : Prop :=
  ∃ f, 0 ≤ f ∧ f + new_pages F n ≤ 2 ^ 20 ∧ run f (new_pages F n) ## A.
Definition short (A : gset Z) (F : fields) (n : Z) : Prop := 2 ^ 20 < Z.of_nat (size A) + 2 * new_pages F n.
Definition room (A : gset Z) (F : fields) (n : Z) : Prop := has_run A F n ∧ Z.of_nat (size A) + 2 * new_pages F n ≤ 2 ^ 20.

Lemma present_flag perms : Entry.has_flag Flags.Present (Z.lor perms Flags.Present) = true.
Proof. rewrite has_present, Z.lor_spec. apply orb_true_r. Qed.

Lemma grow_sizes F n : shape F → f_end F - f_start F < n → f_start F + n + 4096 ≤ 2 ^ 32 →
  0 ≤ f_start F ∧ f_end F < grown_to F n ∧ grown_to F n mod 4096 = 0 ∧ 4096 * new_pages F n = grown_to F n - f_end F
  ∧ u32 (f_start F + align_heap_size n) = grown_to F n ∧ grown_to F n < 2 ^ 32.
Proof.
  intros [(? & ? & _ & ?) (Hs & He & _) ? ?] Hn Hm. change HEAP_MIN_SIZE with 1048576 in *. unfold new_pages, grown_to.
  assert (0 ≤ f_start F) by dlia. destruct (align_page n ltac:(lia) ltac:(lia)) as [Ha Hb]. generalize dependent (align_heap_size n). intros N Ha Hb.
  split_and!; [lia|lia|dlia|dlia|apply u32_small; lia|lia].
Qed.

(** The pages of the heap when it grows: the old ones keep their frames and bytes, the new ones
    get frames that were free. *)
Lemma grown_pages D A F m h n : backs D A F m h → f_end F - f_start F < n → f_start F + n + 4096 ≤ 2 ^ 32 →
  grown_to F n ≤ f_max F → has_run A F n →
  (map_heap_backing (f_end F) (grown_to F n - f_end F) (f_perms F) m = Panic out_of_frames ∧ short A F n)
  ∨ ∃ m' A' f, map_heap_backing (f_end F) (grown_to F n - f_end F) (f_perms F) m = Ok m' ∧ wf m' D A'
    ∧ (∀ p, heap_page F p → ∃ g, page_of (Vmm.mem m) D p = Some g ∧ page_of (Vmm.mem m') D p = Some g
         ∧ data_frame (Vmm.mem m') D A' g ∧ g ∈ A ∧ ∀ b, in_frame g b → Vmm.mem m' b = Vmm.mem m b)
    ∧ (∀ p, f_end F / 4096 ≤ p < grown_to F n / 4096 → ∃ g, page_of (Vmm.mem m') D p = Some g
         ∧ data_frame (Vmm.mem m') D A' g ∧ (g ∉ A) ∧ g = f + (p - f_end F / 4096))
    ∧ ∀ p, grown_to F n / 4096 ≤ p < 0xFFC00 → page_of (Vmm.mem m') D p = page_of (Vmm.mem m) D p.
Proof.
  intros Hb Hn Hm Hmax Hrun. unfold short. destruct Hrun as (f0 & Hrun). pose proof (b_shape _ _ _ _ _ Hb) as Hsh.
  destruct (grow_sizes F n Hsh Hn Hm) as (Hst & Hgt & Hg4 & Hpg & _ & Hg32). set (e := grown_to F n) in *. set (k := new_pages F n) in *.
  destruct Hsh as [(Hh0 & Hh8 & Hh4 & Hhs) (Hs4 & He4 & Hx4) Hr Hx].
  pose proof (b_wf _ _ _ _ _ Hb) as Hwf. assert (0 < k) as Hk by lia. assert (k ≤ 2 ^ 20) as Hk20 by lia.
  unfold map_heap_backing. rewrite (proj2 (Z.eqb_neq _ _)) by lia. replace ((e - f_end F) / PAGE_SIZE) with k by (unfold PAGE_SIZE; dlia).
  destruct (alloc_frames_total (frames m) A k) as [[a fs] E]; [apply Hwf|rewrite MAX_FRAMES_eq; lia|rewrite MAX_FRAMES_eq; by exists f0|].
  rewrite E. cbn [mbind res_bind]. destruct (alloc_run m D A k a fs Hwf) as (f & -> & Hf0 & Hf20 & Hwf1 & Hnew & Hold); [lia|done|].
  destruct (map_pages_or_full (with_frames fs m) D (A ∪ run f k) (f_end F) (4096 * f) k (Z.lor (f_perms F) Flags.Present))
    as [(m' & A' & -> & Hwf' & HA & Hin & Hout & Hkeep & _)|(-> & Hfull & _)];
    [done|lia|done|lia|by rewrite Z.mul_comm, Z_mod_mult|lia|unfold RECURSIVE_PT_BASE; lia|lia|apply present_flag| |].
  2:{ left. split; [done|]. assert (A ## run f k) as Hdis by (intros g HgA Hg%elem_of_run; by destruct (Hnew g Hg)).
    rewrite (size_union_Z _ _ Hdis), size_run in Hfull by lia. lia. }
  right. cbn [Vmm.mem with_frames] in *. rewrite (Z.mul_comm 4096 f), Z.div_mul in Hin by lia.
  exists m', A', f. split_and!; [done|done| | |intros p Hp; apply Hout; dlia].
  - intros p Hp. destruct (b_page _ _ _ _ _ Hb p Hp) as (g & Hg & Hdg). destruct (Hkeep g (Hold g Hdg)) as [Hk1 Hk2].
    exists g. rewrite Hout by (destruct Hp as [Hp| ->]; dlia). split_and!; [done|done|done|apply Hdg|done].
  - intros p Hp. exists (f + (p - f_end F / 4096)). destruct (Hnew (f + (p - f_end F / 4096))) as [HnA Hdg]; [dlia|].
    split_and!; [|by apply Hkeep|done|done]. rewrite <- (Hin (p - f_end F / 4096)) by dlia. f_equal. lia.
Qed.

(** The bytes of the heap after that; those of the new pages are what their frames hold. *)
Definition grown (D : Z) (F : fields) (n : Z) (m' : machine pmm) (h : Heap) : Heap :=
  with_mem (λ a, if (f_end F <=? a) && (a <? grown_to F n) then u8 (Vmm.mem m' (phys (Vmm.mem m') D a)) else Heap.mem h a)
           (with_end (grown_to F n) h).

Lemma map_backed D A F m h n : backs D A F m h → f_end F - f_start F < n → f_start F + n + 4096 ≤ 2 ^ 32 →
  grown_to F n ≤ f_max F → has_run A F n →
  (map_heap_backing (f_end F) (grown_to F n - f_end F) (f_perms F) m = Panic out_of_frames ∧ short A F n)
  ∨ ∃ m' A', map_heap_backing (f_end F) (grown_to F n - f_end F) (f_perms F) m = Ok m'
    ∧ backs D A' (set_end (grown_to F n) F) m' (grown D F n m' h)
    ∧ ∀ q, grown_to F n / 4096 ≤ q < 0xFFC00 → page_of (Vmm.mem m') D q = page_of (Vmm.mem m) D q.
Proof.
  intros Hb Hn Hm Hmax Hroom. destruct (grown_pages D A F m h n Hb Hn Hm Hmax Hroom) as [?|(m' & A' & f & -> & Hwf' & Hold & Hnew & Hout)]; [by left|right].
  pose proof (b_shape _ _ _ _ _ Hb) as Hsh. destruct (grow_sizes F n Hsh Hn Hm) as (Hst & Hgt & Hg4 & _ & _ & Hg32).
  destruct Hsh as [(Hh0 & Hh8 & Hh4 & Hhs) (Hs4 & He4 & Hx4) Hr Hx].
  assert (∀ p, heap_page (set_end (grown_to F n) F) p → heap_page F p ∨ f_end F / 4096 ≤ p < grown_to F n / 4096) as Hcases.
  { intros p [Hp| ->]; [|left; by right]. cbn in Hp. destruct (decide (p < f_end F / 4096)); [left; left; lia|right; lia]. }
  exists m', A'. split; [done|]. split; [|exact Hout]. split; cbn [f_start f_end f_max set_end].
  - exact Hwf'.
  - cbn. destruct (b_fields _ _ _ _ _ Hb) as (? & _ & ?). done.
  - split; cbn; try done; lia.
  - intros p [Hp|Hp]%Hcases; [destruct (Hold p Hp) as (g & _ & ? & ? & _)|destruct (Hnew p Hp) as (g & ? & ? & _)]; by exists g.
  - intros p q g [Hp|Hp]%Hcases [Hq|Hq]%Hcases Ep Eq.
    + destruct (Hold p Hp) as (g1 & M1 & E1 & _), (Hold q Hq) as (g2 & M2 & E2 & _). apply (b_inj _ _ _ _ _ Hb p q g1); congruence.
    + destruct (Hold p Hp) as (g1 & _ & E1 & _ & HA1 & _), (Hnew q Hq) as (g2 & E2 & _ & HA2 & _). congruence.
    + destruct (Hnew p Hp) as (g1 & E1 & _ & HA1 & _), (Hold q Hq) as (g2 & _ & E2 & _ & HA2 & _). congruence.
    + destruct (Hnew p Hp) as (g1 & E1 & _ & _ & Eg1), (Hnew q Hq) as (g2 & E2 & _ & _ & Eg2). assert (g1 = g2) by congruence. lia.
  - intros p Hp. rewrite Hout by dlia. apply (b_top _ _ _ _ _ Hb). cbn in Hp. dlia.
  - intros a Ha. cbn [grown Heap.mem with_mem]. destruct (Z.leb_spec (f_end F) a), (Z.ltb_spec a (grown_to F n)); cbn [andb].
    1: apply wrap_small; apply (view_bytes _ _ _ _ (wf_view _ _ _ Hwf')).
    all: assert (in_heap F a) as Ha' by (destruct Ha as [Ha|Ha]; cbn in Ha; [left|right]; lia || dlia).
    all: destruct (in_heap_page F a (b_shape _ _ _ _ _ Hb) Ha') as [Hp _]; destruct (Hold _ Hp) as (g & Eg & Eg' & _ & _ & Hby).
    all: rewrite (b_mem _ _ _ _ _ Hb) by done; unfold phys; rewrite Eg, Eg'; symmetry; apply Hby.
    all: pose proof (Z.mod_pos_bound a 4096 ltac:(lia)); unfold in_frame; simpl; lia.
Qed.

(** ** Shrinking *)

(** Where the heap ends after shrinking to [n] bytes; the number of pages does not wrap unless
    the heap is below its least size. *)
Lemma contract_sizes F n : shape F → 0 ≤ n < f_end F - f_start F →
  let e := f_start F + (if align_heap_size n <? HEAP_MIN_SIZE then HEAP_MIN_SIZE else align_heap_size n) in
  u32 e = e ∧ f_start F + HEAP_MIN_SIZE ≤ e ∧ e mod 4096 = 0
  ∧ (u32 (f_end F - e) = 0 ∨ e + u32 (f_end F - e) < 2 ^ 32 → e ≤ f_end F ∧ u32 (f_end F - e) = f_end F - e).
Proof.
  intros [(? & ? & _ & ?) (Hs & He & _) ? ?] Hn. change HEAP_MIN_SIZE with 1048576 in *.
  assert (0 ≤ f_start F) by dlia. destruct (align_page n ltac:(lia) ltac:(lia)) as [Ha Hb].
  generalize dependent (align_heap_size n). intros N Ha Hb. assert (N ≤ f_end F - f_start F) by dlia. cbv zeta.
  set (e := f_start F + _). assert (f_start F + 1048576 ≤ e ∧ (e = f_start F + 1048576 ∨ e ≤ f_end F) ∧ e mod 4096 = 0) as (He1 & He2 & He3).
  { unfold e. destruct (Z.ltb_spec N 1048576); (split_and!; [lia|lia|dlia]). }
  clearbody e. split_and!; [apply u32_small; lia|lia|done|]. destruct (decide (e ≤ f_end F)); [intros _; split; [done|apply u32_small; lia]|].
  assert (u32 (f_end F - e) = f_end F - e + 2 ^ 32) as -> by (unfold wrap; dlia). lia.
Qed.

(** From [A], [F] to [A'], [F'] the heap may have given pages at its end back: for each of them
    one of its frames is free again. *)
Definition gives_back (A : gset Z) (F : fields) (A' : gset Z) (F' : fields) : Prop :=
  (f_start F' = f_start F ∧ f_max F' = f_max F) ∧ A' ⊆ A ∧ 4096 * (Z.of_nat (size A) - Z.of_nat (size A')) = f_end F - f_end F'.

Lemma gives_back_refl A F : gives_back A F A F.
Proof. split; [done|]. split; [done|lia]. Qed.
Lemma gives_back_trans A F A1 F1 A2 F2 : gives_back A F A1 F1 → gives_back A1 F1 A2 F2 → gives_back A F A2 F2.
Proof. intros ([S1 X1] & H1 & E1) ([S2 X2] & H2 & E2). split; [split; congruence|]. split; [by etrans|lia]. Qed.

Lemma unmap_backed D A F m h e : backs D A F m h → e mod 4096 = 0 → f_start F + HEAP_MIN_SIZE ≤ e ≤ f_end F →
  ∃ m' A', unmap_pages e ((f_end F - e) / 4096) m = Ok m' ∧ backs D A' (set_end e F) m' (with_end e h)
    ∧ gives_back A F A' (set_end e F).
Proof.
  intros Hb He4' Hr'. pose proof (b_shape _ _ _ _ _ Hb) as Hsh.
  destruct Hsh as [(Hh0 & Hh8 & Hh4 & Hhs) (Hs4 & He4 & Hx4) Hr Hx]. change HEAP_MIN_SIZE with 1048576 in *.
  assert (0 ≤ f_start F) as Hst by dlia. set (k := (f_end F - e) / 4096). assert (e + 4096 * k = f_end F) as Hk by (unfold k; dlia).
  assert (∀ i, 0 ≤ i < k → heap_page F (e / 4096 + i)) as Hgone by (intros i Hi; left; dlia).
  destruct (unmap_pages_ok m D A e k (b_wf _ _ _ _ _ Hb)) as (m' & A' & -> & Hwf' & HA & Hp & Hkeep & _);
    [lia|done|lia|unfold RECURSIVE_PT_BASE; lia|intros i Hi; by apply (b_page _ _ _ _ _ Hb), Hgone| |].
  { intros i j f Hi Hj E1 E2. pose proof (b_inj _ _ _ _ _ Hb _ _ f (Hgone i Hi) (Hgone j Hj) E1 E2). lia. }
  exists m', A'. split; [done|]. set (F' := set_end e F). split; [|split; [done|]; split; [by eapply without_subset|unfold F'; cbn; destruct HA as [_ HA]; lia]].
  set (M := Vmm.mem m) in *. set (M' := Vmm.mem m') in *.
  assert (∀ p, heap_page F' p → heap_page F p ∧ page_of M' D p = page_of M D p) as Hleft.
  { intros p Hq. assert (heap_page F p) as Hq' by (destruct Hq as [Hq| ->]; [left; cbn in Hq; dlia|by right]). split; [done|].
    destruct Hq as [Hq| ->]; cbn in *; rewrite Hp, decide_False by dlia; done. }
  assert (∀ p f, heap_page F' p → page_of M D p = Some f → ∀ i, 0 ≤ i < k → page_of M D (e / 4096 + i) ≠ Some f) as Hother.
  { intros p f Hq Hf i Hi E. pose proof (b_inj _ _ _ _ _ Hb _ _ f (proj1 (Hleft p Hq)) (Hgone i Hi) Hf E) as Epi.
    destruct Hq as [Hq| ->]; cbn in *; dlia. }
  split; cbn [f_start f_end f_max set_end F'].
  - exact Hwf'.
  - cbn. destruct (b_fields _ _ _ _ _ Hb) as (? & _ & ?). done.
  - split; cbn; try done; lia.
  - intros p Hq. destruct (Hleft p Hq) as [Hq' E]. destruct (b_page _ _ _ _ _ Hb p Hq') as (f & Hf & Hdf). exists f.
    fold M'. rewrite E. split; [done|]. by apply (Hkeep f Hdf), (Hother p).
  - intros p q f Hpp Hq. fold M'. destruct (Hleft p Hpp) as [Hp' ->], (Hleft q Hq) as [Hq' ->]. by apply (b_inj _ _ _ _ _ Hb).
  - intros p Hq. cbn in Hq. fold M'. rewrite Hp by dlia. destruct (decide _); [done|]. apply (b_top _ _ _ _ _ Hb). dlia.
  - intros a Ha. cbn. assert (shape F') as Hsh' by (split; cbn; try done; lia).
    destruct (in_heap_page F' a Hsh' Ha) as [Hq _]. destruct (Hleft _ Hq) as [Hq' E].
    destruct (b_page _ _ _ _ _ Hb _ Hq') as (f & Hf & Hdf). destruct (Hkeep f Hdf) as [_ Hby]; [by apply (Hother (a / 4096))|].
    assert (in_heap F a) as Ha' by (destruct Ha as [Ha|Ha]; cbn in Ha; [left; lia|by right]).
    rewrite (b_mem _ _ _ _ _ Hb) by done. unfold phys. change (Vmm.mem m) with M. change (Vmm.mem m') with M'. fold M in Hf. rewrite E, Hf.
    symmetry. apply Hby. pose proof (Z.mod_pos_bound a 4096 ltac:(lia)). unfold in_frame. simpl. lia.
Qed.
End backs.

(** ** Following the model *)

(** What the machine does where the model gives [r], for code that neither maps nor unmaps: it
    returns the same, in a state behind the model's, or stops at the same place; an access
    outside the heap faults there as well, if its page is not mapped. *)
Definition agrees (hd D : Z) (A : gset Z) (F : fields) (m : machine pmm) {X} (r : res (X * Heap)) (r' : res (X * state)) : Prop :=
  match r with
  | Ok (x, h') => ∃ m', r' = Ok (x, (F, m')) ∧ backs hd D A F m' h' ∧ same_pages D m m'
  | Panic t => r' = Panic t
  | Fault a => unmapped_at D m a → r' = Fault a
  | NoFuel => True
  end.
Definition steady (hd : Z) {X} (p : M Heap X) (q : M state X) : Prop :=
  ∀ D A F m h, backs hd D A F m h → agrees hd D A F m (p h) (q (F, m)).

Lemma agrees_same hd D A F m m1 {X} (r : res (X * Heap)) r' : same_pages D m m1 → agrees hd D A F m1 r r' → agrees hd D A F m r r'.
Proof.
  intros Hs. destruct r as [[x h']|t|a|]; cbn [agrees]; [|done| |done].
  - intros (m' & E & Hb & Hs'). exists m'. split; [done|]. split; [done|]. by eapply same_pages_trans.
  - intros Hf Hu. by eapply Hf, unmapped_same.
Qed.

(** A call that returns in the model returns the same on the machine. *)
Definition follows (hd : Z) {X} (p : M Heap X) (q : M state X) : Prop :=
  ∀ D A F m h x h', backs hd D A F m h → p h = Ok (x, h') →
    ∃ A' F' m', q (F, m) = Ok (x, (F', m')) ∧ backs hd D A' F' m' h' ∧ gives_back A F A' F'.

Lemma bind_inv {St A B} (p : M St A) (f : A → M St B) h r :
  (p ≫= f) h = Ok r → ∃ a h1, p h = Ok (a, h1) ∧ f a h1 = Ok r.
Proof. unfold mbind, M_bind, res_bind. destruct (p h) as [[a h1]|t|z|]; [|done..]. eauto. Qed.

Create HintDb heap_steady discriminated.
#[export] Hint Constants Opaque : heap_steady.

Section steady.
Context (hd : Z).

Lemma steady_ok {X} (p : M Heap X) q D A F m h x h' : steady hd p q → backs hd D A F m h → p h = Ok (x, h') →
  ∃ m', q (F, m) = Ok (x, (F, m')) ∧ backs hd D A F m' h' ∧ same_pages D m m'.
Proof. intros Hp Hb E. pose proof (Hp _ _ _ _ _ Hb) as Hr. by rewrite E in Hr. Qed.

Lemma steady_ret {X} (x : X) : steady hd (mret x) (mret x).
Proof. intros D A F m h Hb. by exists m. Qed.

Lemma steady_bind {X Y} (p : M Heap X) q (f : X → M Heap Y) g :
  steady hd p q → (∀ x, steady hd (f x) (g x)) → steady hd (p ≫= f) (q ≫= g).
Proof.
  intros Hp Hf D A F m h Hb. pose proof (Hp _ _ _ _ _ Hb) as Hr. unfold mbind, M_bind, res_bind.
  destruct (p h) as [[x h1]|t|a|]; cbn [agrees] in *; [|by rewrite Hr| |done].
  - destruct Hr as (m1 & -> & Hb1 & Hs1). eapply agrees_same; [exact Hs1|]. by apply Hf.
  - intros Ha. by rewrite Hr.
Qed.

Lemma steady_panic {X} t : steady hd (@panic _ X t) (panic t).
Proof. done. Qed.
Lemma steady_fuel {X} (q : M state X) : steady hd out_of_fuel q.
Proof. done. Qed.

Lemma steady_assert b t : steady hd (assert_ b t) (assert_ b t).
Proof. intros D A F m h Hb. destruct b; [by exists m|done]. Qed.

Lemma steady_gets {X} (g : Heap → X) g' :
  (∀ D A F m h, backs hd D A F m h → g h = g' (F, m)) → steady hd (gets g) (gets g').
Proof. intros Hg D A F m h Hb. exists m. split; [|by split]. unfold gets. by rewrite (Hg _ _ _ _ _ Hb). Qed.

Lemma steady_start : steady hd (gets (start_of hd)) (gets (start_of hd)).
Proof. apply steady_gets. intros D A F m h Hb. apply (b_fields _ _ _ _ _ _ Hb). Qed.
Lemma steady_end : steady hd (gets (end_of hd)) (gets (end_of hd)).
Proof. apply steady_gets. intros D A F m h Hb. apply (b_fields _ _ _ _ _ _ Hb). Qed.
Lemma steady_max : steady hd (gets (max_of hd)) (gets (max_of hd)).
Proof. apply steady_gets. intros D A F m h Hb. apply (b_fields _ _ _ _ _ _ Hb). Qed.
Lemma steady_ok_address p : steady hd (gets (ok_address hd p)) (gets (ok_address hd p)).
Proof.
  apply steady_gets. intros D A F m h Hb. destruct (b_fields _ _ _ _ _ _ Hb) as (Hs & He & _). unfold ok_address. cbn. by rewrite Hs, He.
Qed.

Lemma steady_load a : steady hd (load hd a) (load hd a).
Proof.
  intros D A F m h Hb. cbn [load heap_mem backed_mem fst snd]. destruct (accessible hd h a) eqn:Hac.
  - destruct (load_backed hd D A F m h a Hb Hac) as (m' & -> & Hb' & Hs). by exists m'.
  - intros Ha. unfold load_word. by rewrite (translate_unmapped hd D A F m h a Hb Ha).
Qed.
Lemma steady_store a v : steady hd (store hd a v) (store hd a v).
Proof.
  intros D A F m h Hb. cbn [store heap_mem backed_mem fst snd]. destruct (accessible hd h a) eqn:Hac.
  - destruct (store_backed hd D A F m h a v Hb Hac) as (m' & -> & Hb' & Hs). by exists m'.
  - intros Ha. unfold store_word. by rewrite (translate_unmapped hd D A F m h a Hb Ha).
Qed.
End steady.
#[export] Hint Resolve steady_ret steady_panic steady_fuel steady_assert steady_start steady_end steady_max
  steady_ok_address steady_load steady_store : heap_steady.

(** Follow the code from one access to the next. *)
Ltac follow :=
  repeat first
    [ solve [eauto 1 with heap_steady]
    | apply steady_bind; [|intros ?]
    | match goal with
      | |- steady _ (if ?b then _ else _) _ => destruct b
      | |- steady _ (let '(_, _) := ?x in _) _ => destruct x
      end ].

Section chunks.
Context (hd : Z).

Lemma steady_get_prevFoot p : steady hd (get_prevFoot hd p) (get_prevFoot hd p).
Proof. unfold get_prevFoot. follow. Qed.
Lemma steady_set_prevFoot p v : steady hd (set_prevFoot hd p v) (set_prevFoot hd p v).
Proof. unfold set_prevFoot. follow. Qed.
Lemma steady_get_head p : steady hd (get_chunk_head hd p) (get_chunk_head hd p).
Proof. unfold get_chunk_head. follow. Qed.
Lemma steady_set_head p v : steady hd (set_chunk_head hd p v) (set_chunk_head hd p v).
Proof. unfold set_chunk_head. follow. Qed.
#[local] Hint Resolve steady_get_prevFoot steady_set_prevFoot steady_get_head steady_set_head : heap_steady.

Lemma steady_chunksize p : steady hd (chunksize hd p) (chunksize hd p).
Proof. unfold chunksize. follow. Qed.
Lemma steady_pinuse p : steady hd (pinuse hd p) (pinuse hd p).
Proof. unfold pinuse. follow. Qed.
Lemma steady_cinuse p : steady hd (cinuse hd p) (cinuse hd p).
Proof. unfold cinuse. follow. Qed.
Lemma steady_ok_inuse p : steady hd (ok_inuse hd p) (ok_inuse hd p).
Proof. unfold ok_inuse. follow. Qed.
Lemma steady_clear_pinuse p : steady hd (clear_pinuse hd p) (clear_pinuse hd p).
Proof. unfold clear_pinuse. follow. Qed.
Lemma steady_set_inuse p s : steady hd (set_inuse hd p s) (set_inuse hd p s).
Proof. unfold set_inuse, set_pinuse. follow. Qed.
Lemma steady_set_size p s : steady hd (set_size_and_pinuse hd p s) (set_size_and_pinuse hd p s).
Proof. unfold set_size_and_pinuse. follow. Qed.
Lemma steady_set_foot p s : steady hd (set_foot hd p s) (set_foot hd p s).
Proof. unfold set_foot. follow. Qed.
Lemma steady_init_head : steady hd (init_head hd) (init_head hd).
Proof. unfold init_head. follow. Qed.
Lemma steady_head_empty : steady hd (head_empty hd) (head_empty hd).
Proof. unfold head_empty. follow. Qed.
#[local] Hint Resolve steady_chunksize steady_pinuse steady_cinuse steady_set_size steady_head_empty : heap_steady.

Lemma steady_scan fuel : ∀ iter size, steady hd (scan hd fuel iter size) (scan hd fuel iter size).
Proof. induction fuel as [|fuel IH]; intros iter size; cbn [scan]; follow. Qed.
Lemma steady_highest fuel : ∀ iter t, steady hd (highest hd fuel iter t) (highest hd fuel iter t).
Proof. induction fuel as [|fuel IH]; intros iter t; cbn [highest]; follow. Qed.
#[local] Hint Resolve steady_scan steady_highest : heap_steady.

Lemma steady_find fuel size : steady hd (findSmallestChunk hd fuel size) (findSmallestChunk hd fuel size).
Proof. unfold findSmallestChunk. follow. Qed.
Lemma steady_add_before c p : steady hd (add_before hd c p) (add_before hd c p).
Proof. unfold add_before. follow. Qed.
#[local] Hint Resolve steady_add_before : heap_steady.
Lemma steady_insert fuel c : steady hd (insertChunk hd fuel c) (insertChunk hd fuel c).
Proof. unfold insertChunk. follow. Qed.
Lemma steady_remove c : steady hd (removeChunk hd c) (removeChunk hd c).
Proof. unfold removeChunk. follow. Qed.
End chunks.
#[export] Hint Resolve steady_get_prevFoot steady_set_prevFoot steady_get_head steady_set_head steady_chunksize steady_pinuse
  steady_cinuse steady_ok_inuse steady_clear_pinuse steady_set_inuse steady_set_size steady_set_foot steady_init_head
  steady_head_empty steady_scan steady_highest steady_find steady_insert steady_remove : heap_steady.

Section code.
Context (hd : Z).

Lemma steady_carve fuel hole nb : steady hd (carve hd fuel hole nb) (carve hd fuel hole nb).
Proof. unfold carve. follow. Qed.
Lemma steady_merge_prev b s : steady hd (merge_prev hd b s) (merge_prev hd b s).
Proof. unfold merge_prev, corrupt. follow. Qed.
Lemma steady_merge_next fuel b n s : steady hd (merge_next hd fuel b n s) (merge_next hd fuel b n s).
Proof. unfold merge_next, corrupt. follow. Qed.
Lemma steady_lead_split fuel p c : steady hd (lead_split hd fuel p c) (lead_split hd fuel p c).
Proof. unfold lead_split. follow. Qed.
End code.
#[export] Hint Resolve steady_carve steady_merge_prev steady_merge_next steady_lead_split : heap_steady.

Section memory.
Context (hd : Z).

Lemma steady_follows {X} (p : M Heap X) q : steady hd p q → follows hd p q.
Proof. intros Hp D A F m h x h' Hb E. destruct (steady_ok _ _ _ _ _ _ _ _ _ _ Hp Hb E) as (m' & Eq & Hb' & _). exists A, F, m'. split; [done|]. split; [done|apply gives_back_refl]. Qed.

Lemma follows_bind {X Y} (p : M Heap X) q (f : X → M Heap Y) g :
  follows hd p q → (∀ x, follows hd (f x) (g x)) → follows hd (p ≫= f) (q ≫= g).
Proof.
  intros Hp Hf D A F m h y h' Hb (x & h1 & E1 & E2)%bind_inv. destruct (Hp _ _ _ _ _ _ _ Hb E1) as (A1 & F1 & m1 & Eq & Hb1 & G1).
  destruct (Hf _ _ _ _ _ _ _ _ Hb1 E2) as (A2 & F2 & m2 & Eq2 & Hb2 & G2). exists A2, F2, m2. rewrite (M_step _ _ _ _ _ Eq).
  split; [done|]. split; [done|]. by eapply gives_back_trans.
Qed.

(** The fields of the machine's heap. *)
Lemma size_u32 F : shape hd F → u32 (f_end F - f_start F) = f_end F - f_start F.
Proof. intros [(? & ? & _ & ?) _ ? ?]. apply u32_small. split; [lia|]. dlia. Qed.

Lemma machine_fields (F : fields) (m : machine pmm) : start_of hd (F, m) = f_start F ∧ end_of hd (F, m) = f_end F ∧ max_of hd (F, m) = f_max F.
Proof. done. Qed.

(** Giving pages back: the model returns only when their number does not wrap. *)
Lemma follows_contract n : 0 ≤ n → follows hd (contract_unlocked hd n) (contract_unlocked hd n).
Proof.
  intros Hn D A F m h x h' Hb E. pose proof (b_shape _ _ _ _ _ _ Hb) as Hsh. destruct (b_fields _ _ _ _ _ _ Hb) as (Hs & He & _).
  unfold contract_unlocked in E |- *. rewrite !gets_step in E. rewrite !gets_step. cbn [start_of end_of heap_mem backed_mem fst snd] in E |- *.
  rewrite Hs, He, (size_u32 F) in E by done. rewrite (size_u32 F) by done.
  destruct (Z.ltb_spec n (f_end F - f_start F)) as [Hlt|]; [|done]. rewrite assert_step in E by done. rewrite assert_step by done.
  set (N := if align_heap_size n <? HEAP_MIN_SIZE then HEAP_MIN_SIZE else align_heap_size n) in *. cbv zeta in E |- *.
  rewrite modify_step in E. rewrite modify_step. cbn [put_end heap_mem backed_mem fst snd] in E |- *.
  destruct (contract_sizes hd F n Hsh ltac:(lia)) as (Eu & HN & H4 & Hw). fold N in Eu, HN, H4, Hw. set (e := f_start F + N) in *.
  rewrite Eu in E |- *. cbn [unmap_backing heap_mem backed_mem fst snd] in E |- *. unfold mbind at 1, M_bind in E. cbn in E.
  destruct (Z.eqb_spec (u32 (f_end F - e)) 0) as [Ez|Ez].
  { destruct (Hw (or_introl Ez)) as [Hle Ed]. injection E as <- <-. exists A, F, m. assert (e = f_end F) as -> by lia.
    split; [by destruct F|]. split; [|apply gives_back_refl]. destruct F as [s e' x' p], h as [s' e'' x'' p' mm]. cbn in *. by subst. }
  destruct (Z.leb_spec (2 ^ 32) (e + u32 (f_end F - e))) as [|Hlt2]; [done|]. injection E as <- <-.
  destruct (Hw (or_intror Hlt2)) as [Hle Ed]. rewrite Ed.
  unfold mbind at 1, M_bind. cbn [fst snd]. unfold unmap_heap_backing.
  destruct (virt_to_phys_ok m D A e (b_wf _ _ _ _ _ _ Hb)) as (t & -> & Hwf).
  { change HEAP_MIN_SIZE with 1048576 in *. destruct Hsh as [(? & ? & _ & ?) _ ? ?]. dlia. }
  cbn [mbind res_bind]. pose proof (backs_tlb _ _ _ _ _ _ t Hb Hwf) as Hb1.
  destruct (unmap_backed _ _ _ _ _ _ e Hb1 H4 ltac:(lia)) as (m' & A' & E2 & Hb2 & G2).
  change (_ / PAGE_SIZE) with ((f_end F - e) / 4096). rewrite E2. by exists A', (set_end e F), m'.
Qed.
End memory.

Section release.
Context (hd : Z).

Lemma follows_trim b s : follows hd (trim hd b s) (trim hd b s).
Proof.
  unfold trim. apply follows_bind; [by apply steady_follows, steady_start|intros st]. apply follows_bind; [by apply steady_follows, steady_end|intros e].
  destruct (chunk_plus_offset b s =? e); [|apply steady_follows; follow]. cbv zeta. apply follows_bind.
  - apply follows_contract. destruct (negb _); apply u32_range.
  - intros n. apply steady_follows. follow.
Qed.

Lemma follows_free fuel p : follows hd (free_unlocked hd fuel p) (free_unlocked hd fuel p).
Proof.
  unfold free_unlocked, corrupt. destruct (p =? 0); [apply steady_follows; follow|]. cbv zeta.
  apply follows_bind; [apply steady_follows; follow|intros s]. apply follows_bind; [apply steady_follows; follow|intros ok].
  destruct (negb ok); [apply steady_follows; follow|]. apply follows_bind; [apply steady_follows; follow|intros iu].
  destruct (negb iu); [apply steady_follows; follow|]. apply follows_bind; [apply steady_follows; follow|intros [b s1]].
  apply follows_bind; [apply steady_follows; follow|intros s2]. apply follows_bind; [apply follows_trim|intros [b' s3]].
  apply steady_follows. follow.
Qed.

Lemma follows_cut fuel c cs nb : follows hd (cut_remainder hd fuel c cs nb) (cut_remainder hd fuel c cs nb).
Proof.
  unfold cut_remainder. destruct (_ <? _); [|apply steady_follows; follow]. cbv zeta.
  do 2 (apply follows_bind; [apply steady_follows; follow|intros ?]). apply follows_free.
Qed.
End release.

(** *** Growing *)

Abbreviation new_pages_of junk := (Heap.map_heap_backing junk (λ _ _, true)).

(** [q] grows the heap to [n] bytes as [p] does, for the bytes that the new pages happen to have,
    and maps nothing behind; or a frame for a page table is missing. *)
Definition grows_to (hd D : Z) (A : gset Z) (F : fields) (m : machine pmm) (h : Heap) (n : Z) {X} (p : ram → M Heap X) (q : M state X) : Prop :=
  (q (F, m) = Panic out_of_frames ∧ short A F n)
  ∨ ∃ junk, ∀ x h', p junk h = Ok (x, h') →
      ∃ A' m', q (F, m) = Ok (x, (set_end (grown_to F n) F, m')) ∧ backs hd D A' (set_end (grown_to F n) F) m' h'
        ∧ ∀ q, grown_to F n / 4096 ≤ q < 0xFFC00 → page_of (Vmm.mem m') D q = page_of (Vmm.mem m) D q.

(** The heap may grow to [n] bytes, and there are frames for the new pages. *)
Record can_grow (A : gset Z) (F : fields) (n : Z) : Prop := {
  cg_more : f_end F - f_start F < n;
  cg_fits : f_start F + n + 4096 ≤ 2 ^ 32;
  cg_max : grown_to F n ≤ f_max F;
  cg_run : has_run A F n
}.

Section growing.
Context (hd D : Z) (A : gset Z) (F : fields) (m : machine pmm) (h : Heap).
Hypothesis Hb : backs hd D A F m h.

Lemma expand_grows n : can_grow A F n → grows_to hd D A F m h n (λ j, expand_unlocked hd (new_pages_of j) n) (expand_unlocked hd map_new n).
Proof using Hb.
  intros [Hlt Hm Hmax Hrun]. pose proof (b_shape _ _ _ _ _ _ Hb) as Hsh. destruct (b_fields _ _ _ _ _ _ Hb) as (Hs & He & Hx).
  destruct (grow_sizes hd F n Hsh Hlt Hm) as (H0 & Hgt & H4 & Hpg & Eu1 & H32).
  assert (∀ j, expand_unlocked hd (new_pages_of j) n h = (_ ← modify (with_end (grown_to F n)); new_pages_of j (f_end F) (grown_to F n - f_end F)) h) as Eh.
  { intros j. unfold expand_unlocked. rewrite !gets_step. fields. rewrite Hs, He, Hx, (size_u32 hd F), Eu1 by done.
    rewrite !assert_step by (by apply Z.ltb_lt || by apply Z.leb_le). by rewrite (u32_small (grown_to F n - f_end F)) by (destruct Hsh; lia). }
  assert (expand_unlocked hd map_new n (F, m) = map_new (f_end F) (grown_to F n - f_end F) (set_end (grown_to F n) F, m)) as Eq.
  { unfold expand_unlocked. rewrite !gets_step. cbn [start_of end_of max_of backed_mem fst]. rewrite (size_u32 hd F), Eu1 by done.
    rewrite !assert_step, modify_step by (by apply Z.ltb_lt || by apply Z.leb_le). cbn [put_end backed_mem fst snd].
    by rewrite (u32_small (grown_to F n - f_end F)) by (destruct Hsh; lia). }
  unfold grows_to. rewrite Eq. unfold map_new. cbn [fst snd f_perms set_end].
  destruct (map_backed hd D A F m h n Hb Hlt Hm Hmax Hrun) as [[-> Hsho]|(m' & A' & -> & Hb' & Hout)]; [by left|right].
  exists (λ a, Vmm.mem m' (phys (Vmm.mem m') D a)). intros x h' E. exists A', m'. rewrite Eh, modify_step in E.
  unfold Heap.map_heap_backing in E. rewrite (proj2 (Z.eqb_neq _ _)) in E by lia. injection E as <- <-.
  split; [done|]. split; [|done]. by replace (f_end F + (grown_to F n - f_end F)) with (grown_to F n) by lia.
Qed.

Lemma grow_grows fuel nb n : u32 (u32 (f_end F - f_start F) + nb) = n → can_grow A F n →
  grows_to hd D A F m h n (λ j, grow hd (new_pages_of j) fuel nb) (grow hd map_new fuel nb).
Proof using Hb.
  intros En Hc. destruct (b_fields _ _ _ _ _ _ Hb) as (Hs & He & _). unfold grows_to, grow. setoid_rewrite gets_step. setoid_rewrite gets_step.
  change (start_of hd h) with (startAddr h). change (end_of hd h) with (endAddr h). rewrite Hs, He.
  change (start_of hd (F, m)) with (f_start F). change (end_of hd (F, m)) with (f_end F). rewrite En.
  destruct (expand_grows n Hc) as [[E Hsho]|[junk Hj]]; [left|right].
  - split; [|done]. unfold mbind at 1, M_bind. by rewrite E.
  - exists junk. intros x h' (u & h1 & E1 & E2)%bind_inv. destruct (Hj _ _ E1) as (A1 & m1 & Eq & Hb1 & Hout). rewrite (M_step _ _ _ _ _ Eq).
    eapply steady_ok in E2 as (m2 & Eq2 & Hb2 & Hs2); [|shelve|exact Hb1].
    exists A1, m2. split; [exact Eq2|]. split; [done|]. intros q Hq. rewrite Hs2; [by apply Hout|].
    destruct (b_shape _ _ _ _ _ _ Hb1) as [(? & ? & _ & ?) (? & ? & _) ? ?]. cbn in *. dlia.
    Unshelve. follow.
Qed.
End growing.

Lemma follows_align hd fuel nb p : follows hd (align_block hd fuel nb p) (align_block hd fuel nb p).
Proof.
  unfold align_block. apply follows_bind; [apply steady_follows; follow|intros c]. apply follows_bind; [apply steady_follows; follow|intros cs].
  apply follows_bind; [apply follows_cut|intros _]. apply steady_follows. follow.
Qed.

(** A request that a hole serves. *)
Lemma alloc_from_hole hd P Q D A F m h fuel size n hole h1 : backs hd D A F m h →
  findSmallestChunk hd fuel (request2size size) h = Ok (hole, h1) → hole ≠ 0 →
  agrees hd D A F m (alloc_unlocked hd P (S n) fuel size h) (alloc_unlocked hd Q (S n) fuel size (F, m)).
Proof.
  intros Hb E Hne. destruct (steady_ok hd _ _ _ _ _ _ _ _ _ (steady_find hd fuel (request2size size)) Hb E) as (m1 & Eq & Hb1 & Hs1).
  cbn [alloc_unlocked]. rewrite (M_step _ _ _ _ _ E), (M_step _ _ _ _ _ Eq), (proj2 (Z.eqb_neq _ _) Hne).
  eapply agrees_same; [exact Hs1|]. by apply steady_carve.
Qed.

(** A request that no hole serves stops where growing stops. *)
Lemma alloc_stops hd Q D A F m h fuel size n h1 t : backs hd D A F m h →
  findSmallestChunk hd fuel (request2size size) h = Ok (0, h1) →
  (∀ m1, backs hd D A F m1 h1 → grow hd Q fuel (request2size size) (F, m1) = Panic t) →
  alloc_unlocked hd Q (S n) fuel size (F, m) = Panic t.
Proof.
  intros Hb E Hg. destruct (steady_ok hd _ _ _ _ _ _ _ _ _ (steady_find hd fuel (request2size size)) Hb E) as (m1 & Eq & Hb1 & _).
  cbn [alloc_unlocked]. rewrite (M_step _ _ _ _ _ Eq). cbn [Z.eqb]. unfold mbind, M_bind. by rewrite (Hg m1 Hb1).
Qed.
