(* ===== verification/KernelHeap.v ===== *)
(** The kernel heap on page tables and frames: its contracts.

    [Heap.v] is run by the machine of [Backing.v]. What [HeapSpec.v] and [HeapAlign.v] say of
    the model holds there, with the frame allocator's answer in place of a parameter: the
    constructor, [alloc], [palignedAlloc] and [free] of a heap whose bytes, seen through the page
    tables, satisfy the invariant. *)
From S2P Require Import Prelude Bitmap Memory Layout CList Pmm Vmm Heap HeapInv HeapSpec HeapAlign Backing.

Section kernel_heap.
Context (hd D : Z) (A : gset Z) (F : fields) (m : machine pmm) (h : Heap) (cs fl : list chunk).
Hypothesis Hb : backs hd D A F m h.
Hypothesis Hrep : heap_rep hd h cs fl.

Lemma rep_low : hd + 8 ≤ startAddr h.
Proof using Hb.
  destruct (b_fields _ _ _ _ _ _ Hb) as (-> & _ & _). destruct (b_shape _ _ _ _ _ _ Hb) as [(? & ? & _ & ?) _ _ _]. dlia.
Qed.

(** The end of the heap after growing by [nb] bytes, in both models. *)
Lemma grown_same nb : 16 ≤ nb ≤ 2 ^ 30 →
  let n := f_end F - f_start F + nb in
  u32 (u32 (f_end F - f_start F) + nb) = n ∧ grown_to F n = grown_end h nb ∧ f_start F + n + 4096 ≤ 2 ^ 32 ∧ f_end F < grown_end h nb
  ∧ grown_end h nb < 2 ^ 32.
Proof using Hb Hrep.
  intros Hnb n. destruct (b_fields _ _ _ _ _ _ Hb) as (Hs & He & _). pose proof (hr_bounds _ _ _ _ Hrep) as Hbd.
  destruct (grown_bounds hd h cs fl nb Hrep Hnb) as [Hg _]. rewrite Hs, He in Hbd. rewrite He in Hg. change HEAP_MIN_SIZE with 1048576 in Hbd.
  rewrite (size_u32 hd F (b_shape _ _ _ _ _ _ Hb)). split_and!; [apply u32_small; lia| |lia|lia|unfold grown_end; rewrite Hs, He; clear - Hbd Hnb; dlia].
  unfold grown_to, grown_end, align_heap_size, n. rewrite Hs, He, align_up_page by lia. done.
Qed.

(** Growing that fails: behind the region of the heap, or without frames. *)
Lemma kernel_grow_stops fuel nb : 16 ≤ nb ≤ 2 ^ 30 →
  (f_max F < grown_end h nb → grow hd map_new fuel nb (F, m) = Panic "this->startAddr + newSize <= this->maxAddr")
  ∧ (grown_end h nb ≤ f_max F → let k := (grown_end h nb - f_end F) / 4096 in
     (∀ f, 0 ≤ f → f + k ≤ 2 ^ 20 → ¬ run f k ## A) → grow hd map_new fuel nb (F, m) = Panic "alloc_units: out of memory").
Proof using Hb Hrep.
  intros Hnb. destruct (grown_same nb Hnb) as (En & Eg & Hm & Hgt & Hg32). set (n := f_end F - f_start F + nb) in *.
  pose proof (b_shape _ _ _ _ _ _ Hb) as Hsh. destruct (grow_sizes hd F n Hsh ltac:(lia) Hm) as (H0 & _ & H4 & Hpg & Eu & _). rewrite Eg in *.
  assert (∀ t, expand_unlocked hd map_new n (F, m) = Panic t → grow hd map_new fuel nb (F, m) = Panic t) as Hstop.
  { intros t E. unfold grow. rewrite !gets_step. change (start_of hd (F, m)) with (f_start F). change (end_of hd (F, m)) with (f_end F).
    rewrite En. unfold mbind at 1, M_bind. by rewrite E. }
  assert (expand_unlocked hd map_new n (F, m) = (_ ← assert_ (grown_end h nb <=? f_max F) "this->startAddr + newSize <= this->maxAddr";
    _ ← modify (put_end hd (grown_end h nb)); map_new (f_end F) (grown_end h nb - f_end F)) (F, m)) as Ex.
  { unfold expand_unlocked. rewrite !gets_step. cbn [start_of end_of max_of backed_mem fst]. rewrite (size_u32 hd F Hsh), Eu.
    rewrite assert_step by (apply Z.ltb_lt; lia). by rewrite u32_small by (destruct Hsh; lia). }
  rewrite Ex in Hstop. split.
  - intros Hx. apply Hstop. by rewrite (proj2 (Z.leb_gt _ _) Hx).
  - intros Hx k Hno. apply Hstop. rewrite assert_step by (by apply Z.leb_le). rewrite modify_step. unfold map_new, map_heap_backing.
    rewrite (proj2 (Z.eqb_neq _ _)) by lia. change ((grown_end h nb - f_end F) / PAGE_SIZE) with k. cbn [put_end backed_mem fst snd].
    rewrite (alloc_frames_none _ A); [done|apply (b_wf _ _ _ _ _ _ Hb)|rewrite MAX_FRAMES_eq|by rewrite MAX_FRAMES_eq].
    pose proof (b_shape _ _ _ _ _ _ Hb) as [(? & ? & _ & ?) (? & ? & ?) ? ?]. unfold new_pages in Hpg. rewrite Eg in Hpg. unfold k. dlia.
Qed.

End kernel_heap.

(** The block at [p] that serves a request of [nb] bytes: the machine's heap [F'], [m'] has it, with
    the end at [e]. *)
Definition block_at (hd D : Z) (h : Heap) (cs : list chunk) (nb p e : Z) (r : res (Z * state)) : Prop :=
  ∃ A' F' m' h' pre s post fl', r = Ok (p + 8, (F', m')) ∧ backs hd D A' F' m' h'
    ∧ served hd h cs nb p h' pre s post fl' ∧ snug pre post ∧ f_end F' = e.

(** ** Construction *)

Section construct.
Context (hd D : Z) (A : gset Z) (start max p : Z) (m : machine pmm) (mm : ram).

(** Before its first page is mapped: only the page of the list head is backed. *)
Definition no_heap : fields := Fields start start max p.
Definition empty_heap : Heap := MkHeap start start max p mm.
Hypothesis Hb : backs hd D A no_heap m empty_heap.

Lemma store_fields F F' a v x m1 m2 : store hd a v (F, m1) = Ok (x, (F, m2)) → store hd a v (F', m1) = Ok (x, (F', m2)).
Proof using. cbn [store backed_mem fst snd]. destruct (store_word a v m1); cbn [mbind res_bind]; [|done..]. by intros [= <- <-]. Qed.

(** The list head is set up before the pages are there. *)
Lemma init_head_backed F : 0 < hd → hd + 8 ≤ 2 ^ 32 →
  ∃ m1, init_head hd (F, m) = Ok ((), (F, m1)) ∧ backs hd D A no_heap m1 (with_mem (INIT_LIST_HEAD mm hd) empty_heap).
Proof using Hb.
  intros H0 H32. assert (place hd empty_heap hd) as Hp by (by left). pose proof (store_next hd empty_heap mm hd hd Hp) as E1.
  destruct (steady_ok hd _ _ _ _ _ _ _ _ _ (steady_store hd hd hd) Hb E1) as (m1 & Q1 & Hb1 & _).
  destruct (steady_ok hd _ _ _ _ _ _ _ _ _ (steady_store hd (u32 (hd + 4)) hd) Hb1 (store_prev hd empty_heap _ hd hd Hp)) as (m2 & Q2 & Hb2 & _).
  exists m2. split; [|exact Hb2]. unfold init_head. rewrite (M_step _ _ _ _ _ (store_fields _ F _ _ _ _ _ Q1)).
  by apply (store_fields no_heap).
Qed.

Lemma construct_backed F size : bytes_ok mm → 0 < start → HEAP_MIN_SIZE ≤ size → size mod PAGE_SIZE = 0 →
  start + size ≤ max → max < 2 ^ 31 → 0 < hd → room A no_heap size →
  ∃ A' m' h', construct hd map_new start size max p (F, m) = Ok ((), (Fields start (start + size) max p, m'))
    ∧ backs hd D A' (Fields start (start + size) max p) m' h' ∧ heap_rep hd h' [Chunk start size false] [Chunk start size false].
Proof using Hb.
  intros Hby Hs0 Hsz Hsp Hmx Hm31 Hhd Hroom. change HEAP_MIN_SIZE with 1048576 in Hsz. unfold PAGE_SIZE in Hsp.
  destruct (b_shape _ _ _ _ _ _ Hb) as [(? & ? & _ & Hlow) (Hst & _ & Hmx4) _ _]. cbn [no_heap f_start f_end f_max] in *.
  assert (align_heap_size size = size) as Ea by (unfold align_heap_size; rewrite align_up_page by lia; dlia).
  assert (grown_to no_heap size = start + size) as Eg by (unfold grown_to; by rewrite Ea).
  assert (u32 (start + size) = start + size ∧ (start + size) mod 4096 = 0) as [Eu He] by (split; [apply u32_small; lia|dlia]).
  destruct (init_head_backed (Fields start (start + size) max p) Hhd ltac:(dlia)) as (m1 & Eh & Hb1).
  destruct Hroom as [Hrun Henough].
  destruct (map_backed hd D A no_heap m1 _ size Hb1) as [[_ Hsho]|(m2 & A' & Em & Hb2 & _)]; [cbn; lia|cbn; lia|by rewrite Eg|done|unfold short in Hsho; lia|].
  unfold grown in Hb2. rewrite Eg in Em, Hb2. set (junk := λ a, Vmm.mem m2 (phys (Vmm.mem m2) D a)).
  set (h0 := MkHeap 0 0 0 0 mm).
  destruct (construct_ok hd junk (λ _ _, true) start size max p h0) as (h' & Er & Hrep & _); try done; [dlia|].
  unfold construct in Er |- *. cbv zeta in Er |- *. change PAGE_SIZE with 4096 in Er |- *. rewrite Ea, Eu, Hst, He in Er. rewrite Ea, Eu, Hst, He.
  rewrite !assert_step, modify_step in Er by done. rewrite !assert_step, modify_step by done. cbn [set_fields heap_mem backed_mem fst snd] in Er |- *.
  rewrite (M_step _ _ _ _ _ (init_head_ok hd _ Hhd ltac:(dlia))) in Er. rewrite (M_step _ _ _ _ _ Eh).
  set (F1 := Fields start (start + size) max p) in *.
  assert (map_new start size (F1, m1) = Ok ((), (F1, m2))) as Emap.
  { unfold map_new. cbn [fst snd F1 f_perms]. cbn [f_end f_perms no_heap] in Em. replace (start + size - start) with size in Em by lia. by rewrite Em. }
  rewrite (M_step _ _ _ _ _ Emap).
  assert (∀ hx, new_pages_of junk start size hx = Ok ((), with_mem (λ a, if (start <=? a) && (a <? start + size) then u8 (junk a) else Heap.mem hx a) hx)) as Enew.
  { intros hx. unfold Heap.map_heap_backing. by rewrite (proj2 (Z.eqb_neq size 0)) by lia. }
  rewrite (M_step _ _ _ _ _ (Enew _)) in Er.
  assert (steady hd (_ ← set_prevFoot hd start 0; _ ← set_size_and_pinuse hd start size; insertChunk hd 2 start)
    (_ ← set_prevFoot hd start 0; _ ← set_size_and_pinuse hd start size; insertChunk hd 2 start)) as Hst2 by follow.
  destruct (steady_ok hd _ _ _ _ _ _ _ _ _ Hst2 Hb2 Er) as (m3 & Eq & Hb3 & _). exists A', m3, h'. done.
Qed.
End construct.

(** The heap's bytes as the page tables show them. *)
Definition seen (D : Z) (m : machine pmm) : ram := λ a, Vmm.mem m (phys (Vmm.mem m) D a).

Lemma seen_bytes D A m : wf m D A → bytes_ok (seen D m).
Proof. intros Hwf a. apply (view_bytes _ _ _ _ (wf_view _ _ _ Hwf)). Qed.

Lemma no_heap_backed hd D A start max p m f : wf m D A → shape hd (no_heap start max p) →
  page_of (Vmm.mem m) D (hd / 4096) = Some f → data_frame (Vmm.mem m) D A f →
  (∀ q, start / 4096 ≤ q < max / 4096 → page_of (Vmm.mem m) D q = None) →
  backs hd D A (no_heap start max p) m (empty_heap start max p (seen D m)).
Proof.
  intros Hwf Hs Hf Hd Hno. assert (∀ q, heap_page hd (no_heap start max p) q → q = hd / 4096) as Honly by (intros q [Hq|]; cbn in *; lia).
  split; try done.
  - intros q ->%Honly. by exists f.
  - by intros q r g ->%Honly ->%Honly.
Qed.

Lemma request_bounds size : 0 ≤ size ≤ 2 ^ 29 → request2size size mod 8 = 0 ∧ 16 ≤ request2size size ≤ 2 ^ 30.
Proof. intros Hsz. destruct (request2size_ok size ltac:(lia)) as (? & ? & ?). split; [done|lia]. Qed.

(** A request served from a hole, and one served by growing. *)
Section serve.
Context (hd D : Z) (A : gset Z) (F : fields) (m : machine pmm) (h : Heap) (cs fl : list chunk) (fuel : nat) (size : Z).
Hypothesis Hb : backs hd D A F m h.
Hypothesis Hrep : heap_rep hd h cs fl.
Hypothesis Hfu : (S (length fl) < fuel)%nat.
Hypothesis Hsz : 0 ≤ size ≤ 2 ^ 29.
Abbreviation nb := (request2size size).
Abbreviation r := (alloc hd map_new fuel size (F, m)).

Lemma serve_from_hole c t : fitting nb fl = c :: t → best_fit nb cs c
  ∧ if decide (tight cs c nb) then unmapped_at D m (f_end F + 4) → r = Fault (f_end F + 4)
    else block_at hd D h cs nb (addr c) (f_end F) r.
Proof using Hb Hrep Hfu Hsz.
  intros E. destruct (request_bounds size Hsz) as [H8 Hnb]. destruct (b_fields _ _ _ _ _ _ Hb) as (Hs & He & Hx).
  pose proof (find_ok _ _ _ _ Hrep nb fuel ltac:(lia)) as Ef. rewrite E in Ef.
  destruct (fitting_best hd h cs fl size Hrep c t E) as [Hbest Hin]. split; [done|].
  assert (addr c ≠ 0) as Hne by (pose proof (rep_chunk _ _ _ _ Hrep c (proj1 Hbest)); pose proof (hr_bounds _ _ _ _ Hrep); lia).
  pose proof (alloc_from_hole hd (new_pages_of (λ _, 0)) map_new _ _ _ _ _ _ _ 1 _ _ Hb Ef Hne) as Hag.
  pose proof (alloc_hole hd (λ _, 0) (λ _ _, true) h cs fl fuel size Hrep (rep_low _ _ _ _ _ _ Hb) ltac:(lia) 1 c t H8 (proj1 Hnb) E) as Hr.
  destruct (decide _); [|destruct Hr as (h' & pre & s & post & fl' & Er & Hsv & Hsn & Hend)].
  - rewrite Hr in Hag. cbn [agrees] in Hag. by rewrite He in Hag.
  - rewrite Er in Hag. destruct Hag as (m' & Eq & Hb' & _). by exists A, F, m', h', pre, s, post, fl'.
Qed.

(** The last hole after growing leaves a remainder. *)
Definition room_left : Prop := nb + MIN_CHUNK_SIZE ≤ tail_hole cs + 4096 * ((grown_end h nb - f_end F) / 4096).
#[local] Instance room_left_dec : Decision room_left := Z_le_dec _ _.

(** After growing, a hole serves the request. *)
Lemma grown_hole junk : fitting nb fl = [] → grown_end h nb ≤ maxAddr h →
  ∃ h1 hole, grow hd (new_pages_of junk) fuel nb h = Ok ((), h1) ∧ findSmallestChunk hd fuel nb h1 = Ok (hole, h1) ∧ hole ≠ 0
    ∧ alloc_unlocked hd (new_pages_of junk) 1 fuel size h1 = alloc_unlocked hd (new_pages_of junk) 2 fuel size h.
Proof using Hrep Hfu Hsz.
  intros E Hmx. destruct (request_bounds size Hsz) as [H8 Hnb]. destruct (grown_bounds hd h cs fl nb Hrep Hnb) as [Hg _].
  destruct (grow_ok hd junk (λ _ _, true) h cs fl nb Hrep Hnb Hmx eq_refl fuel ltac:(lia)) as (h1 & pre & p & fl1 & Hr & [Gr Gl Gs Ge Gd _] & Hpf & Hps & _).
  exists h1. pose proof (find_ok _ _ _ _ Gr nb fuel ltac:(lia)) as Ef. destruct (fitting nb fl1) as [|c t] eqn:E1.
  { exfalso. assert (0 ≤ tail_hole cs) as Hth.
    { unfold tail_hole. destruct (last cs) as [c|] eqn:El; [|lia]. destruct (used c); [lia|].
      destruct (rep_chunk _ _ _ _ Hrep c) as (_ & ? & _); [by apply last_Some_elem_of|lia]. }
    enough (csz p < nb) by lia. apply (fitting_nil _ _ E1). rewrite (hr_free _ _ _ _ Gr). apply elem_of_frees. split; [done|].
    apply elem_of_app. right. by left. }
  exists (addr c). split; [done|]. split; [done|]. split.
  - destruct (fitting_best hd h1 _ fl1 size Gr c t E1) as [(Hc & _) _]. pose proof (rep_chunk _ _ _ _ Gr c Hc). pose proof (hr_bounds _ _ _ _ Gr). lia.
  - cbn [alloc_unlocked]. mrun (find_ok _ _ _ _ Hrep nb fuel ltac:(lia)). rewrite E. cbn [Z.eqb]. by mrun Hr.
Qed.

(** With frames for the new pages: the request is served, faults behind the new end, or stops
    where a frame for a page table is missing. *)
Lemma serve_by_growing : fitting nb fl = [] → grown_end h nb ≤ f_max F → has_run A F (f_end F - f_start F + nb) →
  (r = Panic out_of_frames ∧ short A F (f_end F - f_start F + nb))
  ∨ if decide room_left then ∃ p, block_at hd D h cs nb p (grown_end h nb) r
    else unmapped_at D m (grown_end h nb + 4) → r = Fault (grown_end h nb + 4).
Proof using Hb Hrep Hfu Hsz.
  intros E Hmx Hrun. destruct (request_bounds size Hsz) as [H8 Hnb]. destruct (b_fields _ _ _ _ _ _ Hb) as (Hs & He & Hx).
  destruct (grown_same _ _ _ _ _ _ _ _ Hb Hrep nb Hnb) as (En & Eg & Hm & Hgt & Hg32).
  pose proof (find_ok _ _ _ _ Hrep nb fuel ltac:(lia)) as Ef. rewrite E in Ef.
  destruct (steady_ok hd _ _ _ _ _ _ _ _ _ (steady_find hd fuel nb) Hb Ef) as (m1 & Eq & Hb1 & Hs1).
  assert (r = (_ ← grow hd map_new fuel nb; alloc_unlocked hd map_new 1 fuel size) (F, m1)) as ->
    by (unfold alloc; cbn [alloc_unlocked]; by rewrite (M_step _ _ _ _ _ Eq)).
  destruct (grow_grows hd D A F m1 h Hb1 fuel nb _ En) as [[Eo Hsho]|[junk Hj]];
    [split; [lia|done|by rewrite Eg|done]|left; split; [|done]; unfold mbind, M_bind; by rewrite Eo|right].
  assert (grown_end h nb ≤ maxAddr h) as Hmx' by lia.
  destruct (grown_hole junk E Hmx') as (h1 & hole & Er1 & Ef1 & Hne & Ealloc).
  destruct (Hj _ _ Er1) as (A2 & m2 & Eq2 & Hb2 & Hout). rewrite (M_step _ _ _ _ _ Eq2). rewrite Eg in Hb2, Hout |- *.
  pose proof (alloc_from_hole hd (new_pages_of junk) map_new _ _ _ _ _ _ size 0 _ _ Hb2 Ef1 Hne) as Hag. rewrite Ealloc in Hag.
  pose proof (alloc_grown hd junk (λ _ _, true) h cs fl fuel size 0 Hrep (rep_low _ _ _ _ _ _ Hb) H8 Hnb E Hfu Hmx' eq_refl) as Ha.
  assert (4096 * ((grown_end h nb - f_end F) / 4096) = grown_end h nb - endAddr h) as Ek.
  { rewrite He. rewrite <- Eg. destruct (grow_sizes hd F (f_end F - f_start F + nb) (b_shape _ _ _ _ _ _ Hb) ltac:(lia) Hm) as (_ & _ & _ & H4 & _). exact H4. }
  cbv zeta in Ha. assert (room_left ↔ nb + MIN_CHUNK_SIZE ≤ tail_hole cs + (grown_end h nb - endAddr h)) as Hiff by (unfold room_left; by rewrite Ek).
  destruct (Z.ltb_spec (tail_hole cs + (grown_end h nb - endAddr h)) (nb + MIN_CHUNK_SIZE)).
  - rewrite decide_False by (rewrite Hiff; lia). rewrite Ha in Hag. cbn [agrees] in Hag. intros [Hr Hn]. apply Hag. split; [done|].
    rewrite Hout; [rewrite Hs1; [done|dlia]|]. clear - Hr. dlia.
  - rewrite decide_True by (rewrite Hiff; lia). destruct Ha as (p & h' & pre & s & post & fl' & Er & Hsv & Hsn & Hend). rewrite Er in Hag.
    destruct Hag as (m3 & Eq3 & Hb3 & _). exists p, A2, (set_end (grown_end h nb) F), m3, h', pre, s, post, fl'. done.
Qed.

Lemma serve_stops t : fitting nb fl = [] →
  (∀ m1, backs hd D A F m1 h → grow hd map_new fuel nb (F, m1) = Panic t) → r = Panic t.
Proof using Hb Hrep Hfu.
  intros E Hg. pose proof (find_ok _ _ _ _ Hrep nb fuel ltac:(lia)) as Ef. rewrite E in Ef.
  eapply alloc_stops; [exact Hb|exact Ef|exact Hg].
Qed.

(** The heap can serve the request: a hole that is large enough, or room to grow. *)
Definition available : Prop :=
  match fitting nb fl with
  | c :: _ => ¬ tight cs c nb
  | [] => grown_end h nb ≤ f_max F ∧ room A F (f_end F - f_start F + nb) ∧ room_left
  end.

Lemma serve_available : available → ∃ p e, block_at hd D h cs nb p e r ∧ endAddr h ≤ e ≤ grown_end h nb.
Proof using Hb Hrep Hfu Hsz.
  destruct (grown_same _ _ _ _ _ _ _ _ Hb Hrep nb (proj2 (request_bounds size Hsz))) as (_ & _ & _ & Hgt & _).
  destruct (b_fields _ _ _ _ _ _ Hb) as (_ & He & _). unfold available. destruct (fitting nb fl) as [|c t] eqn:E.
  - intros (H1 & [H2 H4] & H3). destruct (serve_by_growing E H1 H2) as [[_ Hsho]|Hp]; [unfold short in Hsho; lia|].
    rewrite decide_True in Hp by done. destruct Hp as [p Hp]. exists p, (grown_end h nb). split; [done|lia].
  - intros Hn. destruct (serve_from_hole c t E) as [_ Hp]. rewrite decide_False in Hp by done. exists (addr c), (f_end F). split; [done|lia].
Qed.
End serve.

(** Two more frames in use leave one of three runs free. *)
Lemma run_left (A B : gset Z) f : A ⊆ B → (size B ≤ 2 + size A)%nat → (∀ g, f ≤ g < f + 768 → g ∉ A) →
  ∃ i, 0 ≤ i < 3 ∧ run (f + 256 * i) 256 ## B.
Proof.
  intros Hsub Hsz Hfree. destruct (decide (run (f + 256 * 0) 256 ## B)) as [|H0]; [by exists 0|].
  destruct (decide (run (f + 256 * 1) 256 ## B)) as [|H1]; [by exists 1|].
  destruct (decide (run (f + 256 * 2) 256 ## B)) as [|H2]; [by exists 2|]. exfalso.
  assert (∀ i, ¬ run (f + 256 * i) 256 ## B → ∃ x, f + 256 * i ≤ x < f + 256 * i + 256 ∧ x ∈ B) as Hx.
  { intros i Hi. destruct (set_choose_or_empty (run (f + 256 * i) 256 ∩ B)) as [[x [Hx%elem_of_run HxB]%elem_of_intersection]|He]; [by exists x|].
    destruct Hi. intros x Hx HxB. apply (elem_of_empty (C:=gset Z) x). rewrite <- He. by apply elem_of_intersection. }
  destruct (Hx 0 H0) as (x & Hx0 & HxB), (Hx 1 H1) as (y & Hy0 & HyB), (Hx 2 H2) as (z & Hz0 & HzB).
  assert ((x ∉ A) ∧ (y ∉ A) ∧ (z ∉ A)) as (Nx & Ny & Nz) by (split_and!; apply Hfree; lia).
  assert ({[x; y; z]} ∪ A ⊆ B) as Hle%subseteq_size by set_solver.
  rewrite size_union in Hle by set_solver. rewrite !size_union, !size_singleton in Hle by (rewrite ?disjoint_union_l; set_solver by lia). lia.
Qed.

(** A constructed heap on a machine after the start of paging, its list head in the second page. *)
Definition boot_fields : fields :=
  Fields KERNEL_HEAP_BASE (KERNEL_HEAP_BASE + HEAP_MIN_SIZE) (KERNEL_HEAP_BASE + KERNEL_HEAP_SIZE) 3.

Lemma boot_machine : ∃ D A m h, backs 4096 D A boot_fields m h ∧ heap_rep 4096 h [boot_chunk] [boot_chunk].
Proof.
  destruct (first_frames 2) as [s Hs]; [lia|].
  destruct (init_ok (Machine (λ _, 0) 0 false ∅ [] ∅ s 0) (run 0 2)) as (m & D & A & _ & Hwf & Hsub & Hsz & Hid & Hno & _ & _ & Hdf);
    [done|by intros a|exact Hs|apply elem_of_run; lia|vm_compute; congruence|].
  assert (backs 4096 D A (no_heap KERNEL_HEAP_BASE (KERNEL_HEAP_BASE + KERNEL_HEAP_SIZE) 3) m
    (empty_heap KERNEL_HEAP_BASE (KERNEL_HEAP_BASE + KERNEL_HEAP_SIZE) 3 (seen D m))) as Hb.
  { apply (no_heap_backed _ _ _ _ _ _ _ 1); [done| |by apply Hid|apply Hdf; [apply elem_of_run; lia|done]|].
    - split; vm_compute; intuition congruence.
    - intros p Hp. apply Hno. unfold KERNEL_HEAP_BASE, KERNEL_HEAP_SIZE in Hp. dlia. }
  destruct (run_left (run 0 2) A 2 Hsub Hsz) as (i & Hi & Hrun); [intros g Hg Hg'%elem_of_run; lia|].
  destruct (construct_backed 4096 D A _ _ _ m _ Hb (Fields 0 0 0 0) HEAP_MIN_SIZE (seen_bytes _ _ _ Hwf)) as (A' & m2 & h & _ & Hb' & Hrep); try done.
  - unfold room, has_run. assert (new_pages (no_heap KERNEL_HEAP_BASE (KERNEL_HEAP_BASE + KERNEL_HEAP_SIZE) 3) HEAP_MIN_SIZE = 256) as -> by (vm_compute; reflexivity).
    change (size (run 0 2)) with 2%nat in Hsz. split; [|lia]. exists (2 + 256 * i). split_and!; [lia|lia|done].
  - by exists D, A', m2, h.
Qed.

(** C2: [alloc] of the kernel's heap, on page tables and frames, of at most 2^29 bytes. The state
    of the machine stands behind a heap that satisfies the invariant: each page of it is mapped
    to a data frame of its own, and its bytes are those of the model. The smallest hole that is
    large enough serves the request: the new block is aligned and disjoint from all others, the
    invariant holds again and every byte of another block, read through the page tables, is as
    before. If no hole is large enough, the heap grows: behind its region it fails the assertion;
    without a run of free frames for the new pages it panics in the allocator; with them it
    maps the pages, or panics in the allocator where a page table is missing and no frame is left
    for it, which needs less than one free frame for each new page once the run is taken. Then
    the request is served from the new end of the heap. A block that uses up the last hole,
    of the old heap or of the grown one, has its tag written behind the end: a fault, if the page
    there is not mapped, as it is below the limit of the heap. *)
Theorem kernel_alloc_correct hd D A F m h cs fl fuel size :
  backs hd D A F m h → heap_rep hd h cs fl → (S (length fl) < fuel)%nat → 0 ≤ size ≤ 2 ^ 29 →
  let nb := request2size size in
  let r := alloc hd map_new fuel size (F, m) in
  match fitting nb fl with
  | c :: _ => best_fit nb cs c
      ∧ if decide (tight cs c nb) then unmapped_at D m (f_end F + 4) → r = Fault (f_end F + 4)
        else block_at hd D h cs nb (addr c) (f_end F) r
  | [] => let e := grown_end h nb in let k := (e - f_end F) / 4096 in
      (f_max F < e → r = Panic "this->startAddr + newSize <= this->maxAddr")
      ∧ (e ≤ f_max F → (∀ f, 0 ≤ f → f + k ≤ 2 ^ 20 → ¬ run f k ## A) → r = Panic "alloc_units: out of memory")
      ∧ (e ≤ f_max F → (∃ f, 0 ≤ f ∧ f + k ≤ 2 ^ 20 ∧ run f k ## A) →
         (r = Panic "alloc_units: out of memory" ∧ 2 ^ 20 < Z.of_nat (base.size A) + 2 * k)
         ∨ if tail_hole cs + 4096 * k <? nb + MIN_CHUNK_SIZE then unmapped_at D m (e + 4) → r = Fault (e + 4)
           else ∃ p, block_at hd D h cs nb p e r)
  end.
Proof.
  intros Hb Hrep Hfu Hsz nb r. destruct (request_bounds size Hsz) as [H8 Hnb].
  destruct (fitting nb fl) as [|c t] eqn:E; [|by eapply serve_from_hole].
  split_and!; [intros Hmx|intros Hmx Hno|intros Hmx Hrun].
  - eapply (serve_stops hd D A F m h cs fl fuel size); [done..|]. intros m1 Hb1. by apply (kernel_grow_stops _ _ _ _ _ _ _ _ Hb1 Hrep fuel nb Hnb).
  - eapply (serve_stops hd D A F m h cs fl fuel size); [done..|]. intros m1 Hb1. by apply (kernel_grow_stops _ _ _ _ _ _ _ _ Hb1 Hrep fuel nb Hnb).
  - destruct (grown_same _ _ _ _ _ _ _ _ Hb Hrep nb Hnb) as (_ & Eg & _).
    assert (new_pages F (f_end F - f_start F + nb) = (grown_end h nb - f_end F) / 4096) as Ek by (unfold new_pages; by rewrite Eg).
    destruct (serve_by_growing hd D A F m h cs fl fuel size Hb Hrep Hfu Hsz E Hmx) as [[Er Hsho]|Hr]; [unfold has_run; fold nb; by rewrite Ek| |right].
    + left. split; [done|]. unfold short in Hsho. fold nb in Hsho. by rewrite Ek in Hsho.
    + unfold room_left in Hr. fold nb in Hr. case_decide; [rewrite (proj2 (Z.ltb_ge _ _)) by lia|rewrite (proj2 (Z.ltb_lt _ _)) by lia]; exact Hr.
Qed.

Lemma kernel_alloc_correct_witness : ∃ D m h, heap_rep 4096 h [boot_chunk] [boot_chunk]
  ∧ block_at 4096 D h [boot_chunk] 520 KERNEL_HEAP_BASE (KERNEL_HEAP_BASE + HEAP_MIN_SIZE) (alloc 4096 map_new 3 512 (boot_fields, m)).
Proof.
  destruct boot_machine as (D & A & m & h & Hb & Hrep). exists D, m, h. split; [exact Hrep|].
  pose proof (kernel_alloc_correct 4096 D A boot_fields m h _ _ 3 512 Hb Hrep ltac:(simpl; lia) ltac:(lia)) as Hr.
  change (fitting (request2size 512) [boot_chunk]) with [boot_chunk] in Hr. cbv iota beta zeta in Hr. destruct Hr as [_ Hr].
  destruct (decide _) as [[_ Ht]|_] in Hr; [exfalso; revert Ht; by vm_compute|exact Hr].
Defined.


(** [palignedAlloc] of the kernel's heap: the block of [alloc], cut at a page boundary, if the word
    of the new tag, read through the page tables, is even. *)
Lemma kernel_paligned_ok hd D A F m h cs fl fuel size :
  backs hd D A F m h → heap_rep hd h cs fl → 0 ≤ size ≤ 2 ^ 28 →
  let nb := request2size size in
  (grown_end h (nb + 4112) - startAddr h) / 16 + 1 < Z.of_nat fuel → available A F h cs fl (nb + 4108) →
  ∃ p A1 F1 m1 h1, alloc hd map_new fuel (nb + 4108) (F, m) = Ok (p + 8, (F1, m1)) ∧ backs hd D A1 F1 m1 h1
    ∧ let q := aligned_chunk p in
      ((q ≠ p → Z.odd (rd32 (seen D m1) (q + 4)) = false) →
       ∃ A2 F2 m2 h2, palignedAlloc hd map_new fuel size (F, m) = Ok (q + 8, (F2, m2)) ∧ backs hd D A2 F2 m2 h2
         ∧ aligned_block hd h cs nb p q h2).
Proof.
  intros Hb Hrep Hsz nb Hfu Hav. destruct (paligned_request size Hsz) as (Hreq & Er & H8 & H16). fold nb in Hreq, Er, H8, H16.
  pose proof (rep_length _ _ _ _ Hrep) as Hlen. pose proof (hr_bounds _ _ _ _ Hrep) as Hbd. change HEAP_MIN_SIZE with 1048576 in Hbd.
  assert (∀ e, e ≤ grown_end h (nb + 4112) → (e - startAddr h) / 16 + 1 < Z.of_nat fuel) as Hlong by (intros e He; clear - He Hfu; dlia).
  destruct (grown_same _ _ _ _ _ _ _ _ Hb Hrep (nb + 4112) ltac:(lia)) as (_ & _ & _ & Hgt & _). destruct (b_fields _ _ _ _ _ _ Hb) as (_ & He & _).
  destruct (serve_available hd D A F m h cs fl fuel (nb + 4108) Hb Hrep) as (p & e & (A1 & F1 & m1 & h1 & pre & s & post & fl1 & Eq & Hb1 & Hsv & Hsn & Hend) & Hee);
    [pose proof (Hlong (endAddr h) ltac:(lia)); lia|lia|done|]. rewrite Er in Hsv, Hee.
  exists p, A1, F1, m1, h1. split; [done|]. split; [done|]. intros q Hodd.
  destruct (b_fields _ _ _ _ _ _ Hb1) as (_ & He1 & _).
  destruct (cut_place _ _ _ _ _ _ _ (sv_rep _ _ _ _ _ _ _ _ _ _ Hsv)) as (_ & Hs16 & (Hp0 & Hpe) & _).
  destruct (align_block_ok hd h cs nb p h1 pre s post fl1 fuel Hsv Hsn) as (h2 & Hr & Hal); [lia|done|lia|rewrite He1, Hend, (sv_start _ _ _ _ _ _ _ _ _ _ Hsv); apply Hlong; lia| |].
  - intros Hne. rewrite <- (Hodd Hne). f_equal. apply rd32_ext. intros b Hbr. apply (b_mem _ _ _ _ _ _ Hb1). left.
    destruct (aligned_chunk_ok _ _ _ _ _ _ _ (sv_rep _ _ _ _ _ _ _ _ _ _ Hsv)) as (_ & Hq & _). fold q in Hq, Hbr.
    pose proof (sv_size _ _ _ _ _ _ _ _ _ _ Hsv). destruct (b_fields _ _ _ _ _ _ Hb1) as (<- & <- & _). lia.
  - destruct (follows_align hd fuel nb (p + 8) _ _ _ _ _ _ _ Hb1 Hr) as (A2 & F2 & m2 & Eq2 & Hb2 & _).
    exists A2, F2, m2, h2. split; [|done]. unfold palignedAlloc. fold nb. rewrite Hreq, (M_step _ _ _ _ _ Eq).
    by rewrite (proj2 (Z.eqb_neq (p + 8) 0)) by lia.
Qed.

