(* ===== verification/Boot.v ===== *)
(** The start of the memory managers, up to a heap: the calls on memory of [Kernel::init]
    (kernel/src/kernel.cpp), from the boot loader's memory map to a constructed heap. *)
From S2P Require Import Prelude Bitmap Memory Layout CList Pmm Vmm Heap HeapInv HeapSpec HeapAlign Backing KernelHeap.

Definition KERNEL_HEAP_PERMS : Z := Z.lor Flags.Present Flags.Writable.

Section memory_init.
Context (mmap_at : Z → multiboot_mmap_entry) (mod_at : Z → multiboot_module) (kernel_start kernel_end : Z) (mboot : multiboot_info).
(** The address of the heap's list head, in the kernel's own image. *)
Context (hd : Z).

(** [mm::pmm::init], [mm::vmm::init] and [_heap.construct] of [Kernel::init]; what it does before and
    between them does not touch the managers. *)
Definition memory_init (m : machine pmm) : res state :=
  fs ← pmm_init mmap_at mod_at kernel_start kernel_end mboot (frames m);
  m ← init (with_frames fs m);
  '(_, st) ← construct hd map_new KERNEL_HEAP_BASE HEAP_MIN_SIZE (KERNEL_HEAP_BASE + KERNEL_HEAP_SIZE) KERNEL_HEAP_PERMS
    (Fields 0 0 0 0, m);
  Ok st.

Lemma memory_init_runs m fs m1 st : pmm_init mmap_at mod_at kernel_start kernel_end mboot (frames m) = Ok fs → init (with_frames fs m) = Ok m1 →
  construct hd map_new KERNEL_HEAP_BASE HEAP_MIN_SIZE (KERNEL_HEAP_BASE + KERNEL_HEAP_SIZE) KERNEL_HEAP_PERMS (Fields 0 0 0 0, m1) = Ok ((), st) →
  memory_init m = Ok st.
Proof. intros E1 E2 E3. unfold memory_init. by rewrite E1, bind_Ok, E2, bind_Ok, E3, bind_Ok. Qed.
End memory_init.

Section boots.
Context (mmap_at : Z → multiboot_mmap_entry) (mod_at : Z → multiboot_module) (kernel_start kernel_end : Z) (mboot : multiboot_info).
Context (es : list multiboot_mmap_entry) (f0 : Z).
Abbreviation low := (low_boot_reserved_end mod_at kernel_end mboot).

(** Regions that the boot loader reports: the images, and its memory map with the entries [es]. *)
Record boot_info : Prop := {
  bi_kernel : image_ok kernel_start kernel_end;
  bi_modules : Forall (λ m, image_ok (mod_start m) (mod_end m)) (modules mod_at mboot);
  bi_flag : TEST_MASK (mb_flags mboot) MULTIBOOT_INFO_MEM_MAP = true;
  bi_range : 0 ≤ mmap_addr mboot ∧ 0 ≤ mmap_length mboot ∧ mmap_addr mboot + mmap_length mboot < 2 ^ 32;
  bi_map : mmap_list mmap_at (mmap_addr mboot + mmap_length mboot) (mmap_addr mboot) es;
  bi_types : Forall (λ en, 0 ≤ mm_type en < 6) es;
  bi_apart : ForallOrdPairs (λ x y, entry_frames (as_read x) ## entry_frames (as_read y)) es
}.
Hypothesis Hinfo : boot_info.
(** 4 MiB of consecutive free frames. *)
Hypothesis Hfree : ∀ f, f0 ≤ f < f0 + 1024 → f ∈ avail_frames (as_read <$> es) ∧ low ≤ f * 4096.

Lemma boot_frames s A0 : rep PMM (mem_mngr s) A0 →
  ∃ s' A, pmm_init mmap_at mod_at kernel_start kernel_end mboot s = Ok s' ∧ pmm_inv s' A
    ∧ (∀ f, 0 ≤ f < 2 ^ 20 → f * 4096 < kernel_end → f ∈ A) ∧ (∀ f, f0 ≤ f < f0 + 1024 → (f ∉ A) ∧ 0 ≤ f < 2 ^ 20)
    ∧ Z.of_nat (size A) + 1024 ≤ 2 ^ 20.
Proof using Hinfo Hfree.
  intros Hr. destruct Hinfo as [Hk Hms Hfl (Ha & Hl & Hb) Hml Hty Hd].
  destruct (pmm_init_ok mmap_at mod_at kernel_start kernel_end mboot Hk Hms s A0 es) as (s' & A & E & Hi & _ & Hf); [done..|].
  exists s', A. split; [done|]. split; [done|]. rewrite MAX_FRAMES_eq in Hf. split_and!.
  - intros f Hfr Hlt. destruct (decide (f ∈ A)) as [|Hn]; [done|]. apply Hf in Hn; [|done].
    assert (kernel_end ≤ low) by (by eapply low_bounds). lia.
  - intros f Hfr. destruct (Hfree f Hfr) as [Hav Hlo].
    assert (LOW_USABLE_BASE ≤ f * 4096 ∧ (f + 1) * 4096 ≤ 2 ^ 32) as Hx by (by eapply elem_of_avail_bounds).
    unfold LOW_USABLE_BASE in Hx. assert (0 ≤ f < 2 ^ 20) by lia.
    split; [by apply Hf|done].
  - assert (∀ f, f0 ≤ f < f0 + 1024 → (f ∉ A) ∧ 0 ≤ f < 2 ^ 20) as Hf0.
    { intros f Hfr. destruct (Hfree f Hfr) as [Hav Hlo].
      assert (LOW_USABLE_BASE ≤ f * 4096 ∧ (f + 1) * 4096 ≤ 2 ^ 32) as Hx by (by eapply elem_of_avail_bounds).
      unfold LOW_USABLE_BASE in Hx. assert (0 ≤ f < 2 ^ 20) by lia. split; [by apply Hf|done]. }
    assert (A ## run f0 1024) as Hdj by (intros x Hx Hx'%elem_of_run; by destruct (Hf0 x ltac:(lia))).
    pose proof (size_union_Z _ _ Hdj) as S2. rewrite size_run in S2 by lia.
    assert (A ∪ run f0 1024 ⊆ run 0 (2 ^ 20)) as Hsub%subseteq_size.
    { intros x [Hx|Hx%elem_of_run]%elem_of_union; [rewrite <- MAX_FRAMES_eq; by apply (bits_dom _ _ _ (proj1 (proj1 Hi)))|].
      apply elem_of_run. pose proof (Hf0 x ltac:(lia)). lia. }
    pose proof (size_run 0 (2 ^ 20) ltac:(lia)) as S1. generalize dependent (size (run 0 (2 ^ 20))). intros k Hk1 Hk2. lia.
Qed.

(** The list head of the heap, in the image of the kernel and the identity window. *)
Record head_ok (hd : Z) : Prop := {
  ho_image : kernel_start ≤ hd ∧ hd + 8 ≤ kernel_end ∧ kernel_end ≤ IDENTITY_WINDOW_SIZE;
  ho_page : 4096 ≤ hd ∧ hd mod 4 = 0 ∧ hd mod 4096 + 8 ≤ 4096
}.

(** The heap before its construction, on the machine that [mm::vmm::init] leaves. *)
Lemma boot_no_heap hd (m : machine pmm) D (A A1 : gset Z) : head_ok hd → wf m D A → hd / 4096 ∈ A1 →
  (∀ p, 0 ≤ p < 1024 → page_of (Vmm.mem m) D p = Some p) → (∀ p, 1024 ≤ p < 0xFFC00 → page_of (Vmm.mem m) D p = None) →
  (∀ f, f ∈ A1 → f ≠ 0 → data_frame (Vmm.mem m) D A f) →
  backs hd D A (no_heap KERNEL_HEAP_BASE (KERNEL_HEAP_BASE + KERNEL_HEAP_SIZE) KERNEL_HEAP_PERMS) m
    (empty_heap KERNEL_HEAP_BASE (KERNEL_HEAP_BASE + KERNEL_HEAP_SIZE) KERNEL_HEAP_PERMS (seen D m)).
Proof.
  intros [(Hi1 & Hi2 & Hi3) (Hp1 & Hp2 & Hp3)] Hwf HA Hid Hno Hdf. unfold IDENTITY_WINDOW_SIZE in Hi3.
  apply (no_heap_backed _ _ _ _ _ _ _ (hd / 4096)); [done| |apply Hid; dlia|apply Hdf; [done|dlia]|].
  - split; cbn; [split_and!; [lia|done|done|unfold KERNEL_HEAP_BASE; dlia]|done|unfold KERNEL_HEAP_SIZE; lia|done].
  - intros p Hp. apply Hno. unfold KERNEL_HEAP_BASE, KERNEL_HEAP_SIZE in Hp. dlia.
Qed.
End boots.


Lemma small_info : boot_info SmallMachine.mmap_at SmallMachine.mod_at 0x100000 0x101000 SmallMachine.mboot SmallMachine.entries.
Proof.
  split; [unfold image_ok; split_and!; done|apply Forall_nil_2|reflexivity|done|exact small_entries| |exact small_disjoint].
  repeat apply Forall_cons_2; [vm_compute; split; congruence..|apply Forall_nil_2].
Qed.

Lemma small_free f : 0x200 ≤ f < 0x200 + 1024 →
  f ∈ avail_frames (as_read <$> SmallMachine.entries) ∧ low_boot_reserved_end SmallMachine.mod_at 0x101000 SmallMachine.mboot ≤ f * 4096.
Proof.
  intros Hf. split; [|change (low_boot_reserved_end _ _ _) with 0x101000; lia].
  apply elem_of_union_list. exists (entry_frames (as_read (SmallMachine.mmap_at 0x9030))). split.
  - apply list_elem_of_fmap. eexists. split; [done|]. do 2 right. by left.
  - apply elem_of_entry_frames. change (SmallMachine.mmap_at 0x9030) with (MmapEntry 20 0x100000 0x7F00000 1).
    cbn [as_read mm_type mm_addr mm_len]. rewrite !u32_small by lia. split; [done|lia].
Qed.

