(* ===== verification/Operators.v ===== *)
(** [new] and [delete]: the allocation operators of klibcpp/src/klibcpp/cstdlib.cpp, the table of
    kernel functions they call through (klibabi/kapi.hpp) and its functions on the heap in
    kernel/src/kernel.cpp, down to page tables and frames. *)
From S2P Require Import Prelude Memory Layout Pmm Vmm Slots Heap HeapInv HeapSpec HeapAlign Backing KernelHeap.

(** Which entries of the table are set; each has one value, the kernel's function of that name. *)
Record KernelAPI := MkAPI { kmalloc : bool; kfree : bool; get_ticks : bool; panic_ : bool; putc : bool; getc : bool }.
Definition api_zero : KernelAPI := MkAPI false false false false false false.

(** The kernel object, as far as the operators reach: [Kernel::_heap] and memory. *)
Record kernel := MkKernel { api : KernelAPI; _heap : StaticSlot fields; memory : machine pmm }.

Definition init_api (k : kernel) : kernel := MkKernel (MkAPI true true true true true (getc (api k))) (_heap k) (memory k).

Section operators.
(** The address of the heap's list head, and a bound on the length of its list. *)
Context (hd : Z) (fuel : nat).

Definition write_back (h : option state) (k : kernel) : kernel :=
  match h with
  | Some (F, m) => MkKernel (api k) (Slot (Some F) (constructed_ (_heap k))) m
  | None => k
  end.

Definition _kmalloc (size : Z) (align : bool) (k : kernel) : res (Z * kernel) :=
  F ← Slot_.get (_heap k);
  '(addr, h) ← heap_malloc hd map_new fuel (Some (F, memory k)) size (if align then 1 else 0);
  Ok (addr, write_back h k).

Definition _kfree (ptr : Z) (k : kernel) : res kernel :=
  F ← Slot_.get (_heap k);
  h ← heap_free hd fuel (Some (F, memory k)) ptr;
  Ok (write_back h k).

Definition operator_new (size : Z) (k : kernel) : res (Z * kernel) :=
  if kmalloc (api k) then _kmalloc size false k else Panic "kmalloc not found".
Definition operator_delete (ptr : Z) (k : kernel) : res kernel :=
  if kfree (api k) then _kfree ptr k else Ok k.
Definition operator_delete_sized (ptr size : Z) (k : kernel) : res kernel :=
  if kfree (api k) then _kfree ptr k else Ok k.
Definition operator_new_array (size : Z) : kernel → res (Z * kernel) := operator_new size.
Definition operator_delete_array (ptr : Z) : kernel → res kernel := operator_delete ptr.
Definition operator_delete_array_sized (ptr size : Z) : kernel → res kernel := operator_delete_sized ptr size.

(** With an alignment: any but zero is that of a page. *)
Definition operator_new_align (size alignment : Z) (k : kernel) : res (Z * kernel) :=
  if kmalloc (api k) then _kmalloc size (0 <? u32 alignment) k else Panic "kmalloc not found".
Definition operator_delete_align (ptr alignment : Z) (k : kernel) : res kernel :=
  if kfree (api k) then _kfree ptr k else Ok k.
Definition operator_new_array_align (size alignment : Z) : kernel → res (Z * kernel) := operator_new_align size alignment.
Definition operator_delete_array_align (ptr alignment : Z) : kernel → res kernel := operator_delete_align ptr alignment.
Definition operator_delete_sized_align (ptr size alignment : Z) : kernel → res kernel := operator_delete_align ptr alignment.

(** ** Before there is a heap *)

(** Without the table [new] panics and [delete] does nothing; with it, but without a
    constructed heap, both stop in [StaticSlot::get]. *)
Lemma operators_early k size ptr :
  (kmalloc (api k) = false → operator_new size k = Panic "kmalloc not found")
  ∧ (kfree (api k) = false → operator_delete ptr k = Ok k)
  ∧ (constructed_ (_heap k) = false →
     operator_new size (init_api k) = Panic "StaticSlot::get(): not constructed"
     ∧ operator_delete ptr (init_api k) = Panic "StaticSlot::get(): not constructed").
Proof.
  unfold operator_new, operator_delete, _kmalloc, _kfree, Slot_.get. split_and!; [by intros ->|by intros ->|].
  intros E. cbn. by rewrite E.
Qed.

(** ** With a heap *)

Lemma operator_new_ok size k F a F' m' : kmalloc (api k) = true → _heap k = Slot (Some F) true →
  alloc hd map_new fuel size (F, memory k) = Ok (a, (F', m')) →
  operator_new size k = Ok (a, MkKernel (api k) (Slot (Some F') true) m').
Proof.
  intros Ha Eh E. unfold operator_new, _kmalloc, Slot_.get. rewrite Ha, Eh. cbn [constructed_ ptr_]. rewrite bind_Ok.
  cbn [heap_malloc negb Z.eqb]. rewrite E, !bind_Ok. cbn [write_back]. by rewrite Eh.
Qed.

Lemma operator_delete_ok ptr k F F' m' : kfree (api k) = true → _heap k = Slot (Some F) true →
  free hd fuel ptr (F, memory k) = Ok ((), (F', m')) →
  operator_delete ptr k = Ok (MkKernel (api k) (Slot (Some F') true) m').
Proof.
  intros Ha Eh E. unfold operator_delete, _kfree, Slot_.get. rewrite Ha, Eh. cbn [constructed_ ptr_]. rewrite bind_Ok.
  cbn [heap_free]. rewrite E, !bind_Ok. cbn [write_back]. by rewrite Eh.
Qed.
End operators.

(** A block that [alloc] gave can be freed at once, in any heap: the chunk before it is in use. *)
Lemma free_served hd D A F m h cs nb p h' pre s post fl' fuel :
  backs hd D A F m h' → served hd h cs nb p h' pre s post fl' → snug pre post → (length fl' < fuel)%nat → endAddr h ≤ endAddr h' →
  ∃ A2 F2 m2 h2 cs2 fl2, free hd fuel (p + 8) (F, m) = Ok ((), (F2, m2)) ∧ backs hd D A2 F2 m2 h2 ∧ heap_rep hd h2 cs2 fl2
    ∧ useds cs2 = useds cs ∧ ∀ d b, d ∈ useds cs → block_byte d b → b < endAddr h → Heap.mem h2 b = Heap.mem h b.
Proof.
  intros Hb [Sr Sz Sb Sa Ss Sd] [Hpin Hne] Hfu Hle.
  assert (footed (Heap.mem h') pre (Chunk p s true)) as Hft.
  { intros pre' q -> Hq. rewrite pin_after_snoc in Hpin. congruence. }
  destruct (free_ok hd h' pre (Chunk p s true) post fl' fuel Sr eq_refl Hft (or_introl Hne) Hfu) as (h2 & cs2 & fl2 & Hr & Hrep & _ & Hus & Hst & _ & Hd).
  destruct (follows_free hd fuel (p + 8) _ _ _ _ _ _ _ Hb Hr) as (A2 & F2 & m2 & Eq & Hb2 & _).
  exists A2, F2, m2, h2, cs2, fl2. split; [done|]. split; [done|]. split; [done|]. rewrite Sb in Hus, Hd. split; [done|].
  intros d b Hin Hbd He. rewrite (Hd d b Hin Hbd) by lia. by apply (Sd d).
Qed.

(** C6: [new] and [delete]. In a running kernel (the table of functions set up, a constructed heap,
    on page tables and frames, that satisfies its invariant) whose heap can serve [size] bytes, from
    a hole or by growing, [new] returns a block of at least that many bytes, aligned to 8 and not
    overlapping any other, and [delete] of it succeeds: the heap has the blocks it had before [new],
    each with every byte, read through the page tables, unchanged. *)
Theorem new_delete_roundtrip hd fuel D A k F h cs fl size :
  kmalloc (api k) = true ∧ kfree (api k) = true → _heap k = Slot (Some F) true →
  backs hd D A F (memory k) h → heap_rep hd h cs fl → 0 ≤ size ≤ 2 ^ 29 →
  (grown_end h (request2size size) - startAddr h) / 16 + 1 < Z.of_nat fuel →
  available A F h cs fl size →
  ∃ p k1 F1 A1 h1 pre s post fl1, operator_new hd fuel size k = Ok (p + 8, k1)
    ∧ _heap k1 = Slot (Some F1) true ∧ backs hd D A1 F1 (memory k1) h1
    ∧ served hd h cs (request2size size) p h1 pre s post fl1 ∧ size ≤ s - 4
    ∧ ∃ k2 F2 A2 h2 cs2 fl2, operator_delete hd fuel (p + 8) k1 = Ok k2
        ∧ _heap k2 = Slot (Some F2) true ∧ backs hd D A2 F2 (memory k2) h2 ∧ heap_rep hd h2 cs2 fl2
        ∧ useds cs2 = useds cs ∧ ∀ d b, d ∈ useds cs → block_byte d b → b < endAddr h → Heap.mem h2 b = Heap.mem h b.
Proof.
  intros [Ha Hf] Eh Hb Hrep Hsz Hfu Hav. set (nb := request2size size) in *. destruct (request2size_ok size ltac:(lia)) as (_ & _ & Hlo & _).
  pose proof (rep_length _ _ _ _ Hrep) as Hlen. pose proof (hr_bounds _ _ _ _ Hrep) as Hbd. change HEAP_MIN_SIZE with 1048576 in Hbd.
  assert (∀ e x, startAddr h ≤ e ≤ grown_end h nb → x ≤ (e - startAddr h) / 16 → x + 1 < Z.of_nat fuel) as Hlong by (intros e x He Hx; clear - He Hx Hfu; dlia).
  destruct (grown_same _ _ _ _ _ _ _ _ Hb Hrep nb (proj2 (request_bounds size Hsz))) as (_ & _ & _ & Hgt & _).
  destruct (b_fields _ _ _ _ _ _ Hb) as (_ & He & _).
  destruct (serve_available hd D A F (memory k) h cs fl fuel size Hb Hrep) as (p & e & (A1 & F1 & m1 & h1 & pre & s & post & fl1 & Eq & Hb1 & Hsv & Hsn & Hend) & Hee);
    [specialize (Hlong (endAddr h) _ ltac:(lia) Hlen); lia|done|done|].
  fold nb in Hsv, Hee. assert (endAddr h1 = e) as He1 by (destruct (b_fields _ _ _ _ _ _ Hb1) as (_ & -> & _); done).
  pose proof (rep_length _ _ _ _ (sv_rep _ _ _ _ _ _ _ _ _ _ Hsv)) as Hlen1. rewrite He1, (sv_start _ _ _ _ _ _ _ _ _ _ Hsv) in Hlen1.
  specialize (Hlong e _ ltac:(lia) Hlen1).
  destruct (free_served hd D A1 F1 m1 h cs nb p h1 pre s post fl1 fuel Hb1 Hsv Hsn) as (A2 & F2 & m2 & h2 & cs2 & fl2 & Ef & Hb2 & Hrep2 & Hus & Hd); [lia|lia|].
  exists p, (MkKernel (api k) (Slot (Some F1) true) m1), F1, A1, h1, pre, s, post, fl1.
  split; [by apply (operator_new_ok hd fuel size k F)|]. split; [done|]. split; [done|]. split; [done|].
  split; [pose proof (sv_size _ _ _ _ _ _ _ _ _ _ Hsv); lia|].
  exists (MkKernel (api k) (Slot (Some F2) true) m2), F2, A2, h2, cs2, fl2.
  split; [by apply (operator_delete_ok hd fuel _ (MkKernel (api k) (Slot (Some F1) true) m1) F1)|]. done.
Qed.

Lemma new_delete_roundtrip_witness : ∃ (m : machine pmm) fuel k1 k2, let k := init_api (MkKernel api_zero (Slot (Some boot_fields) true) m) in
  ∃ p, operator_new 4096 fuel 512 k = Ok (p + 8, k1) ∧ operator_delete 4096 fuel (p + 8) k1 = Ok k2.
Proof.
  destruct boot_machine as (D & A & m & h & Hb & Hrep). set (k := init_api (MkKernel api_zero (Slot (Some boot_fields) true) m)).
  set (fuel := Z.to_nat ((grown_end h (request2size 512) - startAddr h) / 16 + 2)).
  destruct (new_delete_roundtrip 4096 fuel D A k boot_fields h [boot_chunk] [boot_chunk] 512) as (p & k1 & F1 & A1 & h1 & pre & s & post & fl1 & E1 & _ & _ & _ & _ & k2 & F2 & A2 & h2 & cs2 & fl2 & E2 & _);
    [by split|reflexivity|exact Hb|exact Hrep|lia|unfold fuel; lia| |].
  - intros [_ Ht]. revert Ht. by vm_compute.
  - exists m, fuel, k1, k2, p. exact (conj E1 E2).
Defined.
