(* ===== verification/Elf.v ===== *)
(** ELF objects and kernel exports: kernel/include/klibcpp/elf.hpp (the file
    format and [Object]), klibcpp/hash.hpp and sys/kexp.

    An object file is a stretch of memory; its structures are read where the
    code reads them, so [Object] holds addresses and the fields are functions of
    the memory. A null pointer is 0. A string literal is at the address [lit]
    gives it. Loops that read strings take [fuel], as in [Strings.v]. *)
From S2P Require Import Prelude Memory Strings.

(** ** The file format *)
Definition SHT_NULL : Z := 0.
Definition SHT_PROGBITS : Z := 1.
Definition SHT_NOBITS : Z := 8.
Definition SHT_REL : Z := 9.
Definition EM_386 : Z := 3.
Definition R_386_32 : Z := 1.
Definition R_386_PC32 : Z := 2.
Definition SHF_WRITE : Z := 0x1.
Definition SHF_ALLOC : Z := 0x2.
Definition SHF_EXECINSTR : Z := 0x4.

Definition rd16 (m : ram) (a : Z) : Z := m a + 2 ^ 8 * m (a + 1).
Definition rd64 (m : ram) (a : Z) : Z := rd32 m a + 2 ^ 32 * rd32 m (a + 4).

(** Fields of [Header_t]. *)
Definition eh_machine (m : ram) (h : Z) : Z := rd16 m (h + 18).
Definition eh_phoff (m : ram) (h : Z) : Z := rd32 m (h + 28).
Definition eh_shoff (m : ram) (h : Z) : Z := rd32 m (h + 32).
Definition eh_phnum (m : ram) (h : Z) : Z := rd16 m (h + 44).
Definition eh_shnum (m : ram) (h : Z) : Z := rd16 m (h + 48).
Definition eh_shstrndx (m : ram) (h : Z) : Z := rd16 m (h + 50).

(** [SectionHeader_t]: 40 bytes. *)
Record SectionHeader_t := MkSh {
  sh_name : Z; sh_type : Z; sh_flags : Z; sh_addr : Z; sh_offset : Z;
  sh_size : Z; sh_link : Z; sh_info : Z; sh_addralign : Z; sh_entsize : Z }.
Definition read_section (m : ram) (p : Z) : SectionHeader_t :=
  MkSh (rd32 m p) (rd32 m (p + 4)) (rd32 m (p + 8)) (rd32 m (p + 12)) (rd32 m (p + 16))
    (rd32 m (p + 20)) (rd32 m (p + 24)) (rd32 m (p + 28)) (rd32 m (p + 32)) (rd32 m (p + 36)).

(** [Symbol_t]: 16 bytes. *)
Record Symbol_t := MkSym { st_name : Z; st_value : Z; st_size : Z; st_info : Z; st_other : Z; st_shndx : Z }.
Definition read_symbol (m : ram) (p : Z) : Symbol_t :=
  MkSym (rd32 m p) (rd32 m (p + 4)) (rd32 m (p + 8)) (m (p + 12)) (m (p + 13)) (rd16 m (p + 14)).

(** [Rel_t]: 8 bytes. *)
Record Rel_t := MkRel { r_offset : Z; r_info : Z }.
Definition read_rel (m : ram) (p : Z) : Rel_t := MkRel (rd32 m p) (rd32 m (p + 4)).
Definition REL_SYM (i : Z) : Z := Z.shiftr i 8.
Definition REL_TYPE (i : Z) : Z := Z.land i 0xFF.

Record Object := MkObject {
  hdr : Z; prog_hdrs : Z; sec_hdrs : Z; prog_hdrs_num : Z; sec_hdrs_num : Z;
  symtab : Z; strtab : Z; dynsym : Z; dynstr : Z }.

Definition header_offset (o : Object) (offset : Z) : Z := u32 (hdr o + offset).
Definition sec_hdr (o : Object) (i : Z) : Z := u32 (sec_hdrs o + 40 * i).
Definition sec_at (m : ram) (o : Object) (i : Z) : SectionHeader_t := read_section m (sec_hdr o i).

(** The loops of this file: the first [k] from [i] on for which [test] holds. *)
Fixpoint first_index (n : nat) (i : Z) (test : Z → res bool) : res (option Z) :=
  match n with
  | O => Ok None
  | S n => b ← test i; if b : bool then Ok (Some i) else first_index n (i + 1) test
  end.

Definition section_name (m : ram) (o : Object) (index : Z) : Z :=
  if sec_hdrs_num o <=? index then NULL
  else
    let strtab := header_offset o (sh_offset (sec_at m o (eh_shstrndx m (hdr o)))) in
    u32 (strtab + sh_name (sec_at m o index)).

Definition find_section (fuel : nat) (m : ram) (o : Object) (name : Z) : res Z :=
  r ← first_index (Z.to_nat (sec_hdrs_num o)) 0 (λ i,
        let secname := section_name m o i in
        if negb (secname =? NULL) then c ← strcmp fuel m secname name; Ok (c =? 0) else Ok false);
  Ok (match r with Some i => sec_hdr o i | None => NULL end).

Definition _find_symbol (fuel : nat) (m : ram) (o : Object) (name sym str : Z) : res Z :=
  if (sym =? NULL) || (str =? NULL) then Ok NULL
  else
    let strtab := header_offset o (sh_offset (read_section m str)) in
    let symtab := header_offset o (sh_offset (read_section m sym)) in
    let sym_count := sh_size (read_section m sym) / 16 in
    r ← first_index (Z.to_nat sym_count) 0 (λ i,
          let n := st_name (read_symbol m (u32 (symtab + 16 * i))) in
          let symname := u32 (strtab + n) in
          if negb (n =? 0) then c ← strcmp fuel m symname name; Ok (c =? 0) else Ok false);
    Ok (match r with Some i => u32 (symtab + 16 * i) | None => NULL end).

Definition find_symbol (fuel : nat) (m : ram) (o : Object) (name : Z) : res Z :=
  sym ← _find_symbol fuel m o name (dynsym o) (dynstr o);
  if negb (sym =? NULL) then Ok sym else _find_symbol fuel m o name (symtab o) (strtab o).

Definition symbol_by_index (m : ram) (o : Object) (i : Z) : Z :=
  if symtab o =? NULL then NULL
  else u32 (header_offset o (sh_offset (read_section m (symtab o))) + 16 * i).

(** The members are initialized in order, so the searches see the first five. *)
Definition object_init (lit : string → Z) (fuel : nat) (m : ram) (h : Z) : res Object :=
  let o := MkObject h (u32 (h + eh_phoff m h)) (u32 (h + eh_shoff m h)) (eh_phnum m h) (eh_shnum m h) NULL NULL NULL NULL in
  sy ← find_section fuel m o (lit ".symtab");
  st ← find_section fuel m o (lit ".strtab");
  dsy ← find_section fuel m o (lit ".dynsym");
  dst ← find_section fuel m o (lit ".dynstr");
  Ok (MkObject h (prog_hdrs o) (sec_hdrs o) (prog_hdrs_num o) (sec_hdrs_num o) sy st dsy dst).

Definition create (lit : string → Z) (fuel : nat) (m : ram) (ptr : Z) : res (option Object) :=
  if negb (m ptr =? 0x7F) || negb (m (ptr + 1) =? 69) || negb (m (ptr + 2) =? 76) || negb (m (ptr + 3) =? 70) then Ok None
  else if negb (eh_machine m ptr =? EM_386) then Ok None
  else o ← object_init lit fuel m ptr; Ok (Some o).

(** ** Hashes and exported symbols *)

Definition fnv_step (h c : Z) : Z := u64 (Z.lxor h c * 1099511628211).
Definition fnv_fold (h : Z) : Z := u32 (Z.lxor h (Z.shiftr h 32)).
Fixpoint hash_loop (fuel : nat) (m : ram) (s h : Z) : res Z :=
  match fuel with
  | O => NoFuel
  | S fuel => if m s =? 0 then Ok (fnv_fold h) else hash_loop fuel m (s + 1) (fnv_step h (m s))
  end.
Definition hash_fold32_cstr (fuel : nat) (m : ram) (s : Z) : res Z := hash_loop fuel m s 1469598103934665603.

(** [hash_fold32_trivial] on an object of [n] bytes. *)
Fixpoint hash_bytes (n : nat) (m : ram) (p h : Z) : Z :=
  match n with O => fnv_fold h | S n => hash_bytes n m (p + 1) (fnv_step h (m p)) end.
Definition hash_fold32_trivial (m : ram) (p size : Z) : Z := hash_bytes (Z.to_nat size) m p 1469598103934665603.

(** [Entry] is packed: 12 bytes. *)
Record Entry := MkEntry { name_hash : Z; e_addr : Z }.
Definition read_entry (m : ram) (p : Z) : Entry := MkEntry (rd64 m p) (rd32 m (p + 8)).

(** The table the linker script collects between the two symbols. *)
Record kexp_table := MkKexp { kexp_start : Z; kexp_end : Z }.

Definition lookup (fuel : nat) (t : kexp_table) (m : ram) (name : Z) : res Z :=
  if name =? NULL then Ok NULL
  else
    nh ← hash_fold32_cstr fuel m name;
    let n := u32 (kexp_end t - kexp_start t) / 12 in
    r ← first_index (Z.to_nat n) 0 (λ i, Ok (name_hash (read_entry m (kexp_start t + 12 * i)) =? nh));
    Ok (match r with Some i => kexp_start t + 12 * i | None => NULL end).

(** ** Lemmas *)

(** The outcome of a search with a decidable [P]. *)
Definition first_such (n i : Z) (P : Z → Prop) (r : option Z) : Prop :=
  match r with
  | Some k => i ≤ k < i + n ∧ P k ∧ ∀ j, i ≤ j < k → ¬ P j
  | None => ∀ j, i ≤ j < i + n → ¬ P j
  end.

Lemma first_index_ok (P : Z → Prop) test n : ∀ i,
  (∀ j, i ≤ j < i + Z.of_nat n → ∃ b, test j = Ok b ∧ (b = true ↔ P j)) →
  ∃ r, first_index n i test = Ok r ∧ first_such (Z.of_nat n) i P r.
Proof.
  induction n as [|n IH]; intros i Ht; simpl.
  - exists None. split; [done|]. intros j Hj. lia.
  - destruct (Ht i ltac:(lia)) as (b & -> & Hb). rewrite bind_Ok. destruct b.
    + exists (Some i). split; [done|]. split; [lia|]. split; [by apply Hb|]. intros j Hj. lia.
    + assert (¬ P i) as Hn by (intros F; by apply Hb in F).
      destruct (IH (i + 1)) as (r & Hr & Hf); [intros j Hj; apply Ht; lia|]. exists r. split; [done|].
      destruct r as [k|]; cbn [first_such] in *.
      * destruct Hf as (? & ? & Hf). split; [lia|]. split; [done|]. intros j Hj. destruct (decide (j = i)) as [->|]; [done|]. apply Hf. lia.
      * intros j Hj. destruct (decide (j = i)) as [->|]; [done|]. apply Hf. lia.
Qed.

Lemma cstr_inj s1 : ∀ m a s2, cstr m a s1 → cstr m a s2 → s1 = s2.
Proof.
  induction s1 as [|c s1 IH]; intros m a [|d s2]; simpl; [done|intros -> (<- & ? & _); done|intros (<- & ? & _) ?; done|].
  intros (<- & _ & H1) (<- & _ & H2). f_equal. eauto.
Qed.

(** [strcmp] against the string [s] decides whether [a] holds it. *)
Lemma strcmp_eq fuel m a b t s : bytes_ok m → cstr m a t → cstr m b s → (length t < fuel)%nat →
  ∃ c, strcmp fuel m a b = Ok c ∧ ((c =? 0) = true ↔ cstr m a s).
Proof.
  intros Hm Ht Hs Hf. destruct (strcmp_ok t s fuel m a b Hm Ht Hs Hf) as (c & Hc & Hl). exists c. split; [done|].
  rewrite Z.eqb_eq, <- Z.compare_eq_iff, Hl, lex_eq. split; [by intros ->|]. intros Ha. by eapply cstr_inj.
Qed.

Definition named (m : ram) (strtab a : Z) (s : list Z) : Prop :=
  st_name (read_symbol m a) ≠ 0 ∧ cstr m (u32 (strtab + st_name (read_symbol m a))) s.

(** The name of symbol [a], if it has one, is a string. *)
Definition texts (fuel : nat) (m : ram) (strtab a : Z) : Prop :=
  st_name (read_symbol m a) ≠ 0 →
  ∃ t, cstr m (u32 (strtab + st_name (read_symbol m a))) t ∧ (length t < fuel)%nat.

(** [r] is the first of the [n] symbols from [tab] on whose name is [s]. *)
Definition first_named (m : ram) (tab strtab n : Z) (s : list Z) (r : Z) : Prop :=
  ∃ o, first_such n 0 (λ i, named m strtab (u32 (tab + 16 * i)) s) o ∧ r = match o with Some i => u32 (tab + 16 * i) | None => NULL end.

Definition table_of (m : ram) (o : Object) (sh : Z) : Z := header_offset o (sh_offset (read_section m sh)).
Definition count_of (m : ram) (sh : Z) : Z := sh_size (read_section m sh) / 16.

Lemma find_symbol_in fuel m o name s sym str : bytes_ok m → cstr m name s → sym ≠ NULL → str ≠ NULL →
  (∀ i, 0 ≤ i < count_of m sym → texts fuel m (table_of m o str) (u32 (table_of m o sym + 16 * i))) →
  ∃ r, _find_symbol fuel m o name sym str = Ok r ∧ first_named m (table_of m o sym) (table_of m o str) (count_of m sym) s r.
Proof.
  intros Hm Hs Hy Ht Htx. unfold _find_symbol. rewrite (proj2 (Z.eqb_neq _ _) Hy), (proj2 (Z.eqb_neq _ _) Ht). cbn [orb].
  fold (table_of m o str) (table_of m o sym) (count_of m sym).
  assert (0 ≤ count_of m sym) as Hc by (apply Z.div_pos; [apply rd32_range; done|lia]).
  match goal with |- context [first_index ?n 0 ?t] =>
    destruct (first_index_ok (λ i, named m (table_of m o str) (u32 (table_of m o sym + 16 * i)) s) t n 0) as (r & -> & Hf) end.
  - intros j Hj. unfold named. destruct (Z.eqb_spec (st_name (read_symbol m (u32 (table_of m o sym + 16 * j)))) 0) as [E|E].
    + exists false. split; [done|]. by split; [|intros [? _]].
    + destruct (Htx j ltac:(lia) E) as (t & Hct & Hl).
      destruct (strcmp_eq fuel m _ name t s Hm Hct Hs Hl) as (c & Hc' & Hiff). exists (c =? 0). cbn [negb]. rewrite Hc', bind_Ok.
      split; [done|]. rewrite Hiff. tauto.
  - rewrite bind_Ok. eexists. split; [done|]. exists r. split; [|done]. by rewrite Z2Nat.id in Hf by lia.
Qed.

(** The hash is a function of the characters. *)
Definition fnv (s : list Z) : Z := fnv_fold (foldl fnv_step 1469598103934665603 s).

Lemma hash_loop_ok s : ∀ fuel m a h, cstr m a s → (length s < fuel)%nat →
  hash_loop fuel m a h = Ok (fnv_fold (foldl fnv_step h s)).
Proof.
  induction s as [|c s IH]; intros [|fuel] m a h Hs Hf; simpl in *; try lia.
  - by rewrite Hs.
  - destruct Hs as (-> & Hn & Hs). rewrite (proj2 (Z.eqb_neq _ _) Hn). apply IH; [done|lia].
Qed.

Lemma hash_ok s fuel m a : cstr m a s → (length s < fuel)%nat → hash_fold32_cstr fuel m a = Ok (fnv s).
Proof. apply hash_loop_ok. Qed.

(** [lookup] finds the first entry with the hash of the name. *)
Lemma lookup_ok fuel t m name s : cstr m name s → (length s < fuel)%nat → name ≠ NULL →
  ∃ o, lookup fuel t m name = Ok (match o with Some i => kexp_start t + 12 * i | None => NULL end)
    ∧ first_such (u32 (kexp_end t - kexp_start t) / 12) 0
        (λ i, name_hash (read_entry m (kexp_start t + 12 * i)) = fnv s) o.
Proof.
  intros Hs Hf Hn. unfold lookup. rewrite (proj2 (Z.eqb_neq _ _) Hn), (hash_ok s) by done. rewrite bind_Ok.
  match goal with |- context [first_index ?n 0 ?t'] =>
    destruct (first_index_ok (λ i, name_hash (read_entry m (kexp_start t + 12 * i)) = fnv s) t' n 0) as (r & -> & Hr) end.
  - intros j _. eexists. split; [done|]. apply Z.eqb_eq.
  - exists r. split; [done|]. rewrite Z2Nat.id in Hr; [done|]. apply Z.div_pos; [apply u32_range|lia].
Qed.

(** ** Objects *)

(** Section [i] is called [s]. *)
Definition section_named (m : ram) (o : Object) (s : list Z) (i : Z) : Prop :=
  section_name m o i ≠ NULL ∧ cstr m (section_name m o i) s.
Definition section_texts (fuel : nat) (m : ram) (o : Object) : Prop :=
  ∀ i, 0 ≤ i < sec_hdrs_num o → section_name m o i ≠ NULL →
    ∃ t, cstr m (section_name m o i) t ∧ (length t < fuel)%nat.

Definition first_section (m : ram) (o : Object) (s : list Z) (r : Z) : Prop :=
  ∃ k, first_such (sec_hdrs_num o) 0 (section_named m o s) k ∧ r = match k with Some i => sec_hdr o i | None => NULL end.

Lemma find_section_ok fuel m o name s : bytes_ok m → cstr m name s → 0 ≤ sec_hdrs_num o → section_texts fuel m o →
  ∃ r, find_section fuel m o name = Ok r ∧ first_section m o s r.
Proof.
  intros Hm Hs Hn Htx. unfold find_section.
  match goal with |- context [first_index ?n 0 ?t] => destruct (first_index_ok (section_named m o s) t n 0) as (r & -> & Hf) end.
  - intros j Hj. unfold section_named. destruct (Z.eqb_spec (section_name m o j) NULL) as [E|E].
    + exists false. split; [done|]. by split; [|intros [? _]].
    + destruct (Htx j ltac:(lia) E) as (t & Hct & Hl).
      destruct (strcmp_eq fuel m _ name t s Hm Hct Hs Hl) as (c & Hc & Hiff). exists (c =? 0). cbn [negb]. rewrite Hc, bind_Ok.
      split; [done|]. rewrite Hiff. tauto.
  - rewrite bind_Ok. eexists. split; [done|]. exists r. split; [|done]. by rewrite Z2Nat.id in Hf by lia.
Qed.

Definition is_elf (m : ram) (p : Z) : Prop :=
  m p = 0x7F ∧ m (p + 1) = 69 ∧ m (p + 2) = 76 ∧ m (p + 3) = 70 ∧ eh_machine m p = EM_386.

(** The object at [p] before its tables are known. *)
Definition bare (m : ram) (p : Z) : Object :=
  MkObject p (u32 (p + eh_phoff m p)) (u32 (p + eh_shoff m p)) (eh_phnum m p) (eh_shnum m p) NULL NULL NULL NULL.

Record object_of (m : ram) (p : Z) (o : Object) : Prop := {
  oo_hdr : hdr o = p ∧ prog_hdrs o = prog_hdrs (bare m p) ∧ sec_hdrs o = sec_hdrs (bare m p);
  oo_num : prog_hdrs_num o = eh_phnum m p ∧ sec_hdrs_num o = eh_shnum m p;
  oo_symtab : first_section m (bare m p) (bytes_of ".symtab") (symtab o);
  oo_strtab : first_section m (bare m p) (bytes_of ".strtab") (strtab o);
  oo_dynsym : first_section m (bare m p) (bytes_of ".dynsym") (dynsym o);
  oo_dynstr : first_section m (bare m p) (bytes_of ".dynstr") (dynstr o)
}.

Lemma rd16_nonneg m a : bytes_ok m → 0 ≤ rd16 m a < 2 ^ 16.
Proof. intros H. unfold rd16. pose proof (H a). pose proof (H (a + 1)). lia. Qed.

Lemma object_init_ok lit fuel m p : bytes_ok m → section_texts fuel m (bare m p) →
  (∀ s, s ∈ [".symtab"; ".strtab"; ".dynsym"; ".dynstr"]%string → cstr m (lit s) (bytes_of s)) →
  ∃ o, object_init lit fuel m p = Ok o ∧ object_of m p o.
Proof.
  intros Hm Htx Hlit. assert (0 ≤ sec_hdrs_num (bare m p)) as Hn by (apply (rd16_nonneg m (p + 48)); done).
  assert (∀ s, s ∈ [".symtab"; ".strtab"; ".dynsym"; ".dynstr"]%string →
    ∃ r, find_section fuel m (bare m p) (lit s) = Ok r ∧ first_section m (bare m p) (bytes_of s) r) as Hfind.
  { intros s Hs. apply find_section_ok; auto. }
  destruct (Hfind ".symtab"%string) as (r1 & E1 & F1); [apply elem_of_cons; tauto|].
  destruct (Hfind ".strtab"%string) as (r2 & E2 & F2); [rewrite !elem_of_cons; tauto|].
  destruct (Hfind ".dynsym"%string) as (r3 & E3 & F3); [rewrite !elem_of_cons; tauto|].
  destruct (Hfind ".dynstr"%string) as (r4 & E4 & F4); [rewrite !elem_of_cons; tauto|].
  unfold object_init. fold (bare m p). rewrite E1, bind_Ok, E2, bind_Ok, E3, bind_Ok, E4, bind_Ok.
  eexists. split; [done|]. by split.
Qed.

Lemma create_ok lit fuel m p : bytes_ok m → section_texts fuel m (bare m p) →
  (∀ s, s ∈ [".symtab"; ".strtab"; ".dynsym"; ".dynstr"]%string → cstr m (lit s) (bytes_of s)) →
  ∃ r, create lit fuel m p = Ok r ∧ match r with Some o => is_elf m p ∧ object_of m p o | None => ¬ is_elf m p end.
Proof.
  intros Hm Htx Hlit. unfold create, is_elf.
  destruct (Z.eqb_spec (m p) 0x7F); [|exists None; naive_solver].
  destruct (Z.eqb_spec (m (p + 1)) 69); [|exists None; naive_solver].
  destruct (Z.eqb_spec (m (p + 2)) 76); [|exists None; naive_solver].
  destruct (Z.eqb_spec (m (p + 3)) 70); [|exists None; naive_solver].
  destruct (Z.eqb_spec (eh_machine m p) EM_386); [|exists None; naive_solver].
  destruct (object_init_ok lit fuel m p Hm Htx Hlit) as (o & Ho & Hoo). cbn [negb orb]. rewrite Ho, bind_Ok.
  by exists (Some o).
Qed.

(** What [find_symbol] finds in one of the two pairs of tables. *)
Definition found_in (m : ram) (o : Object) (sym str : Z) (s : list Z) (r : Z) : Prop :=
  if (sym =? NULL) || (str =? NULL) then r = NULL
  else first_named m (table_of m o sym) (table_of m o str) (count_of m sym) s r.
Definition symbol_texts (fuel : nat) (m : ram) (o : Object) (sym str : Z) : Prop :=
  (sym =? NULL) || (str =? NULL) = false →
  ∀ i, 0 ≤ i < count_of m sym → texts fuel m (table_of m o str) (u32 (table_of m o sym + 16 * i)).

Lemma found_in_ok fuel m o name s sym str : bytes_ok m → cstr m name s → symbol_texts fuel m o sym str →
  ∃ r, _find_symbol fuel m o name sym str = Ok r ∧ found_in m o sym str s r.
Proof.
  intros Hm Hs Htx. unfold found_in. destruct (_ || _) eqn:E.
  - exists NULL. unfold _find_symbol. by rewrite E.
  - specialize (Htx E). apply orb_false_iff in E as [E1%Z.eqb_neq E2%Z.eqb_neq]. by apply find_symbol_in.
Qed.

(** ELF objects. [Object::create] accepts exactly the files with the ELF magic
    number for the i386, and gives an object whose four tables are the first sections of
    that name, or null. [find_symbol] on it returns the first symbol of that name
    (nameless symbols are skipped) of the dynamic table if there is one, else of the
    static table, else null. The names involved are terminated strings. *)
Theorem object_lookup_exact lit fuel m p :
  bytes_ok m → section_texts fuel m (bare m p) →
  (∀ s, s ∈ [".symtab"; ".strtab"; ".dynsym"; ".dynstr"]%string → cstr m (lit s) (bytes_of s)) →
  ∃ r, create lit fuel m p = Ok r ∧
    match r with
    | None => ¬ is_elf m p
    | Some o =>
        is_elf m p ∧ object_of m p o ∧
        (symbol_texts fuel m o (dynsym o) (dynstr o) → symbol_texts fuel m o (symtab o) (strtab o) →
         ∀ name s, cstr m name s →
           ∃ rd rs, find_symbol fuel m o name = Ok (if rd =? NULL then rs else rd)
             ∧ found_in m o (dynsym o) (dynstr o) s rd ∧ found_in m o (symtab o) (strtab o) s rs)
    end.
Proof.
  intros Hm Htx Hlit. destruct (create_ok lit fuel m p Hm Htx Hlit) as (r & Hr & Ho). exists r. split; [done|].
  destruct r as [o|]; [|done]. destruct Ho as [He Ho]. split_and!; [done..|]. intros Hd Hs name s Hname.
  destruct (found_in_ok fuel m o name s _ _ Hm Hname Hd) as (rd & Erd & Frd).
  destruct (found_in_ok fuel m o name s _ _ Hm Hname Hs) as (rs & Ers & Frs). exists rd, rs. split_and!; [|done..].
  unfold find_symbol. rewrite Erd, bind_Ok, Ers. by destruct (rd =? NULL).
Qed.

(** A small object file at 4096, with a symbol [go] in section 1 and an undefined
    one [api], for the witnesses. *)
Module DemoObject.
Definition words (l : list Z) : list Z := l ≫= λ w, [w mod 256; w / 256 mod 256; w / 65536 mod 256; w / 16777216 mod 256].
Definition sh (name type flags offset size info align : Z) : list Z :=
  words [name; type; flags; 0; offset; size; 0; info; align; 0].
(** Section names at 52 (".text" 1, ".symtab" 7, ".strtab" 15, ".shstrtab" 23, ".rel" 33), 40 bytes. *)
Definition shstr : list Z := 0 :: (bytes_of ".text") ++ 0 :: (bytes_of ".symtab") ++ 0 :: (bytes_of ".strtab") ++
  0 :: (bytes_of ".shstrtab") ++ 0 :: (bytes_of ".rel") ++ [0; 0; 0].
(** Symbol names at 92 ("go" 1, "api" 4), 8 bytes. *)
Definition str : list Z := 0 :: (bytes_of "go") ++ 0 :: (bytes_of "api") ++ [0].
(** Code at 100, 16 bytes; symbols at 116, 48 bytes; relocations at 164, 16 bytes; headers at 180. *)
Definition text : list Z := words [0; 8; 0; 0].
Definition syms : list Z := words [0; 0; 0; 0; 1; 4; 0; 65536; 4; 0; 0; 0].
Definition rels : list Z := words [4; 257; 8; 514].
Definition image : list Z :=
  [0x7F; 69; 76; 70; 1; 1; 1; 0; 0; 0; 0; 0; 0; 0; 0; 0; 1; 0; 3; 0] ++ words [1; 0; 0; 180; 0] ++
  [52; 0; 0; 0; 0; 0; 40; 0; 6; 0; 4; 0] ++ shstr ++ str ++ text ++ syms ++ rels ++
  sh 0 0 0 0 0 0 0 ++ sh 1 1 6 100 16 0 16 ++ sh 7 2 0 116 48 0 4 ++ sh 15 3 0 92 8 0 1 ++ sh 23 3 0 52 40 0 1 ++
  sh 33 9 0 164 16 1 4.
(** The literals of the kernel at 100, and its export table, one entry for [api], at 200. *)
Definition kernel : list Z :=
  (bytes_of ".symtab") ++ 0 :: (bytes_of ".strtab") ++ 0 :: (bytes_of ".dynsym") ++ 0 :: (bytes_of ".dynstr") ++ [0].
Definition lit (s : string) : Z :=
  if decide (s = ".symtab"%string) then 100 else if decide (s = ".strtab"%string) then 108
  else if decide (s = ".dynsym"%string) then 116 else 124.
Definition exports : list Z := words [fnv (bytes_of "api"); 0; 12345].
Definition mem : ram := λ a,
  default 0 (if a <? 200 then if a <? 100 then None else kernel !! Z.to_nat (a - 100)
             else if a <? 4096 then exports !! Z.to_nat (a - 200) else image !! Z.to_nat (a - 4096)).
Definition kexp : kexp_table := MkKexp 200 212.
End DemoObject.

(** Reading a string, to check the strings of a concrete memory. *)
Fixpoint read_cstr (fuel : nat) (m : ram) (a : Z) : option (list Z) :=
  match fuel with
  | O => None
  | S fuel => if m a =? 0 then Some [] else s ← read_cstr fuel m (a + 1); Some (m a :: s)
  end.
Lemma read_cstr_ok fuel : ∀ m a s, read_cstr fuel m a = Some s → cstr m a s ∧ (length s < fuel)%nat.
Proof.
  induction fuel as [|fuel IH]; intros m a s H; simpl in H; [done|]. destruct (Z.eqb_spec (m a) 0); [injection H as <-; simpl; split; [done|lia]|].
  destruct (read_cstr fuel m (a + 1)) as [t|] eqn:E; [|done]. injection H as <-. destruct (IH _ _ _ E). simpl. split; [done|lia].
Qed.

(** Case analysis on a number in a concrete interval. *)
Lemma interval_forall (P : Z → Prop) i n : (∀ k, (k < Z.to_nat n)%nat → P (i + Z.of_nat k)) → ∀ j, i ≤ j < i + n → P j.
Proof. intros H j Hj. replace j with (i + Z.of_nat (Z.to_nat (j - i))) by lia. apply H. lia. Qed.

Lemma demo_bytes : bytes_ok DemoObject.mem.
Proof.
  assert (∀ l : list Z, forallb (λ x, (0 <=? x) && (x <? 256)) l = true → ∀ o : nat, 0 ≤ default 0 (l !! o) < 256) as H.
  { intros l Hl o. destruct (l !! o) as [x|] eqn:E; simpl; [|lia]. rewrite forallb_forall in Hl.
    specialize (Hl x). apply list_elem_of_lookup_2, list_elem_of_In in E. specialize (Hl E). lia. }
  intros a. unfold DemoObject.mem. destruct (a <? 200); [destruct (a <? 100); [simpl; lia|]|destruct (a <? 4096)]; apply H; by vm_compute.
Qed.

Lemma demo_section_texts : section_texts 20 DemoObject.mem (bare DemoObject.mem 4096).
Proof.
  unfold section_texts. change (sec_hdrs_num (bare DemoObject.mem 4096)) with 6. refine (interval_forall _ 0 6 _).
  intros k Hk Hn. destruct (read_cstr 20 DemoObject.mem (section_name DemoObject.mem (bare DemoObject.mem 4096) (0 + Z.of_nat k))) as [t|] eqn:E.
  { exists t. by apply read_cstr_ok. }
  exfalso. do 6 (destruct k as [|k]; [by vm_compute in E|]). lia.
Qed.

Lemma demo_literals s : s ∈ [".symtab"; ".strtab"; ".dynsym"; ".dynstr"]%string → cstr DemoObject.mem (DemoObject.lit s) (bytes_of s).
Proof. rewrite !elem_of_cons, elem_of_nil. intros [->|[->|[->|[->|[]]]]]; apply (read_cstr_ok 20); vm_compute; reflexivity. Qed.

Definition demo_object : Object := MkObject 4096 4096 4276 0 6 4356 4396 0 0.

Lemma demo_symbol_texts : symbol_texts 20 DemoObject.mem demo_object (symtab demo_object) (strtab demo_object).
Proof.
  intros _. change (count_of DemoObject.mem (symtab demo_object)) with 3. refine (interval_forall _ 0 3 _). intros k Hk Hn.
  match goal with |- ∃ t, cstr ?m ?a t ∧ _ => destruct (read_cstr 20 m a) as [t|] eqn:E end.
  { exists t. by apply read_cstr_ok. }
  exfalso. do 3 (destruct k as [|k]; [by vm_compute in E|]). lia.
Qed.

Lemma object_lookup_exact_witness :
  create DemoObject.lit 20 DemoObject.mem 4096 = Ok (Some demo_object)
  ∧ ∃ rd rs, find_symbol 20 DemoObject.mem demo_object 4189 = Ok (if rd =? NULL then rs else rd)
      ∧ found_in DemoObject.mem demo_object 0 0 (bytes_of "go") rd
      ∧ found_in DemoObject.mem demo_object 4356 4396 (bytes_of "go") rs.
Proof.
  assert (create DemoObject.lit 20 DemoObject.mem 4096 = Ok (Some demo_object)) as Ec by (vm_compute; reflexivity).
  split; [exact Ec|].
  destruct (object_lookup_exact DemoObject.lit 20 DemoObject.mem 4096 demo_bytes demo_section_texts demo_literals) as (r & Er & Hr).
  rewrite Ec in Er. injection Er as <-. destruct Hr as (_ & _ & Hr).
  apply Hr; [by intros ?|apply demo_symbol_texts|]. apply (read_cstr_ok 20). vm_compute. reflexivity.
Defined.

(** Exported symbols. [kexp::lookup] returns the first entry of the export table
    whose hash is that of the name, so an exported name whose hash no earlier entry has
    is found, and a name whose hash no entry has is not. Names are never compared: the
    hash of [digknbf] is that of [api], the symbol the kernel exports, and a module that
    refers to it is linked against [api]. *)
Theorem export_lookup fuel t m name s :
  cstr m name s → (length s < fuel)%nat → name ≠ NULL →
  let n := u32 (kexp_end t - kexp_start t) / 12 in
  let entry i := read_entry m (kexp_start t + 12 * i) in
  (∀ i, 0 ≤ i < n → name_hash (entry i) = fnv s → (∀ j, 0 ≤ j < i → name_hash (entry j) ≠ fnv s) →
     lookup fuel t m name = Ok (kexp_start t + 12 * i))
  ∧ ((∀ i, 0 ≤ i < n → name_hash (entry i) ≠ fnv s) → lookup fuel t m name = Ok NULL)
  ∧ 0 ≤ fnv s < 2 ^ 32 ∧ fnv (bytes_of "digknbf") = fnv (bytes_of "api").
Proof.
  intros Hs Hf Hn n entry. destruct (lookup_ok fuel t m name s Hs Hf Hn) as (o & -> & Ho). fold n in Ho. split_and!.
  - intros i Hi He Hlt. destruct o as [k|]; cbn [first_such] in Ho; [|by destruct (Ho i)]. destruct Ho as (? & Hk & Hkl).
    destruct (Z.lt_total i k) as [?|[->|?]]; [|done|]; [by destruct (Hkl i ltac:(lia))|by destruct (Hlt k ltac:(lia))].
  - intros Hno. destruct o as [k|]; [|done]. destruct Ho as (? & Hk & _). by destruct (Hno k ltac:(lia)).
  - apply u32_range.
  - apply u32_range.
  - vm_compute. reflexivity.
Qed.

Lemma export_lookup_witness : lookup 20 DemoObject.kexp DemoObject.mem 4192 = Ok 200.
Proof.
  destruct (export_lookup 20 DemoObject.kexp DemoObject.mem 4192 (bytes_of "api")) as [H _];
    [apply (read_cstr_ok 20); vm_compute; reflexivity|vm_compute; lia|done|].
  apply (H 0); [split; vm_compute; congruence|vm_compute; reflexivity|]. intros j Hj. lia.
Defined.
