(* ===== verification/Linker.v ===== *)
(** The module linker: kernel/include/sys/ld.hpp and kernel/src/sys/ld.cpp.

    [load] places the sections of an object file into two regions of the module
    space (stage 0), gives the regions memory and fills them (stage 1) and applies
    the relocations (stage 2); [unload] gives the regions back.

    Sections and section maps are values: the code allocates them, fills them in
    stage 0 and does not change them afterwards, so a map entry names its region
    and carries its section. Memory is the kernel's view of the address space;
    the pages a new mapping brings have any content ([junk]). Frames and mappings
    are those of the interface [PageSpace], which the physical and virtual memory
    managers implement. The lock is modelled in [Locks.v]. *)
From S2P Require Import Prelude Memory Layout Bitmap Slots Pmm Vmm Strings Elf.

(** ** What the linker needs of the memory managers *)
Class PageSpace (S : Type) := {
  ps_alloc_frames : Z → S → res (Z * S);
  ps_map_pages : Z → Z → Z → Z → S → res S;
  ps_unmap_pages : Z → Z → S → res S
}.
#[export] Instance machine_pages : PageSpace (machine pmm) := {|
  ps_alloc_frames n m := '(a, fs) ← alloc_frames n (frames m); Ok (a, with_frames fs m);
  ps_map_pages := map_pages;
  ps_unmap_pages := unmap_pages
|}.

(** ** Sections and regions *)
Definition SHN_UNDEF : Z := 0x0000.
Definition SHN_ABS : Z := 0xfff1.
Definition SHN_COMMON : Z := 0xfff2.
Definition LMM : params := Params MODULE_SPACE_BASE MODULE_SPACE_PAGE_COUNT PAGE_SIZE.

Module Access.
Inductive t := N | R | W | RW | X | RX | WX | RWX.
End Access.
Inductive SecKind := UNKNOWN | PROGBITS | NOBITS.

Record Section_ := MkSection {
  s_access : Access.t; s_kind : SecKind; s_align : Z; s_file_off : Z; s_reg_off : Z; s_size : Z; s_flags : Z }.
Definition has_flag (s : Section_) (flag : Z) : bool := Z.land (s_flags s) flag =? flag.
Definition with_off (off : Z) (s : Section_) : Section_ :=
  MkSection (s_access s) (s_kind s) (s_align s) (s_file_off s) off (s_size s) (s_flags s).
Definition with_access (a : Access.t) (s : Section_) : Section_ :=
  MkSection a (s_kind s) (s_align s) (s_file_off s) (s_reg_off s) (s_size s) (s_flags s).

Record Region := MkRegion { g_base : Z; g_size : Z; g_access : Access.t; g_index : Z; g_sections : list Section_ }.
Definition with_base (b : Z) (r : Region) : Region := MkRegion b (g_size r) (g_access r) (g_index r) (g_sections r).
Definition with_size (s : Z) (r : Region) : Region := MkRegion (g_base r) s (g_access r) (g_index r) (g_sections r).

(** The region and the section with its place in it. *)
Definition append (s : Section_) (r : Region) : Region * Section_ :=
  let s := with_off (align_up (g_size r) (s_align s)) s in
  (MkRegion (g_base r) (u32 (s_reg_off s + s_size s)) (g_access r) (g_index r) (g_sections r ++ [s]), s).

Inductive RegionRef := InRX | InRW.
#[export] Instance RegionRef_eq_dec : EqDecision RegionRef.
Proof. solve_decision. Defined.
Record Layout := MkLayout {
  l_obj : option Object; l_rx : Region; l_rw : Region; l_map : option (list (option (RegionRef * Section_))) }.
Definition layout_init : Layout := MkLayout None (MkRegion 0 0 Access.RX 0 []) (MkRegion 0 0 Access.RW 1 []) None.
Definition region_of (l : Layout) (r : RegionRef) : Region := match r with InRX => l_rx l | InRW => l_rw l end.
Definition with_region (ref : RegionRef) (r : Region) (l : Layout) : Layout :=
  match ref with
  | InRX => MkLayout (l_obj l) r (l_rw l) (l_map l)
  | InRW => MkLayout (l_obj l) (l_rx l) r (l_map l)
  end.
Definition with_map (mp : option (list (option (RegionRef * Section_)))) (l : Layout) : Layout :=
  MkLayout (l_obj l) (l_rx l) (l_rw l) mp.

Definition access_is_loadable (a : Access.t) : bool :=
  match a with Access.RX | Access.R | Access.RW => true | _ => false end.

Definition validate_region_section_bounds (reg : Region) (sec : Section_) (extra : Z) : bool :=
  if g_size reg <? s_reg_off sec then false
  else if g_size reg <? s_size sec then false
  else if g_size reg <? u32 (s_reg_off sec + s_size sec) then false
  else negb (negb (extra =? 0) && (g_size reg <? u32 (s_reg_off sec + extra))).

(** ** Stage 0: the layout *)

Definition new_section (h : SectionHeader_t) : Section_ :=
  let s := MkSection Access.N
    (if sh_type h =? SHT_PROGBITS then PROGBITS else if sh_type h =? SHT_NOBITS then NOBITS else UNKNOWN)
    (if negb (sh_addralign h =? 0) then sh_addralign h else 1) (sh_offset h) 0 (sh_size h) (sh_flags h) in
  with_access (if has_flag s SHF_EXECINSTR then Access.RX else if has_flag s SHF_WRITE then Access.RW else Access.R) s.

(** One iteration: skip the section, or append it to its region and map it. *)
Definition place (i : Z) (h : SectionHeader_t) (l : Layout) : Layout :=
  if Z.land (sh_flags h) SHF_ALLOC =? 0 then l
  else if (sh_type h =? SHT_NULL) || (sh_size h =? 0) then l
  else
    let new_sec := new_section h in
    if negb (access_is_loadable (s_access new_sec)) then l
    else
      let put ref :=
        let '(reg, sec) := append new_sec (region_of l ref) in
        with_map (<[Z.to_nat i := Some (ref, sec)]> <$> l_map l) (with_region ref reg l) in
      match s_access new_sec with
      | Access.RX => put InRX
      | Access.R | Access.RW => put InRW
      | _ => l
      end.

Fixpoint stage0_loop (n : nat) (i : Z) (m : ram) (obj : Object) (l : Layout) : Layout :=
  match n with
  | O => l
  | S n => stage0_loop n (i + 1) m obj (place i (sec_at m obj i) l)
  end.

Definition stage0 (m : ram) (obj : Object) (l : Layout) : bool * Layout :=
  if (sec_hdrs obj =? NULL) || (sec_hdrs_num obj =? 0) then (false, l)
  else
    let l := with_map (Some (replicate (Z.to_nat (sec_hdrs_num obj)) None)) l in
    let l := stage0_loop (Z.to_nat (sec_hdrs_num obj)) 0 m obj l in
    let l := with_region InRX (with_size (align_up (g_size (l_rx l)) PAGE_SIZE) (l_rx l)) l in
    let l := with_region InRW (with_size (align_up (g_size (l_rw l)) PAGE_SIZE) (l_rw l)) l in
    (true, l).

(** ** The linker *)
Record Linker (S : Type) := MkLinker { layouts : StaticArray Layout; lmm : bitmap_t; space : S; lmem : ram }.
Arguments MkLinker {S}. Arguments layouts {S}. Arguments lmm {S}. Arguments space {S}. Arguments lmem {S}.

Section linker.
Context {S : Type} `{PageSpace S}.
Variable junk : ram.

Definition linker_init (sp : S) (m : ram) : Linker S := MkLinker (array_init 64) (bitmap_init LMM) sp m.
Definition set_mem (m : ram) (L : Linker S) : Linker S := MkLinker (layouts L) (lmm L) (space L) m.
Definition set_layouts (a : StaticArray Layout) (L : Linker S) : Linker S := MkLinker a (lmm L) (space L) (lmem L).

(** ** Stage 1: memory and contents *)

Fixpoint copy_sections (secs : list Section_) (reg : Region) (obj : Object) (m : ram) : bool * ram :=
  match secs with
  | [] => (true, m)
  | sec :: secs =>
      if negb (validate_region_section_bounds reg sec 0) then (false, m)
      else
        let dst := u32 (g_base reg + s_reg_off sec) in
        match s_kind sec with
        | PROGBITS =>
            let src := header_offset obj (s_file_off sec) in
            if src =? NULL then (false, m) else copy_sections secs reg obj (memcpy m dst src (s_size sec))
        | NOBITS => copy_sections secs reg obj (memset m dst 0 (s_size sec))
        | UNKNOWN => copy_sections secs reg obj (memset m dst 0 (s_size sec))
        end
  end.

(** Memory after pages with any content are mapped at [base]. *)
Definition fresh_pages (base size : Z) (m : ram) : ram :=
  λ a, if (base <=? a) && (a <? base + size) then u8 (junk a) else m a.

Definition stage1 (reg : Region) (obj : Object) (L : Linker S) : res (bool * Region * Linker S) :=
  if g_size reg =? 0 then Ok (true, reg, L)
  else
    let pages := g_size reg / PAGE_SIZE in
    '(base, mm) ← alloc_units LMM pages (lmm L);
    '(phys, sp) ← ps_alloc_frames pages (space L);
    if phys =? 0 then
      mm ← free_units LMM base pages mm;
      Ok (false, with_base 0 reg, MkLinker (layouts L) mm sp (lmem L))
    else
      sp ← ps_map_pages base phys pages (Z.lor Flags.Present Flags.Writable) sp;
      let reg := with_base base reg in
      let '(ok, m) := copy_sections (g_sections reg) reg obj (fresh_pages base (g_size reg) (lmem L)) in
      Ok (ok, reg, MkLinker (layouts L) mm sp m).

(** ** Stage 2: relocations *)

(** The value of a symbol: a number, or the relocation is skipped, or the load fails. *)
Inductive sym_value := SVal (v : Z) | SSkip | SBad.

Definition mapped (l : Layout) (i : Z) : option (RegionRef * Section_) := mjoin (mjoin ((.!! Z.to_nat i) <$> l_map l)).

Definition symbol_value (fuel : nat) (t : kexp_table) (m : ram) (l : Layout) (obj : Object) (sym : Symbol_t) : res sym_value :=
  if st_shndx sym =? SHN_UNDEF then
    let name := u32 (header_offset obj (sh_offset (read_section m (strtab obj))) + st_name sym) in
    e ← Elf.lookup fuel t m name;
    Ok (if negb (e =? NULL) then SVal (e_addr (read_entry m e)) else SSkip)
  else if st_shndx sym =? SHN_ABS then Ok (SVal (st_value sym))
  else if st_shndx sym =? SHN_COMMON then Ok SSkip
  else if sec_hdrs_num obj <=? st_shndx sym then Ok SBad
  else Ok (match mapped l (st_shndx sym) with
           | None => SBad
           | Some (ref, sec) =>
               if g_base (region_of l ref) =? 0 then SBad
               else SVal (u32 (g_base (region_of l ref) + s_reg_off sec + st_value sym))
           end).

(** One relocation; [None] makes [stage2] return false. *)
Definition relocate (fuel : nat) (t : kexp_table) (l : Layout) (obj : Object) (ref : RegionRef) (sec : Section_)
    (r : Rel_t) (m : ram) : res (option ram) :=
  let type := REL_TYPE (r_info r) in
  let symi := REL_SYM (r_info r) in
  let sym := symbol_by_index m obj symi in
  if sym =? NULL then Ok None
  else if s_size sec <? u32 (r_offset r + 4) then Ok None
  else
    let P := u32 (g_base (region_of l ref) + s_reg_off sec + r_offset r) in
    let A := rd32 m P in
    v ← symbol_value fuel t m l obj (read_symbol m sym);
    Ok (match v with
        | SBad => None
        | SSkip => Some m
        | SVal S =>
            if type =? R_386_32 then Some (wr32 m P (u32 (S + A)))
            else if type =? R_386_PC32 then Some (wr32 m P (u32 (S + A - P)))
            else None
        end).

Fixpoint rel_loop (n : nat) (fuel : nat) (t : kexp_table) (l : Layout) (obj : Object) (ref : RegionRef) (sec : Section_)
    (rel : Z) (m : ram) : res (option ram) :=
  match n with
  | O => Ok (Some m)
  | Datatypes.S n =>
      o ← relocate fuel t l obj ref sec (read_rel m rel) m;
      match o with
      | Some m => rel_loop n fuel t l obj ref sec (u32 (rel + 8)) m
      | None => Ok None
      end
  end.

(** The relocations of section [i]. A header's [info] is cut to 16 bits. *)
Definition rel_section (fuel : nat) (t : kexp_table) (l : Layout) (obj : Object) (i : Z) (m : ram) : res (option ram) :=
  let h := sec_at m obj i in
  if negb (sh_type h =? SHT_REL) then Ok (Some m)
  else
    let target_idx := u16 (sh_info h) in
    if sec_hdrs_num obj <=? target_idx then Ok None
    else
      match mapped l target_idx with
      | None => Ok (Some m)
      | Some (ref, sec) =>
          if g_base (region_of l ref) =? 0 then Ok None
          else
            let rel := header_offset obj (sh_offset h) in
            if (rel =? NULL) && negb (sh_size h =? 0) then Ok None
            else rel_loop (Z.to_nat (sh_size h / 8)) fuel t l obj ref sec rel m
      end.

Fixpoint stage2_loop (n : nat) (i : Z) (fuel : nat) (t : kexp_table) (l : Layout) (obj : Object) (m : ram) : res (option ram) :=
  match n with
  | O => Ok (Some m)
  | Datatypes.S n =>
      o ← rel_section fuel t l obj i m;
      match o with
      | Some m => stage2_loop n (i + 1) fuel t l obj m
      | None => Ok None
      end
  end.

(** A failing stage leaves the memory behind; nothing reads it before it is unmapped. *)
Definition stage2 (fuel : nat) (t : kexp_table) (l : Layout) (m : ram) : res (option ram) :=
  match l_obj l, l_map l with
  | Some obj, Some _ => stage2_loop (Z.to_nat (sec_hdrs_num obj)) 0 fuel t l obj m
  | _, _ => Ok None
  end.

(** ** Unloading *)

Definition unload_region_locked (reg : Region) (L : Linker S) : res (Region * Linker S) :=
  if (g_base reg =? 0) || (g_size reg =? 0) then Ok (reg, L)
  else
    let pages := g_size reg / PAGE_SIZE in
    sp ← ps_unmap_pages (g_base reg) pages (space L);
    mm ← free_units LMM (g_base reg) pages (lmm L);
    Ok (with_base 0 reg, MkLinker (layouts L) mm sp (lmem L)).

(** The object at slot [i]. *)
Definition store_layout (i : Z) (l : Layout) (a : StaticArray Layout) : StaticArray Layout :=
  SArray (<[Z.to_nat i := Slot (Some l) true]> (slots_ a)) (live_count_ a).

(** [layout] points to slot [i], or is null; elsewhere there is nothing to point to. *)
Definition unload_locked (layout : option Z) (L : Linker S) : res (Linker S) :=
  match layout with
  | None => Ok L
  | Some i =>
      match Slots.ptr (layouts L) i with
      | None => Fault i
      | Some l =>
          '(rw, L) ← unload_region_locked (l_rw l) L;
          '(rx, L) ← unload_region_locked (l_rx l) L;
          let L := set_layouts (store_layout i (with_region InRX rx (with_region InRW rw l)) (layouts L)) L in
          let index := index_of layout (layouts L) in
          if index =? npos then Ok L
          else '(_, a) ← erase index (layouts L); Ok (set_layouts a L)
      end
  end.
Definition unload := unload_locked.

(** [~Linker]: unload the first layout until there is none. *)
Fixpoint first_layout (n : nat) (i : Z) (a : StaticArray Layout) : option Z :=
  match n with
  | O => None
  | Datatypes.S n => match Slots.ptr a i with Some _ => Some i | None => first_layout n (i + 1) a end
  end.
Fixpoint linker_destroy (fuel : nat) (L : Linker S) : res (Linker S) :=
  if Slots.empty (layouts L) then Ok L
  else
    match fuel with
    | O => NoFuel
    | Datatypes.S fuel =>
        L ← unload_locked (first_layout (Z.to_nat (capacity (layouts L))) 0 (layouts L)) L;
        linker_destroy fuel L
    end.

(** ** Loading *)

(** The stages on the layout at slot [i]; true when all succeed. *)
Definition stages (fuel : nat) (t : kexp_table) (i : Z) (l : Layout) (obj : Object) (L : Linker S) : res (bool * Linker S) :=
  let done ok l L := Ok (ok, set_layouts (store_layout i l (layouts L)) L) in
  let '(ok, l) := stage0 (lmem L) obj l in
  if negb ok then done false l L
  else
    '(ok, rx, L) ← stage1 (l_rx l) obj L;
    let l := with_region InRX rx l in
    if negb ok then done false l L
    else
      '(ok, rw, L) ← stage1 (l_rw l) obj L;
      let l := with_region InRW rw l in
      if negb ok then done false l L
      else
        o ← stage2 fuel t l (lmem L);
        match o with
        | Some m => done true l (set_mem m L)
        | None => done false l L
        end.

Definition load (fuel : nat) (t : kexp_table) (obj : option Object) (L : Linker S) : res (option Z * Linker S) :=
  match obj with
  | None => Ok (None, L)
  | Some obj =>
      '(i, a) ← emplace layout_init (layouts L);
      let l := MkLayout (Some obj) (l_rx layout_init) (l_rw layout_init) None in
      '(ok, L) ← stages fuel t i l obj (set_layouts a L);
      if ok : bool then Ok (Some i, L)
      else L ← unload_locked (Some i) L; Ok (None, L)
  end.

(** [Layout::find_symbol]. *)
Definition layout_find_symbol (fuel : nat) (m : ram) (l : Layout) (name : Z) : res Z :=
  match l_obj l, l_map l with
  | Some obj, Some _ =>
      if name =? NULL then Ok NULL
      else
        symp ← find_symbol fuel m obj name;
        if symp =? NULL then Ok NULL
        else
          let sym := read_symbol m symp in
          if st_shndx sym =? SHN_UNDEF then Ok NULL
          else if st_shndx sym =? SHN_COMMON then Ok NULL
          else if sec_hdrs_num obj <=? st_shndx sym then Ok NULL
          else
            match mapped l (st_shndx sym) with
            | None => Ok NULL
            | Some (ref, sec) => Ok (u32 (u32 (g_base (region_of l ref) + s_reg_off sec) + st_value sym))
            end
  | _, _ => Ok NULL
  end.
End linker.
