(* ===== verification/LinkerSpec.v ===== *)
(** What the linker of [Linker.v] guarantees: the layout of stage 0, the contents
    of stage 1, the relocations of stage 2, and the module space over the life of
    the linker. *)
From S2P Require Import Prelude Memory Layout Bitmap Slots Strings Elf Linker.

(** ** Stage 0 *)

(** The sections that are loaded, and the region they go to. *)
Definition loads (h : SectionHeader_t) : bool :=
  negb (Z.land (sh_flags h) SHF_ALLOC =? 0) && negb (sh_type h =? SHT_NULL) && negb (sh_size h =? 0).
Definition home (h : SectionHeader_t) : RegionRef := if Z.land (sh_flags h) SHF_EXECINSTR =? SHF_EXECINSTR then InRX else InRW.
Definition alignment (h : SectionHeader_t) : Z := if sh_addralign h =? 0 then 1 else sh_addralign h.

(** Sections one after the other from [lo] to [hi], each at a multiple of its alignment. *)
Fixpoint packed (lo : Z) (secs : list Section_) (hi : Z) : Prop :=
  match secs with
  | [] => lo = hi
  | s :: secs => lo ≤ s_reg_off s ∧ s_reg_off s mod s_align s = 0 ∧ 0 < s_size s ∧ packed (s_reg_off s + s_size s) secs hi
  end.

Lemma packed_snoc lo secs hi s : packed lo secs hi → hi ≤ s_reg_off s → s_reg_off s mod s_align s = 0 → 0 < s_size s →
  packed lo (secs ++ [s]) (s_reg_off s + s_size s).
Proof.
  revert lo. induction secs as [|x secs IH]; intros lo Hp Ho Ha Hs; simpl in *; [by subst|].
  destruct Hp as (? & ? & ? & ?). auto.
Qed.

Lemma packed_le lo secs hi : packed lo secs hi → lo ≤ hi.
Proof. revert lo. induction secs as [|s secs IH]; intros lo; simpl; [lia|]. intros (? & _ & ? & ?%IH). lia. Qed.

Lemma packed_in lo secs hi s : packed lo secs hi → s ∈ secs → lo ≤ s_reg_off s ∧ 0 < s_size s ∧ s_reg_off s + s_size s ≤ hi.
Proof.
  revert lo. induction secs as [|x secs IH]; intros lo Hp; simpl in Hp; [by intros ?%elem_of_nil|].
  destruct Hp as (? & _ & ? & Hp). pose proof (packed_le _ _ _ Hp). intros [->|Hs]%elem_of_cons; [lia|].
  destruct (IH _ Hp Hs). lia.
Qed.

(** The sections of a region according to the map. *)
Definition in_region (ref : RegionRef) (e : option (RegionRef * Section_)) : option Section_ :=
  match e, ref with Some (InRX, s), InRX => Some s | Some (InRW, s), InRW => Some s | _, _ => None end.

Definition other (ref : RegionRef) : RegionRef := match ref with InRX => InRW | InRW => InRX end.

(** [place] appends the section to its region and enters it in the map. *)
Lemma place_eq i h l : place i h l =
  if loads h then
    let s := with_off (align_up (g_size (region_of l (home h))) (alignment h)) (new_section h) in
    with_map (<[Z.to_nat i := Some (home h, s)]> <$> l_map l) (with_region (home h) (append (new_section h) (region_of l (home h))).1 l)
  else l.
Proof.
  unfold place, loads. destruct (Z.land (sh_flags h) SHF_ALLOC =? 0); [done|].
  destruct (sh_type h =? SHT_NULL), (sh_size h =? 0); try done. cbn [orb negb andb].
  assert (s_align (new_section h) = alignment h) as Ha by (unfold new_section, alignment; simpl; by destruct (sh_addralign h =? 0)).
  unfold append. rewrite Ha. unfold home, new_section, has_flag. simpl.
  destruct (Z.land (sh_flags h) SHF_EXECINSTR =? SHF_EXECINSTR); [done|]. by destruct (Z.land (sh_flags h) SHF_WRITE =? SHF_WRITE).
Qed.

Definition pow2 (a : Z) : Prop := ∃ k, 0 ≤ k < 32 ∧ a = 2 ^ k.

Lemma align_up_pow2 v a : pow2 a → 0 ≤ v → v + a ≤ 2 ^ 32 → v ≤ align_up v a < v + a ∧ align_up v a mod a = 0.
Proof.
  intros (k & Hk & ->) Hv Hb. assert (0 < 2 ^ k) by lia. rewrite align_up_spec by lia.
  pose proof (Z.mod_pos_bound (- v) (2 ^ k) ltac:(lia)). split; [lia|].
  rewrite Z.add_mod_idemp_r by lia. by rewrite Z.add_opp_diag_r, Z.mod_0_l by lia.
Qed.

(** Room the headers [hs] need at most. *)
Definition demand (hs : list SectionHeader_t) : Z :=
  foldr (λ h acc, (if loads h then sh_size h + alignment h else 0) + acc) 0 hs.

(** The map entry of a section with header [h]. *)
Definition entry_ok (h : SectionHeader_t) (e : option (RegionRef * Section_)) : Prop :=
  if loads h then ∃ off, e = Some (home h, with_off off (new_section h)) else e = None.

(** The state of the loop after the headers [hs]: both regions are packed and agree
    with the map, which says where each header went. *)
Record placed (hs : list SectionHeader_t) (n : nat) (l : Layout) : Prop := {
  pl_packed ref : packed 0 (g_sections (region_of l ref)) (g_size (region_of l ref));
  pl_room ref : g_size (region_of l ref) ≤ demand hs;
  pl_base ref : g_base (region_of l ref) = 0;
  pl_map : ∃ mp, l_map l = Some mp ∧ length mp = n ∧ (length hs ≤ n)%nat
    ∧ (∀ ref, g_sections (region_of l ref) = omap (in_region ref) mp)
    ∧ (∀ i h, hs !! i = Some h → ∃ e, mp !! i = Some e ∧ entry_ok h e)
    ∧ (∀ i, (length hs ≤ i < n)%nat → mp !! i = Some None)
}.

Lemma demand_snoc (hs : list SectionHeader_t) h : demand (hs ++ [h]) = demand hs + (if loads h then sh_size h + alignment h else 0).
Proof. unfold demand. induction hs as [|x hs IH]; simpl; [lia|]. rewrite IH. lia. Qed.

Lemma omap_none {A} (f : option A → option Section_) n : f None = None → omap f (replicate n None) = [].
Proof. intros Hf. induction n as [|n IH]; simpl; [done|]. by rewrite Hf. Qed.

Lemma omap_step {A} (f : option A → option Section_) e l : omap f (e :: l) = option_list (f e) ++ omap f l.
Proof. simpl. by destruct (f e). Qed.

(** Entering the next element of the map. *)
Lemma omap_enter (f : option (RegionRef * Section_) → option Section_) (mp : list (option (RegionRef * Section_))) i x :
  f None = None → (i < length mp)%nat → (∀ j, (i ≤ j < length mp)%nat → mp !! j = Some None) →
  omap f (<[i := x]> mp) = omap f mp ++ option_list (f x).
Proof.
  intros Hf. revert i. induction mp as [|e mp IH]; intros i Hi Hn; [simpl in Hi; lia|]. destruct i as [|i].
  - pose proof (Hn 0%nat ltac:(simpl in *; lia)) as E. injection E as ->. change (<[0%nat := x]> (None :: mp)) with (x :: mp). rewrite !omap_step, Hf.
    assert (mp = replicate (length mp) None) as ->.
    { apply list_eq. intros j. destruct (decide (j < length mp)%nat).
      - rewrite lookup_replicate_2 by done. apply (Hn (S j)). simpl. lia.
      - rewrite !lookup_ge_None_2; rewrite ?length_replicate; [done|lia..]. }
    rewrite (omap_none f) by done. simpl. by rewrite app_nil_r.
  - change (<[S i := x]> (e :: mp)) with (e :: <[i := x]> mp). rewrite !omap_step, (IH i); [by rewrite app_assoc|simpl in Hi; lia|]. intros j Hj. apply (Hn (S j)). simpl. lia.
Qed.

Lemma region_of_map mp l ref : region_of (with_map mp l) ref = region_of l ref.
Proof. by destruct ref. Qed.
Lemma region_of_with ref r l ref' : region_of (with_region ref r l) ref' = if decide (ref' = ref) then r else region_of l ref'.
Proof. by destruct ref, ref'. Qed.
Lemma in_region_self ref ref' s : in_region ref' (Some (ref, s)) = if decide (ref' = ref) then Some s else None.
Proof. by destruct ref, ref'. Qed.

Lemma place_ok hs h n l : placed hs n l → (length hs < n)%nat → 0 ≤ sh_size h → pow2 (alignment h) →
  demand (hs ++ [h]) ≤ 2 ^ 32 - 4096 → placed (hs ++ [h]) n (place (Z.of_nat (length hs)) h l).
Proof.
  intros [Hpk Hrm Hb (mp & Hmp & Hln & Hle & Hsec & Hent & Hnone)] Hlt Hs0 Hp2 Hd. rewrite place_eq, Nat2Z.id.
  rewrite demand_snoc in Hd. destruct (loads h) eqn:El.
  - set (r := region_of l (home h)). set (off := align_up (g_size r) (alignment h)).
    assert (0 < sh_size h) as Hsz by (unfold loads in El; lia).
    pose proof (packed_le _ _ _ (Hpk (home h))) as H0. pose proof (Hrm (home h)) as H1. fold r in H0, H1.
    destruct (align_up_pow2 (g_size r) (alignment h) Hp2 ltac:(lia) ltac:(lia)) as [Hoff Hmod]. fold off in Hoff, Hmod.
    set (s := with_off off (new_section h)).
    assert (s_align (new_section h) = alignment h) as Ea by (unfold new_section, alignment; simpl; by destruct (sh_addralign h =? 0)).
    assert (append (new_section h) r = (MkRegion (g_base r) (off + sh_size h) (g_access r) (g_index r) (g_sections r ++ [s]), s)) as Eap.
    { unfold append. rewrite Ea. fold off. unfold s. simpl. by rewrite u32_small by lia. }
    cbv zeta. fold r. rewrite Eap. cbn [fst]. split.
    + intros ref. rewrite region_of_map, region_of_with. destruct (decide (ref = home h)) as [->|]; [|apply Hpk].
      simpl. apply (packed_snoc 0 (g_sections r) (g_size r) s); [apply Hpk|simpl; lia|change (off mod s_align (new_section h) = 0); by rewrite Ea|done].
    + intros ref. rewrite region_of_map, region_of_with, demand_snoc, El. destruct (decide (ref = home h)) as [->|]; simpl; [lia|].
      pose proof (Hrm ref). destruct Hp2 as (k & ? & ->). lia.
    + intros ref. rewrite region_of_map, region_of_with. destruct (decide (ref = home h)) as [->|]; [apply Hb|apply Hb].
    + exists (<[length hs := Some (home h, s)]> mp). split_and!.
      * simpl. by rewrite Hmp.
      * by rewrite length_insert.
      * rewrite length_app. simpl. lia.
      * intros ref. rewrite region_of_map, region_of_with, (omap_enter (in_region ref)); [|by destruct ref|lia|rewrite Hln; apply Hnone].
        rewrite in_region_self. destruct (decide (ref = home h)) as [->|]; simpl; [by rewrite <- Hsec|by rewrite app_nil_r].
      * intros i h' [Hi|[Hi Hh]]%lookup_app_Some.
        { pose proof (lookup_lt_Some _ _ _ Hi). rewrite list_lookup_insert_ne by lia. eauto. }
        apply list_lookup_singleton_Some in Hh as [Hi0 <-]. assert (i = length hs) as -> by lia.
        rewrite list_lookup_insert_eq by lia. eexists. split; [done|]. unfold entry_ok. rewrite El. by exists off.
      * intros i Hi. rewrite length_app in Hi. simpl in Hi. rewrite list_lookup_insert_ne by lia. apply Hnone. lia.
  - split; [done| |done|].
    + intros ref. rewrite demand_snoc, El. pose proof (Hrm ref). lia.
    + exists mp. split_and!; [done..|rewrite length_app; simpl; lia|done| |].
      * intros i h' [Hi|[Hi Hh]]%lookup_app_Some; [eauto|]. apply list_lookup_singleton_Some in Hh as [Hi0 <-].
        exists None. split; [apply Hnone; lia|]. unfold entry_ok. by rewrite El.
      * intros i Hi. rewrite length_app in Hi. simpl in Hi. apply Hnone. lia.
Qed.

Definition headers (m : ram) (obj : Object) : list SectionHeader_t := sec_at m obj <$> seqZ 0 (sec_hdrs_num obj).

(** Headers the layout is defined for: alignments are powers of two, as the format
    demands, and the sizes add up to less than the address space. *)
Definition header_ok (h : SectionHeader_t) : Prop := 0 ≤ sh_size h ∧ pow2 (alignment h).
Definition headers_ok (hs : list SectionHeader_t) : Prop := Forall header_ok hs ∧ demand hs ≤ 2 ^ 32 - 4096.

Lemma demand_app hs1 hs2 : demand (hs1 ++ hs2) = demand hs1 + demand hs2.
Proof. unfold demand. induction hs1 as [|h hs1 IH]; simpl; [done|]. rewrite IH. lia. Qed.

Lemma demand_nonneg hs : Forall header_ok hs → 0 ≤ demand hs.
Proof.
  induction 1 as [|h hs [H1 (k & ? & H2)] _ IH]; simpl; [done|]. unfold demand in *. simpl. destruct (loads h); [rewrite H2|]; lia.
Qed.

Lemma stage0_loop_ok m obj N n : ∀ hs l, placed hs N l →
  let rest := sec_at m obj <$> seqZ (Z.of_nat (length hs)) (Z.of_nat n) in
  (length hs + n ≤ N)%nat → Forall header_ok rest → demand (hs ++ rest) ≤ 2 ^ 32 - 4096 →
  placed (hs ++ rest) N (stage0_loop n (Z.of_nat (length hs)) m obj l).
Proof.
  induction n as [|n IH]; intros hs l Hp rest Hn Hok Hd.
  { unfold rest in *. simpl. by rewrite app_nil_r. }
  set (h := sec_at m obj (Z.of_nat (length hs))).
  assert (rest = h :: (sec_at m obj <$> seqZ (Z.of_nat (length (hs ++ [h]))) (Z.of_nat n))) as Er.
  { unfold rest. rewrite seqZ_cons, fmap_cons by lia. rewrite length_app. simpl length.
    replace (Z.pred (Z.of_nat (S n))) with (Z.of_nat n) by lia. by replace (Z.succ (Z.of_nat (length hs))) with (Z.of_nat (length hs + 1)) by lia. }
  rewrite Er in Hok, Hd |- *. apply Forall_cons in Hok as [Hh Hok].
  rewrite (cons_middle h hs), (app_assoc hs [h]) in Hd. rewrite (cons_middle h hs), (app_assoc hs [h]).
  assert (demand (hs ++ [h]) ≤ 2 ^ 32 - 4096).
  { rewrite demand_app in Hd. pose proof (demand_nonneg _ Hok). lia. }
  cbn [stage0_loop]. replace (Z.of_nat (length hs) + 1) with (Z.of_nat (length (hs ++ [h]))) by (rewrite length_app; simpl; lia).
  apply IH; [|rewrite length_app; simpl; lia|done|done].
  apply place_ok; [done|lia|apply Hh|apply Hh|done].
Qed.

(** The layout of an object with the headers [hs]. *)
Record layout_wf (hs : list SectionHeader_t) (l : Layout) : Prop := {
  lw_packed ref : ∃ e, packed 0 (g_sections (region_of l ref)) e
    ∧ e ≤ g_size (region_of l ref) < e + 4096 ∧ g_size (region_of l ref) mod PAGE_SIZE = 0;
  lw_map : ∃ mp, l_map l = Some mp ∧ length mp = length hs
    ∧ (∀ ref, g_sections (region_of l ref) = omap (in_region ref) mp)
    ∧ ∀ i h, hs !! i = Some h → ∃ e, mp !! i = Some e ∧ entry_ok h e
}.

Definition fresh_layout (obj : Object) : Layout := MkLayout (Some obj) (l_rx layout_init) (l_rw layout_init) None.

Lemma stage0_ok m obj : sec_hdrs obj ≠ NULL → 0 < sec_hdrs_num obj → headers_ok (headers m obj) →
  ∃ l, stage0 m obj (fresh_layout obj) = (true, l) ∧ layout_wf (headers m obj) l ∧ l_obj l = Some obj
    ∧ ∀ ref, g_base (region_of l ref) = 0 ∧ g_size (region_of l ref) < 2 ^ 32.
Proof.
  intros Hs Hn [Hok Hd]. unfold stage0. rewrite (proj2 (Z.eqb_neq _ _) Hs), (proj2 (Z.eqb_neq (sec_hdrs_num obj) 0)) by lia. cbn [orb].
  set (n := Z.to_nat (sec_hdrs_num obj)). set (l0 := with_map (Some (replicate n None)) (fresh_layout obj)).
  assert (placed [] n l0) as H0.
  { split; [by intros []|intros []; simpl; done|by intros []|]. exists (replicate n None). split_and!; [done|by rewrite length_replicate|simpl; lia| |done|].
    - intros ref. rewrite (omap_none (in_region ref)) by (by destruct ref). by destruct ref.
    - intros i Hi. apply lookup_replicate_2. lia. }
  assert (headers m obj = sec_at m obj <$> seqZ (Z.of_nat 0) (Z.of_nat n)) as Eh by (unfold headers, n; by rewrite Z2Nat.id by lia).
  pose proof (stage0_loop_ok m obj n n [] l0 H0) as Hp. cbn [length app] in Hp. rewrite <- Eh in Hp. specialize (Hp ltac:(lia) Hok Hd).
  change (Z.of_nat 0) with 0 in Hp. set (l1 := stage0_loop n 0 m obj l0) in *.
  assert (l_obj l1 = Some obj) as Eo.
  { unfold l1. clear. assert (∀ n i l, l_obj (stage0_loop n i m obj l) = l_obj l) as ->; [|done].
    clear. induction n as [|n IH]; intros i l; simpl; [done|]. rewrite IH, place_eq. destruct (loads _); [|done]. by destruct (home _). }
  assert (length (headers m obj) = n) as Eln by (unfold headers; by rewrite length_fmap, length_seqZ).
  destruct Hp as [Hpk Hrm Hb (mp & Hmp & Hln & _ & Hsec & Hent & _)].
  eexists. split; [done|]. split_and!; [|done|].
  - split.
    + intros ref. exists (g_size (region_of l1 ref)). rewrite !region_of_with. pose proof (packed_le _ _ _ (Hpk ref)). pose proof (Hrm ref).
      assert (∀ r, packed 0 (g_sections r) (g_size r) → 0 ≤ g_size r → g_size r ≤ 2 ^ 32 - 4096 →
        packed 0 (g_sections (with_size (align_up (g_size r) PAGE_SIZE) r)) (g_size r)
        ∧ g_size r ≤ align_up (g_size r) PAGE_SIZE < g_size r + 4096 ∧ align_up (g_size r) PAGE_SIZE mod PAGE_SIZE = 0) as Hr.
      { intros r ? ? ?. rewrite align_up_page by lia. unfold PAGE_SIZE. split_and!; [done|dlia..]. }
      destruct ref; simpl in *; apply Hr; (done || lia || apply (Hpk InRX) || apply (Hpk InRW)).
    + exists mp. split_and!; [done|lia| |done]. intros ref. rewrite <- Hsec, !region_of_with. by destruct ref.
  - intros ref. pose proof (Hb ref). pose proof (Hrm ref). pose proof (packed_le _ _ _ (Hpk ref)). rewrite !region_of_with.
    destruct ref; simpl in *; (split; [done|apply (land_range 32); [lia|apply u32_range]]).
Qed.

Lemma packed_disjoint secs : ∀ lo hi i j s1 s2, packed lo secs hi → secs !! i = Some s1 → secs !! j = Some s2 → (i < j)%nat →
  s_reg_off s1 + s_size s1 ≤ s_reg_off s2.
Proof.
  induction secs as [|x secs IH]; intros lo hi i j s1 s2 Hp Hi Hj Hij; [by rewrite lookup_nil in Hi|].
  destruct j as [|j]; [lia|]. simpl in Hj, Hp. destruct Hp as (_ & _ & _ & Hp). destruct i as [|i]; simpl in Hi.
  - injection Hi as ->. apply list_elem_of_lookup_2 in Hj. destruct (packed_in _ _ _ _ Hp Hj). lia.
  - eapply IH; [exact Hp|done..|lia].
Qed.

(** C17: stage 0 lays the sections out. For headers whose alignments are powers of two
    and whose sizes fit the address space it succeeds: exactly the sections with the ALLOC flag,
    a type and a size are placed, executable ones in the first region, the others in the
    second, each entered in the map under its index; within a region the sections are those of the map
    in order, at multiples of their alignment, disjoint, and end inside the region, whose
    size is the next multiple of the page size. *)
Theorem stage0_layout m obj :
  sec_hdrs obj ≠ NULL → 0 < sec_hdrs_num obj → headers_ok (headers m obj) →
  ∃ l, stage0 m obj (fresh_layout obj) = (true, l) ∧ layout_wf (headers m obj) l
    ∧ (∀ ref i j s1 s2, g_sections (region_of l ref) !! i = Some s1 → g_sections (region_of l ref) !! j = Some s2 → (i < j)%nat →
         s_reg_off s1 + s_size s1 ≤ s_reg_off s2 ∧ s_reg_off s2 + s_size s2 ≤ g_size (region_of l ref)).
Proof.
  intros Hs Hn Hok. destruct (stage0_ok m obj Hs Hn Hok) as (l & Hl & Hwf & _). exists l. split_and!; [done..|].
  intros ref i j s1 s2 Hi Hj Hij. destruct (lw_packed _ _ Hwf ref) as (e & Hp & He & _). split; [by eapply packed_disjoint|].
  apply list_elem_of_lookup_2 in Hj. destruct (packed_in _ _ _ _ Hp Hj). lia.
Qed.

Lemma demo_headers_ok : headers_ok (headers DemoObject.mem demo_object).
Proof.
  split; [|by vm_compute]. apply Forall_forall. intros h Hh. unfold headers in Hh. apply list_elem_of_fmap in Hh as (i & -> & Hi).
  apply elem_of_seqZ in Hi. change (sec_hdrs_num demo_object) with 6 in Hi. revert i Hi.
  refine (interval_forall _ 0 6 _). intros k Hk. do 6 (destruct k as [|k];
    [split; [by vm_compute|]; first [exists 0; split; [lia|]; vm_compute; reflexivity|exists 4; split; [lia|]; vm_compute; reflexivity
      |exists 2; split; [lia|]; vm_compute; reflexivity]|]). lia.
Qed.

Lemma stage0_layout_witness :
  ∃ l, stage0 DemoObject.mem demo_object (fresh_layout demo_object) = (true, l) ∧ layout_wf (headers DemoObject.mem demo_object) l.
Proof.
  destruct (stage0_layout DemoObject.mem demo_object) as (l & H1 & H2 & _); [done|by vm_compute|apply demo_headers_ok|].
  exists l. exact (conj H1 H2).
Defined.

(** ** Stage 1 *)

Lemma memcpy_ok n : ∀ m dst src, bytes_ok m → dst + Z.of_nat n ≤ src ∨ src + Z.of_nat n ≤ dst →
  (∀ k, 0 ≤ k < Z.of_nat n → memcpy_loop n m dst src (dst + k) = m (src + k))
  ∧ (∀ b, b < dst ∨ dst + Z.of_nat n ≤ b → memcpy_loop n m dst src b = m b)
  ∧ bytes_ok (memcpy_loop n m dst src).
Proof.
  induction n as [|n IH]; intros m dst src Hb Hd; [split_and!; [lia|done..]|]. cbn [memcpy_loop].
  destruct (IH (wr8 m dst (m src)) (dst + 1) (src + 1)) as (H1 & H2 & H3); [by apply wr8_bytes|lia|]. split_and!; [| |done].
  - intros k Hk. destruct (decide (k = 0)) as [->|].
    + rewrite Z.add_0_r, H2, wr8_same, Z.add_0_r by lia. by apply wrap_small, Hb.
    + replace (dst + k) with (dst + 1 + (k - 1)) by lia. rewrite H1, wr8_other by lia. f_equal. lia.
  - intros b Hb'. rewrite H2, wr8_other by lia. done.
Qed.

(** The bytes section [s] is to have, in the file that [m] holds. *)
Definition content (m : ram) (obj : Object) (s : Section_) (k : Z) : Z :=
  match s_kind s with PROGBITS => m (header_offset obj (s_file_off s) + k) | _ => 0 end.

(** The file contents of [s] are there, apart from the region. *)
Definition source_ok (obj : Object) (reg : Region) (s : Section_) : Prop :=
  s_kind s = PROGBITS → header_offset obj (s_file_off s) ≠ NULL
    ∧ (header_offset obj (s_file_off s) + s_size s ≤ g_base reg ∨ g_base reg + g_size reg ≤ header_offset obj (s_file_off s)).

Lemma copy_sections_ok reg obj secs : ∀ m lo e, bytes_ok m → 0 ≤ lo → packed lo secs e → e ≤ g_size reg →
  0 ≤ g_base reg → g_base reg + g_size reg < 2 ^ 32 → Forall (source_ok obj reg) secs →
  ∃ m', copy_sections secs reg obj m = (true, m')
    ∧ (∀ s k, s ∈ secs → 0 ≤ k < s_size s → m' (g_base reg + s_reg_off s + k) = content m obj s k)
    ∧ (∀ b, b < g_base reg + lo ∨ g_base reg + g_size reg ≤ b → m' b = m b) ∧ bytes_ok m'.
Proof.
  induction secs as [|s secs IH]; intros m lo e Hby Hlo Hp He Hb0 Hb1 Hsrc.
  { exists m. split_and!; [done|by intros ? ? ?%elem_of_nil|done|done]. }
  simpl in Hp. destruct Hp as (Hl & _ & Hs & Hp). pose proof (packed_le _ _ _ Hp) as Hle.
  apply Forall_cons in Hsrc as [Hs1 Hsrc]. cbn [copy_sections].
  assert (validate_region_section_bounds reg s 0 = true) as ->.
  { unfold validate_region_section_bounds. rewrite (u32_small (s_reg_off s + s_size s)) by lia.
    rewrite !(proj2 (Z.ltb_ge _ _)) by lia. done. }
  cbn [negb]. rewrite (u32_small (g_base reg + s_reg_off s)) by lia. set (dst := g_base reg + s_reg_off s).
  assert (∃ m1, (∀ k, 0 ≤ k < s_size s → m1 (dst + k) = content m obj s k) ∧ (∀ b, b < dst ∨ dst + s_size s ≤ b → m1 b = m b) ∧ bytes_ok m1
    ∧ (match s_kind s with
       | PROGBITS => if header_offset obj (s_file_off s) =? NULL then (false, m)
                     else copy_sections secs reg obj (memcpy m dst (header_offset obj (s_file_off s)) (s_size s))
       | NOBITS => copy_sections secs reg obj (memset m dst 0 (s_size s))
       | UNKNOWN => copy_sections secs reg obj (memset m dst 0 (s_size s)) end = copy_sections secs reg obj m1)) as (m1 & H1 & H2 & H3 & ->).
  { assert (∀ k, 0 ≤ k < s_size s → memset m dst 0 (s_size s) (dst + k) = 0) as Hset.
    { intros k Hk. unfold memset. by rewrite fill8_in by lia. }
    assert (∀ b, b < dst ∨ dst + s_size s ≤ b → memset m dst 0 (s_size s) b = m b) as Hset'.
    { intros b Hb. unfold memset. by rewrite fill8_other by lia. }
    pose proof (fill8_bytes 0 (Z.to_nat (s_size s)) m dst Hby : bytes_ok (memset m dst 0 (s_size s))) as Hset3.
    unfold content. destruct (s_kind s) eqn:Ek; [exists (memset m dst 0 (s_size s)); by split_and!| |
      exists (memset m dst 0 (s_size s)); by split_and!].
    destruct (Hs1 Ek) as [Hn Hd]. rewrite (proj2 (Z.eqb_neq _ _) Hn).
    destruct (memcpy_ok (Z.to_nat (s_size s)) m dst (header_offset obj (s_file_off s)) Hby ltac:(lia)) as (M1 & M2 & M3).
    eexists. split_and!; [| | |done]; [intros k Hk; apply M1; lia|intros b Hb; apply M2; lia|done]. }
  destruct (IH m1 (s_reg_off s + s_size s) e H3 ltac:(lia) Hp He Hb0 Hb1 Hsrc) as (m' & -> & G1 & G2 & G3). exists m'. split; [done|]. split_and!; [| |done].
  - intros x k [->|Hx]%elem_of_cons Hk; [rewrite G2 by lia; apply H1; lia|]. rewrite G1 by done.
    unfold content. destruct (s_kind x) eqn:Ek; [done| |done]. rewrite Forall_forall in Hsrc. destruct (Hsrc x Hx Ek) as [_ Hd].
    apply H2. destruct (packed_in _ _ _ _ Hp Hx). lia.
  - intros b Hb. rewrite G2, H2 by lia. done.
Qed.

Lemma LMM_ok : params_ok LMM.
Proof. unfold params_ok. split_and!; vm_compute; done. Qed.

Lemma LMM_addr k : unit_addr LMM k = MODULE_SPACE_BASE + k * 4096.
Proof. done. Qed.

(** C18: stage 1 fills a region. When the module space has a run of free pages and the memory
    managers give frames and a mapping for it, the region gets the first such run,
    which was free and is now taken, and its memory then holds for every section the bytes
    of the file (PROGBITS) or zeros; no byte outside the region changes. *)
Theorem stage1_contents {S} `{PageSpace S} junk reg obj (L : Linker S) A e k phys sp sp' :
  let n := g_size reg / PAGE_SIZE in
  let reg' := with_base (unit_addr LMM k) reg in
  bytes_ok (lmem L) → rep LMM (lmm L) A → packed 0 (g_sections reg) e → e ≤ g_size reg → g_size reg mod PAGE_SIZE = 0 →
  0 < n ≤ MODULE_SPACE_PAGE_COUNT → find_run LMM A n = Some k →
  ps_alloc_frames n (space L) = Ok (phys, sp) → phys ≠ 0 → ps_map_pages (unit_addr LMM k) phys n 3 sp = Ok sp' →
  Forall (source_ok obj reg') (g_sections reg) →
  ∃ mm m', stage1 junk reg obj L = Ok (true, reg', MkLinker (layouts L) mm sp' m')
    ∧ rep LMM mm (A ∪ run k n) ∧ run k n ## A
    ∧ (∀ s j, s ∈ g_sections reg → 0 ≤ j < s_size s → m' (g_base reg' + s_reg_off s + j) = content (lmem L) obj s j)
    ∧ (∀ b, b < g_base reg' ∨ g_base reg' + g_size reg ≤ b → m' b = lmem L b).
Proof.
  intros n reg' Hby Hrep Hp He Hmod Hn Hk Hfr Hph Hmap Hsrc. unfold stage1. fold n.
  assert (g_size reg = 4096 * n) as Es by (unfold n, PAGE_SIZE in *; clear - Hmod; dlia).
  rewrite (proj2 (Z.eqb_neq (g_size reg) 0)) by lia.
  pose proof (alloc_units_ok LMM LMM_ok (lmm L) A n Hrep Hn) as Ha. rewrite Hk in Ha. destruct Ha as (mm & -> & Hmm).
  apply (find_run_Some LMM) in Hk as (Hk0 & Hk1 & Hdis & _); [|lia].
  change (MAX_UNITS LMM) with 128 in *. assert (g_base reg' + g_size reg ≤ 0x0A080000) as Hend.
  { simpl. rewrite LMM_addr. unfold MODULE_SPACE_BASE. lia. }
  assert (0x0A000000 ≤ g_base reg') as Hbase by (simpl; rewrite LMM_addr; unfold MODULE_SPACE_BASE; lia).
  cbn. rewrite Hfr. cbn. rewrite (proj2 (Z.eqb_neq phys 0)) by done.
  change (Z.lor Vmm.Flags.Present Vmm.Flags.Writable) with 3. rewrite Hmap. cbn. fold reg'.
  set (m1 := fresh_pages junk (unit_addr LMM k) (g_size reg) (lmem L)).
  destruct (copy_sections_ok reg' obj (g_sections reg) m1 0 e) as (m' & -> & H1 & H2 & _); try done; try lia.
  - intros b. unfold m1, fresh_pages. destruct (_ && _); [apply (wrap_range 8); lia|apply Hby].
  - simpl in *. lia.
  - exists mm, m'. split; [done|]. split_and!; [done..| |].
    + intros s j Hs Hj. rewrite H1 by done. unfold content. destruct (s_kind s) eqn:Ek; [done| |done].
      rewrite Forall_forall in Hsrc. destruct (Hsrc s Hs Ek) as [_ Hd]. unfold m1, fresh_pages. change (unit_addr LMM k) with (g_base reg').
      destruct (_ && _) eqn:E; [|done]. change (g_size reg') with (g_size reg) in Hd. exfalso. lia.
    + intros b Hb. change (unit_addr LMM k) with (g_base reg') in Hb. rewrite H2 by (change (g_size reg') with (g_size reg); lia). unfold m1, fresh_pages. change (unit_addr LMM k) with (g_base reg').
      destruct (_ && _) eqn:E; [lia|done].
Qed.

(** A page space with frames at 1 MiB, for the witnesses. *)
#[export] Instance demo_space : PageSpace () := {|
  ps_alloc_frames _ s := Ok (0x100000, s); ps_map_pages _ _ _ _ s := Ok s; ps_unmap_pages _ _ s := Ok s |}.
Definition demo_linker : Linker () := linker_init () DemoObject.mem.
Definition demo_layout : Layout := (stage0 DemoObject.mem demo_object (fresh_layout demo_object)).2.

Definition demo_text : Section_ := MkSection Access.RX PROGBITS 16 100 0 16 6.
Definition demo_rx : Region := MkRegion 0 4096 Access.RX 0 [demo_text].

Lemma stage1_contents_witness : l_rx demo_layout = demo_rx ∧ ∃ mm m',
  stage1 (λ _, 0) demo_rx demo_object demo_linker
    = Ok (true, with_base MODULE_SPACE_BASE demo_rx, MkLinker (layouts demo_linker) mm () m')
  ∧ m' (MODULE_SPACE_BASE + 4) = 8.
Proof.
  split; [vm_compute; reflexivity|].
  assert (packed 0 (g_sections demo_rx) 16) as Hp by (vm_compute; intuition congruence).
  assert (find_run LMM ∅ 1 = Some 0) as Hf by (vm_compute; reflexivity).
  assert (Forall (source_ok demo_object (with_base MODULE_SPACE_BASE demo_rx)) (g_sections demo_rx)) as Hs.
  { apply Forall_singleton. intros _. split; [vm_compute; congruence|]. left. vm_compute. congruence. }
  destruct (stage1_contents (λ _, 0) demo_rx demo_object demo_linker ∅ 16 0 0x100000 () () demo_bytes (bitmap_init_rep LMM LMM_ok) Hp
    ltac:(vm_compute; congruence) eq_refl ltac:(split; vm_compute; congruence) Hf eq_refl ltac:(discriminate) eq_refl Hs)
    as (mm & m' & H1 & _ & _ & H2 & _).
  exists mm, m'. split; [exact H1|].
  exact (H2 demo_text 4 (list_elem_of_here _ _) ltac:(split; vm_compute; congruence)).
Defined.
