(* ===== verification/ModulePages.v ===== *)
(** The pages of module space.

    The linker takes frames, maps them into module space and unmaps them again. [ModulePages]
    states what it relies on: which page is on which frame, which other frames are in use, and
    how the calls change that. The machine of [Vmm.v] with the allocator of [Pmm.v] keeps these
    laws, and so does a ledger, the smallest space there is. *)
From S2P Require Import Prelude Bitmap Memory Layout Pmm Vmm Backing Linker LinkerSpec.

(** The frame of every mapped page of module space, by the page's number in it; the frames that are in
    use elsewhere; whether the page table of module space is there. *)
Record Pages := MkPages { frame_of : gmap Z Z; others : gset Z; has_table : bool }.
Definition page_set (P : Pages) : gset Z := dom (frame_of P).
Definition held (P : Pages) : gset Z := map_img (frame_of P).
Definition used (P : Pages) : gset Z := others P ∪ held P.

(** Elsewhere at most one more frame is in use, for the page table if it was missing. *)
Definition table_taken (P P' : Pages) : Prop :=
  (others P' = others P ∧ has_table P' = has_table P)
  ∨ (has_table P = false ∧ has_table P' = true ∧ ∃ T, (T ∉ used P) ∧ others P' = others P ∪ {[T]}).
(** The pages [X] are mapped, each to a frame of its own that was free; the others stay. *)
Record takes (X : gset Z) (P P' : Pages) : Prop := {
  tk_old p : p ∉ X → frame_of P' !! p = frame_of P !! p;
  tk_new p : p ∈ X → ∃ f, frame_of P' !! p = Some f ∧ f ∉ used P;
  tk_own p q f : p ∈ X → q ∈ X → frame_of P' !! p = Some f → frame_of P' !! q = Some f → p = q;
  tk_table : table_taken P P'
}.
(** The pages [X] are unmapped and their frames free; nothing else changes. *)
Definition removes (X : gset Z) (P P' : Pages) : Prop :=
  (∀ p, frame_of P' !! p = if decide (p ∈ X) then None else frame_of P !! p)
  ∧ others P' = others P ∧ has_table P' = has_table P.
(** There is no run of free frames for [n] pages, or none left for the page table. *)
Definition scarce (n : Z) (P : Pages) : Prop :=
  (∀ f, 0 ≤ f → f + n ≤ 2 ^ 20 → ¬ run f n ## used P)
  ∨ has_table P = false ∧ 2 ^ 20 ≤ Z.of_nat (size (used P)) + n.

(** The call returns, or panics because frames are short. *)
Definition served {A} (scarcity : Prop) (r : res A) (Q : A → Prop) : Prop :=
  match r with Ok a => Q a | Panic msg => msg = out_of_frames ∧ scarcity | _ => False end.

Class ModulePages (S : Type) `{PageSpace S} := {
  space_ok : S → Pages → Prop;
  space_apart s P : space_ok s P → others P ## held P;
  space_map s P k n : space_ok s P → 0 ≤ k → 0 < n → k + n ≤ MAX_UNITS LMM → run k n ## page_set P →
    served (scarce n P) (ps_alloc_frames n s) (λ '(a, s1), a ≠ 0 ∧
      served (scarce n P) (ps_map_pages (unit_addr LMM k) a n (Z.lor Flags.Present Flags.Writable) s1)
        (λ s', ∃ P', space_ok s' P' ∧ takes (run k n) P P'));
  space_unmap s P k n : space_ok s P → 0 ≤ k → 0 < n → k + n ≤ MAX_UNITS LMM → run k n ⊆ page_set P →
    ∃ s' P', ps_unmap_pages (unit_addr LMM k) n s = Ok s' ∧ space_ok s' P' ∧ removes (run k n) P P'
}.

(** ** Runs of pages *)

Definition put_run (k f n : Z) (K : gmap Z Z) : gmap Z Z := foldr (λ i, <[k + i := f + i]>) K (seqZ 0 n).
Lemma put_run_lookup k f n K p : put_run k f n K !! p = if decide (k ≤ p < k + n) then Some (f + (p - k)) else K !! p.
Proof.
  unfold put_run. assert (∀ l, foldr (λ i, <[k + i := f + i]>) K l !! p = if decide (p - k ∈ l) then Some (f + (p - k)) else K !! p) as ->.
  { induction l as [|i l IH]; simpl; [done|]. destruct (decide (k + i = p)) as [<-|Hne].
    - rewrite lookup_insert_eq, decide_True by (replace (k + i - k) with i by lia; by left). f_equal. lia.
    - rewrite lookup_insert_ne, IH by done. destruct (decide (p - k ∈ l)); [by rewrite decide_True by (by right)|].
      rewrite decide_False; [done|]. intros [E|?]%elem_of_cons; [lia|done]. }
  destruct (decide (k ≤ p < k + n)); [rewrite decide_True|rewrite decide_False]; rewrite ?elem_of_seqZ; (done || lia).
Qed.

Definition cut_run (k n : Z) (K : gmap Z Z) : gmap Z Z := filter (λ '(p, _), p ∉ run k n) K.
Lemma cut_run_lookup k n K p : cut_run k n K !! p = if decide (p ∈ run k n) then None else K !! p.
Proof.
  unfold cut_run. destruct (decide (p ∈ run k n)) as [Hp|Hp].
  - apply map_lookup_filter_None. right. intros f _ Hn. by apply Hn.
  - destruct (K !! p) as [f|] eqn:E; [by apply map_lookup_filter_Some|]. apply map_lookup_filter_None. by left.
Qed.

Lemma elem_of_pages P p : p ∈ page_set P ↔ ∃ f, frame_of P !! p = Some f.
Proof. apply elem_of_dom. Qed.
Lemma elem_of_held P f : f ∈ held P ↔ ∃ p, frame_of P !! p = Some f.
Proof. apply elem_of_map_img. Qed.

(** *** Taking and giving back *)

Lemma takes_pages X P P' : takes X P P' → page_set P' = page_set P ∪ X.
Proof.
  intros [Hold Hnew _ _]. apply set_eq. intros p. rewrite elem_of_union, !elem_of_pages. destruct (decide (p ∈ X)) as [Hp|Hp].
  - destruct (Hnew p Hp) as (f & Hf & _). split; [by right|by eauto].
  - rewrite Hold by done. tauto.
Qed.

Lemma removes_pages X P P' : removes X P P' → page_set P' = page_set P ∖ X.
Proof.
  intros (Hp & _). apply set_eq. intros p. rewrite elem_of_difference, !elem_of_pages, Hp.
  destruct (decide _); [|tauto]. split; [by intros []|tauto].
Qed.

Lemma table_same P : table_taken P P.
Proof. by left. Qed.

Lemma takes_none P : takes ∅ P P.
Proof. split; [done|set_solver..|apply table_same]. Qed.

Lemma takes_used X P P' : X ## page_set P → takes X P P' → used P ⊆ used P'.
Proof.
  intros Hd [Hold Hnew _ Ht] g [Hg|[p Hp]%elem_of_held]%elem_of_union.
  - apply elem_of_union_l. destruct Ht as [[-> _]|(_ & _ & T & _ & ->)]; [done|set_solver].
  - apply elem_of_union_r, elem_of_held. exists p. rewrite Hold; [done|]. intros Hx. apply (Hd p Hx). apply elem_of_pages. by exists g.
Qed.

Lemma table_trans X P P1 P2 : X ## page_set P → takes X P P1 → table_taken P1 P2 → table_taken P P2.
Proof.
  intros Hd Ht1 [[E1 E2]|(F1 & F2 & T & HT & E)].
  - unfold table_taken. rewrite E1, E2. apply Ht1.
  - destruct (tk_table _ _ _ Ht1) as [[E1 E2]|(_ & E2 & _)]; [|congruence]. right. split_and!; [congruence|done|].
    exists T. split; [|by rewrite E, E1]. intros Hin. by apply HT, (takes_used X P P1).
Qed.

Lemma takes_trans X Y P P1 P2 : X ## page_set P → takes X P P1 → Y ## page_set P1 → takes Y P1 P2 → takes (X ∪ Y) P P2.
Proof.
  intros Hx H1 Hy H2. pose proof (takes_used X P P1 Hx H1) as Hsub. pose proof (takes_pages _ _ _ H1) as Epg.
  assert (∀ p, p ∈ X → frame_of P2 !! p = frame_of P1 !! p) as Hkeep by (intros p Hp; apply (tk_old _ _ _ H2); set_solver).
  assert (∀ p f, p ∈ X → frame_of P2 !! p = Some f → f ∈ used P1) as Hus.
  { intros p f Hp Hf. rewrite Hkeep in Hf by done. apply elem_of_union_r, elem_of_held. by exists p. }
  assert (∀ p f, p ∈ Y → frame_of P2 !! p = Some f → f ∉ used P1) as Hnu.
  { intros p f Hp Hf. destruct (tk_new _ _ _ H2 p Hp) as (g & Hg & Hn). congruence. }
  split.
  - intros p Hp. rewrite (tk_old _ _ _ H2), (tk_old _ _ _ H1) by set_solver. done.
  - intros p [Hp|Hp]%elem_of_union.
    + destruct (tk_new _ _ _ H1 p Hp) as (f & Hf & Hn). exists f. by rewrite Hkeep.
    + destruct (tk_new _ _ _ H2 p Hp) as (f & Hf & Hn). exists f. split; [done|]. intros Hin. by apply Hn, Hsub.
  - intros p q f [Hp|Hp]%elem_of_union [Hq|Hq]%elem_of_union Ep Eq.
    + rewrite Hkeep in Ep, Eq by done. by apply (tk_own _ _ _ H1 p q f).
    + destruct (Hnu q f Hq Eq). by eapply Hus.
    + destruct (Hnu p f Hp Ep). by eapply Hus.
    + by apply (tk_own _ _ _ H2 p q f).
  - eapply table_trans; [exact Hx|exact H1|apply H2].
Qed.

Lemma removes_none P : removes ∅ P P.
Proof. split_and!; [|done..]. intros p. by rewrite decide_False by set_solver. Qed.

Lemma removes_trans X Y P P1 P2 : removes X P P1 → removes Y P1 P2 → removes (X ∪ Y) P P2.
Proof.
  intros (H1 & E1 & T1) (H2 & E2 & T2). split_and!; [|congruence..]. intros p. rewrite H2, H1.
  destruct (decide (p ∈ Y)); [by rewrite decide_True by set_solver|]. destruct (decide (p ∈ X)); [by rewrite decide_True by set_solver|].
  by rewrite decide_False by set_solver.
Qed.

(** Giving some pages back and then the rest. *)
Lemma removes_all X P P1 P2 : removes X P P1 → removes (page_set P1) P1 P2 → removes (page_set P) P P2.
Proof.
  intros (H1 & E1 & T1) (H2 & E2 & T2). split_and!; [|congruence..]. intros p.
  assert (frame_of P2 !! p = None) as ->.
  { rewrite H2. destruct (decide _) as [|Hp]; [done|]. apply eq_None_not_Some. intros [f Hf]. apply Hp, elem_of_pages. by exists f. }
  destruct (decide _) as [|Hp]; [done|]. symmetry. apply eq_None_not_Some. intros [f Hf]. apply Hp, elem_of_pages. by exists f.
Qed.

(** What was taken and given back is mapped as before. *)
Lemma takes_removes X P P1 P2 : X ## page_set P → takes X P P1 → removes X P1 P2 → frame_of P2 = frame_of P ∧ table_taken P P2.
Proof.
  intros Hd H1 (H2 & E2 & T2). split.
  - apply map_eq. intros p. rewrite H2. destruct (decide (p ∈ X)) as [Hp|Hp]; [|by apply H1].
    symmetry. apply eq_None_not_Some. intros [f Hf]. apply (Hd p Hp). apply elem_of_pages. by exists f.
  - eapply table_trans; [exact Hd|exact H1|by left].
Qed.

(** A run of free frames under a run of pages. *)
Lemma takes_run k f n O P : run k n ## page_set P → run f n ## used P →
  table_taken P (MkPages (put_run k f n (frame_of P)) (others P ∪ O) true) →
  takes (run k n) P (MkPages (put_run k f n (frame_of P)) (others P ∪ O) true).
Proof.
  intros Hd Hf Ht. split; cbn [frame_of]; [| | |done].
  - intros p Hp. rewrite put_run_lookup, decide_False; [done|]. by rewrite <- elem_of_run.
  - intros p Hp%elem_of_run. exists (f + (p - k)). rewrite put_run_lookup, decide_True by lia. split; [done|].
    intros Hin. apply (Hf (f + (p - k))); [apply elem_of_run; lia|done].
  - intros p q g Hp%elem_of_run Hq%elem_of_run. rewrite !put_run_lookup, !decide_True by lia. intros [= <-] [= E]. lia.
Qed.

(** ** The machine *)

Definition MODULE_PAGE : Z := MODULE_SPACE_BASE / 4096.
Definition MODULE_TABLE : Z := MODULE_PAGE / 1024.

(** The frames in use are those of [P], the page tables map module space as [P] says, and its
    frames hold data. *)
Record machine_ok (m : machine pmm) (P : Pages) (D : Z) : Prop := {
  mo_wf : wf m D (used P);
  mo_apart : others P ## held P;
  mo_table : has_table P = Z.testbit (pd (mem m) D MODULE_TABLE) 0;
  mo_pages k : 0 ≤ k < MAX_UNITS LMM → page_of (mem m) D (MODULE_PAGE + k) = frame_of P !! k;
  mo_data k f : frame_of P !! k = Some f → 0 ≤ k < MAX_UNITS LMM ∧ data_frame (mem m) D (used P) f;
  mo_inj k l f : frame_of P !! k = Some f → frame_of P !! l = Some f → k = l
}.

Lemma unit_page k : 0 ≤ k → unit_addr LMM k / 4096 = MODULE_PAGE + k ∧ unit_addr LMM k mod 4096 = 0
  ∧ unit_addr LMM k = MODULE_SPACE_BASE + 4096 * k.
Proof. intros Hk. rewrite LMM_addr. unfold MODULE_PAGE, MODULE_SPACE_BASE. dlia. Qed.

Lemma module_units : MAX_UNITS LMM = 128.
Proof. done. Qed.

Lemma module_in_table k n : 0 ≤ k → k + n ≤ MAX_UNITS LMM → in_table MODULE_TABLE (MODULE_PAGE + k) n.
Proof. rewrite module_units. intros Hk Hn q Hq. unfold MODULE_TABLE, MODULE_PAGE, MODULE_SPACE_BASE in *. dlia. Qed.

(** The space after a run of fresh frames was mapped. *)
Definition with_run (k f n : Z) (O : gset Z) (P : Pages) : Pages := MkPages (put_run k f n (frame_of P)) (others P ∪ O) true.

Lemma with_run_used k f n O P : run k n ## page_set P → 0 ≤ n →
  used (with_run k f n O P) = used P ∪ run f n ∪ O.
Proof.
  intros Hd Hn. apply set_eq. intros g. unfold used. rewrite !elem_of_union, !elem_of_held. cbn [with_run others frame_of].
  rewrite elem_of_union, elem_of_run. setoid_rewrite put_run_lookup. split.
  - intros [?|[p Hp]]; [tauto|]. destruct (decide _); [|by eauto]. injection Hp as <-. left. right. lia.
  - intros [[[?|[p Hp]]|Hg]|?]; [tauto| | |tauto]; right.
    + exists p. rewrite decide_False; [done|]. intros Hr. apply (Hd p); [by apply elem_of_run|]. by apply elem_of_dom_2 in Hp.
    + exists (k + (g - f)). rewrite decide_True by lia. f_equal. lia.
Qed.

Lemma alloc_frames_cases m D A n : wf m D A → 0 < n ≤ 2 ^ 20 →
  (∃ a fs, alloc_frames n (frames m) = Ok (a, fs))
  ∨ alloc_frames n (frames m) = Panic out_of_frames ∧ ∀ f, 0 ≤ f → f + n ≤ 2 ^ 20 → ¬ run f n ## A.
Proof.
  intros Hwf Hn. destruct (find_run PMM A n) as [f|] eqn:Ef; [left|right].
  - apply find_run_Some in Ef as (H0 & H1 & Hd & _); [|lia].
    destruct (alloc_frames_total (frames m) A n) as [[a fs] E]; [apply Hwf|done|by exists f|]. by exists a, fs.
  - assert (∀ f, 0 ≤ f → f + n ≤ 2 ^ 20 → ¬ run f n ## A) as Hno by (intros f; by apply (find_run_None PMM)).
    split; [|done]. apply (alloc_frames_none (frames m) A n); [apply Hwf|done|exact Hno].
Qed.

(** Mapping a run of fresh frames. *)
Lemma machine_adds m P D k f n m' A' : machine_ok m P D → 0 ≤ k → 0 < n → k + n ≤ MAX_UNITS LMM → run k n ## page_set P →
  (∀ g, f ≤ g < f + n → (g ∉ used P) ∧ data_frame (mem m) D (used P ∪ run f n) g) →
  (∀ g, data_frame (mem m) D (used P) g → data_frame (mem m) D (used P ∪ run f n) g) →
  wf m' D A' → keeps (mem m) D (used P ∪ run f n) (mem m') A' →
  (∀ i, 0 ≤ i < n → page_of (mem m') D (MODULE_PAGE + k + i) = Some (f + i)) →
  (∀ q, 0 ≤ q < 0xFFC00 → q < MODULE_PAGE + k ∨ MODULE_PAGE + k + n ≤ q → page_of (mem m') D q = page_of (mem m) D q) →
  one_table (has_table P) (used P ∪ run f n) A' → Z.testbit (pd (mem m') D MODULE_TABLE) 0 = true →
  ∃ P', machine_ok m' P' D ∧ takes (run k n) P P'.
Proof.
  intros [Hwf Hap Ht Hpg Hda Hin] Hk Hn Hkn Hd Hnew Hold Hwf' Hkeep Hto Hout Hone Hbit.
  assert (∃ O, A' = used P ∪ run f n ∪ O ∧ table_taken P (with_run k f n O P) ∧ O ## used P ∪ run f n) as (O & -> & Ho & HO).
  { unfold one_table, table_taken in *. cbn [with_run others has_table]. destruct (has_table P).
    - exists ∅. rewrite !union_empty_r_L. split_and!; [done|by left|set_solver].
    - destruct Hone as (T & HT & ->). exists {[T]}. split_and!; [done| |set_solver]. right. split_and!; [done|done|]. exists T. split; [|done]. set_solver. }
  set (P' := with_run k f n O P). assert (used P' = used P ∪ run f n ∪ O) as Eu by (apply with_run_used; [done|lia]).
  assert (∀ p g, frame_of P' !! p = Some g → (k ≤ p < k + n ∧ g = f + (p - k)) ∨ frame_of P !! p = Some g) as Hcase.
  { intros p g. unfold P'. cbn [with_run frame_of]. rewrite put_run_lookup. destruct (decide _); [intros [= <-]; by left|by right]. }
  assert (∀ p g, frame_of P !! p = Some g → g ∈ used P) as Hus.
  { intros p g Hg. unfold used. apply elem_of_union_r, elem_of_held. by exists p. }
  exists P'. split.
  - split; rewrite ?Eu; [done| |exact (eq_sym Hbit)| | |].
    + intros g Hg Hg'. apply elem_of_held in Hg' as (p & [[Hp ->]|Hp]%Hcase).
      * destruct (Hnew (f + (p - k))) as [HnA _]; [lia|]. cbn in Hg. apply elem_of_union in Hg as [Hg|Hg]; [by apply HnA, elem_of_union_l|].
        apply (HO (f + (p - k))); [done|]. apply elem_of_union_r, elem_of_run. lia.
      * cbn in Hg. apply elem_of_union in Hg as [Hg|Hg]; [apply (Hap g Hg), elem_of_held; by exists p|].
        apply (HO g); [done|]. apply elem_of_union_l. by eapply Hus.
    + intros p Hp. unfold P'. cbn [with_run frame_of]. rewrite put_run_lookup. destruct (decide (k ≤ p < k + n)).
      * rewrite <- (Hto (p - k)) by lia. f_equal. lia.
      * rewrite Hout, Hpg; [done|done| |lia]. rewrite module_units in Hp. unfold MODULE_PAGE, MODULE_SPACE_BASE. dlia.
    + intros p g [[Hp ->]|Hp]%Hcase; [split; [lia|]|split; [by eapply Hda|]]; apply Hkeep; [by apply Hnew; lia|]. apply Hold. by eapply Hda.
    + intros p q g [[Hp ->]|Hp]%Hcase [[Hq Eq]|Hq]%Hcase; [lia| | |by eapply Hin].
      * destruct (Hnew (f + (p - k))) as [HnA _]; [lia|]. destruct HnA. by eapply Hus.
      * subst g. destruct (Hnew (f + (q - k))) as [HnA _]; [lia|]. destruct HnA. by eapply Hus.
  - apply takes_run; [done| |done]. intros g Hg%elem_of_run. by apply Hnew.
Qed.

Lemma machine_map m P D k n : machine_ok m P D → 0 ≤ k → 0 < n → k + n ≤ MAX_UNITS LMM → run k n ## page_set P →
  served (scarce n P) (ps_alloc_frames n m) (λ '(a, s1), a ≠ 0 ∧
    served (scarce n P) (ps_map_pages (unit_addr LMM k) a n (Z.lor Flags.Present Flags.Writable) s1)
      (λ s', ∃ P', machine_ok s' P' D ∧ takes (run k n) P P')).
Proof.
  intros Hm Hk Hn Hkn Hd. pose proof (mo_wf _ _ _ Hm) as Hwf. destruct (unit_page k Hk) as (Ep & E0 & Eu).
  assert (0 ≤ unit_addr LMM k ∧ unit_addr LMM k + 4096 * n ≤ RECURSIVE_PT_BASE) as [Hlo Hhi].
  { rewrite Eu. rewrite module_units in Hkn. unfold MODULE_SPACE_BASE, RECURSIVE_PT_BASE. lia. }
  cbn [ps_alloc_frames ps_map_pages machine_pages].
  destruct (alloc_frames_cases m D (used P) n Hwf) as [(a & fs & E)|[E Hno]]; [rewrite module_units in Hkn; lia| |].
  2:{ rewrite E. split; [done|by left]. }
  rewrite E. destruct (alloc_run m D (used P) n a fs Hwf) as (f & -> & Hf0 & Hf20 & Hwf1 & Hnew & Hold); [rewrite module_units in Hkn; lia|done|].
  cbn [mbind res_bind served]. split.
  { intros Ef. destruct (Hnew f) as [Hn0 _]; [lia|]. assert (f = 0) as -> by lia. exact (Hn0 (wf_zero _ _ _ Hwf)). }
  pose proof (module_in_table k n Hk Hkn) as Hin. rewrite <- Ep in Hin.
  destruct (map_pages_or_full (with_frames fs m) D (used P ∪ run f n) (unit_addr LMM k) (4096 * f) n (Z.lor Flags.Present Flags.Writable))
    as [(m' & A' & -> & Hwf' & _ & Hto & Hout & Hkeep & _ & Ht)|(-> & _ & Ht)];
    [done|lia|done|lia|by rewrite Z.mul_comm, Z_mod_mult|lia|done|lia|done|cbn [served]|].
  - destruct (Ht MODULE_TABLE Hn Hin) as [Hone Hbit]. change (mem (with_frames fs m)) with (mem m) in *. rewrite Ep, (Z.mul_comm 4096 f), Z.div_mul in * by lia.
    rewrite <- (mo_table _ _ _ Hm) in Hone. by apply (machine_adds m P D k f n m' A' Hm).
  - cbn [served]. split; [done|]. destruct (Ht MODULE_TABLE Hin) as [Hno Hsz]. change (mem (with_frames fs m)) with (mem m) in *.
    right. rewrite (mo_table _ _ _ Hm). split; [done|]. assert (used P ## run f n) as Hdis by (intros g Hg Hg'%elem_of_run; by destruct (Hnew g Hg')).
    rewrite size_union_Z, size_run in Hsz by (done || lia). done.
Qed.

(** Unmapping mapped pages. *)
Definition without_run (k n : Z) (P : Pages) : Pages := MkPages (cut_run k n (frame_of P)) (others P) (has_table P).

Lemma machine_unmap m P D k n : machine_ok m P D → 0 ≤ k → 0 < n → k + n ≤ MAX_UNITS LMM → run k n ⊆ page_set P →
  ∃ m', unmap_pages (unit_addr LMM k) n m = Ok m' ∧ machine_ok m' (without_run k n P) D.
Proof.
  intros [Hwf Hap Ht Hpg Hda Hin] Hk Hn Hkn Hsub. destruct (unit_page k Hk) as (Ep & E0 & Eu).
  assert (0 ≤ unit_addr LMM k ∧ unit_addr LMM k + 4096 * n ≤ RECURSIVE_PT_BASE) as [Hlo Hhi].
  { rewrite Eu. rewrite module_units in Hkn. unfold MODULE_SPACE_BASE, RECURSIVE_PT_BASE. lia. }
  assert (∀ i, 0 ≤ i < n → page_of (mem m) D (unit_addr LMM k / 4096 + i) = frame_of P !! (k + i)) as Hrun.
  { intros i Hi. rewrite Ep, <- Z.add_assoc. apply Hpg. lia. }
  destruct (unmap_pages_ok m D (used P) (unit_addr LMM k) n Hwf) as (m' & A' & E & Hwf' & [HA _] & Hp & Hkeep & Hpd); [done|done|lia|done| | |].
  { intros i Hi. rewrite Hrun by done. assert (k + i ∈ page_set P) as [f Hf]%elem_of_pages by (apply Hsub, elem_of_run; lia).
    exists f. split; [done|]. by eapply Hda. }
  { intros i j f Hi Hj. rewrite !Hrun by done. intros E1 E2. pose proof (Hin _ _ _ E1 E2). lia. }
  set (P' := without_run k n P).
  assert (∀ p f, frame_of P' !! p = Some f → frame_of P !! p = Some f ∧ ¬ k ≤ p < k + n) as Hleft.
  { intros p f. cbn. rewrite cut_run_lookup. destruct (decide _) as [|Hr]; [done|]. by rewrite elem_of_run in Hr. }
  assert (∀ p f, frame_of P' !! p = Some f → ∀ i, 0 ≤ i < n → page_of (mem m) D (unit_addr LMM k / 4096 + i) ≠ Some f) as Hother.
  { intros p f [Hf Hr]%Hleft i Hi E1. rewrite Hrun in E1 by done. pose proof (Hin _ _ _ Hf E1). lia. }
  assert (A' = used P') as ->.
  { apply set_eq. intros g. rewrite HA. unfold used. rewrite !elem_of_union, !elem_of_held. change (others P') with (others P). split.
    - intros [[?|[p Hg]] Hno]; [by left|right]. exists p. cbn. rewrite cut_run_lookup. destruct (decide _) as [Hr%elem_of_run|]; [|done].
      destruct (Hno (p - k)); [lia|]. rewrite Hrun by lia. by replace (k + (p - k)) with p by lia.
    - intros [Hg|[p Hg]].
      + split; [by left|]. intros i Hi. rewrite Hrun by done. intros E1. apply (Hap g Hg), elem_of_held. by exists (k + i).
      + split; [right; exists p; by apply Hleft|by eapply Hother]. }
  exists m'. split; [done|]. split; [done| | | | |].
  - intros g Hg [p [Hf _]%Hleft]%elem_of_held. apply (Hap g Hg), elem_of_held. by exists p.
  - change (has_table P') with (has_table P). rewrite Hpd; [done|]. unfold MODULE_TABLE, MODULE_PAGE, MODULE_SPACE_BASE. dlia.
  - intros p Hpr. cbn. rewrite cut_run_lookup, Hp, Ep by (rewrite module_units in Hpr; unfold MODULE_PAGE, MODULE_SPACE_BASE; dlia).
    destruct (decide (p ∈ run k n)) as [Hr|Hr]; rewrite elem_of_run in Hr; [by rewrite decide_True by lia|]. rewrite decide_False by lia. by apply Hpg.
  - intros p f Hf. destruct (Hleft p f Hf) as [Hf' _]. split; [by eapply Hda|]. apply Hkeep; [by eapply Hda|by eapply Hother].
  - intros p q f [Hp1 _]%Hleft [Hq1 _]%Hleft. by eapply Hin.
Qed.

Lemma without_run_removes k n P : removes (run k n) P (without_run k n P).
Proof. split_and!; [|done..]. intros p. apply cut_run_lookup. Qed.

Lemma served_mono {A} C (r : res A) (Q R : A → Prop) : (∀ a, Q a → R a) → served C r Q → served C r R.
Proof. intros HQ. destruct r; simpl; auto. Qed.

#[export] Program Instance machine_module_pages : ModulePages (machine pmm) := {| space_ok m P := ∃ D, machine_ok m P D |}.
Next Obligation. intros m P [D Hm]. apply Hm. Qed.
Next Obligation.
  intros m P k n [D Hm] Hk Hn Hkn Hd. eapply served_mono; [|by apply (machine_map m P D k n)]. intros [a s1] [Ha Hs]. split; [done|].
  eapply served_mono; [|exact Hs]. intros s' (P' & Hm' & HP). exists P'. split; [by exists D|done].
Qed.
Next Obligation.
  intros m P k n [D Hm] Hk Hn Hkn Hd. destruct (machine_unmap m P D k n Hm Hk Hn Hkn Hd) as (m' & E & Hm').
  exists m', (without_run k n P). split; [done|]. split; [by exists D|apply without_run_removes].
Qed.

(** A machine that maps no page of module space is ready for the linker. *)
Lemma machine_ready m D A : wf m D A → (∀ k, 0 ≤ k < MAX_UNITS LMM → page_of (mem m) D (MODULE_PAGE + k) = None) →
  space_ok m (MkPages ∅ A (Z.testbit (pd (mem m) D MODULE_TABLE) 0)).
Proof.
  intros Hwf Hno. exists D. assert (used (MkPages ∅ A (Z.testbit (pd (mem m) D MODULE_TABLE) 0)) = A) as Eu.
  { unfold used, held. cbn. by rewrite map_img_empty_L, union_empty_r_L. }
  split; rewrite ?Eu; [done| |done|done|done|done]. unfold held. cbn. rewrite map_img_empty_L. set_solver.
Qed.

(** ** The ledger: pages and frames without a machine; frames never run out *)
Module Ledger.
Definition fresh (X : gset Z) : Z := 1 + foldr Z.max 0 (elements X).
Definition number (va : Z) : Z := (va - MODULE_SPACE_BASE) / PAGE_SIZE.
Definition empty : Pages := MkPages ∅ {[0]} true.
End Ledger.

#[export] Instance ledger : PageSpace Pages := {|
  ps_alloc_frames n P := Ok (4096 * Ledger.fresh (used P), P);
  ps_map_pages va a n flags P := Ok (MkPages (put_run (Ledger.number va) (a / 4096) n (frame_of P)) (others P) true);
  ps_unmap_pages va n P := Ok (without_run (Ledger.number va) n P)
|}.

Lemma ledger_fresh X g : g ∈ X → g < Ledger.fresh X.
Proof.
  intros Hg%elem_of_elements. unfold Ledger.fresh. induction (elements X) as [|x l IH]; [by apply elem_of_nil in Hg|].
  simpl. apply elem_of_cons in Hg as [->|Hg]; [lia|]. specialize (IH Hg). lia.
Qed.

Lemma ledger_number k : Ledger.number (unit_addr LMM k) = k.
Proof. unfold Ledger.number. rewrite LMM_addr. unfold PAGE_SIZE. rewrite Z.add_simpl_l. by apply Z.div_mul. Qed.

#[export] Program Instance ledger_module_pages : ModulePages Pages := {|
  space_ok s P := s = P ∧ has_table P = true ∧ 0 ∈ others P ∧ others P ## held P
|}.
Next Obligation. intros s P (_ & _ & _ & Hap). done. Qed.
Next Obligation.
  intros s P k n (-> & Ht & H0 & Hap) Hk Hn Hkn Hd. cbn [ps_alloc_frames ps_map_pages ledger served].
  set (f := Ledger.fresh (used P)). assert (0 < f) as Hf by (apply ledger_fresh; by apply elem_of_union_l). split; [lia|].
  rewrite ledger_number, Z.mul_comm, Z.div_mul by done. assert (∀ g, f ≤ g → g ∉ used P) as Hnew by (intros g Hg Hin%ledger_fresh; unfold f in Hg; lia).
  eexists. split; [split_and!; [reflexivity|done|done|]|].
  - intros g Hg [p Hp]%elem_of_held. cbn in Hp. rewrite put_run_lookup in Hp. destruct (decide _).
    + apply (Hnew g); [injection Hp; lia|]. by apply elem_of_union_l.
    + apply (Hap g Hg), elem_of_held. by exists p.
  - rewrite <- (union_empty_r_L (others P)). apply takes_run; [done|intros g Hg%elem_of_run; apply Hnew; lia|].
    left. cbn. by rewrite union_empty_r_L, Ht.
Qed.
Next Obligation.
  intros s P k n (-> & Ht & H0 & Hap) Hk Hn Hkn Hd. exists (without_run k n P), (without_run k n P). cbn [ps_unmap_pages ledger].
  rewrite ledger_number. split; [done|]. split; [|apply without_run_removes]. split_and!; [done..|].
  intros g Hg [p Hp]%elem_of_held. cbn in Hp. rewrite cut_run_lookup in Hp. destruct (decide _); [done|].
  apply (Hap g Hg), elem_of_held. by exists p.
Qed.

Lemma ledger_empty : space_ok Ledger.empty Ledger.empty.
Proof. split_and!; [done|done|change (0 ∈ ({[0]} : gset Z)); set_solver|]. unfold held. cbn. rewrite map_img_empty_L. set_solver. Qed.
