(* ===== verification/Relocations.v ===== *)
(** Stage 2 of the linker: what the relocations of a section do to the memory of
    the section they apply to. *)
From S2P Require Import Prelude Memory Layout Slots Strings Elf Linker LinkerSpec.

(** [n] bytes at [a] lie outside [lo, hi). *)
Definition clear_of (lo hi a n : Z) : Prop := a + n ≤ lo ∨ hi ≤ a.
(** Memories that agree outside [lo, hi). *)
Definition agree (lo hi : Z) (m m' : ram) : Prop := ∀ b, b < lo ∨ hi ≤ b → m' b = m b.

Section agree.
Context (lo hi : Z) (m m' : ram).
Hypothesis Hag : agree lo hi m m'.
Hypothesis Hlohi : lo ≤ hi.

Lemma agree_rd32 a : clear_of lo hi a 4 → rd32 m' a = rd32 m a.
Proof using Hag. intros Hc. apply rd32_ext. intros b Hb. apply Hag. unfold clear_of in Hc. lia. Qed.
Lemma agree_rd16 a : clear_of lo hi a 2 → rd16 m' a = rd16 m a.
Proof using Hag. intros Hc. unfold rd16, clear_of in *. rewrite !Hag by lia. done. Qed.

Lemma agree_section p : clear_of lo hi p 40 → read_section m' p = read_section m p.
Proof using Hag. intros Hc. unfold read_section. rewrite !agree_rd32 by (unfold clear_of in *; lia). done. Qed.
Lemma agree_symbol p : clear_of lo hi p 16 → read_symbol m' p = read_symbol m p.
Proof using Hag.
  intros Hc. unfold read_symbol. rewrite !agree_rd32, agree_rd16, !Hag by (unfold clear_of in *; lia). done.
Qed.
Lemma agree_rel p : clear_of lo hi p 8 → read_rel m' p = read_rel m p.
Proof using Hag. intros Hc. unfold read_rel. rewrite !agree_rd32 by (unfold clear_of in *; lia). done. Qed.
Lemma agree_entry p : clear_of lo hi p 12 → read_entry m' p = read_entry m p.
Proof using Hag. intros Hc. unfold read_entry, rd64. rewrite !agree_rd32 by (unfold clear_of in *; lia). done. Qed.

Lemma first_index_ext n : ∀ i (f g : Z → res bool), (∀ j, i ≤ j < i + Z.of_nat n → f j = g j) →
  first_index n i f = first_index n i g.
Proof using.
  induction n as [|n IH]; intros i f g Hfg; simpl; [done|]. rewrite Hfg by lia. destruct (g i) as [[]| | |]; simpl; try done.
  apply IH. intros j Hj. apply Hfg. lia.
Qed.

Lemma agree_cstr a s : cstr m a s → clear_of lo hi a (Z.of_nat (length s) + 1) → cstr m' a s.
Proof using Hag. intros Hs Hc. eapply cstr_ext; [|exact Hs]. intros b Hb. apply Hag. unfold clear_of in Hc. lia. Qed.

Lemma agree_lookup fuel t name s : cstr m name s → (length s < fuel)%nat → clear_of lo hi name (Z.of_nat (length s) + 1) →
  kexp_start t ≤ kexp_end t < kexp_start t + 2 ^ 32 → clear_of lo hi (kexp_start t) (kexp_end t - kexp_start t) →
  Elf.lookup fuel t m' name = Elf.lookup fuel t m name
  ∧ ∀ e, Elf.lookup fuel t m name = Ok e → e ≠ NULL → read_entry m' e = read_entry m e.
Proof using Hag.
  intros Hs Hl Hc Ht Hct. unfold Elf.lookup. destruct (name =? NULL) eqn:En; [by split; [|intros e [= <-]]|].
  rewrite (hash_ok s fuel m name Hs Hl), (hash_ok s fuel m' name (agree_cstr name s Hs Hc) Hl), !bind_Ok.
  rewrite (u32_small (kexp_end t - kexp_start t)) by lia. set (n := (kexp_end t - kexp_start t) / 12).
  assert (∀ i, 0 ≤ i < n → read_entry m' (kexp_start t + 12 * i) = read_entry m (kexp_start t + 12 * i)) as He.
  { intros i Hi. apply agree_entry. unfold n, clear_of in *. clear - Hi Hct. dlia. }
  assert (0 ≤ n) by (unfold n; clear - Ht; dlia).
  split.
  - f_equal. apply first_index_ext. intros j Hj. rewrite He by lia. done.
  - intros e Hr Hn. match type of Hr with (first_index ?k 0 ?f ≫= _) = _ =>
      destruct (first_index_ok (λ i, name_hash (read_entry m (kexp_start t + 12 * i)) = fnv s) f k 0) as (o & Eo & Ho);
      [intros j _; eexists; split; [done|]; apply Z.eqb_eq|] end.
    rewrite Eo, bind_Ok in Hr. injection Hr as <-. destruct o as [i|]; [|done]. destruct Ho as [Hi _]. apply He. lia.
Qed.
End agree.

(** ** One relocation *)
Section relocate.
Context (fuel : nat) (t : kexp_table) (l : Layout) (obj : Object) (ref : RegionRef) (sec : Section_).
(** The section in memory. *)
Abbreviation lo := (g_base (region_of l ref) + s_reg_off sec).
Abbreviation hi := (lo + s_size sec).

(** The place and the symbol's address of a relocation. *)
Definition place_of (r : Rel_t) : Z := lo + r_offset r.
Definition symbol_of (m : ram) (r : Rel_t) : Z :=
  (hdr obj + sh_offset (read_section m (symtab obj)) + 16 * (r_info r / 256)) mod 2 ^ 32.
Definition symbol_name (m : ram) (sy : Z) : Z :=
  (hdr obj + sh_offset (read_section m (strtab obj)) + st_name (read_symbol m sy)) mod 2 ^ 32.

(** The address a symbol stands for. *)
Inductive denotes (m : ram) (sy : Z) : Z → Prop :=
| den_defined ref' sec' :
    st_shndx (read_symbol m sy) ∉ [0; 0xFFF1; 0xFFF2] → st_shndx (read_symbol m sy) < sec_hdrs_num obj →
    mapped l (st_shndx (read_symbol m sy)) = Some (ref', sec') → g_base (region_of l ref') ≠ 0 →
    denotes m sy ((g_base (region_of l ref') + s_reg_off sec' + st_value (read_symbol m sy)) mod 2 ^ 32)
| den_absolute : st_shndx (read_symbol m sy) = 0xFFF1 → denotes m sy (st_value (read_symbol m sy))
| den_exported s i :
    st_shndx (read_symbol m sy) = 0 → cstr m (symbol_name m sy) s → (length s < fuel)%nat → symbol_name m sy ≠ NULL →
    0 ≤ i → 12 * i + 12 ≤ kexp_end t - kexp_start t → kexp_start t + 12 * i ≠ NULL →
    name_hash (read_entry m (kexp_start t + 12 * i)) = fnv s →
    (∀ j, 0 ≤ j < i → name_hash (read_entry m (kexp_start t + 12 * j)) ≠ fnv s) →
    denotes m sy (e_addr (read_entry m (kexp_start t + 12 * i))).

(** The word of a relocation against the value [v], where [A] was: of type 1, absolute, or 2,
    relative to the place. *)
Definition patched (r : Rel_t) (v A : Z) : Z :=
  (if r_info r mod 256 =? 1 then v + A else v + A - place_of r) mod 2 ^ 32.

(** The file [m] resolves the relocation [r] to the value [v], from data outside
    the section. *)
Record resolves (m : ram) (r : Rel_t) (v : Z) : Prop := {
  rs_symtab : symtab obj ≠ NULL ∧ symbol_of m r ≠ NULL;
  rs_offset : 0 ≤ r_offset r ∧ r_offset r + 4 ≤ s_size sec;
  rs_type : r_info r mod 256 = 1 ∨ r_info r mod 256 = 2;
  rs_value : denotes m (symbol_of m r) v;
  rs_clear : clear_of lo hi (symtab obj) 40 ∧ clear_of lo hi (symbol_of m r) 16;
  rs_name : st_shndx (read_symbol m (symbol_of m r)) = 0 →
    clear_of lo hi (strtab obj) 40 ∧ clear_of lo hi (kexp_start t) (kexp_end t - kexp_start t)
    ∧ (kexp_start t ≤ kexp_end t < kexp_start t + 2 ^ 32)
    ∧ ∃ s, cstr m (symbol_name m (symbol_of m r)) s ∧ (length s < fuel)%nat
        ∧ clear_of lo hi (symbol_name m (symbol_of m r)) (Z.of_nat (length s) + 1)
}.

(** The code's readings of these. *)
Lemma symbol_of_code m r : symtab obj ≠ NULL → symbol_by_index m obj (REL_SYM (r_info r)) = symbol_of m r.
Proof.
  intros Hs. unfold symbol_by_index, symbol_of, header_offset, REL_SYM. rewrite (proj2 (Z.eqb_neq _ _) Hs), Z.shiftr_div_pow2 by lia.
  unfold wrap. by rewrite Zplus_mod_idemp_l.
Qed.

Lemma symbol_name_code m sy :
  u32 (header_offset obj (sh_offset (read_section m (strtab obj))) + st_name (read_symbol m sy)) = symbol_name m sy.
Proof. unfold symbol_name, header_offset, wrap. by rewrite Zplus_mod_idemp_l. Qed.

Lemma type_code r : REL_TYPE (r_info r) = r_info r mod 256.
Proof. unfold REL_TYPE. change 0xFF with (2 ^ 8 - 1). by rewrite land_mask. Qed.

Lemma denotes_code m sy v : kexp_start t ≤ kexp_end t < kexp_start t + 2 ^ 32 ∨ st_shndx (read_symbol m sy) ≠ 0 →
  denotes m sy v → symbol_value fuel t m l obj (read_symbol m sy) = Ok (SVal v).
Proof.
  intros Ht Hd. unfold symbol_value. rewrite symbol_name_code. destruct Hd as [ref' sec' Hn Hlt Hm Hb|E|s i E Hs Hf Hn Hi Hend Hne Hh Hfirst].
  - rewrite !not_elem_of_cons in Hn. destruct Hn as (N0 & N1 & N2 & _).
    rewrite (proj2 (Z.eqb_neq _ SHN_UNDEF) N0), (proj2 (Z.eqb_neq _ SHN_ABS) N1), (proj2 (Z.eqb_neq _ SHN_COMMON) N2).
    rewrite (proj2 (Z.leb_gt _ _) Hlt), Hm, (proj2 (Z.eqb_neq _ _) Hb). done.
  - rewrite E. done.
  - destruct Ht as [Ht|Ht]; [|done]. rewrite E. simpl. destruct (lookup_ok fuel t m _ s Hs Hf Hn) as (o & -> & Ho). rewrite bind_Ok.
    rewrite u32_small in Ho by lia. set (n := (kexp_end t - kexp_start t) / 12) in *. assert (i < n) as Hin by (unfold n; clear - Hend; dlia).
    assert (o = Some i) as ->.
    { destruct o as [k|]; cbn [first_such] in Ho.
      - destruct Ho as (Hk & Ek & Hb). f_equal. destruct (Z.lt_trichotomy k i) as [?|[?|?]]; [|done|]; exfalso.
        + by apply (Hfirst k ltac:(lia)).
        + by apply (Hb i ltac:(lia)).
      - exfalso. by apply (Ho i ltac:(lia)). }
    by rewrite (proj2 (Z.eqb_neq _ _) Hne).
Qed.

(** Only data outside the section matters, so it resolves the same way while the
    section is being relocated. *)
Lemma resolves_agree m m' r v : agree lo hi m m' → resolves m r v →
  symbol_of m' r = symbol_of m r ∧ symbol_value fuel t m' l obj (read_symbol m' (symbol_of m' r)) = Ok (SVal v).
Proof.
  intros Hag [[Hs1 Hs2] Ho Hty Hv [Hc1 Hc2] Hnm].
  assert (symbol_of m' r = symbol_of m r) as Es by (unfold symbol_of; by rewrite (agree_section lo hi m m' Hag)).
  split; [done|]. apply denotes_code in Hv;
    [|destruct (decide (st_shndx (read_symbol m (symbol_of m r)) = 0)) as [E|]; [left; by apply Hnm|by right]].
  rewrite Es, (agree_symbol lo hi m m' Hag) by done. rewrite <- Hv.
  set (sy := read_symbol m (symbol_of m r)) in *. unfold symbol_value. destruct (Z.eqb_spec (st_shndx sy) SHN_UNDEF) as [E|]; [|done].
  destruct (Hnm E) as (Hc3 & Hc4 & Ht & s & Hcs & Hl & Hc5).
  rewrite (agree_section lo hi m m' Hag) by done. fold sy in Hcs, Hc5. unfold sy. rewrite symbol_name_code.
  destruct (agree_lookup lo hi m m' Hag fuel t _ s Hcs Hl Hc5 Ht Hc4) as [-> He].
  destruct (Elf.lookup fuel t m _) as [e| | |] eqn:El; try done. rewrite !bind_Ok. destruct (Z.eqb_spec e NULL) as [->|Hn]; [done|].
  cbn [negb]. by rewrite (He e) by done.
Qed.

Hypothesis Hlo : 0 ≤ lo ∧ hi < 2 ^ 32.

(** [relocate] stores the new word. *)
Lemma relocate_ok m0 m r v : agree lo hi m0 m → resolves m0 r v →
  relocate fuel t l obj ref sec r m = Ok (Some (wr32 m (place_of r) (patched r v (rd32 m (place_of r))))).
Proof using Hlo.
  intros Hag Hr. destruct (resolves_agree m0 m r v Hag Hr) as [Es Hv]. destruct Hr as [[Hs1 Hs2] Ho Hty _ _ _].
  unfold relocate. rewrite symbol_of_code, Es by done. rewrite (proj2 (Z.eqb_neq _ _) Hs2).
  rewrite (u32_small (r_offset r + 4)), (proj2 (Z.ltb_ge _ _)) by lia. rewrite (u32_small (lo + r_offset r)) by lia.
  fold (place_of r). rewrite <- Es, Hv, bind_Ok. rewrite type_code. unfold patched. destruct Hty as [-> | ->]; done.
Qed.

(** ** The loop over a relocation section *)

(** The effect of resolved relocations, one after the other. *)
Fixpoint apply_rels (rvs : list (Rel_t * Z)) (m : ram) : ram :=
  match rvs with
  | [] => m
  | (r, v) :: rvs => apply_rels rvs (wr32 m (place_of r) (patched r v (rd32 m (place_of r))))
  end.

(** The entries at [rel] are [rvs]. *)
Fixpoint entries (m : ram) (rel : Z) (rvs : list (Rel_t * Z)) : Prop :=
  match rvs with
  | [] => True
  | (r, v) :: rvs => read_rel m rel = r ∧ resolves m r v ∧ entries m (rel + 8) rvs
  end.

Lemma agree_write m0 m r w : agree lo hi m0 m → 0 ≤ r_offset r → r_offset r + 4 ≤ s_size sec → agree lo hi m0 (wr32 m (place_of r) w).
Proof. intros Hag H1 H2 b Hb. unfold place_of. rewrite wr32_other8 by lia. by apply Hag. Qed.

Lemma rel_loop_ok m0 rvs : ∀ m rel, agree lo hi m0 m → entries m0 rel rvs → 0 ≤ rel →
  clear_of lo hi rel (8 * Z.of_nat (length rvs)) → rel + 8 * Z.of_nat (length rvs) < 2 ^ 32 →
  rel_loop (length rvs) fuel t l obj ref sec rel m = Ok (Some (apply_rels rvs m)).
Proof using Hlo.
  induction rvs as [|[r v] rvs IH]; intros m rel Hag He H0 Hc Hb; [done|]. simpl length in *.
  destruct He as (Er & Hr & He). cbn [rel_loop].
  rewrite (agree_rel lo hi m0 m Hag), Er by (unfold clear_of in *; lia). rewrite (relocate_ok m0 m r v Hag Hr), bind_Ok.
  rewrite u32_small by lia. cbn [apply_rels].
  apply IH; [|done|lia|unfold clear_of in *; lia|lia]. destruct Hr as [_ [H1 H2] _ _ _ _]. by apply agree_write.
Qed.

(** The words written are apart from each other. *)
Definition separate (rvs : list (Rel_t * Z)) : Prop :=
  ∀ i j r1 v1 r2 v2, rvs !! i = Some (r1, v1) → rvs !! j = Some (r2, v2) → i ≠ j →
    r_offset r1 + 4 ≤ r_offset r2 ∨ r_offset r2 + 4 ≤ r_offset r1.

Lemma apply_rels_frame rvs : ∀ m b, (∀ r v, (r, v) ∈ rvs → b < place_of r ∨ place_of r + 4 ≤ b) → apply_rels rvs m b = m b.
Proof.
  induction rvs as [|[r v] rvs IH]; intros m b H; [done|]. cbn [apply_rels]. rewrite IH.
  - apply wr32_other8. apply (H r v). by left.
  - intros r' v' Hr. apply (H r' v'). by right.
Qed.

Lemma apply_rels_word rvs : ∀ m i r v, separate rvs → rvs !! i = Some (r, v) →
  rd32 (apply_rels rvs m) (place_of r) = patched r v (rd32 m (place_of r)).
Proof.
  induction rvs as [|[r0 v0] rvs IH]; intros m i r v Hsep Hi; [by rewrite lookup_nil in Hi|]. cbn [apply_rels].
  assert (separate rvs) as Hsep'.
  { intros a b r1 v1 r2 v2 Ha Hb Hab. apply (Hsep (S a) (S b) r1 v1 r2 v2 Ha Hb). lia. }
  destruct i as [|i]; simpl in Hi.
  - injection Hi as -> ->. rewrite (rd32_ext _ (wr32 m (place_of r) (patched r v (rd32 m (place_of r))))).
    { apply rd32_wr32_same. apply u32_range. }
    intros b Hb. apply apply_rels_frame. intros r' v' Hr. apply list_elem_of_lookup_1 in Hr as [j Hj].
    pose proof (Hsep 0%nat (S j) r v r' v' eq_refl Hj ltac:(lia)). unfold place_of in *. lia.
  - rewrite (IH _ i r v Hsep' Hi). f_equal. apply rd32_wr32_other.
    pose proof (Hsep 0%nat (S i) r0 v0 r v eq_refl Hi ltac:(lia)). unfold place_of. lia.
Qed.
End relocate.

(** C16: the relocations of a section. For a relocation section whose target is loaded, whose
    entries have symbols that stand for the addresses [v] and places that are apart and inside
    the target: every place [P] then holds [v + A], or [v + A - P] for a PC-relative one, modulo
    2^32, with [A] the word that was there, and no other byte changes. What a symbol stands for
    is said from the file ([denotes]): a symbol of a loaded section, the address that section was
    given plus the symbol's value; an absolute one, its value; an undefined one, the address of
    the first export of the kernel whose hash is that of the symbol's name. *)
Theorem relocations_applied fuel t l obj i m ref sec rvs :
  let h := sec_at m obj i in
  let lo := g_base (region_of l ref) + s_reg_off sec in
  let hi := lo + s_size sec in
  let rel := header_offset obj (sh_offset h) in
  sh_type h = SHT_REL → u16 (sh_info h) < sec_hdrs_num obj → mapped l (u16 (sh_info h)) = Some (ref, sec) →
  g_base (region_of l ref) ≠ 0 → 0 ≤ lo ∧ hi < 2 ^ 32 → rel ≠ NULL → sh_size h / 8 = Z.of_nat (length rvs) →
  clear_of lo hi rel (8 * Z.of_nat (length rvs)) → rel + 8 * Z.of_nat (length rvs) < 2 ^ 32 →
  entries fuel t l obj ref sec m rel rvs → separate rvs →
  ∃ m', rel_section fuel t l obj i m = Ok (Some m')
    ∧ (∀ j r v, rvs !! j = Some (r, v) → rd32 m' (place_of l ref sec r) = patched l ref sec r v (rd32 m (place_of l ref sec r)))
    ∧ (∀ b, (∀ r v, (r, v) ∈ rvs → b < place_of l ref sec r ∨ place_of l ref sec r + 4 ≤ b) → m' b = m b).
Proof.
  intros h lo hi rel Hty Hti Hmap Hb Hlo Hrel Hsz Hc Hend He Hsep.
  exists (apply_rels l ref sec rvs m). split_and!.
  - unfold rel_section. fold h. rewrite Hty, Z.eqb_refl. cbn [negb].
    rewrite (proj2 (Z.leb_gt _ _)) by done. rewrite Hmap, (proj2 (Z.eqb_neq _ _) Hb). fold rel.
    rewrite (proj2 (Z.eqb_neq _ _) Hrel). cbn [andb]. rewrite Hsz, Nat2Z.id.
    apply (rel_loop_ok fuel t l obj ref sec Hlo m rvs m rel); try done. apply u32_range.
  - intros j r v Hj. by apply (apply_rels_word l ref sec rvs m j r v).
  - intros b Hb'. by apply apply_rels_frame.
Qed.

(** The demo object with its code at the start of the module space. *)
Definition demo_linked : Layout := with_region InRX (with_base MODULE_SPACE_BASE demo_rx) demo_layout.
Definition demo_rvs : list (Rel_t * Z) := [(MkRel 4 257, MODULE_SPACE_BASE + 4); (MkRel 8 514, 12345)].

Lemma demo_denotes_text : denotes 20 DemoObject.kexp demo_linked demo_object DemoObject.mem
  (symbol_of demo_object DemoObject.mem (MkRel 4 257)) (MODULE_SPACE_BASE + 4).
Proof.
  eapply eq_ind; [apply (den_defined _ _ _ _ _ _ InRX demo_text)|vm_compute; reflexivity].
  - rewrite !not_elem_of_cons. split_and!; try (vm_compute; congruence). apply not_elem_of_nil.
  - vm_compute. reflexivity.
  - vm_compute. reflexivity.
  - vm_compute. congruence.
Qed.

Lemma demo_api : cstr DemoObject.mem (symbol_name demo_object DemoObject.mem (symbol_of demo_object DemoObject.mem (MkRel 8 514))) (bytes_of "api").
Proof. apply (read_cstr_ok 20). vm_compute. reflexivity. Qed.

Lemma demo_denotes_api : denotes 20 DemoObject.kexp demo_linked demo_object DemoObject.mem
  (symbol_of demo_object DemoObject.mem (MkRel 8 514)) 12345.
Proof.
  eapply eq_ind; [apply (den_exported _ _ _ _ _ _ (bytes_of "api") 0)|vm_compute; reflexivity];
    first [exact demo_api|lia|vm_compute; reflexivity|vm_compute; congruence|vm_compute; lia|idtac].
Qed.

Lemma demo_resolves : entries 20 DemoObject.kexp demo_linked demo_object InRX demo_text DemoObject.mem 4260 demo_rvs.
Proof.
  unfold demo_rvs. cbn [entries]. split; [vm_compute; reflexivity|]. split; [|split; [vm_compute; reflexivity|split; [|exact I]]].
  - split; [split; vm_compute; congruence|split; vm_compute; congruence|left; vm_compute; reflexivity|exact demo_denotes_text
      |split; left; vm_compute; congruence|intros E; vm_compute in E; discriminate E].
  - split; [split; vm_compute; congruence|split; vm_compute; congruence|right; vm_compute; reflexivity|exact demo_denotes_api
      |split; left; vm_compute; congruence|]. intros _.
    split_and!; [left; vm_compute; congruence|left; vm_compute; congruence|vm_compute; congruence|vm_compute; reflexivity|].
    exists (bytes_of "api"). split_and!; [exact demo_api|vm_compute; lia|left; vm_compute; congruence].
Qed.

Lemma relocations_applied_witness : ∃ m',
  rel_section 20 DemoObject.kexp demo_linked demo_object 5 DemoObject.mem = Ok (Some m')
  ∧ rd32 m' (MODULE_SPACE_BASE + 4) = MODULE_SPACE_BASE + 4
  ∧ rd32 m' (MODULE_SPACE_BASE + 8) = u32 (12345 - (MODULE_SPACE_BASE + 8)).
Proof.
  assert (separate demo_rvs) as Hsep.
  { intros [|[|i]] [|[|j]] r1 v1 r2 v2 Hi Hj Hij; try done; simpl in Hi, Hj; injection Hi as <- <-; injection Hj as <- <-; simpl; lia. }
  destruct (relocations_applied 20 DemoObject.kexp demo_linked demo_object 5 DemoObject.mem InRX demo_text demo_rvs) as (m' & H1 & H2 & _);
    [vm_compute; reflexivity|vm_compute; reflexivity|vm_compute; reflexivity|vm_compute; congruence|split; vm_compute; congruence
    |vm_compute; congruence|vm_compute; reflexivity|left; vm_compute; congruence|vm_compute; reflexivity|exact demo_resolves|exact Hsep|].
  exists m'. split; [exact H1|]. split; [exact (H2 0%nat _ _ eq_refl)|exact (H2 1%nat _ _ eq_refl)].
Defined.

(** The check of the place wraps: an offset within 4 bytes of 2^32 passes it, and the
    word is written before the section. *)
Theorem relocation_check_wraps fuel t l obj ref sec r m v d :
  let lo := g_base (region_of l ref) + s_reg_off sec in
  1 ≤ d ≤ 4 → r_offset r = 2 ^ 32 - d → 4 ≤ s_size sec → 4 ≤ lo < 2 ^ 32 →
  symtab obj ≠ NULL → symbol_of obj m r ≠ NULL → symbol_value fuel t m l obj (read_symbol m (symbol_of obj m r)) = Ok (SVal v) →
  REL_TYPE (r_info r) = R_386_32 →
  relocate fuel t l obj ref sec r m = Ok (Some (wr32 m (lo - d) (u32 (v + rd32 m (lo - d))))).
Proof.
  intros lo Hd Ho Hsz Hlo Ht Hs Hv Hty. unfold relocate. rewrite symbol_of_code, (proj2 (Z.eqb_neq _ _) Hs), Ho by done.
  replace (u32 (2 ^ 32 - d + 4)) with (4 - d) by (unfold wrap; dlia). rewrite (proj2 (Z.ltb_ge _ _)) by lia. fold lo.
  replace (u32 (lo + (2 ^ 32 - d))) with (lo - d) by (unfold wrap; clear - Hd Hlo; dlia). by rewrite Hv, bind_Ok, Hty.
Qed.
