(* ===== verification/LinkerInv.v ===== *)
(** The module space over the life of the linker: the pages its allocator has handed
    out are exactly those of the regions of the loaded layouts, which do not
    overlap, and exactly the pages that are mapped, whatever is loaded and unloaded and
    whichever loads fail. *)
From S2P Require Import Prelude Memory Layout Bitmap Slots Strings Elf Linker LinkerSpec ModulePages.

(** ** Pages of regions *)

Definition vacant (r : Region) : bool := (g_base r =? 0) || (g_size r =? 0).
Definition region_pages (r : Region) : gset Z :=
  if vacant r then ∅ else run ((g_base r - MODULE_SPACE_BASE) / PAGE_SIZE) (g_size r / PAGE_SIZE).
(** A region has no memory, or a run of pages of the module space. *)
Definition region_ok (r : Region) : Prop :=
  vacant r = true ∨ ∃ k, g_base r = unit_addr LMM k ∧ 0 ≤ k ∧ 0 < g_size r / PAGE_SIZE ∧ k + g_size r / PAGE_SIZE ≤ MAX_UNITS LMM.

Definition slot_pages (o : option Layout) : list (gset Z) :=
  match o with Some l => [region_pages (l_rw l); region_pages (l_rx l)] | None => [] end.
Definition owned (os : list (option Layout)) : list (gset Z) := os ≫= slot_pages.

(** The sets [Xs] are disjoint and their union is [A]. *)
Fixpoint tiling (Xs : list (gset Z)) (A : gset Z) : Prop :=
  match Xs with [] => A = ∅ | X :: Xs => X ⊆ A ∧ tiling Xs (A ∖ X) end.

#[export] Instance tiling_proper : Proper ((≡ₚ) ==> (=) ==> iff) tiling.
Proof.
  intros Xs Ys HP A B <-. revert A. induction HP as [|X Xs Ys _ IH|X Y Xs|Xs Ys Zs _ IH1 _ IH2]; intros A; simpl.
  - done.
  - by rewrite IH.
  - assert (A ∖ X ∖ Y = A ∖ Y ∖ X) as -> by set_solver. set_solver.
  - by rewrite IH1.
Qed.

Lemma tiling_add Xs A X : tiling Xs A → X ## A → tiling (X :: Xs) (A ∪ X).
Proof. intros H Hd. simpl. split; [set_solver|]. by replace ((A ∪ X) ∖ X) with A by set_solver. Qed.

Lemma owned_split os i o : os !! i = Some o → owned os ≡ₚ slot_pages o ++ owned (<[i := None]> os).
Proof.
  revert i. induction os as [|x os IH]; intros [|i] Hi; simpl in *; [done..|by injection Hi as ->|].
  unfold owned in *. simpl. rewrite (IH i Hi). rewrite !app_assoc. f_equiv. apply Permutation_app_comm.
Qed.

Lemma region_pages_run r : region_ok r → vacant r = false → ∃ k, g_base r = unit_addr LMM k ∧ 0 ≤ k ∧ 0 < g_size r / PAGE_SIZE
  ∧ k + g_size r / PAGE_SIZE ≤ MAX_UNITS LMM ∧ region_pages r = run k (g_size r / PAGE_SIZE).
Proof.
  intros [E|(k & Hb & H1 & H2 & H3)] Hv; [congruence|]. exists k. split_and!; try done. unfold region_pages. rewrite Hv, Hb, LMM_addr.
  f_equal. unfold PAGE_SIZE. rewrite Z.add_simpl_l. by rewrite Z.div_mul.
Qed.

Lemma region_pages_vacant r : vacant r = true → region_pages r = ∅.
Proof. unfold region_pages. by intros ->. Qed.

Lemma vacant_base r : vacant (with_base 0 r) = true.
Proof. done. Qed.

(** ** The table of layouts *)

Lemma store_layout_ok a i l l0 : array_ok 64 a → 0 ≤ i → view a !! Z.to_nat i = Some (Some l0) →
  array_ok 64 (store_layout i l a) ∧ view (store_layout i l a) = <[Z.to_nat i := Some l]> (view a).
Proof.
  intros Ha Hi Hv. pose proof (lookup_lt_Some _ _ _ Hv) as Hlt. rewrite (view_length 64 a Ha) in Hlt.
  assert (live (<[Z.to_nat i := Some l]> (view a)) = live (view a)) as Hl.
  { pose proof (live_delete _ _ _ Hv) as H1. pose proof (live_insert (<[Z.to_nat i := None]> (view a)) (Z.to_nat i) l) as H2.
    rewrite list_insert_insert_eq in H2. rewrite <- H1, H2; [done|]. apply list_lookup_insert_eq. rewrite (view_length 64 a Ha). lia. }
  pose proof (ok_live _ _ Ha) as Hc. pose proof (live_le (view a)) as Hle. rewrite (view_length 64 a Ha) in Hle.
  destruct (array_ok_update 64 a Ha i (Slot (Some l) true) 0) as [H1 H2]; [lia|done|simpl; lia|].
  rewrite Z.add_0_r, u32_small in H1, H2 by lia. done.
Qed.

Lemma index_from_here {T} (ss : list (StaticSlot T)) : ∀ k j, Forall slot_ok ss →
  (∃ v, (ptr_ <$> ss) !! Z.to_nat (j - k) = Some (Some v)) → k ≤ j → index_from ss k j = j.
Proof.
  induction ss as [|s ss IH]; intros k j Hok [v Hv] Hkj; [done|]. apply Forall_cons in Hok as [Hs Hok].
  simpl. destruct (Z.eqb_spec k j) as [->|Hne].
  - rewrite Z.sub_diag in Hv. simpl in Hv. injection Hv as Hv. red in Hs. rewrite Hs, Hv. done.
  - rewrite andb_false_r. apply IH; [done| |lia]. replace (Z.to_nat (j - k)) with (S (Z.to_nat (j - (k + 1)))) in Hv by lia. eauto.
Qed.

Section linker.
Context {S : Type} `{ModulePages S} (junk : ram).

(** Unloading a region gives its pages back and unmaps them. *)
Lemma unload_region_ok reg mm0 sp P : region_ok reg → rep LMM mm0 (page_set P) → space_ok sp P → region_pages reg ⊆ page_set P →
  ∃ mm sp' P' reg', (∀ a m, unload_region_locked reg (MkLinker a mm0 sp m) = Ok (reg', MkLinker a mm sp' m))
    ∧ rep LMM mm (page_set P') ∧ space_ok sp' P' ∧ removes (region_pages reg) P P' ∧ vacant reg' = true.
Proof.
  intros Hok Hrep Hsp Hsub. unfold unload_region_locked. fold (vacant reg). destruct (vacant reg) eqn:Hv.
  - exists mm0, sp, P, reg. rewrite region_pages_vacant by done. split_and!; [done|done|done|apply removes_none|done].
  - destruct (region_pages_run reg Hok Hv) as (k & Hb & H1 & H2 & H3 & Hp). rewrite Hp in *.
    destruct (free_units_ok LMM LMM_ok mm0 _ k (g_size reg / PAGE_SIZE) Hrep H1 H2 H3 Hsub) as (mm & Hf & Hmm).
    destruct (space_unmap sp P k (g_size reg / PAGE_SIZE) Hsp H1 H2 H3 Hsub) as (sp' & P' & Eu & Hsp' & Hr).
    exists mm, sp', P', (with_base 0 reg). rewrite (removes_pages _ _ _ Hr). split_and!; [|done|done|done|apply vacant_base].
    intros a m. cbn [space lmm layouts lmem]. by rewrite Hb, Eu, bind_Ok, Hf, bind_Ok.
Qed.

(** The layouts own the allocated pages, and these are the pages that are mapped. *)
Record linker_inv (L : Linker S) (P : Pages) : Prop := {
  li_array : array_ok 64 (layouts L);
  li_rep : rep LMM (lmm L) (page_set P);
  li_space : space_ok (space L) P;
  li_regions i l : view (layouts L) !! i = Some (Some l) → region_ok (l_rx l) ∧ region_ok (l_rw l);
  li_tiling : tiling (owned (view (layouts L))) (page_set P)
}.

Definition layout_pages (l : Layout) : gset Z := region_pages (l_rw l) ∪ region_pages (l_rx l).

(** Unloading gives the pages of the layout back and frees its slot. *)
Lemma unload_ok (L : Linker S) P i l : linker_inv L P → 0 ≤ i → view (layouts L) !! Z.to_nat i = Some (Some l) →
  ∃ L' P', unload (Some i) L = Ok L' ∧ linker_inv L' P' ∧ removes (layout_pages l) P P'
    ∧ view (layouts L') = <[Z.to_nat i := None]> (view (layouts L)).
Proof.
  intros [Ha Hrep Hsp Hreg Htil] Hi Hv. destruct (Hreg _ _ Hv) as [Hrx Hrw].
  rewrite (owned_split _ _ _ Hv) in Htil. simpl in Htil. destruct Htil as (Hs1 & Hs2 & Htil).
  destruct (unload_region_ok (l_rw l) (lmm L) (space L) P Hrw Hrep Hsp Hs1) as (mm1 & sp1 & P1 & rw & E1 & Hr1 & Hsp1 & R1 & V1).
  rewrite <- (removes_pages _ _ _ R1) in Hs2, Htil.
  destruct (unload_region_ok (l_rx l) mm1 sp1 P1 Hrx Hr1 Hsp1 Hs2) as (mm2 & sp2 & P2 & rx & E2 & Hr2 & Hsp2 & R2 & V2).
  rewrite <- (removes_pages _ _ _ R2) in Htil.
  set (l' := with_region InRX rx (with_region InRW rw l)).
  destruct (store_layout_ok (layouts L) i l' l Ha Hi Hv) as [Ha' Hv'].
  pose proof (lookup_lt_Some _ _ _ Hv) as Hlt.
  assert (view (store_layout i l' (layouts L)) !! Z.to_nat i = Some (Some l')) as Hvi by (by rewrite Hv', list_lookup_insert_eq).
  assert (index_of (Some i) (store_layout i l' (layouts L)) = i) as Hix.
  { apply index_from_here; [apply Ha'| |lia]. exists l'. rewrite Z.sub_0_r. exact Hvi. }
  pose proof (erase_ok 64 _ Ha' i Hi) as He. rewrite Hvi in He. destruct He as (a & Ea & Haok & Hva).
  rewrite Hv', list_insert_insert_eq in Hva.
  exists (MkLinker a mm2 sp2 (lmem L)), P2. split_and!; [| |by eapply removes_trans|done].
  - unfold unload, unload_locked. rewrite (ptr_view 64 _ Ha) by done. rewrite Hv. cbn [mjoin option_join].
    destruct L as [al ml sl m]. cbn [space lmm layouts lmem] in *. rewrite E1, bind_Ok, E2, bind_Ok. cbn [layouts set_layouts]. fold l'. rewrite Hix.
    assert ((i =? npos) = false) as ->. { apply Z.eqb_neq. rewrite (view_length 64 al Ha) in Hlt. change npos with 4294967295. lia. }
    by rewrite Ea, bind_Ok.
  - split; simpl; [done|done|done| |by rewrite Hva].
    intros j lj. rewrite Hva. intros [[_ Hj]|[_ Hj]]%list_lookup_insert_Some; [by destruct Hj|]. by apply (Hreg j).
Qed.

(** ** The stages *)

(** Stage 0 gives no region memory, whatever the headers say. *)
Definition unplaced (l : Layout) : Prop := ∀ ref, g_base (region_of l ref) = 0 ∧ 0 ≤ g_size (region_of l ref) < 2 ^ 32.

Lemma place_unplaced i h l : unplaced l → unplaced (place i h l).
Proof.
  intros Hl. rewrite place_eq. destruct (loads h); [|done]. intros ref. cbv zeta. rewrite region_of_map, region_of_with.
  destruct (decide (ref = home h)) as [->|]; [|apply Hl]. simpl. split; [apply Hl|apply u32_range].
Qed.

Lemma align_up_range v a : 0 ≤ align_up v a < 2 ^ 32.
Proof. apply (land_range 32); [lia|apply u32_range]. Qed.

Lemma align_up_pages v : align_up v PAGE_SIZE mod PAGE_SIZE = 0.
Proof.
  unfold align_up. change (not32 (u32 (PAGE_SIZE - 1))) with Vmm.Entry.ADDRESS_MASK.
  change (Z.land ?x _) with (Vmm.Entry.address x). rewrite Vmm.address_eq by apply u32_range. unfold PAGE_SIZE. by rewrite Z.mul_comm, Z_mod_mult.
Qed.

Lemma stage0_unplaced m obj : unplaced (stage0 m obj (fresh_layout obj)).2
  ∧ ((stage0 m obj (fresh_layout obj)).1 = true → ∀ ref, g_size (region_of (stage0 m obj (fresh_layout obj)).2 ref) mod PAGE_SIZE = 0).
Proof.
  assert (∀ n i l, unplaced l → unplaced (stage0_loop n i m obj l)) as Hloop.
  { induction n as [|n IH]; intros i l Hl; simpl; [done|]. apply IH. by apply place_unplaced. }
  assert (unplaced (fresh_layout obj)) as Hfr by (intros []; simpl; lia).
  unfold stage0. destruct (_ || _); [by split|].
  set (l1 := stage0_loop _ _ _ _ _). assert (unplaced l1) as H1 by (apply Hloop; intros []; simpl; lia).
  split; [|intros _ []; apply align_up_pages]. intros []; simpl; (split; [apply (H1 InRX) || apply (H1 InRW)|apply align_up_range]).
Qed.

Definition space_msgs : list string := ["alloc_units: out of memory"; "alloc_units: request too large"]%string.

(** What stage 1 does to the module space. *)
Definition stage1_post (reg : Region) (L : Linker S) (P : Pages) (r : res (bool * Region * Linker S)) : Prop :=
  match r with
  | Ok (ok, reg', L') => layouts L' = layouts L ∧ region_ok reg' ∧ region_pages reg' ## page_set P
      ∧ ∃ P', takes (region_pages reg') P P' ∧ rep LMM (lmm L') (page_set P') ∧ space_ok (space L') P'
  | Panic msg => msg ∈ space_msgs
  | _ => False
  end.

Lemma stage1_ok reg obj (L : Linker S) P : g_base reg = 0 → 0 ≤ g_size reg < 2 ^ 32 → g_size reg mod PAGE_SIZE = 0 →
  rep LMM (lmm L) (page_set P) → space_ok (space L) P → stage1_post reg L P (stage1 junk reg obj L).
Proof.
  intros Hb Hs Hpg Hrep Hsp. unfold stage1. destruct (Z.eqb_spec (g_size reg) 0) as [Ez|Hnz].
  { assert (vacant reg = true) as Hv by (unfold vacant; by rewrite Hb). unfold stage1_post.
    rewrite (region_pages_vacant reg Hv). split_and!; [done|by left|set_solver|]. exists P. split_and!; [apply takes_none|done..]. }
  set (n := g_size reg / PAGE_SIZE). assert (0 < n) as Hn by (unfold n, PAGE_SIZE in *; dlia).
  destruct (decide (n ≤ MAX_UNITS LMM)) as [Hle|Hgt].
  2:{ unfold alloc_units. rewrite (proj2 (Z.eqb_neq n 0)), Z.gtb_ltb, (proj2 (Z.ltb_lt _ _)) by lia. simpl.
      unfold space_msgs. rewrite !elem_of_cons. tauto. }
  pose proof (alloc_units_ok LMM LMM_ok (lmm L) _ n Hrep ltac:(lia)) as Ha. destruct (find_run LMM (page_set P) n) as [u|] eqn:Eu.
  2:{ rewrite Ha. apply elem_of_cons. by left. }
  destruct Ha as (mm & -> & Hmm). rewrite bind_Ok. apply (find_run_Some LMM) in Eu as (Hu0 & Hun & Hd & _); [|lia].
  pose proof (space_map (space L) P u n Hsp Hu0 Hn Hun Hd) as Hmap. destruct (ps_alloc_frames n (space L)) as [[phys sp]|msg| |]; [|simpl in *|done..].
  2:{ destruct Hmap as [-> _]. apply elem_of_cons. by left. }
  cbn [served] in Hmap. destruct Hmap as [Hphys Hmap]. rewrite bind_Ok, (proj2 (Z.eqb_neq _ _) Hphys).
  destruct (ps_map_pages _ _ _ _ _) as [sp'|msg| |]; [|simpl in *|done..].
  2:{ destruct Hmap as [-> _]. apply elem_of_cons. by left. }
  destruct Hmap as (P' & Hsp' & Htk). rewrite bind_Ok. cbv zeta. destruct (copy_sections _ _ _ _) as [ok m]. cbn [stage1_post layouts lmm space].
  assert (region_ok (with_base (unit_addr LMM u) reg)) as Hok by (right; exists u; by split_and!).
  assert (vacant (with_base (unit_addr LMM u) reg) = false) as Hv.
  { unfold vacant. simpl. rewrite LMM_addr. unfold MODULE_SPACE_BASE. lia. }
  destruct (region_pages_run _ Hok Hv) as (u' & E' & _ & _ & _ & ->). simpl in E'. rewrite !LMM_addr in E'.
  assert (u' = u) as -> by lia. simpl. fold n. split_and!; [done|done|done|]. exists P'. by rewrite (takes_pages _ _ _ Htk).
Qed.

(** Stage 2 returns, unless the fuel for the names is too small. *)
Definition settles {A} (r : res A) : Prop := (∃ a, r = Ok a) ∨ r = NoFuel.

Lemma settles_bind {A B} (r : res A) (f : A → res B) : settles r → (∀ a, settles (f a)) → settles (r ≫= f).
Proof. intros [[a ->]| ->] Hf; [apply Hf|by right]. Qed.
Lemma settles_ok {A} (a : A) : settles (Ok a).
Proof. left. eauto. Qed.

Lemma first_index_settles n : ∀ i f, (∀ j, settles (f j)) → settles (first_index n i f).
Proof.
  induction n as [|n IH]; intros i f Hf; simpl; [apply settles_ok|]. apply settles_bind; [done|]. intros []; [apply settles_ok|by apply IH].
Qed.

Lemma lookup_settles fuel t m name : settles (Elf.lookup fuel t m name).
Proof.
  unfold Elf.lookup. destruct (name =? NULL); [apply settles_ok|]. apply settles_bind.
  - unfold hash_fold32_cstr. generalize 1469598103934665603. revert name. induction fuel as [|fuel IH]; intros name h; simpl; [by right|].
    destruct (m name =? 0); [apply settles_ok|apply IH].
  - intros nh. apply settles_bind; [apply first_index_settles; intros j; apply settles_ok|]. intros o. apply settles_ok.
Qed.

Lemma relocate_settles fuel t l obj ref sec r m : settles (relocate fuel t l obj ref sec r m).
Proof.
  unfold relocate. destruct (_ =? NULL); [apply settles_ok|]. destruct (_ <? _); [apply settles_ok|].
  apply settles_bind; [|intros v; apply settles_ok]. unfold symbol_value.
  destruct (_ =? SHN_UNDEF); [apply settles_bind; [apply lookup_settles|intros e; apply settles_ok]|].
  destruct (_ =? SHN_ABS); [apply settles_ok|]. destruct (_ =? SHN_COMMON); [apply settles_ok|].
  destruct (_ <=? _); apply settles_ok.
Qed.

Lemma stage2_settles fuel t l m : settles (stage2 fuel t l m).
Proof.
  unfold stage2. destruct (l_obj l) as [obj|]; [|apply settles_ok]. destruct (l_map l); [|apply settles_ok].
  generalize 0. generalize (Z.to_nat (sec_hdrs_num obj)). intros n. revert m. induction n as [|n IH]; intros m i; simpl; [apply settles_ok|].
  apply settles_bind; [|intros [m'|]; [apply IH|apply settles_ok]].
  unfold rel_section. destruct (negb _); [apply settles_ok|]. destruct (_ <=? _); [apply settles_ok|].
  destruct (mapped _ _) as [[ref sec]|]; [|apply settles_ok]. destruct (_ =? 0); [apply settles_ok|]. destruct (_ && _); [apply settles_ok|].
  generalize (header_offset obj (sh_offset (sec_at m obj i))). generalize (Z.to_nat (sh_size (sec_at m obj i) / 8)).
  intros k. generalize m. induction k as [|k IHk]; intros m0 rel; simpl; [apply settles_ok|].
  apply settles_bind; [apply relocate_settles|]. intros [m1|]; [apply IHk|apply settles_ok].
Qed.

(** The layout [l] has been stored at slot [i], with pages that were free. *)
Record stored (i : Z) (L : Linker S) (P : Pages) (l : Layout) (L' : Linker S) (P' : Pages) : Prop := {
  sd_array : array_ok 64 (layouts L');
  sd_view : view (layouts L') = <[Z.to_nat i := Some l]> (view (layouts L));
  sd_regions : region_ok (l_rx l) ∧ region_ok (l_rw l);
  sd_fresh : region_pages (l_rx l) ## page_set P ∧ region_pages (l_rw l) ## page_set P ∪ region_pages (l_rx l);
  sd_takes : takes (layout_pages l) P P';
  sd_rep : rep LMM (lmm L') (page_set P');
  sd_space : space_ok (space L') P'
}.

Definition stages_post (i : Z) (L : Linker S) (P : Pages) (r : res (bool * Linker S)) : Prop :=
  match r with
  | Ok (_, L') => ∃ l P', stored i L P l L' P'
  | NoFuel => True
  | Panic msg => msg ∈ space_msgs
  | Fault _ => False
  end.

Lemma stored_intro i (L L' : Linker S) P P1 P2 l0 l : array_ok 64 (layouts L) → 0 ≤ i → view (layouts L) !! Z.to_nat i = Some (Some l0) →
  layouts L' = layouts L → region_ok (l_rx l) → region_ok (l_rw l) → region_pages (l_rx l) ## page_set P →
  takes (region_pages (l_rx l)) P P1 → region_pages (l_rw l) ## page_set P1 → takes (region_pages (l_rw l)) P1 P2 →
  rep LMM (lmm L') (page_set P2) → space_ok (space L') P2 →
  stored i L P l (set_layouts (store_layout i l (layouts L')) L') P2.
Proof.
  intros Ha Hi Hv El Hx Hw Hd1 T1 Hd2 T2 Hr Hs. destruct (store_layout_ok (layouts L) i l l0 Ha Hi Hv) as [H1 H2]. rewrite El. split; try done.
  - by rewrite <- (takes_pages _ _ _ T1).
  - unfold layout_pages. rewrite union_comm_L. by eapply takes_trans.
Qed.

Lemma stages_ok fuel t i obj (L : Linker S) P l0 : array_ok 64 (layouts L) → 0 ≤ i → view (layouts L) !! Z.to_nat i = Some (Some l0) →
  rep LMM (lmm L) (page_set P) → space_ok (space L) P → stages_post i L P (stages junk fuel t i (fresh_layout obj) obj L).
Proof.
  intros Ha Hi Hv Hrep Hsp. unfold stages. pose proof (stage0_unplaced (lmem L) obj) as [Hun Hpg].
  destruct (stage0 (lmem L) obj (fresh_layout obj)) as [ok0 l1]. simpl in Hun, Hpg.
  destruct (Hun InRX) as [Hbx Hsx]. destruct (Hun InRW) as [Hbw Hsw]. simpl in Hbx, Hsx, Hbw, Hsw.
  assert (∀ r, g_base r = 0 → vacant r = true) as Hvac by (intros r E; unfold vacant; by rewrite E).
  assert (region_pages (l_rx l1) = ∅) as Ex by (by apply region_pages_vacant, Hvac).
  assert (region_pages (l_rw l1) = ∅) as Ew by (by apply region_pages_vacant, Hvac).
  assert (region_ok (l_rx l1) ∧ region_ok (l_rw l1)) as [Hx Hw] by (split; left; by apply Hvac).
  destruct ok0; cbn [negb].
  2: { exists l1, P. eapply (stored_intro _ _ _ _ P P); eauto; rewrite ?Ex, ?Ew; (apply takes_none || set_solver). }
  specialize (Hpg eq_refl). pose proof (Hpg InRX) as Hpx. pose proof (Hpg InRW) as Hpw. clear Hpg. simpl in Hpx, Hpw.
  pose proof (stage1_ok (l_rx l1) obj L P Hbx Hsx Hpx Hrep Hsp) as P1.
  destruct (stage1 junk (l_rx l1) obj L) as [[[ok1 rx] L1]| | |]; [|done..]. destruct P1 as (El1 & Hrx & Hdx & P1 & T1 & Hr1 & Hs1). rewrite bind_Ok.
  destruct ok1; cbn [negb].
  2: { exists (with_region InRX rx l1), P1. eapply (stored_intro _ _ _ _ P1 P1); eauto; cbn [with_region l_rx l_rw]; rewrite ?Ew; (apply takes_none || set_solver). }
  pose proof (stage1_ok (l_rw (with_region InRX rx l1)) obj L1 P1 Hbw Hsw Hpw Hr1 Hs1) as P2.
  destruct (stage1 junk (l_rw (with_region InRX rx l1)) obj L1) as [[[ok2 rw] L2]| | |]; [|done..].
  destruct P2 as (El2 & Hrw & Hdw & P2 & T2 & Hr2 & Hs2).
  rewrite bind_Ok. assert (∀ L3, layouts L3 = layouts L2 → lmm L3 = lmm L2 → space L3 = space L2 →
    stored i L P (with_region InRW rw (with_region InRX rx l1)) (set_layouts (store_layout i (with_region InRW rw (with_region InRX rx l1)) (layouts L3)) L3) P2) as Hst.
  { intros L3 E3 E4 E5. eapply (stored_intro _ _ _ _ P1 P2); eauto; cbn [with_region l_rx l_rw]; [congruence|by rewrite E4|by rewrite E5]. }
  destruct ok2; cbn [negb]; [|exists (with_region InRW rw (with_region InRX rx l1)), P2; by apply Hst].
  destruct (stage2_settles fuel t (with_region InRW rw (with_region InRX rx l1)) (lmem L2)) as [[o ->]| ->]; [|done].
  rewrite bind_Ok. destruct o as [m|]; exists (with_region InRW rw (with_region InRX rx l1)), P2; by apply Hst.
Qed.

(** A stored layout joins the tiling. *)
Lemma stored_inv i (L L' : Linker S) P P' l : 0 ≤ i → linker_inv L P → view (layouts L) !! Z.to_nat i = Some None → stored i L P l L' P' →
  linker_inv L' P' ∧ layout_pages l ## page_set P.
Proof.
  intros Hi [Ha Hrep Hsp Hreg Htil] Hv [Sa Sv [Sx Sw] [Sd1 Sd2] St Sr Ss]. pose proof (lookup_lt_Some _ _ _ Hv) as Hlt.
  split; [|unfold layout_pages; set_solver]. split; [done|done|done| |].
  - intros j lj. rewrite Sv. intros [[_ [Hj _]]|[_ Hj]]%list_lookup_insert_Some; [injection Hj as <-; done|by apply (Hreg j)].
  - rewrite Sv, (owned_split (<[Z.to_nat i := Some l]> (view (layouts L))) (Z.to_nat i) (Some l)) by (by apply list_lookup_insert_eq).
    rewrite list_insert_insert_eq, (list_insert_id (view (layouts L)) (Z.to_nat i) None) by done. simpl slot_pages. cbn [app].
    assert (page_set P' = page_set P ∪ region_pages (l_rx l) ∪ region_pages (l_rw l)) as ->.
    { rewrite (takes_pages _ _ _ St). unfold layout_pages. set_solver. }
    apply tiling_add; [|done]. by apply tiling_add.
Qed.

Definition load_msgs : list string := "StaticArray full"%string :: space_msgs.

Definition load_post (L : Linker S) (P : Pages) (r : res (option Z * Linker S)) : Prop :=
  match r with
  | Ok (Some i, L') => ∃ l P', 0 ≤ i ∧ view (layouts L) !! Z.to_nat i = Some None ∧ view (layouts L') = <[Z.to_nat i := Some l]> (view (layouts L))
      ∧ layout_pages l ## page_set P ∧ takes (layout_pages l) P P' ∧ linker_inv L' P'
  | Ok (None, L') => view (layouts L') = view (layouts L) ∧ ∃ P', frame_of P' = frame_of P ∧ table_taken P P' ∧ linker_inv L' P'
  | NoFuel => True
  | Panic msg => msg ∈ load_msgs
  | Fault _ => False
  end.

Lemma load_ok fuel t obj (L : Linker S) P : linker_inv L P → load_post L P (load junk fuel t obj L).
Proof.
  intros Hinv. destruct obj as [obj|]; [|split; [done|]; exists P; split_and!; [done|apply table_same|done]].
  unfold load. pose proof (emplace_ok 64 (layouts L) (li_array _ _ Hinv) layout_init) as He.
  destruct (first_none (view (layouts L))) as [i|] eqn:Ei; [|rewrite He; simpl; apply elem_of_cons; by left].
  destruct He as (a & -> & Ha & Hva). rewrite bind_Ok. apply first_none_Some in Ei as [Ei _]. pose proof (lookup_lt_Some _ _ _ Ei) as Hlt.
  set (L1 := set_layouts a L). fold (fresh_layout obj).
  assert (view (layouts L1) !! Z.to_nat (Z.of_nat i) = Some (Some layout_init)) as Hv1.
  { rewrite Nat2Z.id. simpl. rewrite Hva. by apply list_lookup_insert_eq. }
  pose proof (stages_ok fuel t (Z.of_nat i) obj L1 P layout_init Ha ltac:(lia) Hv1 (li_rep _ _ Hinv) (li_space _ _ Hinv)) as Hst0.
  destruct (stages junk fuel t (Z.of_nat i) (fresh_layout obj) obj L1) as [[ok L2]|msg| |] eqn:Es; [|simpl in *; by apply elem_of_cons; right|done..].
  destruct Hst0 as (l & P' & Hst). rewrite bind_Ok. assert (stored (Z.of_nat i) L P l L2 P') as Hst'.
  { destruct Hst as [H1 H2 H3 H4 H5]. split; try done. rewrite H2. simpl. rewrite Hva, Nat2Z.id. apply list_insert_insert_eq. }
  rewrite <- (Nat2Z.id i) in Ei. destruct (stored_inv (Z.of_nat i) L L2 P P' l ltac:(lia) Hinv Ei Hst') as [Hinv2 Hd].
  pose proof (sd_view _ _ _ _ _ _ Hst') as Hv2. pose proof (sd_takes _ _ _ _ _ _ Hst') as Htk. destruct ok.
  - exists l, P'. split_and!; (done || lia).
  - destruct (unload_ok L2 P' (Z.of_nat i) l Hinv2 ltac:(lia)) as (L3 & P3 & E3 & Hinv3 & Hrm & Hv3).
    { rewrite Hv2. apply list_lookup_insert_eq. by rewrite Nat2Z.id. }
    unfold unload in E3. rewrite E3, bind_Ok. split; [rewrite Hv3, Hv2, list_insert_insert_eq; by apply list_insert_id|].
    destruct (takes_removes _ _ _ _ Hd Htk Hrm) as [E4 Ht]. by exists P3.
Qed.

(** ** The destructor *)

Lemma live_entry {T} (os : list (option T)) : (0 < live os)%nat → ∃ i v, os !! i = Some (Some v).
Proof.
  induction os as [|[v|] os IH]; simpl; intros Hl; [lia|by exists 0%nat, v|]. destruct (IH Hl) as (i & v & Hi). by exists (Datatypes.S i), v.
Qed.

Lemma live_none (os : list (option Layout)) : live os = 0%nat → owned os = [].
Proof. induction os as [|[l|] os IH]; simpl; [done|done|]. unfold owned in *. simpl. auto. Qed.

Lemma first_layout_ok a : array_ok 64 a → ∀ n i, 0 ≤ i →
  (∃ j l, i ≤ j < i + Z.of_nat n ∧ view a !! Z.to_nat j = Some (Some l)) →
  ∃ j l, first_layout n i a = Some j ∧ i ≤ j ∧ view a !! Z.to_nat j = Some (Some l).
Proof.
  intros Ha. induction n as [|n IH]; intros i Hi (j & l & Hj & Hv); [lia|]. cbn [first_layout]. rewrite (ptr_view 64 a Ha) by done.
  destruct (view a !! Z.to_nat i) as [[l'|]|] eqn:Ei; cbn [mjoin option_join]; [exists i, l'; split_and!; (done || lia)|..];
    (destruct (IH (i + 1)) as (j' & l' & ? & ? & ?); [lia| |exists j', l'; split_and!; (done || lia)]); exists j, l;
    (split; [|done]); (destruct (decide (j = i)) as [->|]; [congruence|lia]).
Qed.

Lemma destroy_ok fuel : ∀ (L : Linker S) P, linker_inv L P → (live (view (layouts L)) ≤ fuel)%nat →
  ∃ L' P', linker_destroy fuel L = Ok L' ∧ linker_inv L' P' ∧ removes (page_set P) P P' ∧ live (view (layouts L')) = 0%nat.
Proof.
  assert (∀ (L : Linker S) P, linker_inv L P → live (view (layouts L)) = 0%nat → removes (page_set P) P P) as Hnone.
  { intros L P Hinv El. pose proof (li_tiling _ _ Hinv) as Ht. rewrite live_none in Ht by done. simpl in Ht. rewrite Ht. apply removes_none. }
  induction fuel as [|fuel IH]; intros L P Hinv Hl.
  - exists L, P. assert (live (view (layouts L)) = 0%nat) as E by lia. unfold linker_destroy, Slots.empty. rewrite (ok_live _ _ (li_array _ _ Hinv)), E.
    split_and!; [done|done|by eapply Hnone|done].
  - cbn [linker_destroy]. unfold Slots.empty. rewrite (ok_live _ _ (li_array _ _ Hinv)). destruct (Z.eqb_spec (Z.of_nat (live (view (layouts L)))) 0) as [E|E].
    + exists L, P. split_and!; [done|done|eapply Hnone; [done|lia]|lia].
    + destruct (live_entry (view (layouts L))) as (j & l & Hj); [lia|]. pose proof (lookup_lt_Some _ _ _ Hj) as Hlt.
      rewrite (view_length 64 _ (li_array _ _ Hinv)) in Hlt. rewrite (capacity_eq 64 _ (li_array _ _ Hinv)).
      destruct (first_layout_ok (layouts L) (li_array _ _ Hinv) (Z.to_nat 64) 0 ltac:(lia)) as (i & l' & -> & Hi & Hv).
      { exists (Z.of_nat j), l. rewrite Nat2Z.id. split; [lia|done]. }
      destruct (unload_ok L P i l' Hinv Hi Hv) as (L1 & P1 & E1 & Hinv1 & Hrm & Hv1). unfold unload in E1. rewrite E1, bind_Ok.
      destruct (IH L1 P1 Hinv1) as (L2 & P2 & E2 & Hinv2 & Hrm2 & Hl2); [rewrite Hv1; pose proof (live_delete _ _ _ Hv); lia|].
      exists L2, P2. split_and!; [done|done| |done]. eapply removes_all; [exact Hrm|exact Hrm2].
Qed.

Lemma linker_init_inv sp m P : space_ok sp P → frame_of P = ∅ → linker_inv (linker_init sp m) P.
Proof.
  intros Hsp HP. assert (page_set P = ∅) as E by (unfold page_set; by rewrite HP, dom_empty_L).
  destruct (array_init_ok (T := Layout) 64 ltac:(lia)) as [Ha Hv]. split; rewrite ?E; [exact Ha|apply bitmap_init_rep, LMM_ok|done|..]; cbn [layouts linker_init].
  - intros i l. rewrite Hv. intros Hi. apply lookup_replicate in Hi as [? _]. done.
  - rewrite Hv, live_none; [done|]. apply live_replicate.
Qed.
End linker.

(** C10: the module space over the life of the linker. The pages its allocator has handed out
    are exactly the pages of the loaded layouts' regions, which are disjoint, and exactly the
    pages of module space that are mapped. [load] either returns a layout in a slot that was free, with
    pages that were free, each mapped to a frame of its own that was free; or it returns null,
    and then the layouts, the mapped pages and their frames are what they were before: a failed
    load leaves nothing behind, but the page table of module space if that was missing. It
    stops only by the panics for a full table, exhausted module space and exhausted memory.
    [unload] returns; it unmaps exactly the pages of its layout, gives them back and frees their
    frames. The destructor returns and unmaps every page. On a space without mapped pages
    the invariant holds of a new linker. The memory managers keep the laws used here
    ([machine_module_pages]). *)
Theorem linker_owns_space {S} `{ModulePages S} junk (L : Linker S) P :
  linker_inv L P →
  (∀ fuel t obj, load_post L P (load junk fuel t obj L))
  ∧ (∀ i l, 0 ≤ i → view (layouts L) !! Z.to_nat i = Some (Some l) →
       ∃ L' P', unload (Some i) L = Ok L' ∧ linker_inv L' P' ∧ removes (layout_pages l) P P'
         ∧ view (layouts L') = <[Z.to_nat i := None]> (view (layouts L)))
  ∧ (∃ L' P', linker_destroy 64 L = Ok L' ∧ linker_inv L' P' ∧ removes (page_set P) P P' ∧ live (view (layouts L')) = 0%nat)
  ∧ (∀ sp m P0, space_ok sp P0 → frame_of P0 = ∅ → linker_inv (linker_init sp m) P0).
Proof.
  intros Hinv. split_and!.
  - intros fuel t obj. by apply load_ok.
  - intros i l. by apply unload_ok.
  - apply (destroy_ok 64 L P Hinv). pose proof (live_le (view (layouts L))) as Hle.
    rewrite (view_length 64 _ (li_array _ _ Hinv)) in Hle. lia.
  - intros sp m P0. apply linker_init_inv.
Qed.

(** Loading the demo object into a ledger, and unloading it. *)
Definition ledger_linker : Linker Pages := linker_init Ledger.empty DemoObject.mem.

(** A linker on the memory managers of a started machine. *)
Lemma machine_linker : ∃ (m : Vmm.machine Pmm.pmm) P, linker_inv (linker_init m DemoObject.mem) P.
Proof.
  destruct Vmm.started as (m & D & A & Hwf & _ & _ & _ & Hno). eexists m, _. apply linker_init_inv.
  - apply (machine_ready m D A Hwf). intros k Hk. apply Hno. rewrite module_units in Hk. unfold MODULE_PAGE, MODULE_SPACE_BASE. dlia.
  - done.
Qed.

Lemma linker_owns_space_witness :
  (∃ L1 L2 P1 P2 l, load (λ _, 0) 20 DemoObject.kexp (Some demo_object) ledger_linker = Ok (Some 0, L1)
     ∧ takes (layout_pages l) Ledger.empty P1 ∧ linker_inv L1 P1
     ∧ unload (Some 0) L1 = Ok L2 ∧ removes (layout_pages l) P1 P2 ∧ linker_inv L2 P2)
  ∧ ∃ (L : Linker (Vmm.machine Pmm.pmm)) P, ∀ fuel t obj, load_post L P (load (λ _, 0) fuel t obj L).
Proof.
  split.
  - destruct (linker_owns_space (λ _, 0) ledger_linker Ledger.empty (linker_init_inv _ DemoObject.mem _ ledger_empty eq_refl)) as (Hload & _).
    specialize (Hload 20%nat DemoObject.kexp (Some demo_object)).
    assert (match load (λ _, 0) 20 DemoObject.kexp (Some demo_object) ledger_linker with Ok (Some i, _) => i | _ => 1 end = 0) as E0
      by (vm_compute; reflexivity).
    revert Hload E0. destruct (load (λ _, 0) 20 DemoObject.kexp (Some demo_object) ledger_linker) as [[[i|] L1]| | |]; [|discriminate..].
    intros (l & P1 & _ & Hv & Hv1 & _ & Htk & Hinv) ->.
    destruct (linker_owns_space (λ _, 0) L1 P1 Hinv) as (_ & Hun & _). destruct (Hun 0 l) as (L2 & P2 & E2 & Hinv2 & Hrm & _); [lia| |].
    { rewrite Hv1. apply list_lookup_insert_eq. apply (lookup_lt_Some _ _ _ Hv). }
    exists L1, L2, P1, P2, l. by split_and!.
  - destruct machine_linker as (m & P & Hinv). eexists _, P. apply (linker_owns_space (λ _, 0) _ P Hinv).
Defined.
