(* ===== verification/Acpi.v ===== *)
(** ACPI tables: kernel/include/sys/acpi.hpp.

    The tables are in physical memory, which the kernel reads through identity
    mappings: [wmap] is the set of mapped pages, and reading elsewhere faults.
    [map_identity_page] and the like are, for identity mappings, what [Vmm.v] proves
    of them: they add or remove pages of the set. *)
From S2P Require Import Prelude Memory Layout Strings Elf.

(** ** Memory behind identity mappings *)
Record world := World { wmem : ram; wmap : gset Z }.

Definition present (w : world) (a : Z) : bool := bool_decide (a / PAGE_SIZE ∈ wmap w).
Definition ld8 (w : world) (a : Z) : res Z := if present w a then Ok (wmem w a) else Fault a.
Definition ld16 (w : world) (a : Z) : res Z :=
  if present w a && present w (a + 1) then Ok (rd16 (wmem w) a) else Fault a.
Definition ld32 (w : world) (a : Z) : res Z :=
  if present w a && present w (a + 3) then Ok (rd32 (wmem w) a) else Fault a.

Definition map_identity_page (a : Z) (w : world) : world := World (wmem w) (wmap w ∪ {[ a / PAGE_SIZE ]}).
Definition unmap_page (a : Z) (w : world) : world := World (wmem w) (wmap w ∖ {[ a / PAGE_SIZE ]}).
Definition map_identity_span (a size : Z) (w : world) : world :=
  if size =? 0 then w
  else World (wmem w) (wmap w ∪ run (a / PAGE_SIZE) (align_up (u32 (a mod PAGE_SIZE + size)) PAGE_SIZE / PAGE_SIZE)).

(** ** Structures *)
Definition SDT_SIZE : Z := 36.
Definition RSDP1_SIZE : Z := 20.
Definition RSDP2_SIZE : Z := 36.
Definition sdt_signature (w : world) (h : Z) : res Z := ld32 w h.
Definition sdt_length (w : world) (h : Z) : res Z := ld32 w (h + 4).
Definition rsdp_revision (w : world) (p : Z) : res Z := ld8 w (p + 15).
Definition rsdp_rsdt_address (w : world) (p : Z) : res Z := ld32 w (p + 16).
(** [(uint32_t)rsdp->xsdt_address] *)
Definition rsdp_xsdt_address (w : world) (p : Z) : res Z := ld32 w (p + 24).

Record acpi := MkAcpi { rsdp : Z; rsdt : Z }.

Fixpoint checksum_loop (n : nat) (w : world) (data sum : Z) : res Z :=
  match n with
  | O => Ok sum
  | S n => b ← ld8 w data; checksum_loop n w (data + 1) (u8 (sum + b))
  end.
Definition validate_bytes (w : world) (data length : Z) : res bool :=
  sum ← checksum_loop (Z.to_nat length) w data 0; Ok (sum =? 0).
Definition validate_checksum (w : world) (hdr : Z) : res bool :=
  n ← sdt_length w hdr; validate_bytes w hdr n.

(** The scanned area is always mapped. *)
Fixpoint scan_rsdp (n : nat) (m : ram) (sig ptr : Z) : Z :=
  match n with
  | O => NULL
  | S n => if strncmp m ptr sig 8 =? 0 then ptr else scan_rsdp n m sig (ptr + 4)
  end.
Definition find_rsdp (lit : string → Z) (w : world) : Z :=
  scan_rsdp (Z.to_nat ((ACPI_SCAN_END - ACPI_SCAN_BASE) / 4)) (wmem w) (lit "RSD PTR ") ACPI_SCAN_BASE.

Definition acpi_init (lit : string → Z) (w : world) : res (acpi * world) :=
  let p := find_rsdp lit w in
  if p =? NULL then Ok (MkAcpi NULL NULL, w)
  else
    rev ← rsdp_revision w p;
    ok ← validate_bytes w p (if rev =? 0 then RSDP1_SIZE else RSDP2_SIZE);
    if negb ok then Ok (MkAcpi p NULL, w)
    else
      t ← (if rev =? 0 then rsdp_rsdt_address w p else rsdp_xsdt_address w p);
      if t =? NULL then Ok (MkAcpi p t, w)
      else
        let w := map_identity_page t w in
        ok ← validate_checksum w t;
        if negb ok then Ok (MkAcpi p t, unmap_page t w)
        else n ← sdt_length w t; Ok (MkAcpi p t, map_identity_span t n w).

(** The table an entry points to has the signature and a valid checksum. *)
Definition matches (w : world) (signature entry : Z) : res bool :=
  header ← ld32 w entry;
  s ← sdt_signature w header;
  if s =? signature then validate_checksum w header else Ok false.

Definition find_sdth (signature : Z) (a : acpi) (w : world) : res Z :=
  if rsdp a =? NULL then Ok NULL
  else
    rev ← rsdp_revision w (rsdp a);
    n ← sdt_length w (rsdt a);
    let width := if 2 <=? rev then 8 else 4 in
    let entry_count := u32 (n - SDT_SIZE) / width in
    r ← first_index (Z.to_nat entry_count) 0 (λ i, matches w signature (rsdt a + SDT_SIZE + width * i));
    match r with
    | Some i => ld32 w (rsdt a + SDT_SIZE + width * i)
    | None => Ok NULL
    end.

(** ** Checksums *)

(** All [n] bytes from [a] on are mapped. *)
Definition readable (w : world) (a n : Z) : Prop := ∀ b, a ≤ b < a + n → present w b = true.

Fixpoint byte_sum (m : ram) (a : Z) (n : nat) : Z :=
  match n with O => 0 | S n => m a + byte_sum m (a + 1) n end.

Lemma checksum_loop_ok n : ∀ w data sum, readable w data (Z.of_nat n) → 0 ≤ sum < 256 →
  checksum_loop n w data sum = Ok (u8 (sum + byte_sum (wmem w) data n)).
Proof.
  induction n as [|n IH]; intros w data sum Hr Hs; simpl.
  - by rewrite Z.add_0_r, wrap_small by lia.
  - unfold ld8. rewrite Hr by lia. rewrite bind_Ok. rewrite IH.
    + rewrite wrap_add_l. do 2 f_equal. lia.
    + intros b Hb. apply Hr. lia.
    + apply (wrap_range 8). lia.
Qed.

(** The bytes of a table add up to 0 modulo 256. *)
Definition sum_ok (m : ram) (a n : Z) : Prop := byte_sum m a (Z.to_nat n) mod 256 = 0.

Lemma validate_bytes_ok w data n : 0 ≤ n → readable w data n → ∃ b, validate_bytes w data n = Ok b ∧ (b = true ↔ sum_ok (wmem w) data n).
Proof.
  intros Hn Hr. unfold validate_bytes. rewrite checksum_loop_ok; [|by rewrite Z2Nat.id by lia|lia]. rewrite bind_Ok.
  eexists. split; [done|]. rewrite Z.eqb_eq, Z.add_0_l. done.
Qed.

Lemma ld32_ok w a : readable w a 4 → ld32 w a = Ok (rd32 (wmem w) a).
Proof. intros Hr. unfold ld32. by rewrite !Hr by lia. Qed.
Lemma ld16_ok w a : readable w a 2 → ld16 w a = Ok (rd16 (wmem w) a).
Proof. intros Hr. unfold ld16. by rewrite !Hr by lia. Qed.
Lemma ld8_ok w a : readable w a 1 → ld8 w a = Ok (wmem w a).
Proof. intros Hr. unfold ld8. by rewrite Hr by lia. Qed.
Lemma readable_sub w a n b k : readable w a n → a ≤ b → b + k ≤ a + n → readable w b k.
Proof. intros Hr Hb Hk c Hc. apply Hr. lia. Qed.

(** A table that is mapped as a whole. *)
Record table (w : world) (h : Z) : Prop := {
  tb_head : readable w h SDT_SIZE;
  tb_body : readable w h (rd32 (wmem w) (h + 4))
}.
Definition is_table (m : ram) (signature h : Z) : Prop := rd32 m h = signature ∧ sum_ok m h (rd32 m (h + 4)).

Lemma validate_table w h : bytes_ok (wmem w) → table w h →
  ∃ b, validate_checksum w h = Ok b ∧ (b = true ↔ sum_ok (wmem w) h (rd32 (wmem w) (h + 4))).
Proof.
  intros Hby [H1 H2]. unfold validate_checksum, sdt_length. rewrite ld32_ok by (eapply readable_sub; [exact H1|unfold SDT_SIZE; lia..]).
  rewrite bind_Ok. apply validate_bytes_ok; [apply rd32_range; done|done].
Qed.

(** ** Finding tables *)

(** The entries of the root table at [r]: pointers of [width] bytes. *)
Definition entry_at (m : ram) (r width i : Z) : Z := rd32 m (r + SDT_SIZE + width * i).
Definition entries (m : ram) (r width : Z) : Z := u32 (rd32 m (r + 4) - SDT_SIZE) / width.

Lemma matches_ok w sig e : bytes_ok (wmem w) → readable w e 4 → table w (rd32 (wmem w) e) →
  ∃ b, matches w sig e = Ok b ∧ (b = true ↔ is_table (wmem w) sig (rd32 (wmem w) e)).
Proof.
  intros Hby He Ht. unfold matches, sdt_signature, is_table. rewrite (ld32_ok w e) by done. rewrite bind_Ok.
  rewrite ld32_ok by (eapply readable_sub; [exact (tb_head _ _ Ht)|unfold SDT_SIZE; lia..]). rewrite bind_Ok.
  destruct (Z.eqb_spec (rd32 (wmem w) (rd32 (wmem w) e)) sig) as [E|E].
  - destruct (validate_table w _ Hby Ht) as (b & -> & Hb). exists b. split; [done|]. tauto.
  - exists false. split; [done|]. split; [done|tauto].
Qed.

(** [r] is the first of the root table's entries that points to a table called [sig]. *)
Definition first_table (m : ram) (root width sig r : Z) : Prop :=
  ∃ o, first_such (entries m root width) 0 (λ i, is_table m sig (entry_at m root width i)) o
    ∧ r = match o with Some i => entry_at m root width i | None => NULL end.

Lemma find_sdth_ok sig a w width : bytes_ok (wmem w) → rsdp a ≠ NULL → readable w (rsdp a) RSDP2_SIZE → table w (rsdt a) →
  SDT_SIZE ≤ rd32 (wmem w) (rsdt a + 4) → width = (if 2 <=? wmem w (rsdp a + 15) then 8 else 4) →
  (∀ i, 0 ≤ i < entries (wmem w) (rsdt a) width → table w (entry_at (wmem w) (rsdt a) width i)) →
  ∃ r, find_sdth sig a w = Ok r ∧ first_table (wmem w) (rsdt a) width sig r.
Proof.
  intros Hby Hp Hrp Hroot Hlen Hw Ht. unfold find_sdth, rsdp_revision, sdt_length. rewrite (proj2 (Z.eqb_neq _ _) Hp).
  rewrite ld8_ok by (eapply readable_sub; [exact Hrp|unfold RSDP2_SIZE; lia..]). rewrite bind_Ok.
  rewrite ld32_ok by (eapply readable_sub; [exact (tb_head _ _ Hroot)|unfold SDT_SIZE; lia..]). rewrite bind_Ok. rewrite <- Hw.
  fold (entries (wmem w) (rsdt a) width). pose proof (rd32_range (wmem w) (rsdt a + 4) Hby) as Hl.
  assert (0 < width) as Hw0 by (rewrite Hw; by destruct (2 <=? _)). unfold SDT_SIZE in Hlen.
  assert (0 ≤ entries (wmem w) (rsdt a) width ∧ width * entries (wmem w) (rsdt a) width + SDT_SIZE ≤ rd32 (wmem w) (rsdt a + 4)) as [Hn0 Hn1].
  { unfold entries, SDT_SIZE. rewrite u32_small by lia. split; [apply Z.div_pos; lia|]. pose proof (Z.mul_div_le (rd32 (wmem w) (rsdt a + 4) - 36) width). lia. }
  assert (∀ i, 0 ≤ i < entries (wmem w) (rsdt a) width → readable w (rsdt a + SDT_SIZE + width * i) 4) as He.
  { intros i Hi. assert (4 ≤ width) by (rewrite Hw; by destruct (2 <=? _)). eapply readable_sub; [exact (tb_body _ _ Hroot)|unfold SDT_SIZE in *; nia..]. }
  match goal with |- context [first_index ?n 0 ?t] =>
    destruct (first_index_ok (λ i, is_table (wmem w) sig (entry_at (wmem w) (rsdt a) width i)) t n 0) as (o & -> & Ho) end.
  { intros j Hj. apply matches_ok; [done|apply He; lia|apply Ht; lia]. }
  rewrite bind_Ok. rewrite Z2Nat.id in Ho by lia. exists (match o with Some i => entry_at (wmem w) (rsdt a) width i | None => NULL end).
  split; [|by exists o]. destruct o as [i|]; [|done]. destruct Ho as [Hi _]. apply ld32_ok. apply He. lia.
Qed.

(** ** The root pointer *)

Lemma strncmp_seg s : ∀ m a b, Forall (λ c, c ≠ 0) s → seg m b s → (strncmp_loop (length s) m a b = 0 ↔ seg m a s).
Proof.
  induction s as [|c s IH]; intros m a b Hn Hs; simpl; [split; [intros _ i x Hx; by rewrite lookup_nil in Hx|done]|].
  apply Forall_cons in Hn as [Hc Hn]. change (c :: s) with ([c] ++ s) in Hs |- *. rewrite seg_app, seg_one in Hs |- *. destruct Hs as [Hb Hs].
  change (Z.of_nat (length [c])) with 1 in Hs |- *.
  rewrite Hb. destruct (Z.eqb_spec (m a) c) as [->|Hne]; cbn [negb].
  - rewrite (proj2 (Z.eqb_neq _ _) Hc), (IH m (a + 1) (b + 1) Hn Hs). tauto.
  - split; [lia|]. by intros [? _].
Qed.

Lemma scan_rsdp_ok m sig s n : ∀ ptr, seg m sig s → Forall (λ c, c ≠ 0) s → length s = 8%nat → 0 < ptr →
  ∃ o, first_such (Z.of_nat n) 0 (λ i, seg m (ptr + 4 * i) s) o
    ∧ scan_rsdp n m sig ptr = match o with Some i => ptr + 4 * i | None => NULL end.
Proof.
  induction n as [|n IH]; intros ptr Hs Hn Hl Hp; simpl.
  { exists None. split; [|done]. intros j Hj. lia. }
  unfold strncmp. change (Z.to_nat 8) with 8%nat. pose proof (strncmp_seg s m ptr sig Hn Hs) as Hiff. rewrite Hl in Hiff.
  destruct (Z.eqb_spec (strncmp_loop 8 m ptr sig) 0) as [E|E].
  - exists (Some 0). split; [|lia]. split; [lia|]. split; [|intros j Hj; lia]. rewrite Z.mul_0_r, Z.add_0_r. by apply Hiff.
  - destruct (IH (ptr + 4) Hs Hn Hl ltac:(lia)) as (o & Ho & ->).
    assert (¬ seg m (ptr + 4 * 0) s) as H0 by (rewrite Z.mul_0_r, Z.add_0_r; tauto).
    assert (∀ j, ¬ seg m (ptr + 4 + 4 * (j - 1)) s ↔ ¬ seg m (ptr + 4 * j) s) as Hsh.
    { intros j. by replace (ptr + 4 + 4 * (j - 1)) with (ptr + 4 * j) by lia. }
    exists (Z.succ <$> o). destruct o as [k|]; simpl in *.
    + destruct Ho as (Hk & Hseg & Hlt). split; [|lia]. split; [lia|]. split.
      * by replace (ptr + 4 * Z.succ k) with (ptr + 4 + 4 * k) by lia.
      * intros j Hj. destruct (decide (j = 0)) as [->|]; [done|]. apply Hsh, Hlt. lia.
    + split; [|done]. intros j Hj. destruct (decide (j = 0)) as [->|]; [done|]. apply Hsh, Ho. lia.
Qed.

(** A root pointer at [p] that leads to the root table [t]. *)
Record root_pointer (w : world) (p t : Z) : Prop := {
  rp_readable : readable w p RSDP2_SIZE;
  rp_sum : sum_ok (wmem w) p (if wmem w (p + 15) =? 0 then RSDP1_SIZE else RSDP2_SIZE);
  rp_root : t = (if wmem w (p + 15) =? 0 then rd32 (wmem w) (p + 16) else rd32 (wmem w) (p + 24)) ∧ t ≠ NULL
}.

Lemma readable_mono w w' a n : wmap w ⊆ wmap w' → readable w a n → readable w' a n.
Proof.
  intros Hs Hr b Hb. specialize (Hr b Hb). unfold present in *. rewrite bool_decide_eq_true in *. by apply Hs.
Qed.

Lemma span_mem a n w : wmem (map_identity_span a n w) = wmem w.
Proof. unfold map_identity_span. by destruct (n =? 0). Qed.
Lemma span_map a n w : wmap w ⊆ wmap (map_identity_span a n w).
Proof. unfold map_identity_span. destruct (n =? 0); simpl; set_solver. Qed.

Lemma page_map a w : wmap w ⊆ wmap (map_identity_page a w).
Proof. apply union_subseteq_l. Qed.

Definition rsdp_text : list Z := bytes_of "RSD PTR ".

(** C37: finding ACPI tables. [init] takes the first place in the scanned area that
    carries the signature, at a multiple of 4; when its checksum is right, and the root table it
    names lies in one page and has a right checksum, that table is mapped as a whole. [find_sdth] then returns the first
    table the root table lists that has the given signature and whose bytes add up to
    0 modulo 256, or null if there is none, provided the listed tables are mapped; entries are 8 bytes from revision
    2 on and 4 bytes in revision 0. Without a root pointer both find nothing. *)
Theorem acpi_finds_tables lit w :
  bytes_ok (wmem w) → seg (wmem w) (lit "RSD PTR "%string) rsdp_text →
  let p := find_rsdp lit w in
  (∃ o, first_such ((ACPI_SCAN_END - ACPI_SCAN_BASE) / 4) 0 (λ i, seg (wmem w) (ACPI_SCAN_BASE + 4 * i) rsdp_text) o
     ∧ p = match o with Some i => ACPI_SCAN_BASE + 4 * i | None => NULL end)
  ∧ (p = NULL → acpi_init lit w = Ok (MkAcpi NULL NULL, w) ∧ ∀ sig, find_sdth sig (MkAcpi NULL NULL) w = Ok NULL)
  ∧ ∀ t, p ≠ NULL → root_pointer w p t → table (map_identity_page t w) t → sum_ok (wmem w) t (rd32 (wmem w) (t + 4)) →
      SDT_SIZE ≤ rd32 (wmem w) (t + 4) → wmem w (p + 15) ≠ 1 →
      let w' := map_identity_span t (rd32 (wmem w) (t + 4)) (map_identity_page t w) in
      acpi_init lit w = Ok (MkAcpi p t, w')
      ∧ let width := if wmem w (p + 15) =? 0 then 4 else 8 in
        (∀ i, 0 ≤ i < entries (wmem w) t width → table w' (entry_at (wmem w) t width i)) →
        ∀ sig, ∃ r, find_sdth sig (MkAcpi p t) w' = Ok r ∧ first_table (wmem w) t width sig r.
Proof.
  intros Hby Hlit p. split_and!.
  - destruct (scan_rsdp_ok (wmem w) (lit "RSD PTR "%string) rsdp_text (Z.to_nat ((ACPI_SCAN_END - ACPI_SCAN_BASE) / 4)) ACPI_SCAN_BASE Hlit) as (o & Ho & He);
      [repeat constructor; done|done|done|]. rewrite Z2Nat.id in Ho by done. by exists o.
  - intros E. unfold acpi_init. fold p. by rewrite E.
  - intros t Hp [Hr1 Hr2 [Hr3 Hr4]] Ht Hsum Hlen Hrev w'.
    assert (wmem w' = wmem w) as Em by (unfold w'; by rewrite span_mem).
    assert (wmap (map_identity_page t w) ⊆ wmap w') as Hsub by apply span_map.
    assert (wmap w ⊆ wmap w') as Hsub0 by (etransitivity; [|exact Hsub]; simpl; set_solver).
    assert (table w' t) as Ht'.
    { destruct Ht as [H1 H2]. split; [exact (readable_mono _ w' _ _ Hsub H1)|]. rewrite Em. exact (readable_mono _ w' _ _ Hsub H2). }
    split.
    + unfold acpi_init. fold p. rewrite (proj2 (Z.eqb_neq _ _) Hp). unfold rsdp_revision, rsdp_rsdt_address, rsdp_xsdt_address.
      rewrite ld8_ok by (eapply readable_sub; [exact Hr1|unfold RSDP2_SIZE; lia..]). rewrite bind_Ok.
      destruct (validate_bytes_ok w p (if wmem w (p + 15) =? 0 then RSDP1_SIZE else RSDP2_SIZE)) as (b & -> & Hb);
        [by destruct (_ =? 0)|eapply readable_sub; [exact Hr1|lia|destruct (_ =? 0); unfold RSDP1_SIZE, RSDP2_SIZE; lia]|].
      rewrite bind_Ok. rewrite (proj2 Hb Hr2). cbn [negb].
      rewrite !ld32_ok by (eapply readable_sub; [exact Hr1|unfold RSDP2_SIZE; lia..]).
      replace (if wmem w (p + 15) =? 0 then Ok (rd32 (wmem w) (p + 16)) else Ok (rd32 (wmem w) (p + 24))) with (Ok t) by (rewrite Hr3; by destruct (_ =? 0)).
      rewrite bind_Ok, (proj2 (Z.eqb_neq _ _) Hr4). destruct (validate_table (map_identity_page t w) t Hby Ht) as (b' & -> & Hb').
      rewrite bind_Ok. rewrite (proj2 Hb' Hsum). cbn [negb]. unfold sdt_length.
      rewrite ld32_ok by (eapply readable_sub; [exact (tb_head _ _ Ht)|unfold SDT_SIZE; lia..]). done.
    + intros width Htab sig. pose proof (find_sdth_ok sig (MkAcpi p t) w' width) as F. rewrite Em in F. apply F; try done.
      * exact (readable_mono _ w' _ _ Hsub0 Hr1).
      * unfold width. pose proof (Hby (p + 15)). cbn [rsdp]. destruct (Z.eqb_spec (wmem w (p + 15)) 0) as [->|]; [done|].
        by rewrite (proj2 (Z.leb_le _ _)) by lia.
Qed.

(** A machine with a revision 0 root pointer at 0xE0010, a root table at 2 MiB that
    lists one table, and the first 4 MiB mapped, for the witnesses. *)
Module DemoAcpi.
Import DemoObject.
Definition rsdp : list Z := rsdp_text ++ [193] ++ replicate 7 0 ++ words [0x200000].
Definition rsdt : list Z := bytes_of "RSDT" ++ words [40] ++ [1; 121] ++ replicate 26 0 ++ words [0x200100].
(** A local APIC, an I/O APIC at 0xFEC00000 and the override of IRQ 0 to interrupt 2. *)
Definition madt : list Z := bytes_of "APIC" ++ words [74] ++ [1; 214] ++ replicate 26 0 ++ words [0xFEE00000; 1] ++
  [0; 8; 0; 0] ++ words [1] ++ [1; 12; 1; 0] ++ words [0xFEC00000; 0] ++ [2; 10; 0; 0] ++ words [2] ++ [0; 0].
Definition mem : ram := λ a,
  default 0 (if a <? 100 then None else if a <? 4096 then rsdp_text !! Z.to_nat (a - 100)
    else if a <? 0xE0010 then None else if a <? 0x200000 then rsdp !! Z.to_nat (a - 0xE0010)
    else if a <? 0x200100 then rsdt !! Z.to_nat (a - 0x200000) else madt !! Z.to_nat (a - 0x200100)).
Definition low : world := World mem (run 0 1024).
Definition lit (s : string) : Z := 100.
End DemoAcpi.

Lemma low_present a : 0 ≤ a < 0x400000 → present DemoAcpi.low a = true.
Proof. intros Ha. unfold present. apply bool_decide_eq_true. apply elem_of_run. unfold PAGE_SIZE. dlia. Qed.
Lemma low_readable a n : 0 ≤ a → a + n ≤ 0x400000 → readable DemoAcpi.low a n.
Proof. intros Ha Hn b Hb. apply low_present. lia. Qed.

Lemma demo_acpi_bytes : bytes_ok DemoAcpi.mem.
Proof.
  assert (∀ l : list Z, forallb (λ x, (0 <=? x) && (x <? 256)) l = true → ∀ o : nat, 0 ≤ default 0 (l !! o) < 256) as H.
  { intros l Hl o. destruct (l !! o) as [x|] eqn:E; simpl; [|lia]. rewrite forallb_forall in Hl.
    specialize (Hl x). apply list_elem_of_lookup_2, list_elem_of_In in E. specialize (Hl E). lia. }
  intros a. unfold DemoAcpi.mem. repeat (destruct (_ <? _); [|try (apply H; by vm_compute)]); try (simpl; lia); apply H; by vm_compute.
Qed.

Lemma acpi_finds_tables_witness : ∃ w', acpi_init DemoAcpi.lit DemoAcpi.low = Ok (MkAcpi 0xE0010 0x200000, w')
  ∧ ∃ r, find_sdth 0x43495041 (MkAcpi 0xE0010 0x200000) w' = Ok r ∧ first_table DemoAcpi.mem 0x200000 4 0x43495041 r.
Proof.
  assert (find_rsdp DemoAcpi.lit DemoAcpi.low = 0xE0010) as Ep by (vm_compute; reflexivity).
  assert (seg DemoAcpi.mem 100 rsdp_text) as Hlit.
  { apply (cstr_seg rsdp_text DemoAcpi.mem 100). apply (read_cstr_ok 20). vm_compute. reflexivity. }
  destruct (acpi_finds_tables DemoAcpi.lit DemoAcpi.low demo_acpi_bytes Hlit) as (_ & _ & H). rewrite Ep in H.
  assert (∀ h, h = 0x200000 ∨ h = 0x200100 → ∀ w', wmem w' = DemoAcpi.mem → wmap DemoAcpi.low ⊆ wmap w' → table w' h) as Ht.
  { intros h Hh w' Em Hs. split; (eapply readable_mono; [exact Hs|]); rewrite ?Em; destruct Hh as [-> | ->]; apply low_readable; vm_compute; congruence. }
  destruct (H 0x200000) as [H1 H2].
  - discriminate.
  - split; [apply low_readable; vm_compute; congruence|vm_compute; reflexivity|split; [vm_compute; reflexivity|discriminate]].
  - apply Ht; [left; reflexivity|reflexivity|apply page_map].
  - vm_compute. reflexivity.
  - vm_compute. congruence.
  - vm_compute. congruence.
  - eexists. split; [exact H1|]. apply H2. change (entries (wmem DemoAcpi.low) 0x200000 _) with 1. intros i Hi. assert (i = 0) as -> by lia.
    apply Ht; [right; vm_compute; reflexivity|by rewrite span_mem|]. etransitivity; [apply page_map|apply span_map].
Defined.
