(* ===== verification/Apic.v ===== *)
(** Interrupt controllers: kernel/include/sys/apic.hpp.

    [apic_init] reads the MADT, a chain of entries of their own lengths; [configure] sets up
    the redirection tables of the I/O APICs. The devices are behind the class [IoApicHw]:
    a register is selected by a store at the base and accessed at offset 16. *)
From S2P Require Import Prelude Memory Layout Slots Strings Elf Acpi.

(** ** The MADT *)

(** The entries, without their header, which is not read from the copies. *)
Record ent0 := Ent0 { acpi_processor_id : Z; apic_id : Z; cpu_flags : Z }.
Record ent1 := Ent1 { ioapic_id : Z; ioapic : Z; gsi_base : Z }.
Record ent2 := Ent2 { bus_src : Z; irq_src : Z; gsi : Z; flags2 : Z }.
Record ent3 := Ent3 { nmi_src : Z; flags3 : Z; gsi3 : Z }.
Record ent4 := Ent4 { acpi_processor_id4 : Z; flags4 : Z; lint : Z }.

Module ent_type.
Definition LAPIC : Z := 0.
Definition IOAPIC : Z := 1.
Definition IOAPIC_ISR_OVERRIDE : Z := 2.
Definition IOAPIC_NMI_SOURCE : Z := 3.
Definition LAPIC_NMI : Z := 4.
Definition LAPIC_ADDR_OVERRIDE : Z := 5.
End ent_type.

Definition read_ent0 (w : world) (e : Z) : res ent0 :=
  i ← ld8 w (e + 2); a ← ld8 w (e + 3); f ← ld32 w (e + 4); Ok (Ent0 i a f).
Definition read_ent1 (w : world) (e : Z) : res ent1 :=
  i ← ld8 w (e + 2); b ← ld32 w (e + 4); g ← ld32 w (e + 8); Ok (Ent1 i b g).
Definition read_ent2 (w : world) (e : Z) : res ent2 :=
  b ← ld8 w (e + 2); i ← ld8 w (e + 3); g ← ld32 w (e + 4); f ← ld16 w (e + 8); Ok (Ent2 b i g f).
Definition read_ent3 (w : world) (e : Z) : res ent3 :=
  n ← ld8 w (e + 2); f ← ld32 w (e + 4); g ← ld32 w (e + 8); Ok (Ent3 n f g).
Definition read_ent4 (w : world) (e : Z) : res ent4 :=
  i ← ld8 w (e + 2); f ← ld16 w (e + 3); l ← ld8 w (e + 5); Ok (Ent4 i f l).

Definition MADT_SIZE : Z := 44.
Definition APIC_SIGNATURE : Z := 0x43495041.

Record apic := MkApic {
  lapics : StaticArray ent0; ioapics : StaticArray ent1; irq_overrides : StaticArray ent2;
  nmi_sources : StaticArray ent3; lint_sources : StaticArray ent4; lapic_base : Z }.
Definition apic_fresh (base : Z) : apic :=
  MkApic (array_init 64) (array_init 64) (array_init 64) (array_init 64) (array_init 64) base.

Definition with_lapic_base (b : Z) (a : apic) : apic :=
  MkApic (lapics a) (ioapics a) (irq_overrides a) (nmi_sources a) (lint_sources a) b.

(** The switch on the type of the entry at [e]. *)
Definition madt_entry (e : Z) (w : world) (a : apic) : res (apic * world) :=
  type ← ld8 w e;
  if type =? ent_type.LAPIC then
    x ← read_ent0 w e; '(_, l) ← emplace x (lapics a);
    Ok (MkApic l (ioapics a) (irq_overrides a) (nmi_sources a) (lint_sources a) (lapic_base a), w)
  else if type =? ent_type.IOAPIC then
    x ← read_ent1 w e; '(_, l) ← emplace x (ioapics a);
    Ok (MkApic (lapics a) l (irq_overrides a) (nmi_sources a) (lint_sources a) (lapic_base a), map_identity_page (ioapic x) w)
  else if type =? ent_type.IOAPIC_ISR_OVERRIDE then
    x ← read_ent2 w e; '(_, l) ← emplace x (irq_overrides a);
    Ok (MkApic (lapics a) (ioapics a) l (nmi_sources a) (lint_sources a) (lapic_base a), w)
  else if type =? ent_type.IOAPIC_NMI_SOURCE then
    x ← read_ent3 w e; '(_, l) ← emplace x (nmi_sources a);
    Ok (MkApic (lapics a) (ioapics a) (irq_overrides a) l (lint_sources a) (lapic_base a), w)
  else if type =? ent_type.LAPIC_NMI then
    x ← read_ent4 w e; '(_, l) ← emplace x (lint_sources a);
    Ok (MkApic (lapics a) (ioapics a) (irq_overrides a) (nmi_sources a) l (lapic_base a), w)
  else if type =? ent_type.LAPIC_ADDR_OVERRIDE then
    x ← ld32 w (e + 4); Ok (with_lapic_base x a, w)
  else Ok (a, w).

(** [size_bytes] is a signed word. *)
Fixpoint madt_loop (fuel : nat) (e size_bytes : Z) (w : world) (a : apic) : res (apic * world) :=
  if size_bytes <=? 0 then Ok (a, w)
  else
    match fuel with
    | O => NoFuel
    | S fuel =>
        current_length ← ld8 w (e + 1);
        '(a, w) ← madt_entry e w a;
        madt_loop fuel (e + current_length) (size_bytes - current_length) w a
    end.

Definition apic_init (fuel : nat) (tables : acpi) (w : world) (a : apic) : res (apic * world) :=
  madt ← find_sdth APIC_SIGNATURE tables w;
  if madt =? NULL then Ok (a, w)
  else
    base ← ld32 w (madt + 36);
    let a := with_lapic_base base a in
    let w := map_identity_page madt w in
    n ← sdt_length w madt;
    '(a, w) ← madt_loop fuel (madt + MADT_SIZE) (s32 (n - MADT_SIZE)) w a;
    let w := unmap_page madt w in
    Ok (a, map_identity_page (lapic_base a) w).

(** ** The I/O APICs *)

(** The bits of a half of a redirection entry that software may write: in the low half
    vector, modes, polarity, trigger and mask, in the high half the destination. The others
    are reserved, or set by the device. *)
Definition RW_BITS (r : Z) : Z := if Z.even r then 0x1AFFF else 0xFF000000.
(** The registers of redirection entries, two for each pin up to the last one, whose number is
    in the version register. *)
Definition entry_register (version r : Z) : Prop := 16 ≤ r < 18 + 2 * Z.land (Z.shiftr version 16) 0xFF.

(** What the code relies on of the devices at the addresses [hw_at]: a store to the base
    selects one of 256 registers, the window at [base + 16] is the selected register; an
    entry keeps what is written to its [RW_BITS], and no other register changes. *)
Class IoApicHw (D : Type) := {
  hw_at : Z → bool;
  hw_store : Z → Z → D → D;
  hw_load : Z → D → Z;
  hw_reg : D → Z → Z → Z;
  hw_range d b r : 0 ≤ hw_reg d b r < 2 ^ 32;
  hw_selected d b r : hw_at b = true → 0 ≤ r < 256 → hw_load (b + 16) (hw_store b r d) = hw_reg d b r;
  hw_select_only d b r : hw_at b = true → hw_reg (hw_store b r d) = hw_reg d;
  hw_written d b r v : hw_at b = true → entry_register (hw_reg d b 1) r → r < 256 → 0 ≤ v < 2 ^ 32 →
    Z.land (hw_reg (hw_store (b + 16) v (hw_store b r d)) b r) (RW_BITS r) = Z.land v (RW_BITS r);
  hw_others d b r v b' r' : hw_at b = true → hw_at b' = true → entry_register (hw_reg d b 1) r → r < 256 → (b', r') ≠ (b, r) →
    hw_reg (hw_store (b + 16) v (hw_store b r d)) b' r' = hw_reg d b' r'
}.

Section configure.
Context {D : Type} `{IoApicHw D}.

Definition ioapic_read (b reg : Z) (d : D) : Z * D := let d := hw_store b reg d in (hw_load (b + 16) d, d).
Definition ioapic_write (b reg value : Z) (d : D) : D := hw_store (b + 16) value (hw_store b reg d).

Definition get_gsi_max (io : ent1) (d : D) : Z * D :=
  let '(data, d) := ioapic_read (ioapic io) 1 d in
  let gsi_max := Z.land (Z.shiftr data 16) 0xFF in
  (Z.land gsi_max (not32 (Z.shiftl 1 7)), d).

Definition REDIRECT_TABLE_BAD_READ : Z := 0xFFFFFFFFFFFFFFFF.

Definition write_redirection_table (io : option ent1) (g data : Z) (d : D) : bool * D :=
  match io with
  | None => (false, d)
  | Some io =>
      let reg := u32 (u32 (u32 (g - gsi_base io) * 2) + 16) in
      let d := ioapic_write (ioapic io) reg (Z.land data 0xFFFFFFFF) d in
      let d := ioapic_write (ioapic io) (u32 (reg + 1)) (Z.shiftr data 32) d in
      (true, d)
  end.

Definition read_redirection_table (io : option ent1) (g : Z) (d : D) : Z * D :=
  match io with
  | None => (REDIRECT_TABLE_BAD_READ, d)
  | Some io =>
      let reg := u32 (u32 (u32 (g - gsi_base io) * 2) + 16) in
      let '(lo, d) := ioapic_read (ioapic io) reg d in
      let '(hi, d) := ioapic_read (ioapic io) (u32 (reg + 1)) d in
      (Z.lor lo (u64 (Z.shiftl hi 32)), d)
  end.

Definition mask_gsi (io : option ent1) (g : Z) (d : D) : bool * D :=
  let '(current_data, d) := read_redirection_table io g d in
  if current_data =? REDIRECT_TABLE_BAD_READ then (false, d)
  else write_redirection_table io g (Z.lor current_data (Z.shiftl 1 16)) d.

Definition redirection (irq flags lapic : Z) : Z :=
  let redirect := u64 (irq + 32) in
  let redirect := if negb (Z.land flags (Z.shiftl 1 1) =? 0) then Z.lor redirect (Z.shiftl 1 13) else redirect in
  let redirect := if negb (Z.land flags (Z.shiftl 1 3) =? 0) then Z.lor redirect (Z.shiftl 1 15) else redirect in
  Z.lor redirect (u64 (Z.shiftl lapic 56)).
Definition redirect_gsi (io : option ent1) (irq g flags lapic : Z) (d : D) : bool * D :=
  write_redirection_table io g (redirection irq flags lapic) d.

Fixpoint find_valid_ioapic (ios : list ent1) (g : Z) (d : D) : option ent1 * D :=
  match ios with
  | [] => (None, d)
  | io :: ios =>
      let '(m, d) := get_gsi_max io d in
      let gsi_max := u32 (m + gsi_base io) in
      if (gsi_base io <=? g) && (g <=? gsi_max) then (Some io, d) else find_valid_ioapic ios g d
  end.

Fixpoint mask_loop (n : nat) (io : ent1) (g : Z) (d : D) : D :=
  match n with
  | O => d
  | S n => let '(_, d) := mask_gsi (Some io) g d in mask_loop n io (g + 1) d
  end.

(** The flags of the legacy interrupts are an array of 16 on the stack. *)
Fixpoint override_loop (ovs : list ent2) (io : ent1) (gsi_max lapic : Z) (legacy : list bool) (d : D) : res (list bool * D) :=
  match ovs with
  | [] => Ok (legacy, d)
  | o :: ovs =>
      if (gsi_base io <=? gsi o) && (gsi o <? gsi_max) then
        match legacy !! Z.to_nat (gsi o) with
        | None => Fault (gsi o)
        | Some true => override_loop ovs io gsi_max lapic legacy d
        | Some false =>
            let '(_, d) := redirect_gsi (Some io) (irq_src o) (gsi o) (flags2 o) lapic d in
            override_loop ovs io gsi_max lapic (if gsi o <? 16 then <[Z.to_nat (gsi o) := true]> legacy else legacy) d
        end
      else override_loop ovs io gsi_max lapic legacy d
  end.

Fixpoint ioapic_loop (ios : list ent1) (ovs : list ent2) (lapic : Z) (legacy : list bool) (d : D) : res (list bool * D) :=
  match ios with
  | [] => Ok (legacy, d)
  | io :: ios =>
      let '(m, d) := get_gsi_max io d in
      let gsi_max := u32 (m + gsi_base io) in
      let d := mask_loop (Z.to_nat (gsi_max - gsi_base io)) io (gsi_base io) d in
      '(legacy, d) ← override_loop ovs io gsi_max lapic legacy d;
      ioapic_loop ios ovs lapic legacy d
  end.

Fixpoint legacy_loop (n : nat) (i : Z) (ios : list ent1) (lapic : Z) (legacy : list bool) (d : D) : D :=
  match n with
  | O => d
  | S n =>
      if default false (legacy !! Z.to_nat i) then legacy_loop n (i + 1) ios lapic legacy d
      else
        let '(io, d) := find_valid_ioapic ios i d in
        let '(_, d) := redirect_gsi io i i 0 lapic d in
        legacy_loop n (i + 1) ios lapic legacy d
  end.

(** [id] is the local APIC's ID register. *)
Definition lapic_id (id : Z) : Z := Z.land (Z.shiftr id 24) 0xFF.

Definition configure (a : apic) (id : Z) (d : D) : res D :=
  ios ← for_each (ioapics a);
  ovs ← for_each (irq_overrides a);
  '(legacy, d) ← ioapic_loop ios ovs (lapic_id id) (replicate 16 false) d;
  Ok (legacy_loop 16 0 ios (lapic_id id) legacy d).
End configure.

(** ** Collecting the entries *)

(** An array filled from the front with [l]. *)
Definition filled {T} (N : Z) (a : StaticArray T) (l : list T) : Prop :=
  array_ok N a ∧ view a = (Some <$> l) ++ replicate (Z.to_nat N - length l) None.

Lemma first_none_filled {T} (l : list T) n : first_none ((Some <$> l) ++ replicate (S n) None) = Some (length l).
Proof. induction l as [|x l IH]; [done|]. cbn [fmap list_fmap app first_none]. by rewrite IH. Qed.

Lemma emplace_filled {T} N (a : StaticArray T) l v : filled N a l → Z.of_nat (length l) < N →
  ∃ i a', emplace v a = Ok (i, a') ∧ filled N a' (l ++ [v]).
Proof.
  intros [Ha Hv] Hl. pose proof (emplace_ok N a Ha v) as He. rewrite Hv in He.
  replace (Z.to_nat N - length l)%nat with (S (Z.to_nat N - length (l ++ [v]))) in He by (rewrite length_app; simpl; lia).
  rewrite first_none_filled in He. destruct He as (a' & E & Ha' & Hv'). exists (Z.of_nat (length l)), a'. split; [done|]. split; [done|].
  rewrite Hv'. rewrite insert_app_r_alt by (by rewrite length_fmap). rewrite length_fmap, Nat.sub_diag, fmap_app, <- app_assoc. done.
Qed.

Lemma filled_nil {T} N : 0 ≤ N < 2 ^ 32 - 1 → filled N (array_init N : StaticArray T) [].
Proof.
  intros HN. destruct (array_init_ok (T := T) N HN) as [Ha Hv]. split; [done|]. rewrite Hv. simpl. by rewrite Nat.sub_0_r.
Qed.

(** An array with the objects [l], emplaced one after the other. *)
Definition fill {T} (l : list T) : res (StaticArray T) :=
  foldl (λ (a : res (StaticArray T)) v, a ← a; '(_, a) ← emplace v a; Ok a) (Ok (array_init 64)) l.

Lemma fill_ok {T} (l : list T) : (length l ≤ 64)%nat → ∃ a, fill l = Ok a ∧ filled 64 a l.
Proof.
  induction l as [|v l IH] using rev_ind; intros Hl.
  - eexists. split; [done|]. apply filled_nil. lia.
  - rewrite length_app in Hl. simpl in Hl. destruct (IH ltac:(lia)) as (a & E & Ha). unfold fill in *. rewrite foldl_app, E. simpl.
    destruct (emplace_filled 64 a l v Ha ltac:(lia)) as (i & a' & -> & Ha'). by exists a'.
Qed.

Lemma omap_filled {T} (l : list T) n : omap id ((Some <$> l) ++ replicate n None) = l.
Proof.
  rewrite omap_app. transitivity (l ++ []); [f_equal|apply app_nil_r].
  - induction l as [|x l IH]; simpl; [done|]. by f_equal.
  - by induction n.
Qed.

Lemma filled_each {T} N (a : StaticArray T) l : filled N a l → for_each a = Ok l.
Proof. intros [Ha Hv]. by rewrite (for_each_ok N a Ha), Hv, omap_filled. Qed.

(** An entry, as it is in memory. *)
Inductive madt_ent := L (x : ent0) | I (x : ent1) | O2 (x : ent2) | NS (x : ent3) | LN (x : ent4) | LA (base : Z) | Other.

Definition get_L e := if e is L x then Some x else None.
Definition get_I e := if e is I x then Some x else None.
Definition get_O2 e := if e is O2 x then Some x else None.
Definition get_NS e := if e is NS x then Some x else None.
Definition get_LN e := if e is LN x then Some x else None.
Definition get_LA e := if e is LA x then Some x else None.

Definition decode (m : ram) (e : Z) : madt_ent :=
  if m e =? ent_type.LAPIC then L (Ent0 (m (e + 2)) (m (e + 3)) (rd32 m (e + 4)))
  else if m e =? ent_type.IOAPIC then I (Ent1 (m (e + 2)) (rd32 m (e + 4)) (rd32 m (e + 8)))
  else if m e =? ent_type.IOAPIC_ISR_OVERRIDE then O2 (Ent2 (m (e + 2)) (m (e + 3)) (rd32 m (e + 4)) (rd16 m (e + 8)))
  else if m e =? ent_type.IOAPIC_NMI_SOURCE then NS (Ent3 (m (e + 2)) (rd32 m (e + 4)) (rd32 m (e + 8)))
  else if m e =? ent_type.LAPIC_NMI then LN (Ent4 (m (e + 2)) (rd16 m (e + 3)) (m (e + 5)))
  else if m e =? ent_type.LAPIC_ADDR_OVERRIDE then LA (rd32 m (e + 4))
  else Other.

(** The entries from [e] on, by address: each is followed by the next after its own length. *)
Inductive chain (m : ram) : Z → Z → list Z → Prop :=
| chain_end e n : n ≤ 0 → chain m e n []
| chain_cons e n l : 0 < n → 0 < m (e + 1) → chain m (e + m (e + 1)) (n - m (e + 1)) l → chain m e n (e :: l).

(** What is collected from the entries [es]. *)
Record collected (a : apic) (es : list madt_ent) (base : Z) : Prop := {
  co_lapics : filled 64 (lapics a) (omap get_L es);
  co_ioapics : filled 64 (ioapics a) (omap get_I es);
  co_overrides : filled 64 (irq_overrides a) (omap get_O2 es);
  co_nmi : filled 64 (nmi_sources a) (omap get_NS es);
  co_lint : filled 64 (lint_sources a) (omap get_LN es);
  co_base : lapic_base a = default base (last (omap get_LA es))
}.

(** No kind of entry occurs more than 64 times. *)
Definition fits (es : list madt_ent) : Prop :=
  (length (omap get_L es) ≤ 64)%nat
  ∧ (length (omap get_I es) ≤ 64)%nat
  ∧ (length (omap get_O2 es) ≤ 64)%nat
  ∧ (length (omap get_NS es) ≤ 64)%nat
  ∧ (length (omap get_LN es) ≤ 64)%nat.

Lemma fits_prefix es e rest : fits (es ++ e :: rest) → fits (es ++ [e]).
Proof. unfold fits. rewrite !omap_app, !length_app. simpl. intros (? & ? & ? & ? & ?). destruct e; simpl in *; lia. Qed.

Lemma madt_entry_ok e w a es base : readable w e 12 → collected a es base → fits (es ++ [decode (wmem w) e]) →
  ∃ a' w', madt_entry e w a = Ok (a', w') ∧ collected a' (es ++ [decode (wmem w) e]) base ∧ wmem w' = wmem w ∧ wmap w ⊆ wmap w'.
Proof.
  intros Hr [C1 C2 C3 C4 C5 C6] (F1 & F2 & F3 & F4 & F5). unfold madt_entry, decode in *.
  rewrite !omap_app, !length_app in *.
  assert (∀ k, 0 ≤ k < 12 → ld8 w (e + k) = Ok (wmem w (e + k))) as R8.
  { intros k Hk. apply ld8_ok. eapply readable_sub; [exact Hr|lia..]. }
  assert (∀ k, 0 ≤ k ≤ 8 → ld32 w (e + k) = Ok (rd32 (wmem w) (e + k))) as R32.
  { intros k Hk. apply ld32_ok. eapply readable_sub; [exact Hr|lia..]. }
  assert (∀ k, 0 ≤ k ≤ 10 → ld16 w (e + k) = Ok (rd16 (wmem w) (e + k))) as R16.
  { intros k Hk. apply ld16_ok. eapply readable_sub; [exact Hr|lia..]. }
  pose proof (R8 0 ltac:(lia)) as R0. rewrite Z.add_0_r in R0. rewrite R0, bind_Ok.
  unfold read_ent0, read_ent1, read_ent2, read_ent3, read_ent4. rewrite !R8, !R32, !R16, !bind_Ok by lia.
  assert (∀ T (l : list T), l ++ [] = l) as Hnil by (intros; apply app_nil_r).
  repeat (destruct (_ =? _); [
    first [
      match goal with |- context [emplace ?v ?arr] =>
        let a' := fresh "arr" in
        destruct (emplace_filled 64 arr _ v ltac:(eassumption) ltac:(simpl in *; lia)) as (? & a' & -> & ?);
        rewrite bind_Ok; eexists _, _; split; [reflexivity|]; split; [|split; [done|first [done|apply page_map]]];
        split; rewrite ?omap_app; simpl; rewrite ?Hnil; done end
    | eexists _, _; split; [reflexivity|]; split; [|done]; split; rewrite ?omap_app; simpl; rewrite ?Hnil, ?last_snoc; done ]
    |]).
  eexists _, _. split; [reflexivity|]. split; [|done]. split; rewrite ?omap_app; simpl; rewrite ?Hnil; done.
Qed.

Lemma madt_loop_ok l : ∀ fuel e n w a es base, chain (wmem w) e n l → Forall (λ e, readable w e 12) l → (length l < fuel)%nat →
  collected a es base → fits (es ++ (decode (wmem w) <$> l)) →
  ∃ a' w', madt_loop fuel e n w a = Ok (a', w') ∧ collected a' (es ++ (decode (wmem w) <$> l)) base ∧ wmem w' = wmem w ∧ wmap w ⊆ wmap w'.
Proof.
  induction l as [|e' l IH]; intros fuel e n w a es base Hc Hr Hf Ha Hfit; inversion Hc; subst.
  - exists a, w. simpl. rewrite app_nil_r. split_and!; try done. destruct fuel as [|fuel]; simpl; by rewrite (proj2 (Z.leb_le _ _)) by lia.
  - destruct fuel as [|fuel]; [simpl in Hf; lia|]. apply Forall_cons in Hr as [Hr1 Hr]. cbn [madt_loop].
    rewrite (proj2 (Z.leb_gt _ _)) by lia. rewrite (ld8_ok w (e' + 1)) by (eapply readable_sub; [exact Hr1|lia..]). rewrite bind_Ok.
    cbn [fmap list_fmap] in Hfit. destruct (madt_entry_ok e' w a es base Hr1 Ha (fits_prefix _ _ _ Hfit)) as (a1 & w1 & -> & Ha1 & Em & Hsub).
    rewrite bind_Ok. rewrite cons_middle, app_assoc in Hfit. cbn [fmap list_fmap]. rewrite cons_middle, app_assoc. rewrite <- Em in *.
    destruct (IH fuel (e' + wmem w1 (e' + 1)) (n - wmem w1 (e' + 1)) w1 a1 (es ++ [decode (wmem w1) e']) base) as (a2 & w2 & -> & Ha2 & Em2 & Hsub2); try done.
    + eapply Forall_impl; [exact Hr|]. intros x Hx. by eapply readable_mono.
    + simpl in Hf. lia.
    + exists a2, w2. split_and!; [done..|]. by etransitivity.
Qed.

Lemma fresh_collected base : collected (apic_fresh base) [] base.
Proof. split; simpl; try (apply filled_nil; lia); done. Qed.

(** Reading the MADT. When the table's entries, each followed by the next after its own
    length, are mapped and no kind occurs more than 64 times, [init] collects the processors, I/O
    APICs, overrides and other sources each in their order, takes the last address override, or else
    the address in the table, as the base of the local APIC, and maps it. Every
    entry needs a positive length: at an entry of length 0 with a type it does not know the loop never ends. *)
Theorem madt_collected fuel tables w madt l :
  find_sdth APIC_SIGNATURE tables w = Ok madt → madt ≠ NULL → readable w madt MADT_SIZE →
  let n := rd32 (wmem w) (madt + 4) in
  MADT_SIZE ≤ n < 2 ^ 31 → chain (wmem w) (madt + MADT_SIZE) (n - MADT_SIZE) l → Forall (λ e, readable w e 12) l →
  fits (decode (wmem w) <$> l) → (length l < fuel)%nat →
  (∃ a w', apic_init fuel tables w (apic_fresh 0) = Ok (a, w')
     ∧ collected a (decode (wmem w) <$> l) (rd32 (wmem w) (madt + 36)) ∧ wmem w' = wmem w ∧ present w' (lapic_base a) = true)
  ∧ ∀ fuel e n w a, 0 < n → readable w e 12 → wmem w (e + 1) = 0 → decode (wmem w) e = Other → madt_loop fuel e n w a = NoFuel.
Proof.
  intros Hfind Hnz Hr n Hn Hc Hrl Hfit Hf. split.
  - unfold apic_init. rewrite Hfind, bind_Ok, (proj2 (Z.eqb_neq _ _) Hnz). unfold MADT_SIZE in *.
    rewrite (ld32_ok w (madt + 36)) by (eapply readable_sub; [exact Hr|lia..]). rewrite bind_Ok. cbv zeta.
    set (base := rd32 (wmem w) (madt + 36)). set (w1 := map_identity_page madt w).
    assert (∀ a k, readable w a k → readable w1 a k) as Hmono by (intros a k; apply readable_mono, page_map).
    unfold sdt_length. rewrite (ld32_ok w1 (madt + 4)) by (apply Hmono; eapply readable_sub; [exact Hr|lia..]). rewrite bind_Ok.
    change (wmem w1) with (wmem w). fold n. rewrite s32_small by lia.
    destruct (madt_loop_ok l fuel (madt + 44) (n - 44) w1 (with_lapic_base base (apic_fresh 0)) [] base) as (a & w2 & -> & Ha & Em & _);
      [exact Hc|eapply Forall_impl; [exact Hrl|]; intros x; apply Hmono|done|apply (fresh_collected base)|exact Hfit|].
    rewrite bind_Ok. eexists a, _. split; [done|]. split; [exact Ha|]. split; [exact Em|].
    unfold present. apply bool_decide_eq_true. simpl. apply elem_of_union. right. by apply elem_of_singleton.
  - clear. intros fuel e n w a Hn Hr H0 Hd. revert w a Hr H0 Hd. induction fuel as [|fuel IH]; intros w a Hr H0 Hd; simpl;
      rewrite (proj2 (Z.leb_gt _ _)) by lia; [done|]. rewrite (ld8_ok w (e + 1)) by (eapply readable_sub; [exact Hr|lia..]). rewrite bind_Ok, H0.
    assert (madt_entry e w a = Ok (a, w)) as ->.
    { unfold madt_entry. rewrite (ld8_ok w e) by (eapply readable_sub; [exact Hr|lia..]). rewrite bind_Ok. revert Hd. unfold decode.
      repeat (destruct (_ =? _); [done|]). done. }
    rewrite bind_Ok, Z.add_0_r, Z.sub_0_r. by apply IH.
Qed.

Lemma madt_collected_witness : ∃ a w',
  apic_init 10 (MkAcpi 0xE0010 0x200000) DemoAcpi.low (apic_fresh 0) = Ok (a, w')
  ∧ collected a [L (Ent0 0 0 1); I (Ent1 1 0xFEC00000 0); O2 (Ent2 0 0 2 0)] 0xFEE00000.
Proof.
  assert (find_sdth APIC_SIGNATURE (MkAcpi 0xE0010 0x200000) DemoAcpi.low = Ok 0x200100) as Hf.
  { destruct (find_sdth_ok APIC_SIGNATURE (MkAcpi 0xE0010 0x200000) DemoAcpi.low 4 demo_acpi_bytes) as (r & -> & o & Ho & ->);
      [discriminate|apply low_readable; vm_compute; congruence
      |split; apply low_readable; vm_compute; congruence|vm_compute; congruence|vm_compute; reflexivity| |].
    - change (entries (wmem DemoAcpi.low) (rsdt (MkAcpi 0xE0010 0x200000)) 4) with 1. intros i Hi. assert (i = 0) as -> by lia.
      split; apply low_readable; vm_compute; congruence.
    - change (entries (wmem DemoAcpi.low) (rsdt (MkAcpi 0xE0010 0x200000)) 4) with 1 in Ho.
      assert (is_table (wmem DemoAcpi.low) APIC_SIGNATURE (entry_at (wmem DemoAcpi.low) (rsdt (MkAcpi 0xE0010 0x200000)) 4 0)) as H0
        by (split; vm_compute; reflexivity).
      destruct o as [k|]; [|by destruct (Ho 0 ltac:(lia))]. destruct Ho as [Hk _]. assert (k = 0) as -> by lia. vm_compute. reflexivity. }
  destruct (madt_collected 10 (MkAcpi 0xE0010 0x200000) DemoAcpi.low 0x200100 [0x20012C; 0x200134; 0x200140] Hf) as [(a & w' & H1 & H2 & _) _].
  - discriminate.
  - apply low_readable; vm_compute; congruence.
  - split; vm_compute; congruence.
  - repeat first [apply chain_cons; [vm_compute; reflexivity|vm_compute; reflexivity|]|apply chain_end; vm_compute; congruence].
  - apply Forall_forall. intros x. rewrite !elem_of_cons. intros [->|[->|[->|[]%elem_of_nil]]]; apply low_readable; vm_compute; congruence.
  - unfold fits. split_and!; vm_compute; lia.
  - simpl. lia.
  - exists a, w'. split; [exact H1|]. vm_compute in H2. exact H2.
Defined.
