(* ===== verification/ApicConfig.v ===== *)
(** What [configure] leaves in the redirection tables of the I/O APICs. *)
From S2P Require Import Prelude Memory Slots Acpi Apic.

Lemma land_le x y : 0 ≤ x → Z.land x y ≤ x.
Proof.
  intros Hx. pose proof (Z.add_lor_land (Z.ldiff x y) (Z.land x y)) as E. rewrite Z.lor_ldiff_and in E.
  assert (Z.land (Z.ldiff x y) (Z.land x y) = 0) as E0.
  { apply Z.bits_inj'. intros n Hn. rewrite !Z.land_spec, Z.ldiff_spec, Z.bits_0. by destruct (Z.testbit x n), (Z.testbit y n). }
  assert (0 ≤ Z.ldiff x y) by (apply Z.ldiff_nonneg; by left). lia.
Qed.

Section config.
Context {D : Type} `{IoApicHw D}.

(** The number of the last pin, from the version register. *)
Definition pins (d : D) (io : ent1) : Z :=
  Z.land (Z.land (Z.shiftr (hw_reg d (ioapic io) 1) 16) 0xFF) (not32 (Z.shiftl 1 7)).
(** The two halves of the redirection entry of interrupt [g], as far as software writes them. *)
Definition entry_reg (io : ent1) (g : Z) : Z := 2 * (g - gsi_base io) + 16.
Definition entry (d : D) (io : ent1) (g : Z) : Z * Z :=
  (Z.land (hw_reg d (ioapic io) (entry_reg io g)) (RW_BITS 0), Z.land (hw_reg d (ioapic io) (entry_reg io g + 1)) (RW_BITS 1)).
Definition split64 (v : Z) : Z * Z := (Z.land (Z.land v 0xFFFFFFFF) (RW_BITS 0), Z.land (Z.shiftr v 32) (RW_BITS 1)).
Definition masked (d : D) (io : ent1) (g : Z) : Prop := Z.testbit (entry d io g).1 16 = true.

(** The I/O APICs [ios], with last pins [P]: their interrupt ranges are apart. *)
Definition covers (P : ent1 → Z) (io : ent1) (g : Z) : Prop := gsi_base io ≤ g ≤ gsi_base io + P io.
Record machine_ok (P : ent1 → Z) (ios : list ent1) : Prop := {
  mo_io io : io ∈ ios → hw_at (ioapic io) = true ∧ 0 ≤ gsi_base io < 2 ^ 31 ∧ 0 ≤ P io ≤ 119;
  mo_addr io io' : io ∈ ios → io' ∈ ios → ioapic io = ioapic io' → io = io';
  mo_apart io io' g : io ∈ ios → io' ∈ ios → covers P io g → covers P io' g → io = io';
  mo_nodup : NoDup ios
}.

Section machine.
Context (P : ent1 → Z) (ios : list ent1).
Hypothesis Hok : machine_ok P ios.
Abbreviation cov := (covers P).

(** The devices still have their pins. *)
Definition st (d : D) : Prop := ∀ io, io ∈ ios → pins d io = P io.

(** From [d] to [d'] at most the entries in [C] change. *)
Definition upd (C : ent1 → Z → Prop) (d d' : D) : Prop :=
  st d' ∧ ∀ io g, io ∈ ios → cov io g → ¬ C io g → entry d' io g = entry d io g.

Lemma upd_refl C d : st d → upd C d d.
Proof using. by split. Qed.

Lemma select_entries d b r : hw_at b = true →
  (∀ io, pins (hw_store b r d) io = pins d io) ∧ (∀ io g, entry (hw_store b r d) io g = entry d io g).
Proof using. intros Hb. unfold pins, entry. rewrite hw_select_only by done. done. Qed.

Lemma get_gsi_max_ok io d : io ∈ ios → st d →
  ∃ d', get_gsi_max io d = (P io, d') ∧ st d' ∧ ∀ io' g, entry d' io' g = entry d io' g.
Proof using Hok.
  intros Hio Hst. destruct (mo_io _ _ Hok io Hio) as (Ha & _). unfold get_gsi_max, ioapic_read. rewrite hw_selected by (done || lia).
  eexists. split; [f_equal; by apply Hst|]. destruct (select_entries d (ioapic io) 1 Ha) as [E1 E2]. split; [|done].
  intros io' Hio'. rewrite E1. by apply Hst.
Qed.

Lemma write_reg d b r v : hw_at b = true → entry_register (hw_reg d b 1) r → r < 256 → 0 ≤ v < 2 ^ 32 →
  Z.land (hw_reg (ioapic_write b r v d) b r) (RW_BITS r) = Z.land v (RW_BITS r)
  ∧ ∀ b' r', hw_at b' = true → (b', r') ≠ (b, r) → hw_reg (ioapic_write b r v d) b' r' = hw_reg d b' r'.
Proof using. intros. split; [by apply hw_written|intros; by apply hw_others]. Qed.

Lemma rw_even io g : RW_BITS (entry_reg io g) = RW_BITS 0 ∧ RW_BITS (entry_reg io g + 1) = RW_BITS 1.
Proof using.
  unfold RW_BITS, entry_reg. replace (2 * (g - gsi_base io) + 16) with (2 * (g - gsi_base io + 8)) by lia.
  rewrite Z.even_even, Z.even_add, Z.even_even. done.
Qed.

Lemma pins_entry d io r : 0 ≤ hw_reg d (ioapic io) 1 → 16 ≤ r → r < 18 + 2 * pins d io → entry_register (hw_reg d (ioapic io) 1) r.
Proof using.
  intros H0 Hlo Hhi. unfold entry_register, pins in *. set (x := Z.land (Z.shiftr (hw_reg d (ioapic io) 1) 16) 0xFF) in *.
  assert (Z.land x (not32 (Z.shiftl 1 7)) ≤ x); [|lia]. apply land_le. unfold x. apply Z.land_nonneg. right. done.
Qed.

Lemma reg_eq io g : io ∈ ios → cov io g →
  u32 (u32 (u32 (g - gsi_base io) * 2) + 16) = entry_reg io g ∧ u32 (entry_reg io g + 1) = entry_reg io g + 1
  ∧ 16 ≤ entry_reg io g ∧ entry_reg io g + 1 < 256.
Proof using Hok.
  intros Hio Hc. destruct (mo_io _ _ Hok io Hio) as (_ & ? & ?). unfold covers in Hc. unfold entry_reg.
  rewrite (u32_small (g - gsi_base io)), (u32_small (_ * 2)), !u32_small by lia. lia.
Qed.

Lemma write_ok io g v d : io ∈ ios → st d → cov io g → 0 ≤ v < 2 ^ 64 →
  ∃ d', write_redirection_table (Some io) g v d = (true, d') ∧ entry d' io g = split64 v
    ∧ upd (λ io' g', io' = io ∧ g' = g) d d'.
Proof using Hok.
  intros Hio Hst Hc Hv. destruct (reg_eq io g Hio Hc) as (E1 & E2 & Hlo & Hhi). destruct (mo_io _ _ Hok io Hio) as (Ha & Hb & HP).
  unfold write_redirection_table. rewrite E1, E2. set (r := entry_reg io g) in *.
  assert (0 ≤ Z.land v 0xFFFFFFFF < 2 ^ 32) as Hv0 by (change 0xFFFFFFFF with (2 ^ 32 - 1); rewrite land_mask by lia; apply u32_range).
  assert (0 ≤ Z.shiftr v 32 < 2 ^ 32) as Hv1 by (rewrite Z.shiftr_div_pow2 by lia; clear - Hv; dlia).
  set (d1 := ioapic_write (ioapic io) r (Z.land v 0xFFFFFFFF) d).
  destruct (rw_even io g) as [Q0 Q1]. fold r in Q0, Q1.
  assert (r + 1 < 18 + 2 * pins d io) as Hpin by (rewrite (Hst io Hio); unfold covers in Hc; unfold r, entry_reg; lia).
  destruct (write_reg d (ioapic io) r (Z.land v 0xFFFFFFFF) Ha) as [W1 F1]; [apply pins_entry; [apply hw_range|lia..]|lia|done|].
  destruct (write_reg d1 (ioapic io) (r + 1) (Z.shiftr v 32) Ha) as [W2 F2];
    [unfold d1; rewrite F1; [apply pins_entry; [apply hw_range|lia..]|done|intros [= ?]; lia]|lia|done|].
  eexists. split; [done|]. split; [|split].
  - unfold entry. fold r. rewrite <- Q0, <- Q1, W2. rewrite F2; [|done|intros [= ?]; lia]. unfold d1. rewrite W1. unfold split64. by rewrite Q0, Q1.
  - intros io' Hio'. destruct (mo_io _ _ Hok io' Hio') as (Ha' & _). unfold pins. rewrite F2; [|done|intros [= ?]; lia].
    unfold d1. rewrite F1; [|done|intros [= ?]; lia]. by apply Hst.
  - intros io' g' Hio' Hc' Hne. destruct (reg_eq io' g' Hio' Hc') as (_ & _ & Hlo' & Hhi'). destruct (mo_io _ _ Hok io' Hio') as (Ha' & _).
    assert (∀ k k', (k = 0 ∨ k = 1) → (k' = 0 ∨ k' = 1) → (ioapic io', entry_reg io' g' + k) ≠ (ioapic io, r + k')) as Hn.
    { intros k k' Hk Hk' [= Ei Er]. apply (mo_addr _ _ Hok io' io Hio' Hio) in Ei as ->. apply Hne. split; [done|].
      unfold r, entry_reg in Er. lia. }
    unfold entry. f_equal; f_equal.
    + pose proof (Hn 0 1 ltac:(lia) ltac:(lia)) as N1. pose proof (Hn 0 0 ltac:(lia) ltac:(lia)) as N0. rewrite !Z.add_0_r in *.
      rewrite F2 by done. unfold d1. by rewrite F1 by done.
    + pose proof (Hn 1 1 ltac:(lia) ltac:(lia)) as N1. pose proof (Hn 1 0 ltac:(lia) ltac:(lia)) as N0. rewrite !Z.add_0_r in *.
      rewrite F2 by done. unfold d1. by rewrite F1 by done.
Qed.

Lemma upd_trans (C1 C2 C3 : ent1 → Z → Prop) d d' d'' : upd C1 d d' → upd C2 d' d'' → (∀ io g, C1 io g ∨ C2 io g → C3 io g) → upd C3 d d''.
Proof using.
  intros [_ H1] [H2 H3] Hc. split; [done|]. intros io g Hio Hg Hn. rewrite H3, H1; [done|done|done| |done|done|]; intros HC; apply Hn, Hc; auto.
Qed.

Lemma upd_weaken (C C' : ent1 → Z → Prop) d d' : upd C d d' → (∀ io g, C io g → C' io g) → upd C' d d'.
Proof using. intros [H1 H2] Hc. split; [done|]. intros io g Hio Hg Hn. apply H2; [done|done|]. intros HC. by apply Hn, Hc. Qed.

Lemma upd_same d d' : st d' → (∀ io g, entry d' io g = entry d io g) → upd (λ _ _, False) d d'.
Proof using. intros Hs He. by split. Qed.

(** Masking sets bit 16; an entry that reads as all ones has it already. *)
Lemma mask_ok io g d : io ∈ ios → st d → cov io g →
  ∃ b d', mask_gsi (Some io) g d = (b, d') ∧ masked d' io g ∧ upd (λ io' g', io' = io ∧ g' = g) d d'.
Proof using Hok.
  intros Hio Hst Hc. destruct (reg_eq io g Hio Hc) as (E1 & E2 & Hlo & Hhi). destruct (mo_io _ _ Hok io Hio) as (Ha & _).
  unfold mask_gsi, read_redirection_table, ioapic_read. rewrite E1, E2. set (r := entry_reg io g) in *.
  rewrite (hw_selected d) by (done || lia). set (d1 := hw_store (ioapic io) r d). rewrite (hw_selected d1) by (done || lia).
  set (d2 := hw_store (ioapic io) (r + 1) d1).
  destruct (select_entries d (ioapic io) r Ha) as [P1 S1]. destruct (select_entries d1 (ioapic io) (r + 1) Ha) as [P2 S2]. fold d1 in P1, S1. fold d2 in P2, S2.
  assert (st d2) as Hst2 by (intros x Hx; rewrite P2, P1; by apply Hst).
  assert (upd (λ _ _, False) d d2) as Hu by (apply upd_same; [done|intros; by rewrite S2, S1]).
  assert (hw_reg d1 = hw_reg d) as Ed1 by (by apply hw_select_only). rewrite Ed1.
  pose proof (hw_range d (ioapic io) r) as R0. pose proof (hw_range d (ioapic io) (r + 1)) as R1.
  set (lo := hw_reg d (ioapic io) r) in *. set (hi := hw_reg d (ioapic io) (r + 1)) in *.
  assert (u64 (Z.shiftl hi 32) = 2 ^ 32 * hi) as -> by (rewrite Z.shiftl_mul_pow2, wrap_small by lia; lia).
  assert (Z.lor lo (2 ^ 32 * hi) = 2 ^ 32 * hi + lo) as Ev by (rewrite Z.lor_comm; apply lor_low; lia). rewrite Ev.
  destruct (Z.eqb_spec (2 ^ 32 * hi + lo) REDIRECT_TABLE_BAD_READ) as [Eb|Eb].
  - exists false, d2. split; [done|]. split; [|eapply upd_trans; [exact Hu|apply (upd_refl (λ _ _, False)); done|tauto]].
    assert (lo = 2 ^ 32 - 1) as El by (unfold REDIRECT_TABLE_BAD_READ in Eb; lia).
    unfold masked. rewrite S2, S1. unfold entry. simpl. fold r lo. rewrite El. vm_compute. reflexivity.
  - destruct (write_ok io g (Z.lor (2 ^ 32 * hi + lo) (Z.shiftl 1 16)) d2 Hio Hst2 Hc) as (d3 & -> & Hent & Hu3).
    { apply lor_range; [lia|lia|]. vm_compute. split; congruence. }
    exists true, d3. split; [done|]. split; [|eapply upd_trans; [exact Hu|exact Hu3|tauto]].
    unfold masked. rewrite Hent. unfold split64. simpl fst. rewrite !Z.land_spec, Z.lor_spec, bit_testbit by lia.
    rewrite bool_decide_true by done. rewrite orb_true_r. vm_compute. reflexivity.
Qed.
Section loops.
Context (ovs : list ent2) (lapic : Z).

(** The pins [configure] masks: all but the last. *)
Definition below (io : ent1) (g : Z) : Prop := gsi_base io ≤ g < gsi_base io + P io.

Lemma below_cov io g : below io g → cov io g.
Proof using. unfold below, covers. lia. Qed.

Lemma mask_loop_ok n io g d : io ∈ ios → st d → gsi_base io ≤ g → g + Z.of_nat n ≤ gsi_base io + P io →
  upd (λ io' g', io' = io ∧ g ≤ g' < g + Z.of_nat n) d (mask_loop n io g d)
  ∧ ∀ g', g ≤ g' < g + Z.of_nat n → masked (mask_loop n io g d) io g'.
Proof using Hok.
  intros Hio. revert g d. induction n as [|n IH]; intros g d Hst Hlo Hhi.
  - split; [by apply upd_refl|lia].
  - assert (cov io g) as Hc by (unfold covers; lia). destruct (mask_ok io g d Hio Hst Hc) as (b & d1 & E & Hm & Hu). simpl. rewrite E.
    destruct (IH (g + 1) d1) as [Hu' Hm']; [apply Hu|lia|lia|]. split.
    + eapply upd_trans; [exact Hu|exact Hu'|]. intros io' g'. simpl. intros [[-> ->]|[-> ?]]; (split; [done|lia]).
    + intros g' Hg'. destruct (decide (g' = g)) as [->|]; [|apply Hm'; lia].
      unfold masked. rewrite (proj2 Hu'); [exact Hm|done|done|]. lia.
Qed.

(** The first override of interrupt [g]. *)
Definition override (l : list ent2) (g : Z) : option ent2 := List.find (λ o, gsi o =? g) l.
Definition flag (lg : list bool) (g : Z) : bool := default false (lg !! Z.to_nat g).
Definition redirected (d : D) (io : ent1) (g irq flags : Z) : Prop := entry d io g = split64 (redirection irq flags lapic).

Lemma redirection_range irq flags : 0 ≤ redirection irq flags lapic < 2 ^ 64.
Proof using.
  unfold redirection. assert (∀ v, 0 ≤ u64 v < 2 ^ 64) as Hu by (intros v; apply wrap_range; lia).
  apply lor_range; [lia| |apply Hu]. repeat case_match; repeat (apply lor_range; [lia| |vm_compute; split; congruence]); apply Hu.
Qed.

Lemma redirect_ok io irq g flags d : io ∈ ios → st d → cov io g →
  ∃ d', redirect_gsi (Some io) irq g flags lapic d = (true, d') ∧ redirected d' io g irq flags ∧ upd (λ io' g', io' = io ∧ g' = g) d d'.
Proof using Hok. intros Hio Hst Hc. apply write_ok; [done|done|done|apply redirection_range]. Qed.

Lemma flag_insert lg g g' : 0 ≤ g < 16 → 0 ≤ g' → length lg = 16%nat → flag (<[Z.to_nat g := true]> lg) g' = bool_decide (g' = g) || flag lg g'.
Proof using.
  intros Hg Hg' Hl. unfold flag. case_bool_decide as E.
  - subst g'. by rewrite list_lookup_insert_eq by lia.
  - by rewrite list_lookup_insert_ne by lia.
Qed.

Lemma override_loop_ok io l lg d : io ∈ ios → st d → length lg = 16%nat → (∀ o, o ∈ l → 0 ≤ gsi o < 16) →
  ∃ lg' d', override_loop l io (gsi_base io + P io) lapic lg d = Ok (lg', d') ∧ length lg' = 16%nat
    ∧ (∀ g, 0 ≤ g → flag lg' g = flag lg g || bool_decide (below io g ∧ is_Some (override l g)))
    ∧ upd (λ io' g, io' = io ∧ below io g ∧ flag lg g = false ∧ is_Some (override l g)) d d'
    ∧ (∀ g o, below io g → flag lg g = false → override l g = Some o → redirected d' io g (irq_src o) (flags2 o)).
Proof using Hok.
  intros Hio. revert lg d. induction l as [|o l IH]; intros lg d Hst Hlg Hov.
  { exists lg, d. split; [done|]. split; [done|]. split; [|split; [by apply upd_refl|done]].
    intros g Hg. rewrite bool_decide_eq_false_2; [by rewrite orb_false_r|]. intros [_ [x Hx]]. done. }
  assert (0 ≤ gsi o < 16) as Ho by (apply Hov, list_elem_of_here).
  assert (∀ o', o' ∈ l → 0 ≤ gsi o' < 16) as Hov' by (intros o' Ho'; apply Hov; by right).
  assert (∀ g, override (o :: l) g = if gsi o =? g then Some o else override l g) as Ecn by done.
  cbn [override_loop]. destruct ((gsi_base io <=? gsi o) && (gsi o <? gsi_base io + P io)) eqn:Er.
  - assert (below io (gsi o)) as Hbel by (unfold below; lia).
    assert (is_Some (lg !! Z.to_nat (gsi o))) as [b Hb] by (apply lookup_lt_is_Some; lia). rewrite Hb.
    assert (flag lg (gsi o) = b) as Hf by (unfold flag; by rewrite Hb).
    destruct b.
    + destruct (IH lg d Hst Hlg Hov') as (lg' & d' & E & L & F & U & R). exists lg', d'. split; [done|]. split; [done|]. split; [|split].
      * intros g Hg. rewrite F, Ecn by done. destruct (Z.eqb_spec (gsi o) g) as [<-|]; [by rewrite Hf|done].
      * eapply upd_weaken; [exact U|]. intros io' g (-> & ? & ? & Hi). split_and!; try done. rewrite Ecn. by destruct (_ =? _).
      * intros g o' Hg Hfg. rewrite Ecn. destruct (Z.eqb_spec (gsi o) g) as [<-|]; [congruence|by apply R].
    + destruct (redirect_ok io (irq_src o) (gsi o) (flags2 o) d Hio Hst (below_cov _ _ Hbel)) as (d1 & -> & R1 & U1).
      rewrite (proj2 (Z.ltb_lt _ _)) by lia.
      destruct (IH (<[Z.to_nat (gsi o) := true]> lg) d1 (proj1 U1)) as (lg' & d' & E & L & F & U & R); [by rewrite length_insert|done|].
      exists lg', d'. split; [done|]. split; [done|]. split; [|split].
      * intros g Hg. rewrite F, flag_insert, Ecn by (done || lia). destruct (Z.eqb_spec (gsi o) g) as [<-|].
        -- rewrite (bool_decide_eq_true_2 (gsi o = gsi o)) by done.
           rewrite (bool_decide_eq_true_2 (below io (gsi o) ∧ is_Some (Some o))) by (by split; [|eexists]). by destruct (flag lg _).
        -- rewrite (bool_decide_eq_false_2 (g = gsi o)) by congruence. done.
      * eapply upd_trans; [exact U1|exact U|]. intros io' g [[-> ->]|(-> & Hg & Hfg & Hi)].
        -- split_and!; try done. rewrite Ecn, Z.eqb_refl. by eexists.
        -- rewrite flag_insert in Hfg by (done || unfold below in Hg; destruct (mo_io _ _ Hok io Hio) as (_ & ? & _); lia).
           apply orb_false_iff in Hfg as [_ Hfg]. split_and!; try done. rewrite Ecn. by destruct (_ =? _).
      * intros g o' Hg Hfg. rewrite Ecn. assert (0 ≤ g) by (unfold below in Hg; destruct (mo_io _ _ Hok io Hio) as (_ & ? & _); lia).
        destruct (Z.eqb_spec (gsi o) g) as [<-|Hne].
        -- intros [= <-]. unfold redirected. rewrite (proj2 U); [exact R1|done|by apply below_cov|].
           intros (_ & _ & Hx & _). rewrite flag_insert, bool_decide_eq_true_2 in Hx by done. done.
        -- apply R; [done|]. rewrite flag_insert, bool_decide_eq_false_2 by (done || congruence). done.
  - assert (¬ below io (gsi o)) as Hbel by (unfold below; lia).
    assert (∀ g, below io g → override (o :: l) g = override l g) as Esk
      by (intros g Hg; rewrite Ecn; destruct (Z.eqb_spec (gsi o) g) as [<-|]; done).
    destruct (IH lg d Hst Hlg Hov') as (lg' & d' & E & L & F & U & R). exists lg', d'. split; [done|]. split; [done|]. split; [|split].
    + intros g Hg. rewrite F by done. f_equal. apply bool_decide_ext. split; intros [Hb Hi]; (split; [done|]); by rewrite Esk in *.
    + eapply upd_weaken; [exact U|]. intros io' g (-> & Hb & Hfg & Hi). split_and!; try done. by rewrite Esk.
    + intros g o' Hg Hfg. rewrite Esk by done. by apply R.
Qed.

Lemma gsi_max_u32 io : io ∈ ios → u32 (P io + gsi_base io) = gsi_base io + P io.
Proof using Hok. intros Hio. destruct (mo_io _ _ Hok io Hio) as (_ & ? & ?). rewrite u32_small; lia. Qed.

(** The flags and the entries after the I/O APICs of [l]. *)
Lemma ioapic_loop_ok l lg d : l ⊆ ios → NoDup l → st d → length lg = 16%nat → (∀ o, o ∈ ovs → 0 ≤ gsi o < 16) →
  (∀ io g, io ∈ l → below io g → flag lg g = false) →
  ∃ lg' d', ioapic_loop l ovs lapic lg d = Ok (lg', d') ∧ length lg' = 16%nat
    ∧ (∀ g, 0 ≤ g → flag lg' g = true ↔ flag lg g = true ∨ (∃ io, io ∈ l ∧ below io g) ∧ is_Some (override ovs g))
    ∧ upd (λ io g, io ∈ l ∧ below io g) d d'
    ∧ ∀ io g, io ∈ l → below io g →
        match override ovs g with Some o => redirected d' io g (irq_src o) (flags2 o) | None => masked d' io g end.
Proof using Hok.
  intros Hl Hnd Hst Hlg Hov. revert lg d Hst Hlg. induction l as [|io l IH]; intros lg d Hst Hlg Hfl.
  { exists lg, d. split; [done|]. split; [done|]. split; [|split; [by apply upd_refl|intros io g []%elem_of_nil]].
    intros g Hg. split; [by left|]. intros [?|[(io & []%elem_of_nil & _) _]]; done. }
  apply NoDup_cons in Hnd as [Hni Hnd]. assert (io ∈ ios) as Hio by (apply Hl, list_elem_of_here).
  assert (l ⊆ ios) as Hl' by (intros x Hx; apply Hl; by right).
  destruct (mo_io _ _ Hok io Hio) as (_ & Hb & HP).
  destruct (get_gsi_max_ok io d Hio Hst) as (d1 & E1 & Hst1 & He1). cbn [ioapic_loop]. rewrite E1. cbv zeta. rewrite gsi_max_u32 by done.
  replace (gsi_base io + P io - gsi_base io) with (P io) by lia.
  destruct (mask_loop_ok (Z.to_nat (P io)) io (gsi_base io) d1 Hio Hst1 ltac:(lia) ltac:(lia)) as [U2 M2].
  set (d2 := mask_loop _ _ _ d1) in *. rewrite Z2Nat.id in U2, M2 by lia.
  destruct (override_loop_ok io ovs lg d2 Hio (proj1 U2) Hlg Hov) as (lg3 & d3 & -> & Hlg3 & F3 & U3 & R3). rewrite bind_Ok.
  assert (∀ io' g, io' ∈ l → below io' g → ¬ below io g) as Hap.
  { intros io' g Hi Hg Hg'. rewrite (mo_apart _ _ Hok io io' g) in Hni by (done || (by apply Hl') || by apply below_cov). done. }
  destruct (IH Hl' Hnd lg3 d3 (proj1 U3) Hlg3) as (lg4 & d4 & -> & Hlg4 & F4 & U4 & R4).
  { intros io' g Hi Hg. assert (0 ≤ g) by (destruct (mo_io _ _ Hok io' (Hl' _ Hi)) as (_ & ? & _); unfold below in Hg; lia).
    rewrite F3, (Hfl io' g) by (done || by right). apply bool_decide_eq_false_2. intros [Hx _]. by apply (Hap io' g). }
  exists lg4, d4. split; [done|]. split; [done|]. split; [|split].
  - intros g Hg. rewrite F4, F3, orb_true_iff, bool_decide_eq_true by done. split.
    + intros [[?|[? ?]]|[(io' & ? & ?) ?]]; [by left|right..]; (split; [|done]); [exists io|exists io']; (split; [|done]); [apply list_elem_of_here|by right].
    + intros [?|[(io' & [->|Hi]%elem_of_cons & ?) ?]]; [by left; left|by left; right|]. right. split; [by exists io'|done].
  - eapply upd_trans; [|exact U4|]; [eapply upd_trans; [apply upd_same; [exact Hst1|exact He1]|eapply upd_trans; [exact U2|exact U3|]|]|].
    + intros x g Hx. exact Hx.
    + intros x g [[]|Hx]. exact Hx.
    + intros x g [[[-> Hg]|(-> & Hg & _)]|[Hx Hg]]; (split; [|done]); [apply list_elem_of_here..|by right].
  - intros io' g [->|Hi]%elem_of_cons Hg; [|by apply R4].
    assert (entry d4 io g = entry d3 io g) as E4 by (apply U4; [done|by apply below_cov|]; intros [Hx _]; done).
    assert (flag lg g = false) as Hfg by (apply (Hfl io); [apply list_elem_of_here|done]).
    destruct (override ovs g) as [o|] eqn:Eo.
    + unfold redirected. rewrite E4. by apply R3.
    + unfold masked. rewrite E4, (proj2 U3); [by apply M2|done|by apply below_cov|]. intros (_ & _ & _ & [x Hx]). congruence.
Qed.

Lemma find_valid_ioapic_ok l g d : l ⊆ ios → st d →
  ∃ r d', find_valid_ioapic l g d = (r, d') ∧ st d' ∧ (∀ io g', entry d' io g' = entry d io g')
    ∧ match r with Some io => io ∈ l ∧ cov io g | None => ∀ io, io ∈ l → ¬ cov io g end.
Proof using Hok.
  revert d. induction l as [|io l IH]; intros d Hl Hst.
  { exists None, d. split_and!; try done. intros io []%elem_of_nil. }
  assert (io ∈ ios) as Hio by (apply Hl, list_elem_of_here). cbn [find_valid_ioapic].
  destruct (get_gsi_max_ok io d Hio Hst) as (d1 & E1 & Hst1 & He1). rewrite E1. cbv zeta. rewrite gsi_max_u32 by done.
  destruct ((gsi_base io <=? g) && (g <=? gsi_base io + P io)) eqn:Ec.
  - exists (Some io), d1. split_and!; try done; [apply list_elem_of_here|unfold covers; lia].
  - destruct (IH d1) as (r & d' & -> & Hst' & He & Hr); [intros x Hx; apply Hl; by right|done|]. exists r, d'.
    split; [done|]. split; [done|]. split; [by intros; rewrite He, He1|]. destruct r as [io'|].
    + split; [by right; apply Hr|apply Hr].
    + intros io' [->|Hi]%elem_of_cons; [unfold covers; lia|by apply Hr].
Qed.

Lemma legacy_loop_ok n i lg d : st d → 0 ≤ i →
  let d' := legacy_loop n i ios lapic lg d in
  upd (λ io g, i ≤ g < i + Z.of_nat n ∧ flag lg g = false) d d'
  ∧ ∀ io g, io ∈ ios → cov io g → i ≤ g < i + Z.of_nat n → flag lg g = false → redirected d' io g g 0.
Proof using Hok.
  cbv zeta. revert i d. induction n as [|n IH]; intros i d Hst Hi.
  { split; [by apply upd_refl|lia]. }
  cbn [legacy_loop]. change (default false (lg !! Z.to_nat i)) with (flag lg i).
  set (C := λ (_ : ent1) g, i ≤ g < i + Z.of_nat (S n) ∧ flag lg g = false).
  assert (∀ d1, upd (λ _ g, g = i ∧ flag lg g = false) d d1 →
    (∀ io, io ∈ ios → cov io i → flag lg i = false → redirected d1 io i i 0) →
    upd C d (legacy_loop n (i + 1) ios lapic lg d1)
    ∧ ∀ io g, io ∈ ios → cov io g → i ≤ g < i + Z.of_nat (S n) → flag lg g = false →
        redirected (legacy_loop n (i + 1) ios lapic lg d1) io g g 0) as Hnext.
  { intros d1 U1 R1. destruct (IH (i + 1) d1 (proj1 U1) ltac:(lia)) as [U R]. split.
    - eapply upd_trans; [exact U1|exact U|]. unfold C. intros io g. simpl. intros [[-> ?]|[? ?]]; (split; [lia|done]).
    - intros io g Hio Hc Hg Hf. destruct (decide (g = i)) as [->|]; [|apply R; (done || lia)].
      unfold redirected. rewrite (proj2 U) by (done || lia). by apply R1. }
  destruct (flag lg i) eqn:Ef; [apply Hnext; [by apply upd_refl|congruence]|].
  destruct (find_valid_ioapic_ok ios i d) as (r & d1 & -> & Hst1 & He1 & Hr); [done|done|]. destruct r as [io|].
  - destruct Hr as [Hio Hc]. destruct (redirect_ok io i i 0 d1 Hio Hst1 Hc) as (d2 & -> & R2 & U2). apply Hnext.
    + eapply upd_trans; [by apply upd_same|exact U2|]. intros x g [[]|[_ ->]]. by split.
    + intros io' Hio' Hc' _. by rewrite (mo_apart _ _ Hok io' io i).
  - simpl. apply Hnext; [|intros io Hio Hc; by destruct (Hr io Hio)]. eapply upd_weaken; [by apply upd_same|]. done.
Qed.
End loops.
End machine.

(** An entry that is not masked, as the I/O APIC's layout has it: in the low half the vector in
    bits 0 to 7, bit 13 the polarity, bit 15 the trigger mode, in the high half the number of
    the core in bits 24 to 31; the delivery and destination modes and the mask bit are 0. *)
Definition routed (core vector : Z) (active_low level : bool) : Z * Z :=
  (vector + 2 ^ 13 * Z.b2z active_low + 2 ^ 15 * Z.b2z level, 2 ^ 24 * core).

(** What [configure] leaves in the entry of interrupt [g] of [io], from the devices [d]; [core]
    is where the interrupts go. An override is active low where bit 1 of its flags is set, and
    level triggered where bit 3 is. *)
Definition configured (ovs : list ent2) (core : Z) (d d' : D) (io : ent1) (g : Z) : Prop :=
  if g <? 16 then
    match override ovs g with
    | Some o =>
        if g <? gsi_base io + pins d io
        then entry d' io g = routed core (irq_src o + 32) (Z.testbit (flags2 o) 1) (Z.testbit (flags2 o) 3)
        else entry d' io g = routed core (g + 32) false false
    | None => entry d' io g = routed core (g + 32) false false
    end
  else if g <? gsi_base io + pins d io then masked d' io g
  else entry d' io g = entry d io g.

Lemma override_none ovs g : (∀ o, o ∈ ovs → 0 ≤ gsi o < 16) → 16 ≤ g → override ovs g = None.
Proof.
  intros Hov Hg. unfold override. destruct (List.find _ ovs) as [o|] eqn:E; [|done].
  apply List.find_some in E as [Ho E]. apply list_elem_of_In in Ho. specialize (Hov o Ho). apply Z.eqb_eq in E. lia.
Qed.

Lemma flag_init g : flag (replicate 16 false) g = false.
Proof.
  unfold flag. destruct (_ !! _) as [b|] eqn:E; [|done]. by apply lookup_replicate in E as [-> _].
Qed.

Lemma redirection_low irq b c : 0 ≤ irq < 256 →
  Z.land (irq + 32 + 2 ^ 13 * Z.b2z b + 2 ^ 15 * Z.b2z c) (RW_BITS 0) = irq + 32 + 2 ^ 13 * Z.b2z b + 2 ^ 15 * Z.b2z c.
Proof.
  intros Hi. assert (forallb (λ i, Z.land (i + 32 + 2 ^ 13 * Z.b2z b + 2 ^ 15 * Z.b2z c) (RW_BITS 0)
    =? i + 32 + 2 ^ 13 * Z.b2z b + 2 ^ 15 * Z.b2z c) (seqZ 0 256) = true) as Hall by (destruct b, c; vm_compute; reflexivity).
  rewrite forallb_forall in Hall. apply Z.eqb_eq, Hall, list_elem_of_In, elem_of_seqZ. lia.
Qed.

Lemma lor_bit r k : 0 ≤ r < 2 ^ k → Z.lor r (Z.shiftl 1 k) = r + 2 ^ k.
Proof.
  intros Hr. assert (0 ≤ k) by (destruct (Z.ltb_spec k 0) as [Hk|]; [rewrite Z.pow_neg_r in Hr by done; lia|done]).
  rewrite Z.lor_comm, Z.shiftl_mul_pow2, Z.mul_1_l by done. rewrite <- (Z.mul_1_r (2 ^ k)), lor_low by lia. lia.
Qed.

Lemma land_bit_ne0 x k : 0 ≤ k → negb (Z.land x (Z.shiftl 1 k) =? 0) = Z.testbit x k.
Proof.
  intros Hk. destruct (Z.testbit x k) eqn:E.
  - apply negb_true_iff, Z.eqb_neq. intros Hall. apply (f_equal (λ z, Z.testbit z k)) in Hall.
    rewrite Z.land_spec, E, bit_testbit, bool_decide_true, Z.bits_0 in Hall by done. done.
  - apply negb_false_iff, Z.eqb_eq, Z.bits_inj'. intros n Hn. rewrite Z.land_spec, bit_testbit, Z.bits_0 by done.
    case_bool_decide; [subst; by rewrite E|by rewrite andb_false_r].
Qed.

Lemma redirection_routed irq flags core : 0 ≤ irq < 256 → 0 ≤ core < 256 →
  split64 (redirection irq flags core) = routed core (irq + 32) (Z.testbit flags 1) (Z.testbit flags 3).
Proof.
  intros Hi Hc. unfold redirection. rewrite !land_bit_ne0 by done. rewrite (wrap_small 64 (irq + 32)) by lia. cbv zeta.
  set (b := Z.testbit flags 1). set (c := Z.testbit flags 3). set (low := irq + 32 + 2 ^ 13 * Z.b2z b + 2 ^ 15 * Z.b2z c).
  assert ((if c then Z.lor (if b then Z.lor (irq + 32) (Z.shiftl 1 13) else irq + 32) (Z.shiftl 1 15)
    else if b then Z.lor (irq + 32) (Z.shiftl 1 13) else irq + 32) = low) as ->.
  { unfold low. rewrite (lor_bit (irq + 32) 13) by lia. destruct b, c; unfold Z.b2z; rewrite ?lor_bit by lia; lia. }
  assert (0 ≤ low < 2 ^ 17) as Hlow by (unfold low; destruct b, c; unfold Z.b2z; lia).
  rewrite Z.shiftl_mul_pow2, (wrap_small 64), Z.lor_comm, (Z.mul_comm core), lor_low by lia.
  unfold split64, routed. f_equal.
  - change 0xFFFFFFFF with (2 ^ 32 - 1). rewrite land_mask by lia. unfold u32, wrap.
    replace (2 ^ 56 * core + low) with (low + 2 ^ 24 * core * 2 ^ 32) by lia. rewrite Z.mod_add, Z.mod_small by lia. by apply redirection_low.
  - rewrite Z.shiftr_div_pow2 by lia. replace (2 ^ 56 * core + low) with (low + 2 ^ 24 * core * 2 ^ 32) by lia.
    rewrite Z.div_add, Z.div_small, Z.add_0_l by lia. assert (forallb (λ i, Z.land (2 ^ 24 * i) (RW_BITS 1) =? 2 ^ 24 * i) (seqZ 0 256) = true) as Hall
      by (vm_compute; reflexivity).
    rewrite forallb_forall in Hall. apply Z.eqb_eq, (Hall core), list_elem_of_In, elem_of_seqZ. lia.
Qed.

Lemma lapic_id_div id : lapic_id id = (id / 2 ^ 24) mod 256.
Proof. unfold lapic_id. rewrite Z.shiftr_div_pow2 by lia. change 0xFF with (2 ^ 8 - 1). by rewrite land_mask. Qed.

(** C23: what interrupt routing [configure] sets up, for every pin of every I/O APIC. Let the
    I/O APICs of the MADT be at different addresses with disjoint interrupt ranges below 2^31,
    of at most 120 pins each, and let the overrides be of the interrupts 0 to 15. Then
    [configure] returns, and for interrupt [g] of an I/O APIC: if [g] is below 16 its entry is
    not masked and goes to the core in bits 24 to 31 of the register [id]: as the first override
    of [g] says, to vector [irq_src + 32] with the override's polarity and trigger mode, or
    without an override to vector [g + 32], active high and edge triggered; from 16 on the entry
    is masked. The entry is given bit by bit ([routed]). The last pin of each I/O APIC is an
    exception, it is never masked and no override reaches it: below 16 it gets the plain entry,
    from 16 on it is what the firmware left. An override of an interrupt from 16 on, in the
    range of an I/O APIC, makes [configure] read outside its array of 16 flags. *)
Theorem configure_exact (a : apic) ios ovs id d :
  filled 64 (ioapics a) ios → filled 64 (irq_overrides a) ovs → machine_ok (pins d) ios →
  (∀ o, o ∈ ovs → 0 ≤ gsi o < 16 ∧ 0 ≤ irq_src o < 256) →
  (∃ d', configure a id d = Ok d' ∧ ∀ io g, io ∈ ios → covers (pins d) io g → configured ovs ((id / 2 ^ 24) mod 256) d d' io g)
  ∧ ∀ o l io gsi_max legacy d0, length legacy = 16%nat → 16 ≤ gsi o → gsi_base io ≤ gsi o < gsi_max →
      override_loop (o :: l) io gsi_max (lapic_id id) legacy d0 = Fault (gsi o).
Proof.
  intros Hi Ho Hok Hov0. assert (∀ o, o ∈ ovs → 0 ≤ gsi o < 16) as Hov by (intros; by apply Hov0). rewrite <- lapic_id_div.
  assert (0 ≤ lapic_id id < 256) as Hcore by (rewrite lapic_id_div; apply Z.mod_pos_bound; lia). split.
  - unfold configure. rewrite (filled_each 64 _ _ Hi), bind_Ok, (filled_each 64 _ _ Ho), bind_Ok.
    destruct (ioapic_loop_ok (pins d) ios Hok ovs (lapic_id id) ios (replicate 16 false) d) as (lg & d1 & -> & Hlg & Hf & U1 & R1);
      [done|apply (mo_nodup _ _ Hok)|by intros io|done|done|intros; apply flag_init|]. rewrite bind_Ok.
    destruct (legacy_loop_ok (pins d) ios Hok (lapic_id id) 16 0 lg d1 (proj1 U1) ltac:(lia)) as [U2 R2].
    eexists. split; [done|]. set (d2 := legacy_loop _ _ _ _ _ _) in *. intros io g Hio Hc.
    assert (0 ≤ g) as Hg by (destruct (mo_io _ _ Hok io Hio) as (_ & ? & _); unfold covers in Hc; lia).
    assert (flag lg g = true ↔ below (pins d) io g ∧ is_Some (override ovs g)) as Hfg.
    { rewrite Hf, flag_init by done. split.
      - intros [?|[(io' & Hio' & Hb) Hs]]; [done|]. split; [|done].
        by rewrite (mo_apart _ _ Hok io io' g) by (done || by apply below_cov).
      - intros [Hb Hs]. right. split; [by exists io|done]. }
    assert (∀ P : D → Prop, (entry d2 io g = entry d1 io g → P d2) → flag lg g = true ∨ 16 ≤ g → P d2) as Hkeep.
    { intros Q HQ Hx. apply HQ, U2; [done|done|]. intros [? ?]. destruct Hx; [congruence|lia]. }
    unfold configured, covers in *. destruct (Z.ltb_spec g 16) as [Hlt|Hge].
    + assert (flag lg g = false → entry d2 io g = routed (lapic_id id) (g + 32) false false) as Hplain.
      { intros Hf0. change false with (Z.testbit 0 1) at 1. change false with (Z.testbit 0 3). rewrite <- redirection_routed by lia.
        apply R2; done || lia. }
      destruct (override ovs g) as [o|] eqn:Eo.
      * destruct (Z.ltb_spec g (gsi_base io + pins d io)) as [Hb|Hb].
        -- apply Hkeep; [|left; apply Hfg; split; [unfold below; lia|by eexists]]. intros E. rewrite E.
           pose proof (R1 io g Hio ltac:(unfold below; lia)) as Hr. rewrite Eo in Hr. rewrite <- redirection_routed; [exact Hr| |done].
           apply Hov0. apply List.find_some in Eo as [Ho' _]. by apply list_elem_of_In.
        -- apply Hplain, not_true_iff_false. intros [Hb' _]%Hfg. unfold below in Hb'. lia.
      * apply Hplain, not_true_iff_false. intros [_ [x Hx]]%Hfg. done.
    + destruct (Z.ltb_spec g (gsi_base io + pins d io)) as [Hb|Hb]; apply Hkeep; try (by right); intros E.
      * unfold masked. rewrite E. pose proof (R1 io g Hio ltac:(unfold below; lia)) as Hr. by rewrite override_none in Hr by done.
      * rewrite E. apply U1; [done|unfold covers; lia|]. unfold below. lia.
  - intros o l io gm lg d0 Hl Hg Hr. cbn [override_loop]. rewrite (proj2 (Z.leb_le _ _)), (proj2 (Z.ltb_lt _ _)) by lia. simpl.
    by rewrite lookup_ge_None_2 by lia.
Qed.
End config.

(** ** One I/O APIC of 24 pins at 0xFEC00000 *)

Module DemoIoApic.
Definition BASE : Z := 0xFEC00000.
(** The register selected, and the registers. *)
Record dev := Dev { sel : Z; regs : Z → Z }.
Definition at_ (b : Z) : bool := b =? BASE.
Definition reg (d : dev) (b r : Z) : Z := if r =? 1 then 0x170011 else u32 (regs d r).
Definition store (p v : Z) (d : dev) : dev :=
  if p =? BASE then Dev v (regs d)
  else if p =? BASE + 16 then
    if (16 <=? sel d) && (sel d <? 64) then Dev (sel d) (λ r, if r =? sel d then v else regs d r) else d
  else d.
Definition load (p : Z) (d : dev) : Z := if p =? BASE + 16 then reg d BASE (sel d) else 0.

Lemma reg_range d b r : 0 ≤ reg d b r < 2 ^ 32.
Proof. unfold reg. case_match; [lia|apply u32_range]. Qed.

Lemma store_entry d r v : 16 ≤ r < 64 → store (BASE + 16) v (store BASE r d) = Dev r (λ r', if r' =? r then v else regs d r').
Proof.
  intros Hr. unfold store. rewrite Z.eqb_refl. rewrite (proj2 (Z.eqb_neq _ _)) by (unfold BASE; lia). rewrite Z.eqb_refl. simpl.
  rewrite (proj2 (Z.leb_le _ _)), (proj2 (Z.ltb_lt _ _)) by lia. done.
Qed.

#[export] Instance hw : IoApicHw dev.
Proof.
  refine {| hw_at := at_; hw_store := store; hw_load := load; hw_reg := reg; hw_range := reg_range |}.
  - intros d b r ->%Z.eqb_eq Hr. unfold load, store. rewrite !Z.eqb_refl. done.
  - intros d b r ->%Z.eqb_eq. unfold store. by rewrite Z.eqb_refl.
  - intros d b r v ->%Z.eqb_eq [Hlo Hhi] Hr Hv. change (Z.land _ 0xFF) with 23 in Hhi. rewrite store_entry by lia.
    unfold reg. rewrite (proj2 (Z.eqb_neq _ _)) by lia. simpl. rewrite Z.eqb_refl, u32_small by lia. done.
  - intros d b r v b' r' ->%Z.eqb_eq ->%Z.eqb_eq [Hlo Hhi] Hr Hne. change (Z.land _ 0xFF) with 23 in Hhi. rewrite store_entry by lia.
    unfold reg. simpl. destruct (r' =? 1); [done|]. by rewrite (proj2 (Z.eqb_neq r' r)) by congruence.
Defined.

(** Interrupt 0 of the bus comes in at pin 2, and interrupt 9 is level triggered. *)
Definition io : ent1 := Ent1 1 BASE 0.
Definition overrides : list ent2 := [Ent2 0 0 2 0; Ent2 0 9 9 13].
Definition tables : apic :=
  match fill [io], fill overrides with
  | Ok i, Ok o => MkApic (array_init 64) i o (array_init 64) (array_init 64) 0xFEE00000
  | _, _ => apic_fresh 0
  end.
Definition start : dev := Dev 0 (λ _, 0).
End DemoIoApic.
#[local] Existing Instance DemoIoApic.hw.

Lemma configure_exact_witness : ∃ d', configure DemoIoApic.tables 0 DemoIoApic.start = Ok d'
  ∧ entry d' DemoIoApic.io 1 = (33, 0) ∧ entry d' DemoIoApic.io 2 = (32, 0) ∧ entry d' DemoIoApic.io 9 = (0x8029, 0)
  ∧ masked d' DemoIoApic.io 16 ∧ entry d' DemoIoApic.io 23 = (0, 0).
Proof.
  destruct (fill_ok [DemoIoApic.io] ltac:(simpl; lia)) as (i & Ei & Fi).
  destruct (fill_ok DemoIoApic.overrides ltac:(simpl; lia)) as (o & Eo & Fo).
  destruct (configure_exact DemoIoApic.tables [DemoIoApic.io] DemoIoApic.overrides 0 DemoIoApic.start) as [(d' & E & H) _].
  - unfold DemoIoApic.tables. by rewrite Ei, Eo.
  - unfold DemoIoApic.tables. by rewrite Ei, Eo.
  - split.
    + intros x ->%list_elem_of_singleton. split; [reflexivity|]. split; split; vm_compute; congruence.
    + by intros x y ->%list_elem_of_singleton ->%list_elem_of_singleton.
    + by intros x y g ->%list_elem_of_singleton ->%list_elem_of_singleton.
    + apply NoDup_singleton.
  - intros x Hx. apply elem_of_cons in Hx as [->|Hx]; [repeat split; vm_compute; congruence|].
    apply list_elem_of_singleton in Hx as ->. repeat split; vm_compute; congruence.
  - exists d'. split; [exact E|]. assert (∀ g, 0 ≤ g ≤ 23 → configured DemoIoApic.overrides (lapic_id 0) DemoIoApic.start d' DemoIoApic.io g) as Hg
      by (intros g Hg; apply H; [apply list_elem_of_here|exact Hg]). clear E H.
    split; [exact (Hg 1 ltac:(lia))|]. split; [exact (Hg 2 ltac:(lia))|]. split; [exact (Hg 9 ltac:(lia))|].
    split; [exact (Hg 16 ltac:(lia))|exact (Hg 23 ltac:(lia))].
Defined.
