(* ===== verification/SharedPtr.v ===== *)
(** Shared pointers: klibcpp/include/klibcpp/memory.hpp.

    A member function of [shared_ptr] is a list of steps, each with at most one access of
    memory that other cores see: the count of a block. Cores interleave at every step. A
    handle (a [shared_ptr] object) is named by the number of the word that holds its [block]. *)
From S2P Require Import Prelude Locks.

Record ptr_block := Block { ptr : Z; refcount : Z }.

(** The handles with the block they point to (0 is null), the blocks, and the objects
    [T] that exist, by their address. *)
Record shared := Shared { handles : gmap Z Z; blocks : gmap Z ptr_block; alive : gset Z }.
Definition set_handle (h b : Z) (s : shared) : shared := Shared (<[h := b]> (handles s)) (blocks s) (alive s).
Definition set_block (b : Z) (x : ptr_block) (s : shared) : shared := Shared (handles s) (<[b := x]> (blocks s)) (alive s).

(** ** Steps *)

(** The second argument of [Incr] and [Null] is the other handle that is in use. *)
Inductive instr :=
| New (h p : Z)
| Load (h src : Z)
| Incr (h src : Z)
| Null (h src : Z)
| Take (h : Z)
| Decr (b : Z)
| Delete (b : Z)
| End (h : Z).

Section exec.
(** Where [new] puts a block. *)
Context (new_block : gset Z → Z).

(** What a step does, and the steps that follow from it. [Take] is the first half of
    [release], [Decr] its test, [Delete] its two deletes; [End] ends the handle's lifetime. *)
Definition exec (i : instr) (s : shared) : res (list instr * shared) :=
  match i with
  | New h p => let b := new_block (dom (blocks s)) in Ok ([], set_handle h b (set_block b (Block p 1) s))
  | Load h src =>
      match handles s !! src with
      | None => Fault src
      | Some b => Ok ([], set_handle h b s)
      end
  | Incr h _ =>
      match handles s !! h with
      | None => Fault h
      | Some b =>
          if b =? 0 then Ok ([], s)
          else match blocks s !! b with
               | None => Fault b
               | Some x => Ok ([], set_block b (Block (ptr x) (Atomic.fetch_add 32 1 (refcount x)).2) s)
               end
      end
  | Null h _ => Ok ([], set_handle h 0 s)
  | Take h =>
      match handles s !! h with
      | None => Fault h
      | Some b => if b =? 0 then Ok ([], s) else Ok ([Decr b], set_handle h 0 s)
      end
  | Decr b =>
      match blocks s !! b with
      | None => Fault b
      | Some x =>
          let '(old, new) := Atomic.fetch_sub 32 1 (refcount x) in
          Ok (if old =? 1 then [Delete b] else [], set_block b (Block (ptr x) new) s)
      end
  | Delete b =>
      match blocks s !! b with
      | None => Fault b
      | Some x =>
          if ptr x =? 0 then Ok ([], Shared (handles s) (delete b (blocks s)) (alive s))
          else if bool_decide (ptr x ∈ alive s) then Ok ([], Shared (handles s) (delete b (blocks s)) (alive s ∖ {[ ptr x ]}))
          else Fault (ptr x)
      end
  | End h => Ok ([], Shared (delete h (handles s)) (blocks s) (alive s))
  end.

(** ** The member functions *)

Inductive op :=
| Default (h : Z)
| Ctor (h p : Z)
| Copy (h src : Z)
| Move (h src : Z)
| Assign (h src : Z)
| MoveAssign (h src : Z)
| Destroy (h : Z)
| Reset (h : Z)
| ResetPtr (h p : Z).

Definition release (h : Z) : list instr := [Take h].
Definition copy_block (h src : Z) : list instr := [Load h src; Incr h src].
Definition move_block (h src : Z) : list instr := [Load h src; Null src h].
Definition reset (h : Z) : list instr := release h ++ [Null h h].
Definition reset_ptr (h p : Z) : list instr := release h ++ (if p =? 0 then [Null h h] else [New h p]).
Definition assign (h src : Z) : list instr := if h =? src then [] else release h ++ copy_block h src.
Definition move_assign (h src : Z) : list instr := if h =? src then [] else release h ++ move_block h src.
Definition destructor (h : Z) : list instr := release h ++ [End h].

Definition code (o : op) : list instr :=
  match o with
  | Default h => [Null h h]
  | Ctor h p => [New h p]
  | Copy h src => copy_block h src
  | Move h src => move_block h src
  | Assign h src => assign h src
  | MoveAssign h src => move_assign h src
  | Destroy h => destructor h
  | Reset h => reset h
  | ResetPtr h p => reset_ptr h p
  end.

Definition get (h : Z) (s : shared) : res Z :=
  match handles s !! h with
  | None => Fault h
  | Some b => if b =? 0 then Ok 0 else match blocks s !! b with None => Fault b | Some x => Ok (ptr x) end
  end.
Definition use_count (h : Z) (s : shared) : res Z :=
  match handles s !! h with
  | None => Fault h
  | Some b => if b =? 0 then Ok 0 else match blocks s !! b with None => Fault b | Some x => Ok (Atomic.load (refcount x)) end
  end.

(** ** Cores *)

(** What each core still has to do. *)
Record state := State { sh : shared; progs : list (list instr) }.

Definition names (i : instr) : list Z :=
  match i with
  | New h _ | Take h | End h => [h]
  | Load h src | Incr h src | Null h src => [h; src]
  | Decr _ | Delete _ => []
  end.
Definition mentions (p : list instr) : list Z := p ≫= names.

(** No core works on [h]. *)
Definition unused (s : state) (h : Z) : Prop := ∀ j q, progs s !! j = Some q → h ∉ mentions q.
Definition unborn (s : state) (h : Z) : Prop := unused s h ∧ handles (sh s) !! h = None ∧ 0 ≤ h < 2 ^ 30.
Definition live (s : state) (h : Z) : Prop := unused s h ∧ is_Some (handles (sh s) !! h).
(** [p] is null, or an object that is in no shared pointer yet. *)
Definition raw (s : state) (p : Z) : Prop := p ≠ 0 → p ∈ alive (sh s)
  ∧ (∀ b x, blocks (sh s) !! b = Some x → ptr x ≠ p)
  ∧ (∀ j q h, progs s !! j = Some q → New h p ∉ q).

(** What the callers keep to: a handle is constructed once and used by one core at a time,
    and an object is given to one shared pointer. *)
Definition allowed (o : op) (s : state) : Prop :=
  match o with
  | Default h => unborn s h
  | Ctor h p => unborn s h ∧ raw s p
  | Copy h src | Move h src => unborn s h ∧ live s src
  | Assign h src | MoveAssign h src => live s h ∧ live s src
  | Destroy h | Reset h => live s h
  | ResetPtr h p => live s h ∧ raw s p
  end.

Inductive step : state → state → Prop :=
| step_start s i o : progs s !! i = Some [] → allowed o s → step s (State (sh s) (<[i := code o]> (progs s)))
| step_exec s i ins rest more s' : progs s !! i = Some (ins :: rest) → exec ins (sh s) = Ok (more, s') →
    step s (State s' (<[i := more ++ rest]> (progs s)))
| step_new s p : p ≠ 0 → p ∉ alive (sh s) →
    step s (State (Shared (handles (sh s)) (blocks (sh s)) (alive (sh s) ∪ {[ p ]})) (progs s)).

Definition init (n : nat) : state := State (Shared ∅ ∅ ∅) (replicate n []).
End exec.

(** ** Counting *)

Definition cnt (b : Z) (refs : gmap Z Z) : Z := Z.of_nat (size (filter (λ kv, kv.2 = b) refs)).

Lemma cnt_refs_nonneg b refs : 0 ≤ cnt b refs.
Proof. unfold cnt. lia. Qed.

Lemma cnt_empty b : cnt b ∅ = 0.
Proof. unfold cnt. by rewrite map_filter_empty, map_size_empty. Qed.

Lemma cnt_fresh b refs h v : refs !! h = None → cnt b (<[h := v]> refs) = cnt b refs + (if v =? b then 1 else 0).
Proof.
  intros Hn. unfold cnt. destruct (Z.eqb_spec v b) as [->|Hv].
  - rewrite map_filter_insert_True, map_size_insert_None by (done || by apply map_lookup_filter_None_2; left). lia.
  - rewrite map_filter_insert_False by done. rewrite delete_id by done. lia.
Qed.

Lemma cnt_delete b refs h v : refs !! h = Some v → cnt b (delete h refs) = cnt b refs - (if v =? b then 1 else 0).
Proof.
  intros Hv. rewrite <- (insert_delete_id refs h v Hv) at 2. rewrite cnt_fresh by apply lookup_delete_eq. lia.
Qed.

(** The weight of an entry. *)
Definition one (b : Z) (o : option Z) : Z := match o with Some v => if v =? b then 1 else 0 | None => 0 end.

Lemma cnt_del b refs h : cnt b (delete h refs) = cnt b refs - one b (refs !! h).
Proof. destruct (refs !! h) as [v|] eqn:E; [by apply cnt_delete|]. rewrite delete_id by done. simpl. lia. Qed.

Lemma cnt_insert b refs h v : cnt b (<[h := v]> refs) = cnt b refs - one b (refs !! h) + one b (Some v).
Proof. rewrite <- insert_delete_eq, cnt_fresh, cnt_del by apply lookup_delete_eq. done. Qed.

Lemma cnt_ge b refs h : one b (refs !! h) ≤ cnt b refs.
Proof. pose proof (cnt_del b refs h). pose proof (cnt_refs_nonneg b (delete h refs)). lia. Qed.

Lemma cnt_refs_pos b refs h : refs !! h = Some b → 1 ≤ cnt b refs.
Proof. intros E. pose proof (cnt_ge b refs h) as H. rewrite E in H. simpl in H. by rewrite Z.eqb_refl in H. Qed.

Lemma cnt_size b refs : cnt b refs ≤ Z.of_nat (size refs).
Proof.
  unfold cnt. rewrite <- !size_dom. apply inj_le. apply subseteq_size. apply subseteq_dom, map_filter_subseteq.
Qed.

(** Sums over the cores. *)
Section total.
Context {A : Type} (f : A → Z).
Definition total (l : list A) : Z := foldr (λ p a, f p + a) 0 l.

Lemma total_app l l' : total (l ++ l') = total l + total l'.
Proof. induction l as [|p l IH]; simpl; lia. Qed.

Lemma total_insert l i p q : l !! i = Some p → total (<[i := q]> l) = total l - f p + f q.
Proof.
  intros Hi. rewrite <- (take_drop_middle l i p Hi) at 2. rewrite insert_take_drop by (by apply lookup_lt_Some in Hi).
  rewrite !total_app. simpl. lia.
Qed.

Hypothesis f_range : ∀ p, 0 ≤ f p ≤ 1.

Lemma total_nonneg l : 0 ≤ total l.
Proof using f_range. induction l as [|p l IH]; simpl; [lia|]. pose proof (f_range p). lia. Qed.

Lemma total_le l : total l ≤ Z.of_nat (length l).
Proof using f_range. induction l as [|p l IH]; simpl; [lia|]. pose proof (f_range p). lia. Qed.

Lemma total_ge l i p : l !! i = Some p → f p ≤ total l.
Proof using f_range.
  intros Hi. rewrite <- (take_drop_middle l i p Hi). rewrite total_app. simpl.
  pose proof (total_nonneg (take i l)). pose proof (total_nonneg (drop (S i) l)). lia.
Qed.
End total.

(** The decrements and the deletions of [b] that cores are about to do. *)
Definition dec1 (b : Z) (p : list instr) : Z := match p with Decr b' :: _ => if b' =? b then 1 else 0 | _ => 0 end.
Definition del1 (b : Z) (p : list instr) : Z := match p with Delete b' :: _ => if b' =? b then 1 else 0 | _ => 0 end.
Abbreviation decs b := (total (dec1 b)).
Abbreviation dels b := (total (del1 b)).

Lemma dec1_range b p : 0 ≤ dec1 b p ≤ 1.
Proof. unfold dec1. repeat case_match; lia. Qed.
Lemma del1_range b p : 0 ≤ del1 b p ≤ 1.
Proof. unfold del1. repeat case_match; lia. Qed.

(** ** The invariant

    [refs] says which block each handle is counted for. It differs from [handles] only for
    the handles a core has copied and not yet counted. *)

Definition settled (hs refs : gmap Z Z) (h : Z) : Prop := ∃ v, hs !! h = Some v ∧ refs !! h = Some v.
Definition none_or_null (o : option Z) : Prop := o = None ∨ o = Some 0.
Definition blank (hs refs : gmap Z Z) (h : Z) : Prop := hs !! h = refs !! h ∧ none_or_null (refs !! h).

(** The last steps of a member function, where its handle is null or not constructed. *)
Inductive tail (hs refs : gmap Z Z) : list instr → Prop :=
| tail_copy h src : h ≠ src → blank hs refs h → settled hs refs src → tail hs refs [Load h src; Incr h src]
| tail_move h src : h ≠ src → blank hs refs h → settled hs refs src → tail hs refs [Load h src; Null src h]
| tail_new h p : blank hs refs h → tail hs refs [New h p]
| tail_null h : blank hs refs h → tail hs refs [Null h h]
| tail_end h : blank hs refs h → tail hs refs [End h].

Inductive prog_ok (hs refs : gmap Z Z) : list instr → Prop :=
| ok_idle : prog_ok hs refs []
| ok_tail p : tail hs refs p → prog_ok hs refs p
| ok_take h p : settled hs refs h → tail (<[h := 0]> hs) (<[h := 0]> refs) p → prog_ok hs refs (Take h :: p)
| ok_decr b p : tail hs refs p → prog_ok hs refs (Decr b :: p)
| ok_delete b p : tail hs refs p → prog_ok hs refs (Delete b :: p)
| ok_incr h src v : h ≠ src → hs !! h = Some v → settled hs refs src → hs !! src = Some v → none_or_null (refs !! h) →
    prog_ok hs refs [Incr h src]
| ok_moved h src v : h ≠ src → hs !! h = Some v → settled hs refs src → hs !! src = Some v → none_or_null (refs !! h) →
    prog_ok hs refs [Null src h].

(** The handles that are not counted as they are. *)
Definition owed (p : list instr) : list Z :=
  match p with
  | Incr h _ :: _ => [h]
  | Null src h :: _ => [src; h]
  | _ => []
  end.

Record handles_inv (hs refs : gmap Z Z) (ps : list (list instr)) : Prop := {
  hi_apart i j p q h : ps !! i = Some p → ps !! j = Some q → h ∈ mentions p → h ∈ mentions q → i = j;
  hi_prog i p : ps !! i = Some p → prog_ok hs refs p;
  hi_same h : (∀ i p, ps !! i = Some p → h ∉ owed p) → hs !! h = refs !! h;
  hi_names i p h : ps !! i = Some p → h ∈ mentions p → 0 ≤ h < 2 ^ 30;
  hi_dom h v : refs !! h = Some v → 0 ≤ h < 2 ^ 30
}.

Definition block_inv (refs : gmap Z Z) (bs : gmap Z ptr_block) (ps : list (list instr)) (b : Z) : Prop :=
  match bs !! b with
  | Some x => b ≠ 0 ∧ refcount x = cnt b refs + decs b ps ∧ dels b ps = (if refcount x =? 0 then 1 else 0)
  | None => (b ≠ 0 → cnt b refs = 0) ∧ decs b ps = 0 ∧ dels b ps = 0
  end.

Record objects_inv (bs : gmap Z ptr_block) (al : gset Z) (ps : list (list instr)) : Prop := {
  oi_alive b x : bs !! b = Some x → ptr x ≠ 0 → ptr x ∈ al;
  oi_inj b b' x y : bs !! b = Some x → bs !! b' = Some y → ptr x ≠ 0 → ptr x = ptr y → b = b';
  oi_raw i p h q : ps !! i = Some p → New h q ∈ p → q ≠ 0 → q ∈ al ∧ ∀ b x, bs !! b = Some x → ptr x ≠ q;
  oi_once i j p p' h h' q : ps !! i = Some p → ps !! j = Some p' → New h q ∈ p → New h' q ∈ p' → q ≠ 0 → i = j
}.

Record inv (s : state) (refs : gmap Z Z) : Prop := {
  inv_handles : handles_inv (handles (sh s)) refs (progs s);
  inv_blocks b : block_inv refs (blocks (sh s)) (progs s) b;
  inv_objects : objects_inv (blocks (sh s)) (alive (sh s)) (progs s);
  inv_cores : Z.of_nat (length (progs s)) ≤ 255
}.

(** ** Handles *)

Lemma mentions_cons i p : mentions (i :: p) = names i ++ mentions p.
Proof. done. Qed.

Lemma mentions_app p q : mentions (p ++ q) = mentions p ++ mentions q.
Proof. apply bind_app. Qed.

Lemma owed_mentions p h : h ∈ owed p → h ∈ mentions p.
Proof. destruct p as [|[] p]; simpl; set_solver. Qed.

Lemma tail_frame hs refs hs' refs' p : (∀ h, h ∈ mentions p → hs' !! h = hs !! h ∧ refs' !! h = refs !! h) → tail hs refs p → tail hs' refs' p.
Proof.
  intros Hf Ht. assert (∀ h, h ∈ mentions p → blank hs refs h → blank hs' refs' h) as Hb.
  { intros h Hh [E N]. unfold blank. destruct (Hf h Hh) as [-> ->]. done. }
  assert (∀ h, h ∈ mentions p → settled hs refs h → settled hs' refs' h) as Hs.
  { intros h Hh (v & E1 & E2). exists v. destruct (Hf h Hh) as [-> ->]. done. }
  destruct Ht; constructor; try done; (apply Hb || apply Hs); try done; simpl; set_solver.
Qed.

Lemma prog_ok_frame hs refs hs' refs' p :
  (∀ h, h ∈ mentions p → hs' !! h = hs !! h ∧ refs' !! h = refs !! h) → prog_ok hs refs p → prog_ok hs' refs' p.
Proof.
  intros Hf Hp. assert (∀ h, h ∈ mentions p → settled hs refs h → settled hs' refs' h) as Hs.
  { intros h Hh (v & E1 & E2). exists v. destruct (Hf h Hh) as [-> ->]. done. }
  destruct Hp as [|p Ht|h p Hh Ht|b p Ht|b p Ht|h src v Hne E Hsrc Es Hn|h src v Hne E Hsrc Es Hn].
  - constructor.
  - apply ok_tail. by eapply tail_frame.
  - apply ok_take; [apply Hs; [simpl; set_solver|done]|]. eapply tail_frame; [|exact Ht]. intros k Hk.
    destruct (decide (k = h)) as [->|]; [by rewrite !lookup_insert_eq|]. rewrite !lookup_insert_ne by done. apply Hf. simpl. set_solver.
  - apply ok_decr. eapply tail_frame; [|exact Ht]. exact Hf.
  - apply ok_delete. eapply tail_frame; [|exact Ht]. exact Hf.
  - destruct (Hf h ltac:(simpl; set_solver)) as [E1 E2], (Hf src ltac:(simpl; set_solver)) as [E3 _].
    apply (ok_incr _ _ h src v); [done|congruence|apply Hs; [simpl; set_solver|done]|congruence|by rewrite E2].
  - destruct (Hf h ltac:(simpl; set_solver)) as [E1 E2], (Hf src ltac:(simpl; set_solver)) as [E3 _].
    apply (ok_moved _ _ h src v); [done|congruence|apply Hs; [simpl; set_solver|done]|congruence|by rewrite E2].
Qed.

Lemma handles_upd hs refs ps i p p' hs' refs' :
  handles_inv hs refs ps → ps !! i = Some p → (∀ h, h ∈ mentions p' → h ∈ mentions p) →
  (∀ h, h ∉ mentions p → hs' !! h = hs !! h ∧ refs' !! h = refs !! h) → prog_ok hs' refs' p' →
  (∀ h, h ∈ mentions p → h ∉ owed p' → hs' !! h = refs' !! h) →
  handles_inv hs' refs' (<[i := p']> ps).
Proof.
  intros [Ha Hp Hs Hn Hd] Hi Hsub Hf Hp' Hs'. split.
  - intros j k q r h Hj Hk. apply list_lookup_insert_Some in Hj as [(-> & <- & _)|[Hij Hj]], Hk as [(-> & <- & _)|[Hik Hk]]; try done.
    + intros H1%Hsub H2. by eapply Ha.
    + intros H1 H2%Hsub. by eapply Ha.
    + intros H1 H2. by eapply Ha.
  - intros j q Hj. apply list_lookup_insert_Some in Hj as [(-> & <- & _)|[Hij Hj]]; [done|].
    eapply prog_ok_frame; [|by eapply Hp]. intros h Hh. apply Hf. intros H'. apply Hij. by eapply Ha.
  - intros h Hh. destruct (decide (h ∈ mentions p)) as [Hm|Hm].
    + apply Hs'; [done|]. apply (Hh i). apply list_lookup_insert_eq. by apply lookup_lt_Some in Hi.
    + destruct (Hf h Hm) as [-> ->]. apply Hs. intros j q Hj. destruct (decide (j = i)) as [->|].
      * intros Ho%owed_mentions. congruence.
      * apply (Hh j). by rewrite list_lookup_insert_ne.
  - intros j q h Hj Hh. apply list_lookup_insert_Some in Hj as [(-> & <- & _)|[Hij Hj]]; [|by eapply Hn]. eapply Hn; [exact Hi|auto].
  - intros h v Hv. destruct (decide (h ∈ mentions p)) as [Hm|Hm]; [by eapply Hn|]. destruct (Hf h Hm) as [_ E]. rewrite E in Hv. by eapply Hd.
Qed.

Lemma handles_start hs refs ps i p' : handles_inv hs refs ps → ps !! i = Some [] →
  (∀ h, h ∈ mentions p' → (∀ j q, ps !! j = Some q → h ∉ mentions q) ∧ 0 ≤ h < 2 ^ 30) → prog_ok hs refs p' →
  handles_inv hs refs (<[i := p']> ps).
Proof.
  intros [Ha Hp Hs Hn Hd] Hi Hnew Hp'. split.
  - intros j k q r h Hj Hk. apply list_lookup_insert_Some in Hj as [(-> & <- & _)|[Hij Hj]], Hk as [(-> & <- & _)|[Hik Hk]]; try done.
    + intros H1 H2. by destruct (proj1 (Hnew h H1) k r).
    + intros H1 H2. by destruct (proj1 (Hnew h H2) j q).
    + intros H1 H2. by eapply Ha.
  - intros j q Hj. apply list_lookup_insert_Some in Hj as [(-> & <- & _)|[Hij Hj]]; [done|by eapply Hp].
  - intros h Hh. apply Hs. intros j q Hj. destruct (decide (j = i)) as [->|].
    + rewrite Hi in Hj. injection Hj as <-. apply not_elem_of_nil.
    + apply (Hh j). by rewrite list_lookup_insert_ne.
  - intros j q h Hj Hh. apply list_lookup_insert_Some in Hj as [(-> & <- & _)|[Hij Hj]]; [by apply Hnew|by eapply Hn].
  - done.
Qed.

(** ** Blocks and objects *)

Lemma dec1_app b more p : dec1 b (more ++ p) = match more with [] => dec1 b p | _ => dec1 b more end.
Proof. by destruct more. Qed.

Lemma tail_tokens hs refs p b : tail hs refs p → dec1 b p = 0 ∧ del1 b p = 0.
Proof. by destruct 1. Qed.

Lemma block_upd refs refs' bs bs' ps i p p' b :
  ps !! i = Some p → block_inv refs bs ps b →
  (∀ x, bs !! b = Some x → b ≠ 0 → dec1 b p ≤ decs b ps → del1 b p ≤ dels b ps →
     refcount x = cnt b refs + decs b ps → dels b ps = (if refcount x =? 0 then 1 else 0) →
     match bs' !! b with
     | Some y => refcount y = cnt b refs' + (decs b ps - dec1 b p + dec1 b p')
         ∧ dels b ps - del1 b p + del1 b p' = (if refcount y =? 0 then 1 else 0)
     | None => cnt b refs' = 0 ∧ decs b ps - dec1 b p + dec1 b p' = 0 ∧ dels b ps - del1 b p + del1 b p' = 0
     end) →
  (bs !! b = None → (b ≠ 0 → cnt b refs = 0) → dec1 b p = 0 → del1 b p = 0 →
     match bs' !! b with
     | Some y => b ≠ 0 ∧ refcount y = cnt b refs' + dec1 b p' ∧ del1 b p' = (if refcount y =? 0 then 1 else 0)
     | None => (b ≠ 0 → cnt b refs' = 0) ∧ dec1 b p' = 0 ∧ del1 b p' = 0
     end) →
  block_inv refs' bs' (<[i := p']> ps) b.
Proof.
  intros Hi Hb HS HN. unfold block_inv in *. rewrite !(total_insert _ ps i p p' Hi).
  pose proof (total_ge _ (dec1_range b) ps i p Hi). pose proof (total_ge _ (del1_range b) ps i p Hi).
  pose proof (dec1_range b p). pose proof (del1_range b p).
  destruct (bs !! b) as [x|] eqn:Ex.
  - destruct Hb as (Hb0 & Hr & Hd). specialize (HS x eq_refl Hb0 ltac:(done) ltac:(done) Hr Hd). destruct (bs' !! b); [tauto|].
    destruct HS as (? & ? & ?). split; [auto|lia].
  - destruct Hb as (Hc & E1 & E2). specialize (HN eq_refl Hc ltac:(lia) ltac:(lia)). destruct (bs' !! b).
    + destruct HN as (? & ? & ?). split; [done|]. rewrite E1, E2. lia.
    + destruct HN as (? & ? & ?). split; [done|]. lia.
Qed.

(** A step that touches no block. *)
Lemma blocks_same refs refs' bs ps i p p' :
  ps !! i = Some p → (∀ b, block_inv refs bs ps b) → (∀ b, b ≠ 0 → cnt b refs' = cnt b refs) →
  (∀ b, dec1 b p' = dec1 b p ∧ del1 b p' = del1 b p) → ∀ b, block_inv refs' bs (<[i := p']> ps) b.
Proof.
  intros Hi Hb Hc Ht b. destruct (Ht b) as [E1 E2]. apply (block_upd refs refs' bs bs ps i p p' b Hi (Hb b)).
  - intros x -> Hb0 _ _ Hr Hd. rewrite (Hc b Hb0). lia.
  - intros -> Hn Hd1 Hd2. split; [intros Hb0; rewrite (Hc b Hb0); auto|lia].
Qed.

Definition same_ptrs (bs bs' : gmap Z ptr_block) : Prop := ∀ b, ptr <$> bs' !! b = ptr <$> bs !! b.

Lemma same_ptrs_insert bs b x y : bs !! b = Some x → ptr y = ptr x → same_ptrs bs (<[b := y]> bs).
Proof. intros E Hp b'. destruct (decide (b' = b)) as [->|]; [rewrite lookup_insert_eq, E; simpl; by f_equal|by rewrite lookup_insert_ne]. Qed.

Lemma objects_upd bs bs' al ps i p p' : objects_inv bs al ps → ps !! i = Some p → same_ptrs bs bs' →
  (∀ h q, New h q ∈ p' → New h q ∈ p) → objects_inv bs' al (<[i := p']> ps).
Proof.
  intros [Ha Hj Hr Ho] Hi Hs Hn.
  assert (∀ b y, bs' !! b = Some y → ∃ x, bs !! b = Some x ∧ ptr x = ptr y) as Hback.
  { intros b y E. pose proof (Hs b) as Hb. rewrite E in Hb. destruct (bs !! b) as [x|]; [|done]. exists x. split; [done|]. simpl in Hb. congruence. }
  assert (∀ j q, <[i := p']> ps !! j = Some q → ∃ q0, ps !! j = Some q0 ∧ ∀ h r, New h r ∈ q → New h r ∈ q0) as Hold.
  { intros j q Hq. apply list_lookup_insert_Some in Hq as [(-> & <- & _)|[_ Hq]]; [by exists p|by exists q]. }
  split.
  - intros b y (x & Ex & <-)%Hback H0. by eapply Ha.
  - intros b b' y y' (x & Ex & <-)%Hback (x' & Ex' & <-)%Hback. by eapply Hj.
  - intros j q h r (q0 & Hq & Hin)%Hold Hr' H0. destruct (Hr _ _ _ _ Hq (Hin _ _ Hr') H0) as [H1 H2]. split; [done|].
    intros b y (x & Ex & <-)%Hback. by eapply H2.
  - intros j k q q' h h' r (q0 & Hq & Hin)%Hold (q0' & Hq' & Hin')%Hold Hr1 Hr2 H0. by eapply Ho; [exact Hq|exact Hq'|by apply Hin|by apply Hin'|].
Qed.

Lemma handles_eq hs refs ps i p h : handles_inv hs refs ps → ps !! i = Some p → h ∈ mentions p → h ∉ owed p → hs !! h = refs !! h.
Proof.
  intros Hinv Hi Hh Ho. apply (hi_same _ _ _ Hinv). intros j q Hj Hq. pose proof (owed_mentions _ _ Hq) as Hm.
  assert (i = j) as <- by (eapply (hi_apart _ _ _ Hinv); eauto). congruence.
Qed.

Lemma none_or_null_one o b : none_or_null o → b ≠ 0 → one b o = 0.
Proof. intros [->| ->] Hb0; [done|]. unfold one. by rewrite (proj2 (Z.eqb_neq 0 b)). Qed.

Lemma one_null b : b ≠ 0 → one b (Some 0) = 0.
Proof. apply none_or_null_one. by right. Qed.

Section steps.
Context (new_block : gset Z → Z).
Context (hs refs : gmap Z Z) (bs : gmap Z ptr_block) (al : gset Z) (ps : list (list instr)) (i : nat).
Hypothesis Hinv : inv (State (Shared hs bs al) ps) refs.

Lemma Hh : handles_inv hs refs ps. Proof using Hinv. apply Hinv. Qed.
Lemma Hb b : block_inv refs bs ps b. Proof using Hinv. apply (inv_blocks _ _ Hinv). Qed.
Lemma Ho : objects_inv bs al ps. Proof using Hinv. apply Hinv. Qed.

Lemma cores_upd p' : Z.of_nat (length (<[i := p']> ps)) ≤ 255.
Proof using Hinv. rewrite length_insert. apply (inv_cores _ _ Hinv). Qed.

(** The next step is [ins] and the state after it is right. *)
Definition goes (ins : instr) (rest : list instr) : Prop := ∃ more sh' refs',
  exec new_block ins (Shared hs bs al) = Ok (more, sh') ∧ inv (State sh' (<[i := more ++ rest]> ps)) refs'.

(** A counted handle has its block, and the counts are small. *)
Lemma counted h b : refs !! h = Some b → b ≠ 0 → ∃ x, bs !! b = Some x ∧ 1 ≤ refcount x.
Proof using Hinv.
  intros Er Hb0. pose proof (Hb b) as H. pose proof (cnt_refs_pos b refs h Er). unfold block_inv in H. pose proof (total_nonneg _ (dec1_range b) ps).
  destruct (bs !! b) as [x|]; [exists x; split; [done|lia]|]. destruct H as [H _]. specialize (H Hb0). lia.
Qed.

Lemma small b : cnt b refs + decs b ps ≤ 2 ^ 30 + 255.
Proof using Hinv.
  pose proof (total_le _ (dec1_range b) ps). pose proof (inv_cores _ _ Hinv) as Hc. simpl in Hc. pose proof (cnt_size b refs) as Hs.
  assert (Z.of_nat (size refs) ≤ 2 ^ 30); [|lia]. rewrite <- size_dom, <- (size_run 0 (2 ^ 30)) by lia. apply inj_le, subseteq_size.
  intros h [v Hv]%elem_of_dom. apply elem_of_run. apply (hi_dom _ _ _ Hh) in Hv. lia.
Qed.

Lemma take_ok h rest : ps !! i = Some (Take h :: rest) → settled hs refs h → tail (<[h := 0]> hs) (<[h := 0]> refs) rest → goes (Take h) rest.
Proof using Hinv.
  intros Hi (v & E1 & E2) Ht. unfold goes. simpl. rewrite E1. destruct (Z.eqb_spec v 0) as [->|Hv].
  - rewrite !insert_id in Ht by done. eexists [], _, refs. split; [done|]. split; simpl.
    + eapply handles_upd; [exact Hh|exact Hi|simpl; set_solver|done|by apply ok_tail|]. intros k Hk _.
      eapply handles_eq; [exact Hh|exact Hi|exact Hk|apply not_elem_of_nil].
    + eapply blocks_same; [exact Hi|exact Hb|done|]. intros b. by eapply tail_tokens.
    + eapply objects_upd; [exact Ho|exact Hi|done|]. intros k q Hq. by right.
    + apply cores_upd.
  - eexists [Decr v], _, (<[h := 0]> refs). split; [done|]. split; simpl.
    + eapply handles_upd; [exact Hh|exact Hi|simpl; set_solver| |by apply ok_decr|].
      * intros k Hk. assert (k ≠ h) by (simpl in Hk; set_solver). by rewrite !lookup_insert_ne.
      * intros k Hk _. destruct (decide (k = h)) as [->|]; [by rewrite !lookup_insert_eq|]. rewrite !lookup_insert_ne by done.
        eapply handles_eq; [exact Hh|exact Hi|exact Hk|apply not_elem_of_nil].
    + intros b. eapply block_upd; [exact Hi|apply Hb|..]; simpl.
      * intros x -> Hb0 _ _ Hr Hd. rewrite cnt_insert, E2, one_null by done. cbn [one]. destruct (v =? b); lia.
      * intros -> Hn _ _. destruct (Z.eqb_spec v b) as [->|]; [pose proof (cnt_refs_pos b refs h E2); specialize (Hn Hv); lia|].
        split; [|done]. intros Hb0. rewrite cnt_insert, E2, one_null, Hn by done. cbn [one]. by rewrite (proj2 (Z.eqb_neq v b)).
    + eapply objects_upd; [exact Ho|exact Hi|done|]. intros k q Hq. apply elem_of_cons in Hq as [?|Hq]; [done|by right].
    + apply cores_upd.
Qed.

Lemma load_block_ok h src rest : ps !! i = Some (Load h src :: rest) → tail hs refs (Load h src :: rest) → goes (Load h src) rest.
Proof using Hinv.
  intros Hi Ht. unfold goes.
  assert (h ≠ src ∧ blank hs refs h ∧ settled hs refs src ∧ (rest = [Incr h src] ∨ rest = [Null src h])) as (Hne & Hbl & (v & E1 & E2) & Hr)
    by (inversion Ht; subst; auto).
  simpl. rewrite E1. eexists [], _, refs. split; [done|]. split; simpl.
  - eapply handles_upd; [exact Hh|exact Hi|simpl; set_solver| | |].
    + intros k Hk. simpl in Hk. rewrite lookup_insert_ne by set_solver. done.
    + destruct Hr as [->| ->]; [apply (ok_incr _ _ h src v)|apply (ok_moved _ _ h src v)]; try done;
        rewrite ?lookup_insert_eq, ?lookup_insert_ne by done; try done; try apply Hbl; exists v; by rewrite lookup_insert_ne.
    + intros k Hk Hkn. assert (k ≠ h) by (destruct Hr as [->| ->]; simpl in Hkn; set_solver). rewrite lookup_insert_ne by done.
      eapply handles_eq; [exact Hh|exact Hi|exact Hk|apply not_elem_of_nil].
  - eapply blocks_same; [exact Hi|exact Hb|done|]. intros b. by destruct Hr as [->| ->].
  - eapply objects_upd; [exact Ho|exact Hi|done|]. intros k q Hq. by right.
  - apply cores_upd.
Qed.

Lemma incr_ok h src v : ps !! i = Some [Incr h src] → h ≠ src → hs !! h = Some v → settled hs refs src → hs !! src = Some v →
  none_or_null (refs !! h) → goes (Incr h src) [].
Proof using Hinv.
  intros Hi Hne E (v' & Es1 & Es2) Es Hn. assert (v' = v) as -> by congruence. unfold goes. simpl. rewrite E.
  assert (handles_inv hs (<[h := v]> refs) (<[i := []]> ps)) as Hh'.
  { eapply handles_upd; [exact Hh|exact Hi|simpl; set_solver| |constructor|].
    - intros k Hk. simpl in Hk. rewrite lookup_insert_ne by set_solver. done.
    - intros k Hk _. destruct (decide (k = h)) as [->|]; [by rewrite lookup_insert_eq|]. rewrite lookup_insert_ne by done.
      eapply handles_eq; [exact Hh|exact Hi|exact Hk|simpl; set_solver]. }
  destruct (Z.eqb_spec v 0) as [->|Hv].
  - eexists [], _, (<[h := 0]> refs). split; [done|]. split; simpl; [done| |by eapply objects_upd; [exact Ho|exact Hi|done|intros ???%elem_of_nil]|apply cores_upd].
    eapply blocks_same; [exact Hi|exact Hb| |done]. intros b Hb0. rewrite cnt_insert, (none_or_null_one _ b Hn Hb0), one_null by done. lia.
  - destruct (counted src v Es2 Hv) as (x & Ex & Hx). rewrite Ex. eexists [], _, (<[h := v]> refs). split; [done|]. split; simpl.
    + done.
    + intros b. eapply block_upd; [exact Hi|apply Hb|..]; simpl.
      * intros y Ey Hb0 _ _ Hr Hd. pose proof (small b). pose proof (cnt_refs_nonneg b refs). pose proof (total_nonneg _ (dec1_range b) ps).
        rewrite cnt_insert, (none_or_null_one _ b Hn Hb0). cbn [one]. destruct (Z.eqb_spec v b) as [->|].
        -- rewrite lookup_insert_eq. assert (y = x) as -> by congruence. simpl. rewrite wrap_small by lia.
           rewrite (proj2 (Z.eqb_neq (refcount x) 0)) in Hd by lia. rewrite (proj2 (Z.eqb_neq _ 0)) by lia. lia.
        -- rewrite lookup_insert_ne, Ey by done. lia.
      * intros Ey Hn' _ _. assert (v ≠ b) by congruence. rewrite lookup_insert_ne, Ey by done. split; [|done]. intros Hb0.
        rewrite cnt_insert, (none_or_null_one _ b Hn Hb0), Hn' by done. cbn [one]. by rewrite (proj2 (Z.eqb_neq v b)).
    + eapply objects_upd; [exact Ho|exact Hi|by eapply same_ptrs_insert|intros ???%elem_of_nil; done].
    + apply cores_upd.
Qed.

Lemma moved_ok h src v : ps !! i = Some [Null src h] → h ≠ src → hs !! h = Some v → settled hs refs src → hs !! src = Some v →
  none_or_null (refs !! h) → goes (Null src h) [].
Proof using Hinv.
  intros Hi Hne E (v' & Es1 & Es2) Es Hn. assert (v' = v) as -> by congruence. unfold goes. simpl.
  eexists [], _, (<[src := 0]> (<[h := v]> refs)). split; [done|]. split; simpl.
  - eapply handles_upd; [exact Hh|exact Hi|simpl; set_solver| |constructor|].
    + intros k Hk. simpl in Hk. rewrite !lookup_insert_ne by set_solver. done.
    + intros k Hk _. destruct (decide (k = src)) as [->|]; [by rewrite !lookup_insert_eq|].
      assert (k = h) as -> by (simpl in Hk; set_solver). rewrite !lookup_insert_ne by congruence. by rewrite lookup_insert_eq.
  - eapply blocks_same; [exact Hi|exact Hb| |done]. intros b Hb0.
    rewrite cnt_insert, lookup_insert_ne, Es2, cnt_insert, (none_or_null_one _ b Hn Hb0) by done. rewrite one_null by done. cbn [one]. lia.
  - eapply objects_upd; [exact Ho|exact Hi|done|]. intros k q Hq. by right.
  - apply cores_upd.
Qed.

Lemma null_ok h : ps !! i = Some [Null h h] → blank hs refs h → goes (Null h h) [].
Proof using Hinv.
  intros Hi [_ Hn]. unfold goes. simpl. eexists [], _, (<[h := 0]> refs). split; [done|]. split; simpl.
  - eapply handles_upd; [exact Hh|exact Hi|simpl; set_solver| |constructor|].
    + intros k Hk. simpl in Hk. rewrite !lookup_insert_ne by set_solver. done.
    + intros k Hk _. assert (k = h) as -> by (simpl in Hk; set_solver). by rewrite !lookup_insert_eq.
  - eapply blocks_same; [exact Hi|exact Hb| |done]. intros b Hb0. rewrite cnt_insert, (none_or_null_one _ b Hn Hb0), one_null by done. lia.
  - eapply objects_upd; [exact Ho|exact Hi|done|]. intros k q Hq. by right.
  - apply cores_upd.
Qed.

Lemma end_ok h : ps !! i = Some [End h] → blank hs refs h → goes (End h) [].
Proof using Hinv.
  intros Hi [_ Hn]. unfold goes. simpl. eexists [], _, (delete h refs). split; [done|]. split; simpl.
  - eapply handles_upd; [exact Hh|exact Hi|simpl; set_solver| |constructor|].
    + intros k Hk. simpl in Hk. rewrite !lookup_delete_ne by set_solver. done.
    + intros k Hk _. assert (k = h) as -> by (simpl in Hk; set_solver). by rewrite !lookup_delete_eq.
  - eapply blocks_same; [exact Hi|exact Hb| |done]. intros b Hb0. rewrite cnt_del, (none_or_null_one _ b Hn Hb0). lia.
  - eapply objects_upd; [exact Ho|exact Hi|done|]. intros k q Hq. by right.
  - apply cores_upd.
Qed.

Lemma new_ok h q : (∀ X, new_block X ≠ 0 ∧ new_block X ∉ X) → ps !! i = Some [New h q] → blank hs refs h → goes (New h q) [].
Proof using Hinv.
  intros Hnew Hi [_ Hn]. unfold goes. simpl. destruct (Hnew (dom bs)) as [H0 Hf]. set (c := new_block (dom bs)) in *.
  apply not_elem_of_dom in Hf.
  eexists [], _, (<[h := c]> refs). split; [done|]. split; simpl.
  - eapply handles_upd; [exact Hh|exact Hi|simpl; set_solver| |constructor|].
    + intros k Hk. simpl in Hk. rewrite !lookup_insert_ne by set_solver. done.
    + intros k Hk _. assert (k = h) as -> by (simpl in Hk; set_solver). by rewrite !lookup_insert_eq.
  - intros b. eapply block_upd; [exact Hi|apply Hb|..]; simpl.
    + intros x Ex Hb0 _ _ Hr Hd. assert (c ≠ b) by congruence. rewrite lookup_insert_ne, Ex by done.
      rewrite cnt_insert, (none_or_null_one _ b Hn Hb0). cbn [one]. rewrite (proj2 (Z.eqb_neq c b)) by done. lia.
    + intros Ex Hc _ _. destruct (decide (b = c)) as [->|Hne].
      * rewrite lookup_insert_eq, cnt_insert, (none_or_null_one _ c Hn H0), Hc by done. cbn [one]. by rewrite Z.eqb_refl.
      * rewrite lookup_insert_ne, Ex by done. split; [|done]. intros Hb0.
        rewrite cnt_insert, (none_or_null_one _ b Hn Hb0), Hc by done. cbn [one]. by rewrite (proj2 (Z.eqb_neq c b)).
  - pose proof Ho as [Ha Hj Hr Honce].
    assert (q ≠ 0 → q ∈ al ∧ ∀ b x, bs !! b = Some x → ptr x ≠ q) as Hraw by (intros; eapply Hr; [exact Hi|apply list_elem_of_here|done]).
    assert (∀ j p, <[i := []]> ps !! j = Some p → ∀ k r, New k r ∈ p → ps !! j = Some p ∧ j ≠ i) as Hold.
    { intros j p Hp k r Hk. apply list_lookup_insert_Some in Hp as [(-> & <- & _)|[Hij Hp]]; [by apply not_elem_of_nil in Hk|done]. }
    split.
    + intros b x [(<- & <-)|[_ Hx]]%lookup_insert_Some H; [by apply Hraw|by eapply Ha].
    + intros b b' x y [(<- & <-)|[Hn1 Hx]]%lookup_insert_Some [(<- & <-)|[Hn2 Hy]]%lookup_insert_Some Hx0 E; simpl in *; [done|..].
      * exfalso. by eapply (proj2 (Hraw Hx0)); [exact Hy|].
      * exfalso. eapply (proj2 (Hraw ltac:(congruence))); [exact Hx|done].
      * by eapply Hj.
    + intros j p k r Hp Hk H. destruct (Hold j p Hp k r Hk) as [Hp' Hij]. destruct (Hr _ _ _ _ Hp' Hk H) as [H1 H2]. split; [done|].
      intros b x [(<- & <-)|[_ Hx]]%lookup_insert_Some; [|by eapply H2]. simpl. intros ->.
      apply Hij. eapply (Honce j i); [exact Hp'|exact Hi|exact Hk|apply list_elem_of_here|done].
    + intros j j' p p' k k' r Hp Hp' Hk Hk' H. destruct (Hold j p Hp k r Hk) as [? _], (Hold j' p' Hp' k' r Hk') as [? _]. by eapply Honce.
  - apply cores_upd.
Qed.

Lemma decr_ok b0 rest : ps !! i = Some (Decr b0 :: rest) → tail hs refs rest → goes (Decr b0) rest.
Proof using Hinv.
  intros Hi Ht. unfold goes. simpl. pose proof (Hb b0) as H. unfold block_inv in H.
  pose proof (total_ge _ (dec1_range b0) ps i _ Hi) as Hd1. simpl in Hd1. rewrite Z.eqb_refl in Hd1.
  destruct (bs !! b0) as [x|] eqn:Ex; [|lia]. destruct H as (H0 & Hr & Hd). pose proof (cnt_refs_nonneg b0 refs). pose proof (small b0).
  rewrite (wrap_small 32 (refcount x - 1)) by lia. set (more := if refcount x =? 1 then [Delete b0] else []).
  assert (∀ b, dec1 b (more ++ rest) = 0 ∧ del1 b (more ++ rest) = if (b0 =? b) && (refcount x =? 1) then 1 else 0) as Htok.
  { intros b. unfold more. destruct (refcount x =? 1); simpl; [by rewrite andb_true_r|]. rewrite andb_false_r. by eapply tail_tokens. }
  eexists more, _, refs. split; [done|]. split; simpl.
  - eapply handles_upd; [exact Hh|exact Hi| |done| |].
    + intros k. rewrite mentions_app. unfold more. destruct (refcount x =? 1); simpl; set_solver.
    + unfold more. destruct (refcount x =? 1); [by apply ok_delete|by apply ok_tail].
    + intros k Hk _. eapply handles_eq; [exact Hh|exact Hi|exact Hk|apply not_elem_of_nil].
  - intros b. destruct (Htok b) as [E1 E2]. eapply block_upd; [exact Hi|apply Hb|..]; simpl; rewrite E1, E2; clear E1 E2 Htok.
    + intros y Ey Hb0 _ _ Hr' Hd'. destruct (Z.eqb_spec b0 b) as [->|].
      * rewrite lookup_insert_eq. assert (y = x) as -> by congruence. simpl.
        rewrite (proj2 (Z.eqb_neq (refcount x) 0)) in Hd' by lia. destruct (Z.eqb_spec (refcount x) 1) as [E|E].
        -- rewrite E in *. simpl. lia.
        -- rewrite (proj2 (Z.eqb_neq (refcount x - 1) 0)) by lia. lia.
      * rewrite lookup_insert_ne, Ey by done. simpl. lia.
    + intros Ey Hn _ _. assert (b0 ≠ b) by congruence. rewrite lookup_insert_ne, Ey, (proj2 (Z.eqb_neq b0 b)) by done. simpl. tauto.
  - eapply objects_upd; [exact Ho|exact Hi|by eapply same_ptrs_insert|]. intros k q. unfold more.
    destruct (refcount x =? 1); simpl; rewrite ?elem_of_cons; [intros [?|?]; [done|by right]|by right].
  - apply cores_upd.
Qed.

Lemma delete_ok b0 rest : ps !! i = Some (Delete b0 :: rest) → tail hs refs rest → goes (Delete b0) rest.
Proof using Hinv.
  intros Hi Ht. unfold goes. simpl. pose proof (Hb b0) as H. unfold block_inv in H. pose proof Ho as [Ha Hj Hr Honce].
  pose proof (total_ge _ (del1_range b0) ps i _ Hi) as Hd1. simpl in Hd1. rewrite Z.eqb_refl in Hd1.
  destruct (bs !! b0) as [x|] eqn:Ex; [|lia]. destruct H as (H0 & Hc & Hd).
  destruct (Z.eqb_spec (refcount x) 0) as [E0|E0]; [|lia]. pose proof (cnt_refs_nonneg b0 refs). pose proof (total_nonneg _ (dec1_range b0) ps).
  assert (∀ al', (∀ a, a ∈ al → a ≠ 0 → a ≠ ptr x → a ∈ al') → inv (State (Shared hs (delete b0 bs) al') (<[i := rest]> ps)) refs) as Hgo.
  { intros al' Hal. split; simpl.
    - eapply handles_upd; [exact Hh|exact Hi|done|done|by apply ok_tail|]. intros k Hk _.
      eapply handles_eq; [exact Hh|exact Hi|exact Hk|apply not_elem_of_nil].
    - intros b. destruct (tail_tokens _ _ _ b Ht) as [E1 E2]. eapply block_upd; [exact Hi|apply Hb|..]; simpl; rewrite E1, E2.
      + intros y Ey Hb0 _ _ Hr' Hd'. destruct (Z.eqb_spec b0 b) as [->|].
        * rewrite lookup_delete_eq. lia.
        * rewrite lookup_delete_ne, Ey by done. lia.
      + intros Ey Hn _ _. assert (b0 ≠ b) by congruence. by rewrite lookup_delete_ne, Ey.
    - assert (∀ j p, <[i := rest]> ps !! j = Some p → ∃ p0, ps !! j = Some p0 ∧ ∀ k r, New k r ∈ p → New k r ∈ p0) as Hold.
      { intros j p Hp. apply list_lookup_insert_Some in Hp as [(-> & <- & _)|[_ Hp]]; [|by exists p]. exists (Delete b0 :: rest).
        split; [done|]. intros k r Hk. by right. }
      split.
      + intros b y [Hne Hy]%lookup_delete_Some Hp. apply Hal; [by eapply Ha|done|]. intros E. apply Hne. by eapply Hj; [exact Ex|exact Hy|congruence|].
      + intros b b' y y' [_ Hy]%lookup_delete_Some [_ Hy']%lookup_delete_Some. by eapply Hj.
      + intros j p k r (p0 & Hp & Hin)%Hold Hk Hr0. destruct (Hr _ _ _ _ Hp (Hin _ _ Hk) Hr0) as [Hx1 Hx2]. split.
        * apply Hal; [done|done|]. intros ->. by eapply Hx2.
        * intros b y [_ Hy]%lookup_delete_Some. by eapply Hx2.
      + intros j j' p p' k k' r (p0 & Hp & Hin)%Hold (p0' & Hp' & Hin')%Hold Hk Hk' Hr0.
        by eapply Honce; [exact Hp|exact Hp'|by apply Hin|by apply Hin'|].
    - apply cores_upd. }
  destruct (Z.eqb_spec (ptr x) 0) as [Ep|Ep].
  - eexists [], _, refs. split; [done|]. by apply Hgo.
  - rewrite bool_decide_eq_true_2 by (by eapply Ha). eexists [], _, refs. split; [done|]. apply Hgo. intros a Hx1 _ Hx2. set_solver.
Qed.
End steps.

(** ** Every interleaving *)

Lemma unused_same s refs h : inv s refs → unused s h → handles (sh s) !! h = refs !! h.
Proof.
  intros Hinv Hu. apply (hi_same _ _ _ (inv_handles _ _ Hinv)). intros j q Hj Ho%owed_mentions. by apply (Hu j q).
Qed.

Lemma unborn_blank s refs h : inv s refs → unborn s h → blank (handles (sh s)) refs h.
Proof.
  intros Hinv (Hu & E & _). pose proof (unused_same s refs h Hinv Hu) as Es. split; [done|]. rewrite <- Es, E. by left.
Qed.

Lemma live_settled s refs h : inv s refs → live s h → settled (handles (sh s)) refs h ∧ 0 ≤ h < 2 ^ 30.
Proof.
  intros Hinv (Hu & v & E). pose proof (unused_same s refs h Hinv Hu) as Es. rewrite E in Es.
  split; [by exists v|]. by eapply (hi_dom _ _ _ (inv_handles _ _ Hinv)).
Qed.

Lemma taken hs refs h : blank (<[h := 0]> hs) (<[h := 0]> refs) h.
Proof. split; rewrite !lookup_insert_eq; [done|by right]. Qed.

Lemma settled_taken hs refs h src : h ≠ src → settled hs refs src → settled (<[h := 0]> hs) (<[h := 0]> refs) src.
Proof. intros Hne (v & E1 & E2). exists v. by rewrite !lookup_insert_ne. Qed.

Lemma unborn_live_ne s h src : unborn s h → live s src → h ≠ src.
Proof. intros (_ & E & _) (_ & v & E') ->. congruence. Qed.

(** Spell out the steps of a member function. *)
Ltac steps_of := unfold code, assign, move_assign, destructor, reset, reset_ptr, release, copy_block, move_block in *.

Lemma code_news o h p : New h p ∈ code o → o = Ctor h p ∨ o = ResetPtr h p.
Proof.
  destruct o; steps_of; repeat case_match; simpl; rewrite ?elem_of_cons, ?elem_of_nil; intros; destruct_or?; simplify_eq; auto.
Qed.

Lemma code_tokens o b : dec1 b (code o) = 0 ∧ del1 b (code o) = 0.
Proof. destruct o; steps_of; repeat case_match; done. Qed.

Lemma live_use s refs h : inv s refs → live s h → unused s h ∧ 0 ≤ h < 2 ^ 30.
Proof. intros Hinv Hl. split; [apply Hl|by eapply live_settled]. Qed.

Lemma unborn_use s h : unborn s h → unused s h ∧ 0 ≤ h < 2 ^ 30.
Proof. intros (? & _ & ?). done. Qed.

Lemma code_names s refs o h : inv s refs → allowed o s → h ∈ mentions (code o) → unused s h ∧ 0 ≤ h < 2 ^ 30.
Proof.
  intros Hinv. destruct o; steps_of; intros Ha; repeat case_match; simpl;
    rewrite ?elem_of_cons, ?elem_of_nil; intros; destruct_or?; try done; subst;
    first [eapply live_use; [exact Hinv|by apply Ha]|eapply unborn_use; by apply Ha|by eapply live_use|by eapply unborn_use].
Qed.

Lemma code_prog s refs o : inv s refs → allowed o s → prog_ok (handles (sh s)) refs (code o).
Proof.
  intros Hinv Ha. assert (∀ h, live s h → settled (handles (sh s)) refs h) as HL by (intros; by apply live_settled).
  assert (∀ h, unborn s h → blank (handles (sh s)) refs h) as HU by (intros; by apply unborn_blank).
  assert (∀ h src, live s h → live s src → h ≠ src → ∀ p, p = copy_block h src ∨ p = move_block h src → prog_ok (handles (sh s)) refs (Take h :: p)) as Hassign.
  { intros h src Hs%HL Hs'%HL Hne p Hp. apply ok_take; [done|].
    destruct Hp as [->| ->]; constructor; (done || apply taken || by apply settled_taken). }
  destruct o as [h|h p|h src|h src|h src|h src|h|h|h p]; simpl in *.
  - by apply ok_tail, tail_null, HU.
  - apply ok_tail, tail_new, HU, Ha.
  - destruct Ha. apply ok_tail, tail_copy; [by apply (unborn_live_ne s)|by apply HU|by apply HL].
  - destruct Ha. apply ok_tail, tail_move; [by apply (unborn_live_ne s)|by apply HU|by apply HL].
  - unfold assign. destruct (Z.eqb_spec h src) as [->|Hne]; [constructor|]. apply (Hassign h src); tauto.
  - unfold move_assign. destruct (Z.eqb_spec h src) as [->|Hne]; [constructor|]. apply (Hassign h src); tauto.
  - apply ok_take; [by apply HL|apply tail_end, taken].
  - apply ok_take; [by apply HL|apply tail_null, taken].
  - unfold reset_ptr. apply ok_take; [apply HL, Ha|]. destruct (p =? 0); constructor; apply taken.
Qed.

Lemma code_raw s o h p : allowed o s → New h p ∈ code o → raw s p.
Proof. intros Ha [->| ->]%code_news; apply Ha. Qed.

Section reachable.
Context (new_block : gset Z → Z).
Hypothesis new_block_fresh : ∀ X, new_block X ≠ 0 ∧ new_block X ∉ X.

Lemma goes_on s refs i ins rest : inv s refs → progs s !! i = Some (ins :: rest) →
  goes new_block (handles (sh s)) (blocks (sh s)) (alive (sh s)) (progs s) i ins rest.
Proof using new_block_fresh.
  destruct s as [[hs bs al] ps]. intros Hinv Hi. simpl in *. pose proof (hi_prog _ _ _ (inv_handles _ _ Hinv) i _ Hi) as Hp. simpl in Hp.
  inversion Hp as [|p Ht|h p Hs Ht|b p Ht|b p Ht|h src v Hne E Hsrc Es Hn|h src v Hne E Hsrc Es Hn]; subst.
  - inversion Ht as [h src Hne Hb' Hs|h src Hne Hb' Hs|h p Hb'|h Hb'|h Hb']; subst.
    + by eapply load_block_ok.
    + by eapply load_block_ok.
    + by eapply new_ok.
    + by eapply null_ok.
    + by eapply end_ok.
  - by eapply take_ok.
  - by eapply decr_ok.
  - by eapply delete_ok.
  - by eapply incr_ok.
  - by eapply moved_ok.
Qed.

Lemma start_inv s refs i o : inv s refs → progs s !! i = Some [] → allowed o s → inv (State (sh s) (<[i := code o]> (progs s))) refs.
Proof using.
  intros Hinv Hi Ha. pose proof Hinv as [Hhs Hbs Hos Hc]. split; simpl.
  - apply handles_start; [done|done|intros h; by eapply code_names|by apply code_prog].
  - eapply blocks_same; [exact Hi|exact Hbs|done|]. intros b. apply code_tokens.
  - destruct Hos as [Hal Hj Hr Honce].
    assert (∀ h p, New h p ∈ code o → ∀ j q h', progs s !! j = Some q → New h' p ∈ q → p ≠ 0 → False) as Hnew.
    { intros h p Hn j q h' Hq Hin Hp0. destruct (code_raw s o h p Ha Hn Hp0) as (_ & _ & H). by apply (H j q h'). }
    split; [done|done| |].
    + intros j p h q Hj' Hn Hq. apply list_lookup_insert_Some in Hj' as [(-> & <- & _)|[_ Hj']]; [|by eapply Hr].
      destruct (code_raw s o h q Ha Hn Hq) as (? & ? & _). done.
    + intros j k p p' h h' q Hj' Hk' Hn Hn' Hq.
      apply list_lookup_insert_Some in Hj' as [(-> & <- & _)|[_ Hj']], Hk' as [(-> & <- & _)|[_ Hk']]; [done|..].
      * by destruct (Hnew h q Hn k p' h' Hk' Hn').
      * by destruct (Hnew h' q Hn' j p h Hj' Hn).
      * by eapply Honce.
  - by rewrite length_insert.
Qed.

Lemma new_object_inv s refs p : inv s refs → inv (State (Shared (handles (sh s)) (blocks (sh s)) (alive (sh s) ∪ {[ p ]})) (progs s)) refs.
Proof using.
  intros [Hhs Hbs [Hal Hj Hr Honce] Hc]. split; [done|done| |done]. simpl. split; [|done| |done].
  - intros b x Hb' H0. apply elem_of_union_l. by eapply Hal.
  - intros i q h r Hi Hn H0. destruct (Hr _ _ _ _ Hi Hn H0) as [? ?]. split; [by apply elem_of_union_l|done].
Qed.

Lemma shared_step_inv s s' refs : inv s refs → step new_block s s' → ∃ refs', inv s' refs'.
Proof using new_block_fresh.
  intros Hinv Hst. revert Hinv. destruct Hst as [t i o Hi Ha|t i ins rest more t' Hi E|t p _ _]; intros Hinv.
  - exists refs. by apply start_inv.
  - destruct (goes_on _ _ _ _ _ Hinv Hi) as (more' & t'' & refs' & E' & Hinv'). destruct t as [[hs bs al] ps]. simpl in *.
    rewrite E in E'. injection E' as <- <-. by exists refs'.
  - exists refs. by apply new_object_inv.
Qed.

Lemma shared_init_inv n : (n ≤ 255)%nat → inv (init n) ∅.
Proof using.
  intros Hn. assert (∀ i (p : list instr), replicate n [] !! i = Some p → p = []) as Hnil by (intros i p [-> _]%lookup_replicate; done).
  assert (∀ f : list instr → Z, f [] = 0 → total f (replicate n []) = 0) as Htot by (intros f Hf; clear - Hf; induction n; simpl; lia).
  split; simpl.
  - split; simpl.
    + intros i j p q h ->%Hnil _ []%elem_of_nil.
    + intros i p ->%Hnil. constructor.
    + done.
    + intros i p h ->%Hnil []%elem_of_nil.
    + done.
  - intros b. unfold block_inv. rewrite lookup_empty, !Htot by done. by rewrite cnt_empty.
  - split; [done|done| |].
    + intros i p h q ->%Hnil []%elem_of_nil.
    + intros i j p p' h h' q ->%Hnil _ []%elem_of_nil.
  - rewrite length_replicate. lia.
Qed.

Lemma reachable_inv n s : (n ≤ 255)%nat → rtc (step new_block) (init n) s → ∃ refs, inv s refs.
Proof using new_block_fresh.
  intros Hn Hr. apply (rtc_ind_r (λ s, ∃ refs, inv s refs)) in Hr; [done|exists ∅; by apply shared_init_inv|].
  intros x y _ Hxy [refs Hx]. by eapply shared_step_inv.
Qed.
End reachable.

Lemma cnt_has b refs : 1 ≤ cnt b refs → ∃ h, refs !! h = Some b.
Proof.
  intros Hc. unfold cnt in Hc. destruct (map_choose (filter (λ kv, kv.2 = b) refs)) as (h & v & Hv).
  - intros E. rewrite E, map_size_empty in Hc. lia.
  - apply map_lookup_filter_Some in Hv as [Hv E]. simpl in E. subst v. by exists h.
Qed.

(** What a step does to the objects: the step that frees a block deletes the object it points
    to, no other step deletes an object, and a block that stays points to the same object. *)
Definition deletes_exactly (s s' : shared) : Prop :=
  (∀ b x, blocks s !! b = Some x →
     match blocks s' !! b with
     | Some y => ptr y = ptr x
     | None => ptr x ∉ alive s' ∨ ptr x = 0
     end)
  ∧ (∀ p, p ∈ alive s → p ∉ alive s' → ∃ b x, blocks s !! b = Some x ∧ ptr x = p ∧ p ≠ 0 ∧ blocks s' !! b = None).

Lemma deletes_keep s s' : alive s' = alive s → (∀ b x, blocks s !! b = Some x → ∃ y, blocks s' !! b = Some y ∧ ptr y = ptr x) →
  deletes_exactly s s'.
Proof. intros Ea Hb. split; [|rewrite Ea; done]. intros b x (y & -> & E)%Hb. done. Qed.

Lemma deletes_set_block s b x y : blocks s !! b = Some x → ptr y = ptr x → deletes_exactly s (set_block b y s).
Proof.
  intros Ex E. apply deletes_keep; [done|]. intros c z Hc. simpl. destruct (decide (c = b)) as [->|].
  - rewrite lookup_insert_eq. exists y. split; [done|congruence].
  - rewrite lookup_insert_ne by done. by exists z.
Qed.

Lemma exec_deletes new_block i s more s' : (∀ X, new_block X ∉ X) → exec new_block i s = Ok (more, s') → deletes_exactly s s'.
Proof.
  intros Hnew. assert (deletes_exactly s s) as Hid by (apply deletes_keep; [done|by eauto]).
  assert (∀ hs, deletes_exactly s (Shared hs (blocks s) (alive s))) as Hset by (intros hs; apply deletes_keep; [done|by eauto]).
  destruct i; simpl; repeat case_match; intros; simplify_eq; try done; try apply Hset; try (by eapply deletes_set_block).
  - apply deletes_keep; [done|]. intros c z Hc. simpl. rewrite lookup_insert_ne; [by exists z|]. intros E. apply (Hnew (dom (blocks s))).
    rewrite E. by apply elem_of_dom_2 in Hc.
  - split; [|done]. intros c z Hc. simpl. destruct (decide (c = b)) as [->|]; [|by rewrite lookup_delete_ne, Hc].
    rewrite lookup_delete_eq. right. simplify_eq. lia.
  - split.
    + intros c z Hc. simpl. destruct (decide (c = b)) as [->|]; [|by rewrite lookup_delete_ne, Hc]. rewrite lookup_delete_eq. left.
      simplify_eq. set_solver.
    + simpl. intros o Hin Hn. match goal with E : blocks s !! b = Some ?x |- _ => assert (o = ptr x) as -> by (destruct (decide (o = ptr x)); [done|set_solver]); exists b, x end.
      split_and!; [done|done|by apply Z.eqb_neq|apply lookup_delete_eq].
Qed.

(** C27: shared pointers, for any interleaving of their member functions on up to 255 cores,
    given that a handle is used by one core at a time and an object is handed to one shared
    pointer. No step accesses a block that was freed or deletes an object twice; a handle that
    no core works on is null or gives an object that exists; and when no member function is
    running, the count of a block is the number of handles that point to it, and the blocks
    that exist are exactly those some handle points to: the last handle to go deletes the
    object and its block. *)
Theorem shared_ptr_safe new_block n s :
  (∀ X, new_block X ≠ 0 ∧ new_block X ∉ X) → (n ≤ 255)%nat → rtc (step new_block) (init n) s →
  (∀ i ins rest, progs s !! i = Some (ins :: rest) → ∃ more s', exec new_block ins (sh s) = Ok (more, s'))
  ∧ (∀ h, live s h → ∃ p, get h (sh s) = Ok p ∧ (p ≠ 0 → p ∈ alive (sh s)))
  ∧ (∀ s', step new_block s s' → deletes_exactly (sh s) (sh s'))
  ∧ (Forall (λ p, p = []) (progs s) →
      (∀ h b, handles (sh s) !! h = Some b → b ≠ 0 → use_count h (sh s) = Ok (cnt b (handles (sh s))))
      ∧ ∀ b, is_Some (blocks (sh s) !! b) ↔ b ≠ 0 ∧ ∃ h, handles (sh s) !! h = Some b).
Proof.
  intros Hnew Hn Hr. destruct (reachable_inv new_block Hnew n s Hn Hr) as [refs Hinv].
  assert (inv (State (Shared (handles (sh s)) (blocks (sh s)) (alive (sh s))) (progs s)) refs) as Hinv' by (by destruct s as [[] ]).
  split; [|split; [|split]].
  - intros i ins rest Hi. destruct (goes_on new_block Hnew s refs i ins rest Hinv Hi) as (more & s' & _ & E & _).
    exists more, s'. by destruct (sh s).
  - intros h Hl. destruct (live_settled s refs h Hinv Hl) as [(b & E1 & E2) _]. unfold get. rewrite E1.
    destruct (Z.eqb_spec b 0) as [->|Hb0]; [by exists 0|]. destruct (counted _ _ _ _ _ Hinv' h b E2 Hb0) as (x & Ex & _).
    rewrite Ex. exists (ptr x). split; [done|]. by eapply (oi_alive _ _ _ (inv_objects _ _ Hinv)).
  - intros s' Hst. destruct Hst as [t i o|t i ins rest more t' _ E|t p _ _]; simpl.
    + apply deletes_keep; [done|by eauto].
    + eapply exec_deletes; [apply Hnew|exact E].
    + split; simpl; [intros b x Ex; by rewrite Ex|set_solver].
  - intros Hq. rewrite Forall_lookup in Hq.
    assert (refs = handles (sh s)) as ->.
    { apply map_eq. intros h. symmetry. apply (unused_same s refs h Hinv). intros j q ->%Hq. apply not_elem_of_nil. }
    assert (∀ f : list instr → Z, f [] = 0 → total f (progs s) = 0) as Htot.
    { intros f Hf. clear - Hf Hq. induction (progs s) as [|p l IH]; [done|]. simpl. rewrite (Hq 0%nat p eq_refl), Hf, IH; [done|].
      intros j q Hj. by apply (Hq (S j)). }
    assert (∀ b x, blocks (sh s) !! b = Some x → b ≠ 0 ∧ refcount x = cnt b (handles (sh s)) ∧ 1 ≤ refcount x) as Hcount.
    { intros b x Ex. pose proof (inv_blocks _ _ Hinv b) as H. unfold block_inv in H. rewrite Ex, !Htot in H by done.
      destruct H as (? & ? & Hd). pose proof (cnt_refs_nonneg b (handles (sh s))). destruct (Z.eqb_spec (refcount x) 0); [done|]. lia. }
    split.
    + intros h b E Hb0. unfold use_count. rewrite E, (proj2 (Z.eqb_neq b 0)) by done.
      destruct (counted _ _ _ _ _ Hinv' h b E Hb0) as (x & Ex & _). rewrite Ex. destruct (Hcount b x Ex) as (_ & -> & _). done.
    + intros b. split.
      * intros [x Ex]. destruct (Hcount b x Ex) as (Hb0 & E & H1). split; [done|]. apply cnt_has. lia.
      * intros (Hb0 & h & E). destruct (counted _ _ _ _ _ Hinv' h b E Hb0) as (x & Ex & _). by exists x.
Qed.

(** One core makes an object, a shared pointer to it and a copy, and drops the first. *)
Definition demo_block (X : gset Z) : Z := if decide (4096 ∈ X) then fresh (X ∪ {[0]}) else 4096.

Lemma demo_block_fresh X : demo_block X ≠ 0 ∧ demo_block X ∉ X.
Proof.
  unfold demo_block. destruct (decide (4096 ∈ X)); [|done]. pose proof (is_fresh (X ∪ {[0]})) as H. set_solver.
Qed.

(** The calls [os] of one core, one after the other, after [new] of object 7. *)
Fixpoint run_steps (fuel : nat) (p : list instr) (s : shared) : res shared :=
  match p with
  | [] => Ok s
  | i :: p => match fuel with
              | O => NoFuel
              | S fuel => '(more, s) ← exec demo_block i s; run_steps fuel (more ++ p) s
              end
  end.

Lemma run_steps_reach fuel p s s' : run_steps fuel p s = Ok s' → rtc (step demo_block) (State s [p]) (State s' [[]]).
Proof.
  revert p s. induction fuel as [|fuel IH]; intros [|i p] s; simpl; try done; try (intros [= ->]; apply rtc_refl).
  intros ([more s1] & E & Hr)%bind_Ok_inv. eapply rtc_l; [|by apply IH]. by apply (step_exec demo_block (State s [i :: p]) 0%nat i p).
Qed.

Lemma call_reach fuel o s s' : allowed o (State s [[]]) → run_steps fuel (code o) s = Ok s' → rtc (step demo_block) (State s [[]]) (State s' [[]]).
Proof.
  intros Ha Hr. eapply rtc_l; [|by eapply run_steps_reach]. by apply (step_start demo_block (State s [[]]) 0%nat o).
Qed.

Lemma one_idle (s : shared) h : unused (State s [[]]) h.
Proof. intros [|j] q; simpl; [intros [= <-]; apply not_elem_of_nil|done]. Qed.

Lemma shared_ptr_safe_witness : ∃ s, rtc (step demo_block) (init 1) (State s [[]])
  ∧ use_count 1 s = Ok 1 ∧ get 1 s = Ok 7 ∧ handles s !! 0 = None.
Proof.
  set (s0 := Shared ∅ ∅ (∅ ∪ {[ 7 ]})). set (s1 := Shared {[ 0 := 4096 ]} {[ 4096 := Block 7 1 ]} (∅ ∪ {[ 7 ]})).
  set (s2 := Shared {[ 0 := 4096; 1 := 4096 ]} {[ 4096 := Block 7 2 ]} (∅ ∪ {[ 7 ]})).
  set (s3 := Shared {[ 1 := 4096 ]} {[ 4096 := Block 7 1 ]} (∅ ∪ {[ 7 ]})).
  assert (rtc (step demo_block) (init 1) (State s3 [[]])) as Hr.
  { eapply rtc_l; [apply (step_new demo_block (init 1) 7); [done|apply not_elem_of_empty]|].
    transitivity (State s1 [[]]); [|transitivity (State s2 [[]])].
    - apply (call_reach 9 (Ctor 0 7)); [|vm_compute; reflexivity]. split; [split; [apply one_idle|done]|]. intros _.
      split; [by apply elem_of_union_r, elem_of_singleton|]. split; [done|]. intros [|j] q h; [|done]. intros [= <-]. apply not_elem_of_nil.
    - apply (call_reach 9 (Copy 1 0)); [|vm_compute; reflexivity].
      split; [split; [apply one_idle|split; [vm_compute; reflexivity|lia]]|split; [apply one_idle|by exists 4096]].
    - apply (call_reach 9 (Destroy 0)); [|vm_compute; reflexivity]. split; [apply one_idle|by exists 4096]. }
  destruct (shared_ptr_safe demo_block 1 (State s3 [[]]) demo_block_fresh ltac:(lia) Hr) as (_ & _ & _ & Hq).
  destruct Hq as [Hu _]; [by repeat constructor|]. exists s3. split; [exact Hr|].
  split; [|split; vm_compute; reflexivity]. transitivity (Ok (cnt 4096 (handles s3))); [|vm_compute; reflexivity].
  apply (Hu 1 4096); [vm_compute; reflexivity|discriminate].
Defined.
