(* ===== verification/Crc32.v ===== *)
(** Checksums: kernel/include/crc32.hpp. *)
From S2P Require Import Prelude Memory.

Definition polynomial : Z := 0xEDB88320.

(** One turn of the inner loop of [generate_crc32_table]. *)
Definition crc_bit (c : Z) : Z := if negb (Z.land c 1 =? 0) then Z.lxor polynomial (Z.shiftr c 1) else Z.shiftr c 1.
Fixpoint crc_bits (n : nat) (c : Z) : Z := match n with O => c | S n => crc_bits n (crc_bit c) end.
Definition generate_crc32_table : list Z := crc_bits 8 <$> seqZ 0 256.
Definition crc32_table : list Z := generate_crc32_table.

Fixpoint calc_loop (n : nat) (m : ram) (u c : Z) : res Z :=
  match n with
  | O => Ok c
  | S n =>
      let i := Z.land (Z.lxor c (m u)) 0xFF in
      match crc32_table !! Z.to_nat i with
      | None => Fault i
      | Some t => calc_loop n m (u + 1) (Z.lxor t (Z.shiftr c 8))
      end
  end.
Definition calc (m : ram) (buf len initial : Z) : res Z :=
  c ← calc_loop (Z.to_nat len) m buf (Z.lxor initial 0xFFFFFFFF); Ok (Z.lxor c 0xFFFFFFFF).

(** ** The register, bit by bit *)

(** A division step of the shift register: the next bit of the message goes in at the low
    end, and the polynomial is subtracted when a 1 goes out. *)
Definition shift_in (c : Z) (b : bool) : Z := if xorb (Z.odd c) b then Z.lxor (Z.shiftr c 1) polynomial else Z.shiftr c 1.
(** The bits of a byte, the low one first. *)
Definition bits_of (u : Z) : list bool := Z.testbit u <$> seqZ 0 8.
Definition remainder (bytes : list Z) (c : Z) : Z := foldl shift_in c (bytes ≫= bits_of).

Definition word (c : Z) : Prop := 0 ≤ c < 2 ^ 32.
Definition bytes_at (m : ram) (a n : Z) : list Z := m <$> seqZ a n.

Lemma land_1 c : negb (Z.land c 1 =? 0) = Z.odd c.
Proof. change 1 with (Z.ones 1). rewrite Z.land_ones, Zmod_odd by lia. by destruct (Z.odd c). Qed.

Lemma crc_bit_eq c : crc_bit c = Z.lxor (Z.shiftr c 1) (if Z.odd c then polynomial else 0).
Proof. unfold crc_bit. rewrite land_1. destruct (Z.odd c); [apply Z.lxor_comm|by rewrite Z.lxor_0_r]. Qed.

Lemma odd_lxor a b : Z.odd (Z.lxor a b) = xorb (Z.odd a) (Z.odd b).
Proof. by rewrite <- !Z.bit0_odd, Z.lxor_spec. Qed.

Lemma crc_bit_lxor a b : crc_bit (Z.lxor a b) = Z.lxor (crc_bit a) (crc_bit b).
Proof.
  rewrite !crc_bit_eq, Z.shiftr_lxor, odd_lxor. apply Z.bits_inj'. intros n Hn. rewrite !Z.lxor_spec.
  destruct (Z.odd a), (Z.odd b), (Z.testbit (Z.shiftr a 1) n), (Z.testbit (Z.shiftr b 1) n), (Z.testbit polynomial n) eqn:E;
    simpl; rewrite ?E, ?Z.bits_0; done.
Qed.

Lemma crc_bits_lxor n a b : crc_bits n (Z.lxor a b) = Z.lxor (crc_bits n a) (crc_bits n b).
Proof. revert a b. induction n as [|n IH]; intros a b; simpl; [done|]. by rewrite crc_bit_lxor, IH. Qed.

Lemma crc_bits_add n k c : crc_bits (n + k) c = crc_bits k (crc_bits n c).
Proof. revert c. induction n as [|n IH]; intros c; simpl; [done|apply IH]. Qed.

Lemma crc_bit_double x : crc_bit (2 * x) = x.
Proof.
  rewrite crc_bit_eq. replace (Z.odd (2 * x)) with false by (by rewrite Z.odd_even).
  rewrite Z.lxor_0_r, Z.shiftr_div_pow2 by lia. change (2 ^ 1) with 2. rewrite Z.mul_comm. by apply Z.div_mul.
Qed.

Lemma crc_bits_shift n x : crc_bits n (2 ^ Z.of_nat n * x) = x.
Proof.
  revert x. induction n as [|n IH]; intros x; [by rewrite Z.mul_1_l|].
  rewrite Nat2Z.inj_succ, Z.pow_succ_r by lia. cbn [crc_bits]. rewrite <- Z.mul_assoc, crc_bit_double. apply IH.
Qed.

Lemma lxor_word a b : word a → word b → word (Z.lxor a b).
Proof.
  unfold word. intros Ha Hb. assert (0 ≤ Z.lxor a b) by (apply Z.lxor_nonneg; lia).
  split; [done|]. apply Z.bounded_iff_bits_nonneg; [lia..|]. intros l Hl.
  rewrite Z.lxor_spec, (testbit_high 32 a), (testbit_high 32 b) by lia. done.
Qed.

Lemma crc_bit_word c : word c → word (crc_bit c).
Proof.
  intros Hc. rewrite crc_bit_eq. apply lxor_word.
  - unfold word in *. rewrite Z.shiftr_div_pow2 by lia. dlia.
  - destruct (Z.odd c); split; vm_compute; congruence.
Qed.

Lemma crc_bits_word n c : word c → word (crc_bits n c).
Proof. revert c. induction n as [|n IH]; intros c Hc; [done|]. by apply IH, crc_bit_word. Qed.

(** A 1 that goes out sets the top bit: the step loses nothing. *)
Lemma crc_bit_zero c : word c → crc_bit c = 0 → c = 0.
Proof.
  intros Hc E. rewrite crc_bit_eq in E. unfold word in Hc. destruct (Z.odd c) eqn:Eo.
  - assert (Z.testbit (Z.lxor (Z.shiftr c 1) polynomial) 31 = true) as Hb.
    { rewrite Z.lxor_spec, Z.shiftr_spec, (testbit_high 32 c) by lia. done. }
    rewrite E in Hb. by rewrite Z.bits_0 in Hb.
  - rewrite Z.lxor_0_r, Z.shiftr_div_pow2 in E by lia. pose proof (Zmod_odd c) as Hm. rewrite Eo in Hm. dlia.
Qed.

Lemma crc_bits_zero n c : word c → crc_bits n c = 0 → c = 0.
Proof. revert c. induction n as [|n IH]; intros c Hc E; [done|]. apply crc_bit_zero; [done|]. apply IH; [by apply crc_bit_word|done]. Qed.

Lemma crc_bits_inj n a b : word a → word b → crc_bits n a = crc_bits n b → a = b.
Proof.
  intros Ha Hb E. apply Z.lxor_eq. apply (crc_bits_zero n); [by apply lxor_word|]. rewrite crc_bits_lxor, E. apply Z.lxor_nilpotent.
Qed.

(** ** A byte at a time *)

Definition byte_step (c u : Z) : Z := crc_bits 8 (Z.lxor c u).
Definition byte (u : Z) : Prop := 0 ≤ u < 256.

Lemma byte_word u : byte u → word u.
Proof. unfold byte, word. lia. Qed.

Lemma table_entry i : 0 ≤ i < 256 → crc32_table !! Z.to_nat i = Some (crc_bits 8 i).
Proof.
  intros Hi. unfold crc32_table, generate_crc32_table. rewrite list_lookup_fmap.
  rewrite (proj2 (lookup_seqZ 0 256 (Z.to_nat i) i)) by lia. done.
Qed.

Lemma table_step c u : word c → byte u →
  ∃ t, crc32_table !! Z.to_nat (Z.land (Z.lxor c u) 0xFF) = Some t ∧ Z.lxor t (Z.shiftr c 8) = byte_step c u.
Proof.
  intros Hc Hu. unfold word, byte in *. change 0xFF with (2 ^ 8 - 1). rewrite land_mask by lia. set (x := Z.lxor c u).
  assert (Z.shiftr x 8 = Z.shiftr c 8) as Es.
  { unfold x. rewrite Z.shiftr_lxor, (Z.shiftr_div_pow2 u), (Z.div_small u) by lia. apply Z.lxor_0_r. }
  exists (crc_bits 8 (x mod 2 ^ 8)). split; [apply table_entry; apply Z.mod_pos_bound; lia|].
  unfold byte_step. fold x. rewrite <- (crc_bits_shift 8 (Z.shiftr c 8)), <- crc_bits_lxor. f_equal.
  rewrite <- Es. apply Z.bits_inj'. intros n Hn. change (2 ^ Z.of_nat 8) with (2 ^ 8). rewrite Z.lxor_spec, Z.mul_comm.
  destruct (decide (n < 8)).
  - rewrite Z.mod_pow2_bits_low, Z.mul_pow2_bits_low by lia. apply xorb_false_r.
  - rewrite Z.mod_pow2_bits_high, <- Z.shiftl_mul_pow2, Z.shiftl_spec, Z.shiftr_spec by lia. simpl. f_equal. lia.
Qed.

Lemma calc_loop_ok n m u c : word c → (∀ a, u ≤ a < u + Z.of_nat n → byte (m a)) →
  calc_loop n m u c = Ok (foldl byte_step c (bytes_at m u (Z.of_nat n))).
Proof.
  revert u c. induction n as [|n IH]; intros u c Hc Hm; [done|].
  destruct (table_step c (m u) Hc) as (t & E & Et); [apply Hm; lia|]. cbn [calc_loop]. rewrite E, Et.
  unfold bytes_at. rewrite seqZ_cons by lia. simpl. rewrite IH.
  - unfold bytes_at. do 3 f_equal; try lia. f_equal; lia.
  - apply crc_bits_word, lxor_word; [done|]. apply byte_word, Hm. lia.
  - intros a Ha. apply Hm. lia.
Qed.

Lemma shift_in_bit c b : shift_in c b = crc_bit (Z.lxor c (Z.b2z b)).
Proof.
  unfold shift_in. rewrite crc_bit_eq, Z.shiftr_lxor, odd_lxor. destruct b; simpl; rewrite Z.lxor_0_r;
    destruct (Z.odd c); simpl; rewrite ?Z.lxor_0_r; done.
Qed.

Lemma shift_in_bits n c v : 0 ≤ v < 2 ^ Z.of_nat n → foldl shift_in c (Z.testbit v <$> seqZ 0 (Z.of_nat n)) = crc_bits n (Z.lxor c v).
Proof.
  revert c v. induction n as [|n IH]; intros c v Hv.
  - assert (v = 0) as -> by (change (2 ^ Z.of_nat 0) with 1 in Hv; lia). by rewrite Z.lxor_0_r.
  - rewrite seqZ_cons by lia. rewrite Nat2Z.inj_succ, Z.pow_succ_r in Hv by lia.
    replace (Z.pred (Z.of_nat (S n))) with (Z.of_nat n) by lia. rewrite fmap_cons. cbn [foldl crc_bits].
    assert (Z.testbit v <$> seqZ (Z.succ 0) (Z.of_nat n) = Z.testbit (Z.div2 v) <$> seqZ 0 (Z.of_nat n)) as ->.
    { change (Z.succ 0) with (1 + 0). rewrite <- fmap_add_seqZ, <- list_fmap_compose. apply list_fmap_ext. intros i k Hk.
      apply lookup_seqZ in Hk. unfold compose. rewrite Z.div2_div, Z.div2_bits by lia. f_equal. lia. }
    pose proof (Z.div2_odd v) as Ev. rewrite IH by (destruct (Z.odd v); simpl in Ev; lia).
    rewrite shift_in_bit, Z.bit0_odd. f_equal. rewrite <- (crc_bit_double (Z.div2 v)) at 1. rewrite <- crc_bit_lxor. f_equal.
    rewrite Z.lxor_assoc. f_equal. destruct (Z.odd v); simpl in *; [|rewrite Z.lxor_0_l; lia].
    rewrite Z.lxor_comm, <- Z.add_nocarry_lxor; [lia|]. apply Z.bits_inj'. intros k Hk. rewrite Z.land_spec, Z.bits_0.
    destruct (decide (k = 0)) as [->|]; [by rewrite Z.testbit_even_0|]. rewrite (testbit_high 1 1) by lia. apply andb_false_r.
Qed.

Lemma remainder_bytes l c : Forall byte l → remainder l c = foldl byte_step c l.
Proof.
  unfold remainder. revert c. induction l as [|u l IH]; intros c Hl; [done|]. apply Forall_cons in Hl as [Hu Hl].
  rewrite bind_cons, foldl_app. pose proof (shift_in_bits 8 c u Hu) as E. change (Z.of_nat 8) with 8 in E.
  fold (bits_of u) in E. rewrite E. by apply IH.
Qed.

(** ** Bursts *)

Lemma steps_word l c : Forall byte l → word c → word (foldl byte_step c l).
Proof.
  revert c. induction l as [|u l IH]; intros c Hl Hc; [done|]. apply Forall_cons in Hl as [Hu Hl]. simpl. apply IH; [done|].
  apply crc_bits_word, lxor_word; [done|by apply byte_word].
Qed.

Lemma steps_inj l a b : Forall byte l → word a → word b → foldl byte_step a l = foldl byte_step b l → a = b.
Proof.
  revert a b. induction l as [|u l IH]; intros a b Hl Ha Hb E; [done|]. apply Forall_cons in Hl as [Hu Hl]. simpl in E.
  assert (∀ c, word c → word (byte_step c u)) as Hw by (intros c Hc; apply crc_bits_word, lxor_word; [done|by apply byte_word]).
  apply IH in E; [|done|by apply Hw|by apply Hw]. apply crc_bits_inj in E; [|by apply lxor_word; [|apply byte_word]..].
  apply Z.lxor_eq. apply (f_equal (λ x, Z.lxor x (Z.lxor b u))) in E. rewrite Z.lxor_nilpotent in E. rewrite <- E.
  apply Z.bits_inj'. intros n Hn. rewrite !Z.lxor_spec. by destruct (Z.testbit a n), (Z.testbit b n), (Z.testbit u n).
Qed.

Definition le (l : list Z) : Z := foldr (λ u a, u + 256 * a) 0 l.

Lemma le_range l : Forall byte l → 0 ≤ le l < 2 ^ (8 * Z.of_nat (length l)).
Proof.
  induction l as [|u l IH]; intros Hl; [done|]. apply Forall_cons in Hl as [Hu Hl]. unfold byte in Hu. specialize (IH Hl). simpl length.
  replace (8 * Z.of_nat (S (length l))) with (8 + 8 * Z.of_nat (length l)) by lia. rewrite Z.pow_add_r by lia. simpl. lia.
Qed.

Lemma le_inj l l' : Forall byte l → Forall byte l' → length l = length l' → le l = le l' → l = l'.
Proof.
  revert l'. induction l as [|u l IH]; intros [|u' l'] Hl Hl' Hlen E; simpl in *; try lia; [done|].
  apply Forall_cons in Hl as [Hu Hl], Hl' as [Hu' Hl']. unfold byte in *.
  assert (u = u') as -> by lia. f_equal. apply IH; [done|done|lia|lia].
Qed.

Lemma steps_le l c : Forall byte l → foldl byte_step c l = crc_bits (8 * length l) (Z.lxor c (le l)).
Proof.
  revert c. induction l as [|u l IH]; intros c Hl; [by rewrite Z.lxor_0_r|]. apply Forall_cons in Hl as [Hu Hl].
  cbn [foldl length]. change (le (u :: l)) with (u + 256 * le l). rewrite IH by done.
  replace (8 * S (length l))%nat with (8 + 8 * length l)%nat by lia. rewrite crc_bits_add. f_equal. unfold byte_step.
  rewrite <- (crc_bits_shift 8 (le l)) at 1. rewrite <- crc_bits_lxor. f_equal. rewrite Z.lxor_assoc. f_equal.
  change (2 ^ Z.of_nat 8) with (2 ^ 8). unfold byte in Hu. replace (u + 256 * le l) with (2 ^ 8 * le l + u) by lia.
  rewrite <- (lor_low (le l) u 8) by lia.
  apply Z.bits_inj'. intros n Hn. rewrite Z.lxor_spec, Z.lor_spec, (Z.mul_comm (2 ^ 8)).
  destruct (decide (n < 8)); [rewrite Z.mul_pow2_bits_low by lia; by destruct (Z.testbit u n)|].
  rewrite (testbit_high 8 u) by lia. by destruct (Z.testbit (le l * 2 ^ 8) n).
Qed.

Lemma init_word initial : word initial → word (Z.lxor initial 0xFFFFFFFF).
Proof. intros H. apply lxor_word; [done|]. split; vm_compute; congruence. Qed.

Lemma calc_ok m a n initial : word initial → 0 ≤ n → (∀ i, a ≤ i < a + n → byte (m i)) →
  calc m a n initial = Ok (Z.lxor (foldl byte_step (Z.lxor initial 0xFFFFFFFF) (bytes_at m a n)) 0xFFFFFFFF).
Proof.
  intros Hi Hn Hm. unfold calc. rewrite calc_loop_ok; [|by apply init_word|intros i ?; apply Hm; lia]. by rewrite Z2Nat.id by lia.
Qed.

Lemma bytes_at_byte m a n : (∀ i, a ≤ i < a + n → byte (m i)) → Forall byte (bytes_at m a n).
Proof. intros Hm. apply Forall_fmap, Forall_forall. intros i Hi. apply elem_of_seqZ in Hi. apply Hm. lia. Qed.

Lemma bytes_at_app m a n k : 0 ≤ n → 0 ≤ k → bytes_at m a (n + k) = bytes_at m a n ++ bytes_at m (a + n) k.
Proof. intros Hn Hk. unfold bytes_at. by rewrite seqZ_app, fmap_app. Qed.

Lemma lxor_twice a b : Z.lxor (Z.lxor a b) b = a.
Proof. by rewrite Z.lxor_assoc, Z.lxor_nilpotent, Z.lxor_0_r. Qed.

(** C33: [calc] over a table of 256 entries is the CRC. It equals the remainder of the division
    of the message by the polynomial, done bit by bit in a shift register; it can be continued
    from the checksum of a first part; and it detects any error confined to four
    consecutive bytes: two messages that differ there and nowhere else have different checksums. *)
Theorem crc_exact m m' a n initial :
  word initial → 0 ≤ n → (∀ i, a ≤ i < a + n → byte (m i) ∧ byte (m' i)) →
  calc m a n initial = Ok (Z.lxor (remainder (bytes_at m a n) (Z.lxor initial 0xFFFFFFFF)) 0xFFFFFFFF)
  ∧ (∀ k, 0 ≤ k ≤ n → (c ← calc m a k initial; calc m (a + k) (n - k) c) = calc m a n initial)
  ∧ ∀ e, a ≤ e → e + 4 ≤ a + n → (∀ i, a ≤ i < a + n → ¬ e ≤ i < e + 4 → m i = m' i) →
      (∃ i, e ≤ i < e + 4 ∧ m i ≠ m' i) → calc m a n initial ≠ calc m' a n initial.
Proof.
  intros Hi Hn Hm. assert (∀ i, a ≤ i < a + n → byte (m i)) as Hm1 by (intros i ?; by apply Hm).
  assert (∀ i, a ≤ i < a + n → byte (m' i)) as Hm2 by (intros i ?; by apply Hm).
  pose proof (init_word _ Hi) as Hc. split; [|split].
  - rewrite calc_ok by done. by rewrite remainder_bytes by by apply bytes_at_byte.
  - intros k Hk. rewrite (calc_ok m a k) by (done || lia || (intros i ?; apply Hm1; lia)). rewrite bind_Ok.
    assert (Forall byte (bytes_at m a k)) as Hf by (apply bytes_at_byte; intros i ?; apply Hm1; lia).
    rewrite calc_ok, (calc_ok m a n) by (done || lia || (by apply init_word, steps_word) || (intros i ?; apply Hm1; lia)).
    rewrite lxor_twice. replace n with (k + (n - k)) at 2 by lia. by rewrite bytes_at_app, foldl_app by lia.
  - intros e He1 He2 Hsame (i0 & Hi0 & Hne). rewrite !calc_ok by done. intros [= E].
    apply (f_equal (λ x, Z.lxor x 0xFFFFFFFF)) in E. rewrite !lxor_twice in E.
    replace n with ((e - a) + (4 + (a + n - e - 4))) in E by lia. rewrite !bytes_at_app, !foldl_app in E by lia.
    replace (a + (e - a)) with e in E by lia.
    assert (∀ b k, a ≤ b → b + k ≤ a + n → (∀ i, b ≤ i < b + k → ¬ e ≤ i < e + 4) → bytes_at m b k = bytes_at m' b k) as Heq.
    { intros b k H1 H2 H3. apply list_fmap_ext. intros j x Hx. apply lookup_seqZ in Hx. apply Hsame; [lia|apply H3; lia]. }
    assert (∀ f b k, f = m ∨ f = m' → a ≤ b → b + k ≤ a + n → Forall byte (bytes_at f b k)) as HF.
    { intros f b k [->| ->] H1 H2; apply bytes_at_byte; intros i ?; [apply Hm1|apply Hm2]; lia. }
    rewrite <- (Heq a (e - a)), <- (Heq (e + 4) (a + n - e - 4)) in E by lia.
    set (c := foldl byte_step _ (bytes_at m a (e - a))) in E.
    assert (word c) as Hcw by (apply steps_word; [apply HF; [by left|lia..]|done]).
    apply steps_inj in E; [|apply HF; [by left|lia..]|apply steps_word; [apply HF; [by left|lia..]|done]|apply steps_word; [apply HF; [by right|lia..]|done]].
    rewrite !steps_le in E by (apply HF; [tauto|lia..]).
    assert (∀ f, length (bytes_at f e 4) = 4%nat) as Hlen by (intros f; unfold bytes_at; by rewrite length_fmap, length_seqZ).
    assert (∀ f, f = m ∨ f = m' → word (le (bytes_at f e 4))) as Hle.
    { intros f Hf. pose proof (le_range (bytes_at f e 4) (HF f e 4 Hf ltac:(lia) ltac:(lia))) as Hr. by rewrite Hlen in Hr. }
    rewrite !Hlen in E. apply crc_bits_inj in E; [|apply lxor_word; [done|apply Hle; tauto]..].
    apply (f_equal (Z.lxor c)) in E. rewrite <- !Z.lxor_assoc, Z.lxor_nilpotent, !Z.lxor_0_l in E.
    apply le_inj in E; [|apply HF; [tauto|lia..]..|by rewrite !Hlen]. apply Hne.
    apply (f_equal (.!! Z.to_nat (i0 - e))) in E. unfold bytes_at in E. rewrite !list_lookup_fmap in E.
    rewrite (proj2 (lookup_seqZ e 4 (Z.to_nat (i0 - e)) i0)) in E by lia. by injection E.
Qed.

(** The standard test message, and the same with its fifth byte changed. *)
Definition digits : ram := λ i, 49 + i mod 9.
Definition damaged : ram := λ i, if i =? 4 then 54 else 49 + i mod 9.

Lemma crc_exact_witness : calc digits 0 9 0 = Ok 0xCBF43926 ∧ calc digits 0 9 0 ≠ calc damaged 0 9 0.
Proof.
  split; [vm_compute; reflexivity|].
  destruct (crc_exact digits damaged 0 9 0) as (_ & _ & H).
  - split; vm_compute; congruence.
  - lia.
  - intros i _. unfold digits, damaged, byte. split; [|destruct (i =? 4)]; dlia.
  - apply (H 2); [lia|lia| |].
    + intros i _ Hi. unfold digits, damaged. rewrite (proj2 (Z.eqb_neq i 4)) by lia. reflexivity.
    + exists 4. split; [lia|]. unfold digits, damaged. simpl. discriminate.
Defined.
