(* ===== verification/Atexit.v ===== *)
(** Destructors at exit: kernel/src/icxxabi.cpp, kernel/include/icxxabi.hpp.

    A registered function is any code: [eff] gives its effect on the table, as it may register
    other functions while it runs. The calls made are kept in a log. *)
From S2P Require Import Prelude.

Definition ATEXIT_MAX_FUNCS : Z := 128.
Record atexit_func_entry_t := Entry { destructor_func : Z; obj_ptr : Z; dso_handle : Z }.
#[export] Instance entry_eq_dec : EqDecision atexit_func_entry_t.
Proof. solve_decision. Defined.
Definition cleared (e : atexit_func_entry_t) : atexit_func_entry_t := Entry 0 0 (dso_handle e).

(** [log] is the calls so far, each function with its object. *)
Record table := Table { funcs : list atexit_func_entry_t; func_count : Z; log : list (Z * Z) }.
Definition with_funcs (l : list atexit_func_entry_t) (s : table) : table := Table l (func_count s) (log s).
Definition with_count (n : Z) (s : table) : table := Table (funcs s) n (log s).
Definition logged (f o : Z) (s : table) : table := Table (funcs s) (func_count s) (log s ++ [(f, o)]).

Definition start : table := Table (replicate 128 (Entry 0 0 0)) 0 [].

Definition __cxa_atexit (f objptr dso : Z) (s : table) : res (Z * table) :=
  if ATEXIT_MAX_FUNCS <=? func_count s then Ok (-1, s)
  else if bool_decide (Z.to_nat (func_count s) < length (funcs s))%nat then
    Ok (0, Table (<[Z.to_nat (func_count s) := Entry f objptr dso]> (funcs s)) (u32 (func_count s + 1)) (log s))
  else Fault (func_count s).

Section finalize.
Context (eff : Z → Z → table → table).

Definition call (f o : Z) (s : table) : table := eff f o (logged f o s).

(** while (i--), for the null argument. *)
Fixpoint call_all (n : nat) (s : table) : res table :=
  match n with
  | O => Ok s
  | S i =>
      match funcs s !! i with
      | None => Fault (Z.of_nat i)
      | Some e =>
          let s := with_funcs (<[i := cleared e]> (funcs s)) s in
          call_all i (if destructor_func e =? 0 then s else call (destructor_func e) (obj_ptr e) s)
      end
  end.

Fixpoint call_matching (f : Z) (n : nat) (s : table) : res table :=
  match n with
  | O => Ok s
  | S j =>
      match funcs s !! j with
      | None => Fault (Z.of_nat j)
      | Some e =>
          if destructor_func e =? f then
            call_matching f j (call f (obj_ptr e) (with_funcs (<[j := cleared e]> (funcs s)) s))
          else call_matching f j s
      end
  end.

(** The entries that are left move to the front. *)
Fixpoint compact (n : nat) (r w : nat) (l : list atexit_func_entry_t) : res (nat * list atexit_func_entry_t) :=
  match n with
  | O => Ok (w, l)
  | S n =>
      match l !! r with
      | None => Fault (Z.of_nat r)
      | Some e =>
          if negb (destructor_func e =? 0) then compact n (S r) (S w) (if negb (w =? r)%nat then <[w := e]> l else l)
          else compact n (S r) w l
      end
  end.

Definition __cxa_finalize (f : Z) (s : table) : res table :=
  if f =? 0 then
    s ← call_all (Z.to_nat (func_count s)) s;
    Ok (with_count 0 s)
  else
    s ← call_matching f (Z.to_nat (func_count s)) s;
    '(w, l) ← compact (Z.to_nat (func_count s)) 0 0 (funcs s);
    Ok (with_count (Z.of_nat w) (with_funcs l s)).
End finalize.

(** ** The registered functions *)

Definition content (s : table) : list atexit_func_entry_t := take (Z.to_nat (func_count s)) (funcs s).
Definition nonnull (e : atexit_func_entry_t) : Prop := destructor_func e ≠ 0.
Definition table_ok (s : table) : Prop := length (funcs s) = 128%nat ∧ 0 ≤ func_count s ≤ 128.
Definition pair_of (e : atexit_func_entry_t) : Z * Z := (destructor_func e, obj_ptr e).

(** From [s] to [s'] the functions [new] have been registered, in this order, as far as there
    was room for them, and nothing else. *)
Definition room (s : table) : nat := 128 - length (content s).
Definition grows (new : list atexit_func_entry_t) (s s' : table) : Prop :=
  table_ok s' ∧ log s' = log s ∧ content s' = content s ++ take (room s) new ∧ Forall nonnull new.

Lemma content_length s : table_ok s → length (content s) = Z.to_nat (func_count s).
Proof. intros [H1 H2]. unfold content. rewrite length_take. lia. Qed.

Lemma content_lookup s i e : content s !! i = Some e → funcs s !! i = Some e ∧ (i < Z.to_nat (func_count s))%nat.
Proof. intros H%lookup_take_Some. done. Qed.

Lemma content_set s i e : table_ok s → content (with_funcs (<[i := e]> (funcs s)) s) = <[i := e]> (content s).
Proof.
  intros _. unfold content. simpl. destruct (decide (i < Z.to_nat (func_count s))%nat).
  - by rewrite take_insert_lt.
  - rewrite take_insert_ge by lia. rewrite list_insert_ge; [done|]. rewrite length_take. lia.
Qed.

Section calls.
Context (eff : Z → Z → table → table) (adds : Z → Z → list atexit_func_entry_t).
Hypothesis eff_grows : ∀ f o s, table_ok s → grows (adds f o) s (eff f o s).

Lemma call_grows f o s : table_ok s →
  table_ok (call eff f o s) ∧ log (call eff f o s) = log s ++ [(f, o)] ∧ content (call eff f o s) = content s ++ take (room s) (adds f o)
  ∧ Forall nonnull (adds f o).
Proof using eff_grows. intros Hs. destruct (eff_grows f o (logged f o s)) as (H1 & H2 & H3); [exact Hs|]. done. Qed.

(** What the functions of the entries [l] register when they are called from the last to the
    first. *)
Definition added (l : list atexit_func_entry_t) : list atexit_func_entry_t :=
  reverse l ≫= λ e, adds (destructor_func e) (obj_ptr e).

Lemma added_snoc l e : added (l ++ [e]) = adds (destructor_func e) (obj_ptr e) ++ added l.
Proof using. unfold added. by rewrite reverse_snoc. Qed.

Lemma added_nonnull l : Forall nonnull (added l).
Proof using eff_grows.
  apply Forall_bind, Forall_true. intros e.
  destruct (eff_grows (destructor_func e) (obj_ptr e) start) as (_ & _ & _ & H); [split; [reflexivity|simpl; lia]|exact H].
Qed.

(** Registering [a] and then [b]. *)
Lemma room_app s s' a b : content s' = content s ++ take (room s) a →
  take (room s) a ++ take (room s') b = take (room s) (a ++ b).
Proof using.
  intros E. rewrite take_app. f_equal. f_equal. unfold room. rewrite E, length_app, length_take. unfold room. lia.
Qed.

Lemma content_at s l e rest : content s = l ++ e :: rest → funcs s !! length l = Some e.
Proof using. intros E. apply content_lookup. by rewrite E, list_lookup_middle. Qed.

Lemma clear_entry_ok s l e rest : table_ok s → content s = l ++ e :: rest →
  table_ok (with_funcs (<[length l := cleared e]> (funcs s)) s)
  ∧ content (with_funcs (<[length l := cleared e]> (funcs s)) s) = l ++ cleared e :: rest.
Proof using.
  intros Hs E. split; [|by rewrite content_set, E, insert_app_r_alt, Nat.sub_diag by (done || lia)]. destruct Hs. split; simpl; [by rewrite length_insert|done].
Qed.

(** The functions of the entries [l] are called from the last to the first and their entries
    cleared; what they register comes behind. *)
Lemma call_all_ok l rest s : table_ok s → content s = l ++ rest → Forall nonnull l →
  ∃ s' new, call_all eff (length l) s = Ok s' ∧ table_ok s' ∧ log s' = log s ++ reverse (pair_of <$> l)
    ∧ content s' = (cleared <$> l) ++ rest ++ new.
Proof using eff_grows.
  revert rest s. induction l as [|e l IH] using rev_ind; intros rest s Hs E Hl.
  - exists s, []. split; [done|]. split; [done|]. split; [by rewrite app_nil_r|by rewrite E, app_nil_r].
  - apply Forall_app in Hl as [Hl [He _]%Forall_cons]. rewrite <- app_assoc in E. simpl in E.
    rewrite length_app, Nat.add_comm. simpl. rewrite (content_at s l e rest E), (proj2 (Z.eqb_neq (destructor_func e) 0) He).
    destruct (clear_entry_ok s l e rest Hs E) as [Hs1 E1]. set (s1 := with_funcs _ s) in *.
    destruct (call_grows (destructor_func e) (obj_ptr e) s1 Hs1) as (Hs2 & L2 & E2 & _). set (new := take _ _) in E2.
    rewrite E1, <- app_assoc in E2. destruct (IH _ _ Hs2 E2 Hl) as (s' & new' & -> & Hs' & L' & E'). exists s', (new ++ new').
    split; [done|]. split; [done|]. rewrite L', L2, E', !fmap_app, reverse_app. split; [by rewrite <- app_assoc|]. simpl. by rewrite <- !app_assoc.
Qed.

Definition drop_f (f : Z) (e : atexit_func_entry_t) : atexit_func_entry_t := if destructor_func e =? f then cleared e else e.

Lemma call_matching_ok f l rest s : table_ok s → content s = l ++ rest →
  ∃ s', call_matching eff f (length l) s = Ok s' ∧ table_ok s'
    ∧ log s' = log s ++ reverse (pair_of <$> filter (λ e, destructor_func e = f) l)
    ∧ content s' = (drop_f f <$> l) ++ rest ++ take (room s) (added (filter (λ e, destructor_func e = f) l)).
Proof using eff_grows.
  revert rest s. induction l as [|e l IH] using rev_ind; intros rest s Hs E.
  - exists s. split; [done|]. split; [done|]. split; [by rewrite app_nil_r|]. rewrite E. unfold added. simpl. by rewrite take_nil, app_nil_r.
  - rewrite <- app_assoc in E. simpl in E. rewrite length_app, Nat.add_comm. simpl. rewrite (content_at s l e rest E).
    rewrite filter_app, !fmap_app, !reverse_app. destruct (Z.eqb_spec (destructor_func e) f) as [Ef|Ef].
    + rewrite filter_cons_True, filter_nil by done. destruct (clear_entry_ok s l e rest Hs E) as [Hs1 E1]. set (s1 := with_funcs _ s) in *.
      assert (room s1 = room s) as Hroom by (unfold room; by rewrite E1, E, !length_app).
      destruct (call_grows f (obj_ptr e) s1 Hs1) as (Hs2 & L2 & E2 & Hn). pose proof E2 as E2'.
      rewrite E1, <- app_assoc in E2. destruct (IH _ _ Hs2 E2) as (s' & -> & Hs' & L' & E'). exists s'.
      split; [done|]. split; [done|]. rewrite L', L2, E'. split.
      * rewrite <- app_assoc. by rewrite <- Ef.
      * simpl. unfold drop_f at 3. rewrite (proj2 (Z.eqb_eq _ _)) by done.
        rewrite added_snoc, Ef, <- Hroom, <- (room_app _ _ _ _ E2'). rewrite <- app_assoc. simpl. by rewrite <- app_assoc.
    + rewrite filter_cons_False, filter_nil, app_nil_r by done. destruct (IH _ _ Hs E) as (s' & -> & Hs' & L' & E'). exists s'.
      split; [done|]. split; [done|]. rewrite L', E'. split; [done|].
      simpl. unfold drop_f at 3. rewrite (proj2 (Z.eqb_neq _ _)) by done. by rewrite <- !app_assoc.
Qed.
End calls.

#[export] Instance nonnull_dec e : Decision (nonnull e).
Proof. unfold nonnull. apply _. Defined.

Lemma compact_ok n r w l : (w ≤ r)%nat → (r + n ≤ length l)%nat →
  ∃ w' l', compact n r w l = Ok (w', l') ∧ length l' = length l ∧ (w' ≤ r + n)%nat
    ∧ take w' l' = take w l ++ filter nonnull (take n (drop r l)).
Proof.
  revert r w l. induction n as [|n IH]; intros r w l Hw Hn.
  - exists w, l. split_and!; [done|done|lia|by rewrite app_nil_r].
  - destruct (lookup_lt_is_Some_2 l r) as [e He]; [lia|]. simpl. rewrite He, (drop_S l e r He). simpl.
    destruct (Z.eqb_spec (destructor_func e) 0) as [Ee|Ee]; simpl.
    + destruct (IH (S r) w l) as (w' & l' & -> & Hl & Hw' & Ht); [lia|lia|]. exists w', l'.
      split_and!; [done|done|lia|]. rewrite filter_cons_False by (unfold nonnull; lia). done.
    + assert (∀ k, (r < k)%nat → (if negb (w =? r)%nat then <[w:=e]> l else l) !! k = l !! k) as Hk.
      { intros k Hk. destruct (Nat.eqb_spec w r); simpl; [done|]. rewrite list_lookup_insert_ne by lia. done. }
      assert (length (if negb (w =? r)%nat then <[w:=e]> l else l) = length l) as Hlen by (destruct (w =? r)%nat; simpl; by rewrite ?length_insert).
      assert (take (S w) (if negb (w =? r)%nat then <[w:=e]> l else l) = take w l ++ [e]) as Htk.
      { destruct (Nat.eqb_spec w r) as [->|]; simpl; [by apply take_S_r|].
        rewrite (take_S_r _ _ e) by (apply list_lookup_insert_eq; lia). by rewrite take_insert_ge. }
      destruct (IH (S r) (S w) (if negb (w =? r)%nat then <[w:=e]> l else l)) as (w' & l' & -> & Hl & Hw' & Ht); [lia|lia|].
      exists w', l'. split_and!; [done|congruence|lia|]. rewrite Ht, Htk, filter_cons_True, <- app_assoc by done. simpl. do 3 f_equal.
      f_equal. apply list_eq. intros k. rewrite !lookup_drop. apply Hk. lia.
Qed.

Definition good (s : table) : Prop := table_ok s ∧ Forall nonnull (content s).

Lemma atexit_ok f o d s : table_ok s →
  ∃ r s', __cxa_atexit f o d s = Ok (r, s') ∧ table_ok s' ∧ log s' = log s
    ∧ if decide (length (content s) < 128)%nat then r = 0 ∧ content s' = content s ++ [Entry f o d] else r = -1 ∧ s' = s.
Proof.
  intros Hs. pose proof Hs as [Hl Hc]. rewrite (content_length s Hs). unfold __cxa_atexit, ATEXIT_MAX_FUNCS.
  destruct (decide (Z.to_nat (func_count s) < 128)%nat) as [Hlt|Hlt].
  - rewrite (proj2 (Z.leb_gt _ _)), bool_decide_eq_true_2, u32_small by lia. eexists 0, _. split; [done|].
    split; [split; simpl; [by rewrite length_insert|lia]|]. split; [done|]. split; [done|].
    unfold content. simpl. rewrite Z2Nat.inj_add, Nat.add_1_r by lia.
    rewrite (take_S_r _ _ (Entry f o d)) by (apply list_lookup_insert_eq; lia). by rewrite take_insert_ge.
  - rewrite (proj2 (Z.leb_le _ _)) by lia. exists (-1), s. done.
Qed.

Lemma filter_drop f l : f ≠ 0 → Forall nonnull l → filter nonnull (drop_f f <$> l) = filter (λ e, destructor_func e ≠ f) l.
Proof.
  intros Hf. induction l as [|e l IH]; intros Hl; [done|]. apply Forall_cons in Hl as [He Hl].
  specialize (IH Hl). rewrite fmap_cons. assert (drop_f f e = if destructor_func e =? f then cleared e else e) as -> by done.
  destruct (Z.eqb_spec (destructor_func e) f) as [E|E].
  - rewrite filter_cons_False by (unfold nonnull; simpl; lia). rewrite filter_cons_False by (simpl; congruence). done.
  - rewrite !filter_cons_True by done. by rewrite IH.
Qed.

Lemma filter_all l : Forall nonnull l → filter nonnull l = l.
Proof. induction 1 as [|e l He Hl IH]; [done|]. by rewrite filter_cons_True, IH. Qed.

(** C34: destructors at exit. A function registered while there is room comes behind the ones
    registered, with room for 128; without room it is refused. [__cxa_finalize(0)] calls all functions, the last registered first, each
    once with its object, and leaves the table empty. [__cxa_finalize(f)] calls in the same order those that are
    [f], and leaves in the table the others in their order, followed by exactly the functions
    that the called ones registered, in the order they did so and as far as there was room. With
    0 a function registered by a destructor is dropped without having been called. A function
    may register others, which depend on it and its object, and does nothing else to the table. *)
Theorem atexit_exact eff adds s :
  (∀ f o s, table_ok s → grows (adds f o) s (eff f o s)) → good s →
  (∀ f o d, f ≠ 0 → ∃ r s', __cxa_atexit f o d s = Ok (r, s') ∧ good s' ∧ log s' = log s
     ∧ if decide (length (content s) < 128)%nat then r = 0 ∧ content s' = content s ++ [Entry f o d] else r = -1 ∧ s' = s)
  ∧ (∃ s', __cxa_finalize eff 0 s = Ok s' ∧ good s' ∧ log s' = log s ++ reverse (pair_of <$> content s) ∧ content s' = [])
  ∧ ∀ f, f ≠ 0 → ∃ s', __cxa_finalize eff f s = Ok s' ∧ good s'
      ∧ log s' = log s ++ reverse (pair_of <$> filter (λ e, destructor_func e = f) (content s))
      ∧ content s' = filter (λ e, destructor_func e ≠ f) (content s)
          ++ take (128 - length (content s)) (added adds (filter (λ e, destructor_func e = f) (content s))).
Proof.
  intros Heff [Hs Hn]. pose proof (content_length s Hs) as Hlen. split; [|split].
  - intros f o d Hf. destruct (atexit_ok f o d s Hs) as (r & s' & E & Hs' & Hl & H). exists r, s'. split; [done|]. split; [|done]. split; [done|].
    destruct (decide _); destruct H as [_ H]; [|by subst]. rewrite H. apply Forall_app. split; [done|]. by repeat constructor.
  - unfold __cxa_finalize. simpl. destruct (call_all_ok eff adds Heff (content s) [] s) as (s' & new & E & Hs' & L & _);
      [done|by rewrite app_nil_r|done|]. rewrite <- Hlen, E, bind_Ok. eexists. split; [done|]. destruct Hs' as [H1 H2].
    split; [|done]. split; [|done]. split; simpl; [done|lia].
  - intros f Hf. unfold __cxa_finalize. rewrite (proj2 (Z.eqb_neq f 0) Hf).
    destruct (call_matching_ok eff adds Heff f (content s) [] s) as (s' & E & Hs' & L & C); [done|by rewrite app_nil_r|].
    rewrite <- Hlen, E, bind_Ok. pose proof (content_length s' Hs') as Hlen'. pose proof Hs' as [H1 H2].
    destruct (compact_ok (Z.to_nat (func_count s')) 0 0 (funcs s')) as (w & l & -> & Hl & Hw & Ht); [lia|lia|]. rewrite bind_Ok.
    change (take 0 (funcs s') ++ filter nonnull (take (Z.to_nat (func_count s')) (drop 0 (funcs s')))) with (filter nonnull (content s')) in Ht.
    assert (content (with_count (Z.of_nat w) (with_funcs l s')) = filter nonnull (content s')) as Ec by (unfold content at 1; simpl; by rewrite Nat2Z.id).
    eexists. split; [done|]. split; [|split; [done|]].
    + split; [split; simpl; lia|]. rewrite Ec. apply Forall_forall. intros e He. by apply list_elem_of_filter in He as [? _].
    + rewrite Ec, C, app_nil_l, filter_app, filter_drop by done. f_equal. apply filter_all, Forall_take. by eapply added_nonnull.
Qed.

(** Function 1 registers function 9. *)
Definition demo_eff (f _ : Z) (s : table) : table :=
  if f =? 1 then match __cxa_atexit 9 0 0 s with Ok (_, s') => s' | _ => s end else s.

Definition demo_adds (f _ : Z) : list atexit_func_entry_t := if f =? 1 then [Entry 9 0 0] else [].

Lemma demo_eff_grows f o s : table_ok s → grows (demo_adds f o) s (demo_eff f o s).
Proof.
  intros Hs. unfold demo_eff, demo_adds. destruct (f =? 1); [|split; [done|]; split; [done|]; by rewrite take_nil, app_nil_r].
  destruct (atexit_ok 9 0 0 s Hs) as (r & s' & -> & Hs' & L & H). unfold grows, room.
  destruct (decide _) as [Hlt|Hge]; destruct H as [_ H].
  - split; [done|]. split; [done|]. rewrite H. split; [|by repeat constructor]. f_equal. by rewrite take_ge by (simpl; lia).
  - subst s'. split; [done|]. split; [done|]. replace (128 - length (content s))%nat with 0%nat by lia. rewrite app_nil_r.
    split; [done|]. by repeat constructor.
Qed.

Definition demo : table := Table (Entry 1 10 0 :: Entry 2 20 0 :: Entry 1 30 0 :: replicate 125 (Entry 0 0 0)) 3 [].

Lemma atexit_exact_witness :
  (∃ s', __cxa_finalize demo_eff 0 demo = Ok s' ∧ log s' = [(1, 30); (2, 20); (1, 10)] ∧ content s' = [])
  ∧ ∃ s', __cxa_finalize demo_eff 1 demo = Ok s' ∧ log s' = [(1, 30); (1, 10)] ∧ content s' = [Entry 2 20 0; Entry 9 0 0; Entry 9 0 0].
Proof.
  destruct (atexit_exact demo_eff demo_adds demo demo_eff_grows) as (_ & (s' & E & _ & L & C) & H).
  - split; [split; [reflexivity|simpl; lia]|]. repeat constructor; discriminate.
  - split.
    + exists s'. split; [exact E|]. split; [rewrite L; reflexivity|exact C].
    + destruct (H 1 ltac:(lia)) as (s1 & E1 & _ & L1 & C1). exists s1. split; [exact E1|]. split; [rewrite L1; reflexivity|rewrite C1; reflexivity].
Defined.
