(* ===== verification/Smp.v ===== *)
(** Cores and their stacks: kernel/include/sys/smp.hpp, kernel/src/sys/smp.cpp and
    warm_start_32 of kernel/src/sys/smp_ll.cpp.

    A core finds itself through its stack: the stack is aligned to its size, and the anchor
    at its low end names the core. *)
From S2P Require Import Prelude Memory Stacks Slots Apic.

(** ** Cores *)

Record Core := MkCore {
  id : Z; core_apic_id : Z; is_bsp : bool; initialized : bool; lapic : Z; kernel_ : Z;
  region_base : Z; region_size : Z; stack_begin : Z; stack_end : Z; anchor : Z }.
Definition core_new (kernel lapic_base id apic_id : Z) (is_bsp : bool) : Core :=
  MkCore id apic_id is_bsp false lapic_base kernel 0 0 0 0 0.
Definition set_stack (b a : Z) (c : Core) : Core :=
  MkCore (id c) (core_apic_id c) (is_bsp c) (initialized c) (lapic c) (kernel_ c)
    b CORE_STACK_SIZE (u32 (b + ANCHOR_SIZE)) (u32 (b + CORE_STACK_SIZE)) a.
Definition set_initialized (v : bool) (c : Core) : Core :=
  MkCore (id c) (core_apic_id c) (is_bsp c) v (lapic c) (kernel_ c)
    (region_base c) (region_size c) (stack_begin c) (stack_end c) (anchor c).

Definition MAX_CORES : Z := 255.
Record CoreManager := MkManager { cores : list (StaticSlot Core); core_count_ : Z }.
Definition manager_fresh : CoreManager := MkManager (replicate (Z.to_nat MAX_CORES) Slot_.fresh) 0.

Definition create_core (c : Core) (m : CoreManager) : res CoreManager :=
  if MAX_CORES <=? core_count_ m then Panic "too many cores"
  else match cores m !! Z.to_nat (core_count_ m) with
       | None => Fault (core_count_ m)
       | Some s => s ← Slot_.construct c s;
                   Ok (MkManager (<[Z.to_nat (core_count_ m) := s]> (cores m)) (wrap 16 (core_count_ m + 1)))
       end.

Fixpoint create_cores (kernel lapic_base bsp_apic_id : Z) (entries : list ent0) (next : Z) (m : CoreManager) : res CoreManager :=
  match entries with
  | [] => Ok m
  | e :: entries =>
      m ← create_core (core_new kernel lapic_base next (apic_id e) (apic_id e =? bsp_apic_id)) m;
      create_cores kernel lapic_base bsp_apic_id entries (u8 (next + 1)) m
  end.

(** [id_reg] is the local APIC's ID register. *)
Definition manager_new (kernel lapic_base id_reg : Z) (lapics : StaticArray ent0) : res CoreManager :=
  entries ← for_each lapics;
  create_cores kernel lapic_base (lapic_id id_reg) entries 0 manager_fresh.

Definition core (m : CoreManager) (index : Z) : res Core :=
  if core_count_ m <=? index then Panic "core index out of range"
  else match cores m !! Z.to_nat index with None => Fault index | Some s => Slot_.get s end.
Definition update_core (index : Z) (f : Core → Core) (m : CoreManager) : CoreManager :=
  MkManager (alter (λ s, Slot (f <$> ptr_ s) (constructed_ s)) (Z.to_nat index) (cores m)) (core_count_ m).

(** ** Starting cores *)

(** What [new BaseCoreStack] gives: an aligned block that is in no other use, as long as
    there is [room]. *)
Class StackSource (S : Type) := {
  alloc_stack : S → res (Z * S);
  room : S → nat;
  in_use : S → Z → Prop;
  alloc_stack_ok s : (0 < room s)%nat → ∃ b s', alloc_stack s = Ok (b, s') ∧ 0 < b ∧ b mod 4096 = 0 ∧ b + 4096 ≤ 2 ^ 32
    ∧ ¬ in_use s b ∧ (∀ x, in_use s' x ↔ x = b ∨ in_use s x) ∧ room s' = pred (room s)
}.

Definition ICR0 : Z := 0x300.
Definition ICR1 : Z := 0x310.

Section start.
Context {S : Type} `{StackSource S}.
(** Where the compiler puts the core of index [i], and the stack of the boot processor. *)
Context (core_addr : Z → Z) (stack : Z).

(** [icr] is the writes to the local APIC's command register, in order. *)
Record world := World { cm : CoreManager; mem : ram; smp_stack_top : Z; heap : S; icr : list (Z * Z) }.
Definition with_cm (m : CoreManager) (w : world) : world := World m (mem w) (smp_stack_top w) (heap w) (icr w).

Definition send_ipi (ap ipi_number : Z) (w : world) : world :=
  World (cm w) (mem w) (smp_stack_top w) (heap w) (icr w ++ [(ICR1, u32 (Z.shiftl ap 24)); (ICR0, ipi_number)]).
Definition send_init_ipi (ap : Z) : world → world := send_ipi ap 0x500.
Definition send_startup_ipi (ap entry : Z) : world → world := send_ipi ap (Z.lor 0x600 entry).

(** What the other cores do in the course of [sleep_ticks(20)]. *)
Context (sleep : world → world).

Fixpoint start_attempts (n : nat) (index : Z) (w : world) : res world :=
  match n with
  | O => Ok w
  | Datatypes.S n =>
      c ← core (cm w) index;
      let w := sleep (send_init_ipi (core_apic_id c) w) in
      let w := sleep (send_startup_ipi (core_apic_id c) 0x8 w) in
      c ← core (cm w) index;
      if initialized c then Ok w else start_attempts n index w
  end.

(** [esp] is the stack pointer of the caller. *)
Definition start_core (esp index : Z) (w : world) : res world :=
  c ← core (cm w) index;
  if is_bsp c then
    a ← current_anchor (mem w) esp;
    let w := with_cm (update_core index (set_stack stack a) (cm w)) w in
    let w := World (cm w) (wr32 (mem w) (a + 8) (core_addr index)) (smp_stack_top w) (heap w) (icr w) in
    Ok (with_cm (update_core index (set_initialized true) (cm w)) w)
  else
    '(b, s) ← alloc_stack (heap w);
    let m := init_stack_anchor b 0 (core_addr index) (mem w) in
    let w := World (update_core index (set_stack b b) (cm w)) m (u32 (b + CORE_STACK_SIZE)) s (icr w) in
    start_attempts 3 index w.

Fixpoint init_bsp_loop (n : nat) (i esp : Z) (w : world) : res world :=
  match n with
  | O => Ok w
  | Datatypes.S n =>
      c ← core (cm w) i;
      if negb (is_bsp c) then init_bsp_loop n (i + 1) esp w else start_core esp i w
  end.
Definition init_bsp (esp : Z) (w : world) : res world := init_bsp_loop (Z.to_nat (core_count_ (cm w))) 0 esp w.

Fixpoint init_loop (n : nat) (i esp : Z) (w : world) : res world :=
  match n with
  | O => Ok w
  | Datatypes.S n =>
      c ← core (cm w) i;
      w ← (if is_bsp c then Ok w else start_core esp i w);
      init_loop n (i + 1) esp w
  end.
Definition init (esp : Z) (w : world) : res world := init_loop (Z.to_nat (core_count_ (cm w))) 0 esp w.
End start.

(** ** The table of cores *)

(** The manager holds the cores [l]. *)
Record mgr_ok (l : list Core) (m : CoreManager) : Prop := {
  mo_cores : cores m = ((λ c, Slot (Some c) true) <$> l) ++ replicate (255 - length l) Slot_.fresh;
  mo_count : core_count_ m = Z.of_nat (length l);
  mo_room : (length l ≤ 255)%nat
}.

Lemma mgr_fresh : mgr_ok [] manager_fresh.
Proof. split; [done|done|simpl; lia]. Qed.

Lemma mgr_lookup l m i c : mgr_ok l m → l !! i = Some c → cores m !! i = Some (Slot (Some c) true).
Proof.
  intros [-> _ _] Hc. rewrite lookup_app_l by (rewrite length_fmap; by apply lookup_lt_Some in Hc). by rewrite list_lookup_fmap, Hc.
Qed.

Lemma core_ok l m i c : mgr_ok l m → l !! i = Some c → core m (Z.of_nat i) = Ok c.
Proof.
  intros Hm Hc. unfold core. rewrite (mo_count _ _ Hm), (proj2 (Z.leb_gt _ _)) by (apply lookup_lt_Some in Hc; lia).
  by rewrite Nat2Z.id, (mgr_lookup l m i c Hm Hc).
Qed.

Lemma create_core_ok l m c : mgr_ok l m → (length l < 255)%nat → ∃ m', create_core c m = Ok m' ∧ mgr_ok (l ++ [c]) m'.
Proof.
  intros [E Hc Hr] Hl. unfold create_core, MAX_CORES. rewrite Hc, (proj2 (Z.leb_gt _ _)), Nat2Z.id by lia.
  rewrite E, lookup_app_r, length_fmap, Nat.sub_diag by (by rewrite length_fmap).
  replace (255 - length l)%nat with (S (255 - length (l ++ [c]))) by (rewrite length_app; simpl; lia). simpl.
  eexists. split; [done|]. split; simpl.
  - rewrite insert_app_r_alt by (by rewrite length_fmap). rewrite length_fmap, Nat.sub_diag, fmap_app, <- app_assoc. done.
  - rewrite length_app, wrap_small by lia. simpl. lia.
  - rewrite length_app. simpl. lia.
Qed.

Definition new_cores (kernel lapic_base bsp : Z) (entries : list ent0) (next : nat) : list Core :=
  imap (λ k e, core_new kernel lapic_base (Z.of_nat (next + k)) (apic_id e) (apic_id e =? bsp)) entries.

Lemma new_cores_lookup kernel base bsp es i e : es !! i = Some e →
  new_cores kernel base bsp es 0 !! i = Some (core_new kernel base (Z.of_nat i) (apic_id e) (apic_id e =? bsp)).
Proof. intros He. unfold new_cores. by rewrite list_lookup_imap, He. Qed.

(** Exactly one core is the boot processor. *)
Lemma new_cores_bsp kernel base bsp es : NoDup (apic_id <$> es) → bsp ∈ apic_id <$> es →
  ∃ p e, es !! p = Some e ∧ apic_id e = bsp ∧ ∀ j c, new_cores kernel base bsp es 0 !! j = Some c → is_bsp c = true ↔ j = p.
Proof.
  intros Hnd Hin. apply list_elem_of_lookup_1 in Hin as [p Hp]. rewrite list_lookup_fmap in Hp.
  destruct (es !! p) as [ep|] eqn:Ep; [|done]. injection Hp as Hp. exists p, ep. split; [done|]. split; [done|].
  intros j c Hc. destruct (lookup_lt_is_Some_2 es j) as [e He].
  { apply lookup_lt_Some in Hc. unfold new_cores in Hc. by rewrite length_imap in Hc. }
  rewrite (new_cores_lookup _ _ _ _ j e He) in Hc. injection Hc as <-. simpl. rewrite Z.eqb_eq. split; [|intros ->; congruence]. intros E.
  eapply (NoDup_lookup _ _ _ (apic_id e) Hnd); rewrite list_lookup_fmap; [by rewrite He|rewrite Ep; simpl; congruence].
Qed.

Lemma create_cores_ok kernel base bsp es l m : mgr_ok l m → (length l + length es ≤ 255)%nat →
  ∃ m', create_cores kernel base bsp es (Z.of_nat (length l)) m = Ok m' ∧ mgr_ok (l ++ new_cores kernel base bsp es (length l)) m'.
Proof.
  revert l m. induction es as [|e es IH]; intros l m Hm Hl.
  - exists m. split; [done|]. by rewrite app_nil_r.
  - simpl in Hl. destruct (create_core_ok l m (core_new kernel base (Z.of_nat (length l)) (apic_id e) (apic_id e =? bsp)) Hm)
      as (m1 & E1 & Hm1); [lia|]. cbn [create_cores]. rewrite E1, bind_Ok. rewrite wrap_small by lia.
    destruct (IH _ _ Hm1) as (m' & E' & Hm'); [rewrite length_app; simpl; lia|].
    rewrite length_app, Nat2Z.inj_add in E'. simpl in E'. exists m'. split; [exact E'|].
    rewrite <- app_assoc in Hm'. unfold new_cores. simpl. rewrite Nat.add_0_r. unfold new_cores in Hm'.
    erewrite (imap_ext (_ ∘ S)); [exact Hm'|]. intros k x _. unfold compose. rewrite length_app. simpl. do 2 f_equal. lia.
Qed.

Lemma update_core_ok l m i f : mgr_ok l m → (i < length l)%nat → mgr_ok (alter f i l) (update_core (Z.of_nat i) f m).
Proof.
  intros [E Hc Hr] Hi. split; simpl.
  - rewrite E, Nat2Z.id, length_alter, alter_app_l by (by rewrite length_fmap). f_equal. symmetry. apply list_fmap_alter. by apply Forall_forall.
  - by rewrite length_alter.
  - by rewrite length_alter.
Qed.

(** ** Starting all cores *)

(** The stack of a core is not part of its identity. *)
Definition same_core (c c' : Core) : Prop := id c' = id c ∧ core_apic_id c' = core_apic_id c ∧ is_bsp c' = is_bsp c.
#[export] Instance same_core_preorder : PreOrder same_core.
Proof. split; [done|]. intros x y z (? & ? & ?) (? & ? & ?). repeat split; congruence. Qed.

Section starting.
Context {S : Type} `{StackSource S} (core_addr : Z → Z) (stack : Z) (sleep : world (S := S) → world (S := S)).

(** While the boot processor sleeps the others may raise their flags and use their stacks, above the anchors. *)
Record undisturbed (w w' : world (S := S)) : Prop := {
  ud_cores l : mgr_ok l (cm w) → ∃ l', mgr_ok l' (cm w') ∧ Forall2 (λ c c', c' = set_initialized (initialized c') c) l l';
  ud_anchors b k : in_use (heap w) b → 0 ≤ k < 16 → mem w' (b + k) = mem w (b + k);
  ud_top : smp_stack_top w' = smp_stack_top w;
  ud_heap : heap w' = heap w
}.
Hypothesis sleep_ok : ∀ w, undisturbed w (sleep w).
Hypothesis stack_ok : stack_at stack.
Hypothesis addr_ok : ∀ i, 0 ≤ i < 255 → 0 < core_addr i < 2 ^ 32.

(** The cores are [l], as they were created up to their stacks ([l0]); [bs] are the
    stacks of those that were started. *)
Record running (l0 : list Core) (w : world (S := S)) (l : list Core) (bs : list (option Z)) : Prop := {
  ru_mgr : mgr_ok l (cm w);
  ru_same : Forall2 same_core l0 l;
  ru_length : length bs = length l;
  ru_stack i b : bs !! i = Some (Some b) → stack_at b ∧ in_use (heap w) b ∧ anchored (mem w) b (core_addr (Z.of_nat i))
    ∧ ∃ c, l !! i = Some c ∧ region_base c = b ∧ stack_end c = u32 (b + 4096) ∧ anchor c = b;
  ru_once i j b : bs !! i = Some (Some b) → bs !! j = Some (Some b) → i = j;
  ru_used : in_use (heap w) stack
}.

Lemma running_sleep l0 w l bs w' : undisturbed w w' → running l0 w l bs → ∃ l', running l0 w' l' bs.
Proof using.
  intros [Hc Ha Ht Hh] [Hm Hs Hl Hst Ho Hf]. destruct (Hc l Hm) as (l' & Hm' & Hf2). exists l'. split; try done.
  - etransitivity; [exact Hs|]. eapply Forall2_impl; [exact Hf2|]. intros c c' E. unfold same_core. by rewrite E.
  - rewrite Hl. by apply Forall2_length in Hf2.
  - intros i b Hb. destruct (Hst i b Hb) as (H1 & H2 & H3 & c & Hci & E1 & E2 & E3). split; [done|]. split; [by rewrite Hh|].
    split; [eapply anchored_ext; [|exact H3]; intros k Hk; by apply Ha|].
    destruct (Forall2_lookup_l _ _ _ _ _ Hf2 Hci) as (c' & Hc' & E). exists c'. split; [done|]. by rewrite E.
  - by rewrite Hh.
Qed.

Lemma running_icr l0 w l bs x : running l0 w l bs → running l0 (World (cm w) (mem w) (smp_stack_top w) (heap w) x) l bs.
Proof using. intros [Hm Hs Hl Hst Ho Hf]. by split. Qed.

Lemma running_sends l0 ap n w l bs : running l0 w l bs → ∃ l', running l0 (sleep (send_ipi ap n w)) l' bs.
Proof using sleep_ok. intros Hr. eapply running_sleep; [apply sleep_ok|]. by apply running_icr. Qed.

Lemma running_core l0 w l bs i : running l0 w l bs → (i < length l0)%nat → ∃ c, core (cm w) (Z.of_nat i) = Ok c ∧ l !! i = Some c.
Proof using.
  intros Hr Hi. destruct (lookup_lt_is_Some_2 l i) as [c Hc]; [by rewrite <- (Forall2_length _ _ _ (ru_same _ _ _ _ Hr))|].
  exists c. split; [|done]. eapply core_ok; [apply Hr|done].
Qed.

Lemma start_attempts_ok n l0 i w l bs : running l0 w l bs → (i < length l0)%nat →
  ∃ w' l', start_attempts sleep n (Z.of_nat i) w = Ok w' ∧ running l0 w' l' bs ∧ room (heap w') = room (heap w).
Proof using sleep_ok.
  revert w l. induction n as [|n IH]; intros w l Hr Hi; [by exists w, l|]. cbn [start_attempts].
  destruct (running_core l0 w l bs i Hr Hi) as (c & -> & _). rewrite bind_Ok. cbv zeta. unfold send_init_ipi, send_startup_ipi.
  destruct (running_sends l0 (core_apic_id c) 0x500 w l bs Hr) as [l1 H1]. set (w1 := sleep (send_ipi (core_apic_id c) 0x500 w)) in *.
  assert (heap w1 = heap w) as E1 by (unfold w1; by rewrite (ud_heap _ _ (sleep_ok _))).
  destruct (running_sends l0 (core_apic_id c) (Z.lor 0x600 0x8) w1 l1 bs H1) as [l2 H2]. set (w2 := sleep (send_ipi (core_apic_id c) (Z.lor 0x600 0x8) w1)) in *.
  assert (heap w2 = heap w1) as E2 by (unfold w2; by rewrite (ud_heap _ _ (sleep_ok _))).
  destruct (running_core l0 w2 l2 bs i H2 Hi) as (c2 & -> & _). rewrite bind_Ok. destruct (initialized c2).
  - exists w2, l2. split; [done|]. split; [done|]. congruence.
  - destruct (IH w2 l2 H2 Hi) as (w' & l' & -> & H' & E'). exists w', l'. split; [done|]. split; [done|]. congruence.
Qed.

Lemma alter_same (f : Core → Core) i l : (∀ c, same_core c (f c)) → Forall2 same_core l (alter f i l).
Proof using.
  intros Hf. apply Forall2_same_length_lookup_2; [by rewrite length_alter|]. intros j x y Hx Hy.
  destruct (decide (j = i)) as [->|]; [rewrite list_lookup_alter_eq, Hx in Hy|rewrite list_lookup_alter_ne, Hx in Hy by done];
    injection Hy as <-; [apply Hf|done].
Qed.

(** The core [i] gets the stack [b], which no other core has. *)
Lemma running_start l0 w l bs i b top s m : running l0 w l bs → (i < length l0)%nat → stack_at b →
  (∀ j, bs !! j = Some (Some b) → j = i) →
  in_use s b → (∀ x, in_use (heap w) x → in_use s x) →
  anchored m b (core_addr (Z.of_nat i)) → (∀ a, a < b ∨ b + 4096 ≤ a → m a = mem w a) →
  running l0 (World (update_core (Z.of_nat i) (set_stack b b) (cm w)) m top s (icr w)) (alter (set_stack b b) i l) (<[i := Some b]> bs).
Proof using.
  intros [Hm Hs Hl Hst Ho Hf] Hi Hb Hj Hsb Hu Ha He. assert (length l = length l0) as Hll by (symmetry; by eapply Forall2_length).
  split; simpl.
  - apply update_core_ok; [done|lia].
  - etransitivity; [exact Hs|]. by apply alter_same.
  - by rewrite length_insert, length_alter.
  - intros k x Hk. apply list_lookup_insert_Some in Hk as [(-> & [= ->] & _)|[Hne Hk]].
    + split; [done|]. split; [done|]. split; [done|].
      destruct (lookup_lt_is_Some_2 l k) as [c Hc]; [lia|]. exists (set_stack x x c). by rewrite list_lookup_alter_eq, Hc.
    + destruct (Hst k x Hk) as (H1 & H2 & H3 & c & Hc & Hrest). split; [done|]. split; [by apply Hu|].
      split; [|exists c; by rewrite list_lookup_alter_ne by done]. eapply anchored_ext; [|exact H3]. intros a Ha'. apply He.
      assert (x ≠ b) as Hxb by (intros ->; apply Hne; symmetry; by apply Hj). destruct (stacks_apart x b H1 Hb Hxb); lia.
  - intros k k' x Hk Hk'. apply list_lookup_insert_Some in Hk as [(Ek & Ex & _)|[Hne Hk]], Hk' as [(Ek' & Ex' & _)|[Hne' Hk']].
    + congruence.
    + injection Ex as <-. subst k. symmetry. by apply Hj.
    + injection Ex' as <-. subst k'. by apply Hj.
    + by eapply Ho.
  - by apply Hu.
Qed.

Lemma flag_undisturbed (w : world (S := S)) i : Z.of_nat i < core_count_ (cm w) →
  undisturbed w (with_cm (update_core (Z.of_nat i) (set_initialized true) (cm w)) w).
Proof using.
  intros Hi. split; [|done|done|done]. intros l Hm. exists (alter (set_initialized true) i l). split.
  - apply update_core_ok; [done|]. rewrite (mo_count _ _ Hm) in Hi. lia.
  - apply Forall2_same_length_lookup_2; [by rewrite length_alter|]. intros j x y Hx Hy.
    destruct (decide (j = i)) as [->|]; [rewrite list_lookup_alter_eq, Hx in Hy|rewrite list_lookup_alter_ne, Hx in Hy by done];
      injection Hy as <-; by destruct x.
Qed.

Lemma start_bsp_ok l0 esp i w l bs c : running l0 w l bs → l !! i = Some c → is_bsp c = true → (i < 255)%nat →
  (∀ j, bs !! j = Some (Some stack) → j = i) → stack ≤ esp < stack + 4096 → anchor_magic (mem w) stack = MAGIC →
  ∃ w' l', start_core core_addr stack sleep esp (Z.of_nat i) w = Ok w' ∧ running l0 w' l' (<[i := Some stack]> bs) ∧ heap w' = heap w.
Proof using stack_ok addr_ok.
  intros Hr Hc Hbsp Hi Hj Hesp Hmag. unfold start_core. pose proof (ru_mgr _ _ _ _ Hr) as Hm.
  rewrite (core_ok l (cm w) i c Hm Hc), bind_Ok, Hbsp. unfold current_anchor, anchor_from_sp. rewrite (from_sp_ok stack) by done.
  rewrite Hmag. simpl. pose proof (lookup_lt_Some _ _ _ Hc) as Hlt. assert (length l0 = length l) as Hll by apply (Forall2_length _ _ _ (ru_same _ _ _ _ Hr)).
  set (m := wr32 (mem w) (stack + 8) (core_addr (Z.of_nat i))).
  assert (running l0 (World (update_core (Z.of_nat i) (set_stack stack stack) (cm w)) m (smp_stack_top w) (heap w) (icr w))
    (alter (set_stack stack stack) i l) (<[i := Some stack]> bs)) as Hr1.
  { eapply running_start; [exact Hr|lia|done|done|apply Hr|done| |].
    - split; [|by apply rd32_wr32_same; pose proof (addr_ok (Z.of_nat i)); lia]. unfold anchor_magic, m. by rewrite rd32_wr32_other by lia.
    - intros a Ha. apply wr32_other8. lia. }
  destruct (running_sleep _ _ _ _ _ (flag_undisturbed (World (update_core (Z.of_nat i) (set_stack stack stack) (cm w)) m (smp_stack_top w) (heap w) (icr w)) i
    ltac:(simpl; rewrite (mo_count _ _ Hm); lia)) Hr1) as [l' Hr']. eexists _, l'. split; [done|]. by split.
Qed.

Lemma start_ap_ok l0 esp i w l bs c : running l0 w l bs → l !! i = Some c → is_bsp c = false → (i < 255)%nat → (0 < room (heap w))%nat →
  ∃ w' l' b, start_core core_addr stack sleep esp (Z.of_nat i) w = Ok w' ∧ running l0 w' l' (<[i := Some b]> bs)
    ∧ room (heap w') = pred (room (heap w)).
Proof using stack_ok addr_ok sleep_ok.
  intros Hr Hc Hap Hi Hroom. unfold start_core. pose proof (ru_mgr _ _ _ _ Hr) as Hm.
  rewrite (core_ok l (cm w) i c Hm Hc), bind_Ok, Hap. cbv beta iota.
  destruct (alloc_stack_ok (heap w) Hroom) as (b & s & -> & H0 & Hmod & Hend & Hfree & Huse & Hs). rewrite bind_Ok. cbv beta iota zeta.
  pose proof (lookup_lt_Some _ _ _ Hc) as Hlt. assert (length l0 = length l) as Hll by apply (Forall2_length _ _ _ (ru_same _ _ _ _ Hr)).
  pose proof (addr_ok (Z.of_nat i) ltac:(lia)) as Hadr.
  assert (running l0 (World (update_core (Z.of_nat i) (set_stack b b) (cm w)) (init_stack_anchor b 0 (core_addr (Z.of_nat i)) (mem w))
    (u32 (b + CORE_STACK_SIZE)) s (icr w)) (alter (set_stack b b) i l) (<[i := Some b]> bs)) as Hr1.
  { eapply running_start; [exact Hr|lia|done| |apply Huse; by left|intros x Hx; apply Huse; by right|apply init_anchor_ok; lia|].
    - intros j Hj. destruct (ru_stack _ _ _ _ Hr j b Hj) as (_ & Hu & _). done.
    - intros a Ha. apply init_anchor_other. lia. }
  destruct (start_attempts_ok 3 l0 i _ _ _ Hr1 ltac:(lia)) as (w' & l' & -> & Hr' & Hroom'). exists w', l', b.
  split; [done|]. split; [done|]. rewrite Hroom'. exact Hs.
Qed.

(** The flag of a core does not change. *)
Lemma running_bsp l0 w l bs i c0 : running l0 w l bs → l0 !! i = Some c0 → ∃ c, l !! i = Some c ∧ core (cm w) (Z.of_nat i) = Ok c ∧ is_bsp c = is_bsp c0.
Proof using.
  intros Hr Hc0. destruct (Forall2_lookup_l _ _ _ _ _ (ru_same _ _ _ _ Hr) Hc0) as (c & Hc & _ & _ & E). exists c.
  split; [done|]. split; [|done]. eapply core_ok; [apply Hr|done].
Qed.

Lemma init_bsp_loop_ok l0 esp n i p w l bs : running l0 w l bs → (i ≤ p < i + n)%nat →
  (∀ j c, l0 !! j = Some c → is_bsp c = true ↔ j = p) → (p < length l0)%nat →
  init_bsp_loop core_addr stack sleep n (Z.of_nat i) esp w = start_core core_addr stack sleep esp (Z.of_nat p) w.
Proof using.
  intros Hr Hp Hone Hlt. revert i Hp. induction n as [|n IH]; intros i Hp; [lia|]. cbn [init_bsp_loop].
  destruct (lookup_lt_is_Some_2 l0 i) as [c0 Hc0]; [lia|]. destruct (running_bsp _ _ _ _ _ _ Hr Hc0) as (c & _ & -> & E). rewrite bind_Ok, E.
  specialize (Hone i c0 Hc0). destruct (is_bsp c0); simpl.
  - by rewrite (proj1 Hone eq_refl).
  - replace (Z.of_nat i + 1) with (Z.of_nat (Datatypes.S i)) by lia. apply IH.
    assert (i ≠ p) by (intros ->; by specialize (proj2 Hone eq_refl)). lia.
Qed.

Lemma init_loop_ok l0 esp n i p w l bs : running l0 w l bs → (i + n = length l0)%nat → (length l0 ≤ 255)%nat → (n ≤ room (heap w))%nat →
  (∀ j c, l0 !! j = Some c → is_bsp c = true ↔ j = p) → bs !! p = Some (Some stack) →
  ∃ w' l' bs', init_loop core_addr stack sleep n (Z.of_nat i) esp w = Ok w' ∧ running l0 w' l' bs'
    ∧ (∀ j, (j < i)%nat → bs' !! j = bs !! j) ∧ ∀ j, (i ≤ j < i + n)%nat → ∃ b, bs' !! j = Some (Some b).
Proof using stack_ok addr_ok sleep_ok.
  intros Hr Hn Hlen Hroom Hone. revert i w l bs Hr Hn Hroom. induction n as [|n IH]; intros i w l bs Hr Hn Hroom Hp.
  - exists w, l, bs. split; [done|]. split; [done|]. split; [done|lia].
  - destruct (lookup_lt_is_Some_2 l0 i) as [c0 Hc0]; [lia|]. destruct (running_bsp _ _ _ _ _ _ Hr Hc0) as (c & Hc & E1 & E2).
    specialize (Hone i c0 Hc0) as Hi.
    assert (∃ w1 l1 bs1, (if is_bsp c then Ok w else start_core core_addr stack sleep esp (Z.of_nat i) w) = Ok w1 ∧ running l0 w1 l1 bs1
      ∧ (∀ j, j ≠ i → bs1 !! j = bs !! j) ∧ (∃ b, bs1 !! i = Some (Some b)) ∧ bs1 !! p = Some (Some stack) ∧ (n ≤ room (heap w1))%nat)
      as (w1 & l1 & bs1 & Es & Hr1 & Hj1 & Hb1 & Hp1 & Hroom1).
    { rewrite E2. destruct (is_bsp c0) eqn:Eb.
      - assert (i = p) as -> by tauto. exists w, l, bs. split; [done|]. split; [done|]. split; [done|]. split; [by exists stack|]. split; [done|lia].
      - assert (i ≠ p) as Hne by (intros ->; pose proof (proj2 Hi eq_refl); congruence).
        destruct (start_ap_ok l0 esp i w l bs c Hr Hc ltac:(congruence) ltac:(lia) ltac:(lia)) as (w1 & l1 & b & -> & Hr1 & Hm1).
        exists w1, l1, (<[i := Some b]> bs). split; [done|]. split; [done|]. split; [intros j Hj; by rewrite list_lookup_insert_ne|].
        split; [exists b; apply list_lookup_insert_eq; rewrite (ru_length _ _ _ _ Hr); by apply lookup_lt_Some in Hc|].
        split; [by rewrite list_lookup_insert_ne|lia]. }
    cbn [init_loop]. rewrite E1, bind_Ok, Es, bind_Ok. replace (Z.of_nat i + 1) with (Z.of_nat (Datatypes.S i)) by lia.
    destruct (IH (Datatypes.S i) w1 l1 bs1 Hr1 ltac:(lia) Hroom1 Hp1) as (w' & l' & bs' & -> & Hr' & Hj' & Hb'). exists w', l', bs'.
    split; [done|]. split; [done|]. split.
    + intros j Hj. rewrite Hj', Hj1 by lia. done.
    + intros j Hj. destruct (decide (j = i)) as [->|]; [|apply Hb'; lia]. by rewrite Hj' by lia.
Qed.
End starting.

(** C30: after the boot every core finds itself. Let the table of processors list at most 64 distinct
    ones, the boot processor among them, which runs on its stack with an anchor; let there be memory for
    the other stacks, and let the started cores only raise their flags and use their stacks above the anchors. Then the constructor, [init_bsp] and
    [init] return; core [i] is the one of the [i]th entry; the stacks are distinct and aligned to their size; and whenever
    code runs with a stack pointer in the stack of core [i], [current_core] is core [i]. *)
Theorem cores_own_stacks {S} `{StackSource S} core_addr stack (sleep : world → world) kernel lapic_base id_reg lapics es esp mem0 (h : S) :
  (∀ w, undisturbed w (sleep w)) → stack_at stack → (∀ i, 0 ≤ i < 255 → 0 < core_addr i < 2 ^ 32) →
  filled 64 lapics es → (length es ≤ 64)%nat → NoDup (apic_id <$> es) → lapic_id id_reg ∈ apic_id <$> es →
  stack ≤ esp < stack + 4096 → anchor_magic mem0 stack = MAGIC → in_use h stack → (length es ≤ room h)%nat →
  ∃ m w1 w2, manager_new kernel lapic_base id_reg lapics = Ok m
    ∧ init_bsp core_addr stack sleep esp (World m mem0 0 h []) = Ok w1 ∧ init core_addr stack sleep esp w1 = Ok w2
    ∧ ∃ bs, length bs = length es ∧ NoDup bs ∧ ∀ i e b, es !! i = Some e → bs !! i = Some b → stack_at b
      ∧ (∃ c, core (cm w2) (Z.of_nat i) = Ok c ∧ id c = Z.of_nat i ∧ core_apic_id c = apic_id e
           ∧ is_bsp c = (apic_id e =? lapic_id id_reg) ∧ region_base c = b ∧ stack_end c = u32 (b + 4096))
      ∧ ∀ sp, b ≤ sp < b + 4096 → current_core (mem w2) sp = Ok (core_addr (Z.of_nat i)).
Proof.
  intros Hsleep Hst Haddr Hfill Hlen Hnd Hin Hesp Hmag Huse Hroom.
  destruct (create_cores_ok kernel lapic_base (lapic_id id_reg) es [] manager_fresh mgr_fresh) as (m & Em & Hm); [simpl; lia|].
  set (l0 := new_cores kernel lapic_base (lapic_id id_reg) es 0) in Hm. simpl in Hm.
  assert (length l0 = length es) as Hl0 by (unfold l0, new_cores; by rewrite length_imap).
  pose proof (new_cores_lookup kernel lapic_base (lapic_id id_reg) es) as Hl0i. fold l0 in Hl0i.
  destruct (new_cores_bsp kernel lapic_base (lapic_id id_reg) es Hnd Hin) as (p & ep & Ep & Hp & Hone). fold l0 in Hone.
  assert (p < length es)%nat as Hplt by (by apply lookup_lt_Some in Ep).
  set (w0 := World m mem0 0 h []).
  assert (running core_addr stack l0 w0 l0 (replicate (length es) None)) as Hr0.
  { split; [done|done|by rewrite length_replicate| | |done]; intros i; [intros b [? _]%lookup_replicate|intros j b [? _]%lookup_replicate]; done. }
  destruct (running_bsp _ _ _ _ _ _ _ _ Hr0 (Hl0i p ep Ep)) as (cp & Hcp & _ & Eb). simpl in Eb. rewrite Hp, Z.eqb_refl in Eb.
  destruct (start_bsp_ok core_addr stack sleep Hst Haddr l0 esp p w0 _ _ _ Hr0 Hcp Eb) as (w1 & l1 & E1 & Hr1 & Hh1);
    [lia|intros j [? _]%lookup_replicate; done|done|done|].
  destruct (init_loop_ok core_addr stack sleep Hsleep Hst Haddr l0 esp (length l0) 0 p w1 _ _ Hr1) as (w2 & l2 & bs & E2 & Hr2 & _ & Hb2);
    [done|lia|rewrite Hh1, Hl0; simpl; lia|done|apply list_lookup_insert_eq; by rewrite length_replicate|].
  exists m, w1, w2. split; [unfold manager_new; by rewrite (filled_each 64 _ _ Hfill), bind_Ok|]. split.
  { unfold init_bsp. simpl. rewrite (mo_count _ _ Hm), Nat2Z.id, <- E1. apply (init_bsp_loop_ok _ _ _ l0 esp (length l0) 0 p w0 l0 _ Hr0); [lia|done|lia]. }
  split. { unfold init. rewrite (mo_count _ _ (ru_mgr _ _ _ _ _ _ Hr1)), Nat2Z.id, <- (Forall2_length _ _ _ (ru_same _ _ _ _ _ _ Hr1)). exact E2. }
  assert (length bs = length es) as Hlb by (rewrite (ru_length _ _ _ _ _ _ Hr2), <- (Forall2_length _ _ _ (ru_same _ _ _ _ _ _ Hr2)); lia).
  assert (∀ i, (i < length es)%nat → bs !! i = Some (Some (default 0 (mjoin (bs !! i))))) as Hbs.
  { intros i Hi. destruct (Hb2 i ltac:(lia)) as [b Hb]. by rewrite Hb. }
  exists (default 0 <$> bs). split; [by rewrite length_fmap|]. split.
  - apply NoDup_alt. intros i j b Hi Hj. rewrite list_lookup_fmap in Hi, Hj. apply fmap_Some in Hi as (o & Ho & ->), Hj as (o' & Ho' & Eo).
    pose proof (lookup_lt_Some _ _ _ Ho). pose proof (lookup_lt_Some _ _ _ Ho').
    destruct (Hb2 i ltac:(lia)) as [b Hb], (Hb2 j ltac:(lia)) as [b' Hb']. rewrite Hb in Ho. rewrite Hb' in Ho'. injection Ho as <-. injection Ho' as <-.
    simpl in Eo. subst b'. by eapply (ru_once _ _ _ _ _ _ Hr2).
  - intros i e b He Hib. rewrite list_lookup_fmap in Hib. apply fmap_Some in Hib as (o & Ho & ->).
    pose proof (lookup_lt_Some _ _ _ He). destruct (Hb2 i ltac:(lia)) as [b Hb]. rewrite Hb in Ho. injection Ho as <-. simpl.
    destruct (ru_stack _ _ _ _ _ _ Hr2 i b Hb) as (Hsb & _ & Ha & c & Hc & Hc1 & Hc2 & _). split; [done|]. split.
    + exists c. split; [by eapply core_ok; [apply Hr2|]|].
      destruct (Forall2_lookup_l _ _ _ _ _ (ru_same _ _ _ _ _ _ Hr2) (Hl0i i e He)) as (c' & Hc' & S1 & S2 & S3).
      assert (c' = c) as -> by congruence. done.
    + intros sp Hsp. apply (current_core_ok _ b); [done|done| |done]. pose proof (Haddr (Z.of_nat i) ltac:(lia)). lia.
Qed.

(** ** The trampoline: one word tells a starting core its stack

    Here the stacks are named by the core they were made for. *)
Module Boot.

(** A core waits for its start-up interrupt, runs the trampoline, has loaded its stack pointer, or has raised the flag of
    the core it found there. *)
Inductive ap := Off | Trampoline | On (b : nat) | Up (b : nat).
#[export] Instance ap_eq_dec : EqDecision ap.
Proof. solve_decision. Defined.
(** The boot processor in [start_core], with [j] attempts left. *)
Inductive pc := Next | SendInit (j : nat) | SendStartup (j : nat) | Poll (j : nat).
Record state := State { top : nat; flags : list bool; aps : list ap; cur : nat; at_ : pc }.

Definition stack_of (a : ap) : option nat := match a with On b | Up b => Some b | _ => None end.

(** The core being started must not be in the trampoline when the boot processor goes on. *)
Definition settled (s : state) : Prop := aps s !! cur s ≠ Some Trampoline.

(** The boot processor goes on to the next core in the states [go]. *)
Inductive step (go : state → Prop) : state → state → Prop :=
| step_prepare s : at_ s = Next → (cur s < length (aps s))%nat →
    step go s (State (cur s) (flags s) (aps s) (cur s) (SendInit 3))
| step_init s j : at_ s = SendInit (S j) →
    step go s (State (top s) (flags s) (<[cur s := Off]> (aps s)) (cur s) (SendStartup (S j)))
| step_startup s j : at_ s = SendStartup (S j) →
    step go s (State (top s) (flags s) (if decide (aps s !! cur s = Some Off) then <[cur s := Trampoline]> (aps s) else aps s) (cur s) (Poll j))
| step_retry s j : at_ s = Poll (S j) → flags s !! cur s = Some false →
    step go s (State (top s) (flags s) (aps s) (cur s) (SendInit (S j)))
| step_next s j : at_ s = Poll j → flags s !! cur s = Some true ∨ j = 0%nat → go s →
    step go s (State (top s) (flags s) (aps s) (S (cur s)) Next)
| step_stack s i : aps s !! i = Some Trampoline →
    step go s (State (top s) (flags s) (<[i := On (top s)]> (aps s)) (cur s) (at_ s))
| step_up s i b : aps s !! i = Some (On b) →
    step go s (State (top s) (<[b := true]> (flags s)) (<[i := Up b]> (aps s)) (cur s) (at_ s)).

Definition init (n : nat) : state := State 0 (replicate n false) (replicate n Off) 0 Next.

Record inv (s : state) : Prop := {
  inv_stack i a b : aps s !! i = Some a → stack_of a = Some b → b = i;
  inv_tramp i : aps s !! i = Some Trampoline → i = cur s ∧ top s = i ∧ at_ s ≠ Next;
  inv_top : at_ s ≠ Next → top s = cur s
}.

Lemma inv_step s s' : inv s → step settled s s' → inv s'.
Proof.
  intros Hi Hs. destruct Hs as [s Ha Hlt|s j Ha|s j Ha|s j Ha Hf|s j Ha Hf Ht|s i Hc|s i b Hc]; destruct Hi as [H1 H2 H3]; split; simpl.
  - done.
  - intros i Hi. destruct (H2 i Hi) as (_ & _ & ?). congruence.
  - done.
  - intros i a b Hia Hb. apply list_lookup_insert_Some in Hia as [(_ & <- & _)|[_ Hia]]; [done|by eapply H1].
  - intros i Hia. apply list_lookup_insert_Some in Hia as [(_ & ? & _)|[_ Hia]]; [done|]. destruct (H2 i Hia) as (? & ? & _). done.
  - intros _. apply H3. congruence.
  - intros i a b Hia Hb. destruct (decide _); [|by eapply H1].
    apply list_lookup_insert_Some in Hia as [(_ & <- & _)|[_ Hia]]; [done|by eapply H1].
  - intros i Hia. destruct (decide _); [|by destruct (H2 i Hia) as (? & ? & _)].
    apply list_lookup_insert_Some in Hia as [(<- & _ & _)|[_ Hia]]; [|by destruct (H2 i Hia) as (? & ? & _)].
    split; [done|]. split; [apply H3; congruence|done].
  - intros _. apply H3. congruence.
  - done.
  - intros i Hi. destruct (H2 i Hi) as (? & ? & _). done.
  - intros _. apply H3. congruence.
  - done.
  - intros i Hi. exfalso. destruct (H2 i Hi) as (-> & _ & _). by apply Ht.
  - done.
  - intros k a b Hk Hb. apply list_lookup_insert_Some in Hk as [(-> & <- & _)|[_ Hk]]; [|by eapply H1].
    destruct (H2 k Hc) as (_ & E & _). simpl in Hb. congruence.
  - intros k Hk. apply list_lookup_insert_Some in Hk as [(_ & ? & _)|[_ Hk]]; [done|by apply H2].
  - done.
  - intros k a x Hk Hx. apply list_lookup_insert_Some in Hk as [(-> & <- & _)|[_ Hk]]; [|by eapply H1]. by eapply H1.
  - intros k Hk. apply list_lookup_insert_Some in Hk as [(_ & ? & _)|[_ Hk]]; [done|by apply H2].
  - done.
Qed.

Lemma inv_init n : inv (init n).
Proof.
  split; simpl; [|intros i [? _]%lookup_replicate; done|done].
  intros i a b [-> _]%lookup_replicate. done.
Qed.

Lemma inv_reachable n s : rtc (step settled) (init n) s → inv s.
Proof.
  intros Hr. apply (rtc_ind_r inv) in Hr; [done|apply inv_init|]. intros x y _ Hxy Hx. by eapply inv_step.
Qed.

(** Two cores on one stack. *)
Definition shared_stack (s : state) : Prop := ∃ i j a a' b, i ≠ j ∧ aps s !! i = Some a ∧ aps s !! j = Some a' ∧ stack_of a = Some b ∧ stack_of a' = Some b.
End Boot.

(** C31: which stack a starting core takes. Every core loads the one word [smp_stack_top]. If no
    core is in the trampoline when the boot processor turns to the next one, each core that runs is on its own
    stack, at any time of any interleaving. The code does not ensure it: it goes on as soon as
    the core's flag is up, and a core that raised it and was then reset by the retry is in the trampoline
    again; it then loads the stack of the next core, and two cores run on one stack. *)
Theorem boot_stacks :
  (∀ n s, rtc (Boot.step Boot.settled) (Boot.init n) s →
     (∀ i a b, Boot.aps s !! i = Some a → Boot.stack_of a = Some b → b = i) ∧ ¬ Boot.shared_stack s)
  ∧ ∃ s, rtc (Boot.step (λ s, Boot.flags s !! Boot.cur s = Some true)) (Boot.init 2) s ∧ Boot.shared_stack s.
Proof.
  split.
  - intros n s Hr. pose proof (Boot.inv_stack s (Boot.inv_reachable n s Hr)) as Hi. split; [exact Hi|].
    intros (i & j & a & a' & b & Hne & Ha & Ha' & Hb & Hb'). apply Hne. rewrite <- (Hi i a b), <- (Hi j a' b) by done. done.
  - exists (Boot.State 1 [true; false] [Boot.On 1; Boot.On 1] 1 (Boot.Poll 2)). split.
    2: { exists 0%nat, 1%nat, (Boot.On 1), (Boot.On 1), 1%nat. done. }
    unfold Boot.init. simpl.
    eapply rtc_l; [apply Boot.step_prepare; simpl; [done|lia]|]. simpl.
    eapply rtc_l; [by eapply Boot.step_init|]. simpl.
    eapply rtc_l; [by eapply Boot.step_startup|]. simpl.
    eapply rtc_l; [by eapply (Boot.step_retry _ _ 1)|]. simpl.
    eapply rtc_l; [by apply (Boot.step_stack _ _ 0)|]. simpl.
    eapply rtc_l; [by apply (Boot.step_up _ _ 0 0)|]. simpl.
    eapply rtc_l; [by eapply Boot.step_init|]. simpl.
    eapply rtc_l; [by eapply Boot.step_startup|]. simpl.
    eapply rtc_l; [eapply Boot.step_next; [reflexivity|by left|reflexivity]|]. simpl.
    eapply rtc_l; [apply Boot.step_prepare; simpl; [done|lia]|]. simpl.
    eapply rtc_l; [by eapply Boot.step_init|]. simpl.
    eapply rtc_l; [by eapply Boot.step_startup|]. simpl.
    eapply rtc_l; [by apply (Boot.step_stack _ _ 0)|]. simpl.
    eapply rtc_l; [by apply (Boot.step_stack _ _ 1)|]. simpl. apply rtc_refl.
Qed.

(** ** Two cores; the boot processor is the second entry *)

Module DemoSmp.
Definition base (k : nat) : Z := 0x400000 + 4096 * Z.of_nat k.
Definition STACK : Z := 0x200000.
(** [k] of 64 stacks are in use, and the one of the boot processor. *)
Definition used (k : nat) (x : Z) : Prop := x = STACK ∨ ∃ j, (j < k)%nat ∧ x = base j.

#[export] Instance source : StackSource nat.
Proof.
  refine {| alloc_stack k := Ok (base k, S k); room k := (64 - k)%nat; in_use := used |}.
  intros k Hk. exists (base k), (S k). split; [done|]. unfold base. split; [lia|]. split; [|split; [lia|]].
  { dlia. }
  split; [intros [?|(j & ? & ?)]; unfold STACK, base in *; lia|]. split; [|simpl; lia]. intros x. unfold used. split.
  - intros [?|(j & Hj & ->)]; [by right; left|]. destruct (decide (j = k)) as [->|]; [by left|]. right. right. exists j. split; [lia|done].
  - intros [->|[?|(j & Hj & ->)]]; [right; by exists k; split; [lia|]|by left|right; exists j; split; [lia|done]].
Defined.

Definition entries : list ent0 := [Ent0 0 3 1; Ent0 1 0 1].
Definition lapics : StaticArray ent0 := match fill entries with Ok a => a | _ => array_init 64 end.
Definition mem0 : ram := init_stack_anchor STACK 0 0 (λ _, 0).
Definition core_addr (i : Z) : Z := 0x300000 + 640 * i.
End DemoSmp.
#[local] Existing Instance DemoSmp.source.

Lemma cores_own_stacks_witness : ∃ m w1 w2,
  manager_new 0x150000 0xFEE00000 0 DemoSmp.lapics = Ok m
  ∧ init_bsp DemoSmp.core_addr DemoSmp.STACK (λ w, w) 0x200F00 (World m DemoSmp.mem0 0 0%nat []) = Ok w1
  ∧ init DemoSmp.core_addr DemoSmp.STACK (λ w, w) 0x200F00 w1 = Ok w2
  ∧ ∃ b0 b1, b0 ≠ b1 ∧ (∀ sp, b0 ≤ sp < b0 + 4096 → current_core (mem w2) sp = Ok 0x300000)
      ∧ ∀ sp, b1 ≤ sp < b1 + 4096 → current_core (mem w2) sp = Ok 0x300280.
Proof.
  destruct (fill_ok DemoSmp.entries ltac:(simpl; lia)) as (arr & Ea & Fa).
  assert (DemoSmp.lapics = arr) as El by (unfold DemoSmp.lapics; by rewrite Ea).
  destruct (cores_own_stacks DemoSmp.core_addr DemoSmp.STACK (λ w, w) 0x150000 0xFEE00000 0 DemoSmp.lapics DemoSmp.entries 0x200F00 DemoSmp.mem0 0%nat)
    as (m & w1 & w2 & E0 & E1 & E2 & bs & Hl & Hnd & H).
  - intros w. split; [|done|done|done]. intros l Hm. exists l. split; [done|]. apply Forall_Forall2_diag, Forall_forall. by intros [].
  - split; [|split]; vm_compute; congruence.
  - intros i Hi. unfold DemoSmp.core_addr. lia.
  - by rewrite El.
  - simpl. lia.
  - apply NoDup_cons. split; [by rewrite list_elem_of_singleton|apply NoDup_singleton].
  - right. apply list_elem_of_singleton. reflexivity.
  - split; vm_compute; congruence.
  - vm_compute. reflexivity.
  - by left.
  - simpl. lia.
  - exists m, w1, w2. split; [exact E0|]. split; [exact E1|]. split; [exact E2|].
    destruct bs as [|b0 [|b1 [|? ?]]]; simpl in Hl; try lia. exists b0, b1. split.
    + apply NoDup_cons in Hnd as [Hn _]. rewrite list_elem_of_singleton in Hn. exact Hn.
    + split; [exact (proj2 (proj2 (H 0%nat _ b0 eq_refl eq_refl)))|exact (proj2 (proj2 (H 1%nat _ b1 eq_refl eq_refl)))].
Defined.
