(* ===== verification/Modules.v ===== *)
(** Kernel modules: kernel/include/sys/module.hpp.

    The manager keeps for every loaded module its layout in the linker and its entry points.
    The code of a module is a parameter: [run] says what the entry point at an address returns and
    leaves in memory. *)
From S2P Require Import Prelude Memory Layout Bitmap Slots Strings Elf Linker LinkerSpec ModulePages LinkerInv Apic.

Record Module_ := MkModule { layout : option Z; enter : Z; exit : Z }.
Record ModuleManager (S : Type) := MkMM { modules : StaticArray Module_; _linker : Linker S }.
Arguments MkMM {S} _ _.
Arguments modules {S} _.
Arguments _linker {S} _.

Section modules.
Context {S : Type} `{ModulePages S} (junk : ram) (t : kexp_table) (lit : string → Z) (run : Z → ram → res (Z * ram)).

Definition manager_init (L : Linker S) : ModuleManager S := MkMM (array_init 64) L.

(** A call of module code. *)
Definition call (entry : Z) (L : Linker S) : res (Linker S) := '(_, m) ← run entry (lmem L); Ok (set_mem m L).

Definition registerModule (fuel : nat) (ptr : Z) (M : ModuleManager S) : res (bool * ModuleManager S) :=
  let L := _linker M in
  obj ← create lit fuel (lmem L) ptr;
  match obj with
  | None => Ok (false, M)
  | Some obj =>
      '(layout, L) ← load junk fuel t (Some obj) L;
      match layout with
      | None => Ok (false, MkMM (modules M) L)
      | Some i =>
          match Slots.ptr (layouts L) i with
          | None => Fault i
          | Some l =>
              enter ← layout_find_symbol fuel (lmem L) l (lit "module_enter");
              exit ← layout_find_symbol fuel (lmem L) l (lit "module_exit");
              if enter <? 0x1000 then L ← unload (Some i) L; Ok (false, MkMM (modules M) L)
              else if negb (exit =? 0) && (exit <? 0x1000) then L ← unload (Some i) L; Ok (false, MkMM (modules M) L)
              else
                L ← (if negb (enter =? 0) then call enter L else Ok L);
                '(_, a) ← emplace (MkModule (Some i) enter exit) (modules M);
                Ok (true, MkMM a L)
          end
      end
  end.

Fixpoint destroy_loop (ms : list Module_) (L : Linker S) : res (Linker S) :=
  match ms with
  | [] => Ok L
  | x :: ms =>
      L ← (if 0x1000 <=? exit x then call (exit x) L else Ok L);
      L ← (match layout x with Some i => unload (Some i) L | None => Ok L end);
      destroy_loop ms L
  end.
Definition manager_destroy (M : ModuleManager S) : res (ModuleManager S) :=
  ms ← for_each (modules M);
  L ← destroy_loop ms (_linker M);
  '(_, a) ← clear (modules M);
  Ok (MkMM a L).

(** ** The invariant: the modules are the loaded layouts *)

(** The layout of [x] is in use by [x]. *)
Definition layout_ids (ms : list Module_) : list Z := omap layout ms.

Record manager_inv (M : ModuleManager S) (ms : list Module_) (P : Pages) : Prop := {
  mi_linker : linker_inv (_linker M) P;
  mi_modules : filled 64 (modules M) ms;
  mi_layouts : Forall (λ x, ∃ i, layout x = Some i ∧ 0 ≤ i) ms;
  mi_once : NoDup (layout_ids ms);
  mi_live i : 0 ≤ i → (∃ l, view (layouts (_linker M)) !! Z.to_nat i = Some (Some l)) ↔ i ∈ layout_ids ms
}.

Lemma set_mem_inv (L : Linker S) P m : linker_inv L P → linker_inv (set_mem m L) P.
Proof using. intros []. by split. Qed.

Lemma call_ok entry (L : Linker S) P : (∃ r, run entry (lmem L) = Ok r) → linker_inv L P →
  ∃ m, call entry L = Ok (set_mem m L) ∧ linker_inv (set_mem m L) P.
Proof using.
  intros [[v m] E] Hinv. unfold call. rewrite E, bind_Ok. exists m. split; [done|]. by apply set_mem_inv.
Qed.

(** The searches for names end, or run out of fuel. *)
Lemma strcmp_settles fuel m a b : settles (strcmp fuel m a b).
Proof using.
  revert a b. induction fuel as [|fuel IH]; intros a b; simpl; [by right|]. destruct (_ && _); [apply IH|apply settles_ok].
Qed.

Lemma find_section_settles fuel m o name : settles (find_section fuel m o name).
Proof using.
  unfold find_section. apply settles_bind; [|intros r; apply settles_ok]. apply first_index_settles. intros i. cbv zeta.
  destruct (negb _); [|apply settles_ok]. apply settles_bind; [apply strcmp_settles|intros c; apply settles_ok].
Qed.

Lemma create_settles fuel m ptr : settles (create lit fuel m ptr).
Proof using.
  unfold create, object_init. destruct (_ || _); [apply settles_ok|]. destruct (negb _); [apply settles_ok|].
  apply settles_bind; [|intros o; apply settles_ok]. cbv zeta.
  repeat (apply settles_bind; [apply find_section_settles|intros ?]). apply settles_ok.
Qed.

Lemma find_symbol_settles fuel m o name : settles (find_symbol fuel m o name).
Proof using.
  assert (∀ sym str, settles (_find_symbol fuel m o name sym str)) as Hs.
  { intros sym str. unfold _find_symbol. destruct (_ || _); [apply settles_ok|]. cbv zeta.
    apply settles_bind; [|intros r; apply settles_ok]. apply first_index_settles. intros i.
    destruct (negb _); [|apply settles_ok]. apply settles_bind; [apply strcmp_settles|intros c; apply settles_ok]. }
  unfold find_symbol. apply settles_bind; [apply Hs|]. intros s. destruct (negb _); [apply settles_ok|apply Hs].
Qed.

Lemma layout_find_symbol_settles fuel m l name : settles (layout_find_symbol fuel m l name).
Proof using.
  unfold layout_find_symbol. destruct (l_obj l) as [obj|]; [|apply settles_ok]. destruct (l_map l); [|apply settles_ok].
  destruct (_ =? _); [apply settles_ok|]. apply settles_bind; [apply find_symbol_settles|]. intros s.
  repeat (case_match; try apply settles_ok).
Qed.

(** ** Registration *)

Definition register_post (M : ModuleManager S) (ms : list Module_) (P : Pages) (r : res (bool * ModuleManager S)) : Prop :=
  match r with
  | Ok (true, M') => ∃ x l P', manager_inv M' (ms ++ [x]) P' ∧ layout_pages l ## page_set P ∧ takes (layout_pages l) P P'
      ∧ 0x1000 ≤ enter x ∧ (exit x = 0 ∨ 0x1000 ≤ exit x)
  | Ok (false, M') => ∃ P', manager_inv M' ms P' ∧ frame_of P' = frame_of P ∧ table_taken P P'
  | NoFuel => True
  | Panic msg => msg ∈ load_msgs
  | Fault _ => False
  end.

Lemma manager_same M ms P L' P' : manager_inv M ms P → view (layouts L') = view (layouts (_linker M)) → linker_inv L' P' →
  manager_inv (MkMM (modules M) L') ms P'.
Proof. intros [H1 H2 H3 H4 H5] E Hinv. split; try done. intros i Hi. simpl. rewrite E. by apply H5. Qed.

Lemma ids_length ms : Forall (λ x, ∃ i, layout x = Some i ∧ 0 ≤ i) ms → length (layout_ids ms) = length ms.
Proof. induction 1 as [|x ms (i & Hi & _) _ IH]; [done|]. unfold layout_ids in *. simpl. rewrite Hi. simpl. by f_equal. Qed.

(** There is a slot for the module of a layout that was just loaded. *)
Lemma modules_room M ms P i : manager_inv M ms P → 0 ≤ i → view (layouts (_linker M)) !! Z.to_nat i = Some None → Z.of_nat (length ms) < 64.
Proof.
  intros [H1 H2 H3 H4 H5] Hi Hv. pose proof (view_length 64 _ (li_array _ _ H1)) as Hlen.
  assert (i ∉ layout_ids ms) as Hn by (intros [l Hl]%H5; [congruence|done]).
  assert (i :: layout_ids ms ⊆+ seqZ 0 64) as Hsub.
  { apply NoDup_submseteq; [by apply NoDup_cons|]. intros j Hj. apply elem_of_seqZ. apply elem_of_cons in Hj as [->|Hj].
    - apply lookup_lt_Some in Hv. lia.
    - unfold layout_ids in Hj. apply list_elem_of_omap in Hj as (x & Hx & Ex). rewrite Forall_forall in H3.
      destruct (H3 x Hx) as (k & Ek & Hk). assert (k = j) as -> by congruence.
      destruct (proj2 (H5 j Hk)) as [l Hl]; [apply list_elem_of_omap; by exists x|]. apply lookup_lt_Some in Hl. lia. }
  apply submseteq_length in Hsub. rewrite length_seqZ in Hsub. simpl in Hsub. rewrite (ids_length _ H3) in Hsub. lia.
Qed.

Lemma unload_back (M : ModuleManager S) ms P P1 i l L1 : manager_inv M ms P → 0 ≤ i → view (layouts (_linker M)) !! Z.to_nat i = Some None →
  view (layouts L1) = <[Z.to_nat i := Some l]> (view (layouts (_linker M))) → layout_pages l ## page_set P → takes (layout_pages l) P P1 →
  linker_inv L1 P1 → register_post M ms P (L ← unload (Some i) L1; Ok (false, MkMM (modules M) L)).
Proof.
  intros HM Hi Hv Hv1 Hd Htk Hinv1. assert (view (layouts L1) !! Z.to_nat i = Some (Some l)) as Hvi.
  { rewrite Hv1. apply list_lookup_insert_eq. by apply lookup_lt_Some in Hv. }
  destruct (unload_ok L1 P1 i l Hinv1 Hi Hvi) as (L2 & P2 & -> & Hinv2 & Hrm & Hv2). rewrite bind_Ok. exists P2.
  split; [|by apply (takes_removes _ _ _ _ Hd Htk Hrm)]. apply (manager_same M ms P); [done| |done].
  rewrite Hv2, Hv1, list_insert_insert_eq. by apply list_insert_id.
Qed.

Lemma register_new (M : ModuleManager S) ms P P1 i l L1 a x : manager_inv M ms P → 0 ≤ i → view (layouts (_linker M)) !! Z.to_nat i = Some None →
  view (layouts L1) = <[Z.to_nat i := Some l]> (view (layouts (_linker M))) → linker_inv L1 P1 →
  layout x = Some i → filled 64 a (ms ++ [x]) → manager_inv (MkMM a L1) (ms ++ [x]) P1.
Proof.
  intros [H1 H2 H3 H4 H5] Hi Hv Hv1 Hinv1 Hx Ha.
  assert (layout_ids (ms ++ [x]) = layout_ids ms ++ [i]) as Eids by (unfold layout_ids; rewrite omap_app; simpl; by rewrite Hx).
  assert (i ∉ layout_ids ms) as Hn by (intros [k Hk]%H5; [congruence|done]).
  split; simpl; [done|done| | |].
  - apply Forall_app. split; [done|]. apply Forall_singleton. by exists i.
  - rewrite Eids. apply NoDup_app. split; [done|]. split; [|apply NoDup_singleton]. intros k Hk ->%list_elem_of_singleton. done.
  - intros k Hk. rewrite Eids, elem_of_app, list_elem_of_singleton, Hv1. destruct (decide (k = i)) as [->|Hne].
    + split; [by right|]. intros _. exists l. apply list_lookup_insert_eq. by apply lookup_lt_Some in Hv.
    + rewrite list_lookup_insert_ne by lia. rewrite H5 by done. split; [by left|by intros [?|?]].
Qed.

(** Without layouts there are no pages. *)
Lemma empty_space (L : Linker S) P : linker_inv L P → (∀ i, 0 ≤ i → ¬ ∃ l, view (layouts L) !! Z.to_nat i = Some (Some l)) → page_set P = ∅.
Proof using.
  intros Hinv Hnone. pose proof (li_tiling _ _ Hinv) as Ht. rewrite live_none in Ht; [done|].
  destruct (live (view (layouts L))) eqn:El; [done|]. destruct (live_entry (view (layouts L))) as (i & l & Hi); [lia|].
  destruct (Hnone (Z.of_nat i)); [lia|]. exists l. by rewrite Nat2Z.id.
Qed.

Hypothesis run_returns : ∀ entry m, ∃ r, run entry m = Ok r.

Lemma register_module_ok fuel ptr M ms P : manager_inv M ms P → register_post M ms P (registerModule fuel ptr M).
Proof using run_returns.
  intros HM. assert (register_post M ms P (Ok (false, M))) as Hsame by (exists P; split_and!; [done|done|apply table_same]).
  unfold registerModule. destruct (create_settles fuel (lmem (_linker M)) ptr) as [[[obj|] ->]| ->]; [|done..].
  rewrite bind_Ok. pose proof (load_ok junk fuel t (Some obj) (_linker M) P (mi_linker _ _ _ HM)) as Hload.
  destruct (load junk fuel t (Some obj) (_linker M)) as [[[i|] L1]|msg|a|]; [| |done..].
  2:{ destruct Hload as (Hv & P' & Ef & Ht & Hinv). exists P'. split; [by apply (manager_same M ms P)|done]. }
  destruct Hload as (l & P1 & Hi & Hv & Hv1 & Hd & Htk & Hinv1). rewrite bind_Ok. pose proof (lookup_lt_Some _ _ _ Hv) as Hlt.
  rewrite (ptr_view 64 _ (li_array _ _ Hinv1)) by done. rewrite Hv1, list_lookup_insert_eq by done. cbn [mjoin option_join].
  destruct (layout_find_symbol_settles fuel (lmem L1) l (lit "module_enter")) as [[en ->]| ->]; [|done]. rewrite bind_Ok.
  destruct (layout_find_symbol_settles fuel (lmem L1) l (lit "module_exit")) as [[ex ->]| ->]; [|done]. rewrite bind_Ok.
  destruct (Z.ltb_spec en 0x1000); [by eapply unload_back|].
  destruct (negb (ex =? 0) && (ex <? 0x1000)) eqn:Eex; [by eapply unload_back|]. rewrite (proj2 (Z.eqb_neq en 0)) by lia. cbn [negb].
  destruct (call_ok en L1 _ (run_returns en (lmem L1)) Hinv1) as (m & -> & Hinv2). rewrite bind_Ok.
  destruct (emplace_filled 64 (modules M) ms (MkModule (Some i) en ex) (mi_modules _ _ _ HM) (modules_room M ms P i HM Hi Hv)) as (k & a & -> & Ha).
  rewrite bind_Ok. exists (MkModule (Some i) en ex), l, P1. split; [by eapply register_new|]. split_and!; [done|done|simpl; lia..].
Qed.

(** ** The destructor *)

(** The layouts of the modules [ms], and no others, are unloaded. *)
Lemma destroy_loop_ok ms L P : linker_inv L P → Forall (λ x, ∃ i, layout x = Some i ∧ 0 ≤ i) ms → NoDup (layout_ids ms) →
  (∀ i, 0 ≤ i → (∃ l, view (layouts L) !! Z.to_nat i = Some (Some l)) ↔ i ∈ layout_ids ms) →
  ∃ L' P', destroy_loop ms L = Ok L' ∧ linker_inv L' P' ∧ removes (page_set P) P P'
    ∧ ∀ i, 0 ≤ i → ¬ ∃ l, view (layouts L') !! Z.to_nat i = Some (Some l).
Proof using run_returns.
  revert L P. induction ms as [|x ms IH]; intros L P Hinv Hms Hnd Hlive.
  - assert (∀ i, 0 ≤ i → ¬ ∃ l, view (layouts L) !! Z.to_nat i = Some (Some l)) as Hnone by (intros i Hi; rewrite Hlive by done; apply not_elem_of_nil).
    exists L, P. split_and!; [done|done| |done]. rewrite (empty_space L P Hinv Hnone). apply removes_none.
  - apply Forall_cons in Hms as [(i & Hx & Hi) Hms]. unfold layout_ids in Hnd, Hlive. simpl in Hnd, Hlive. rewrite Hx in Hnd, Hlive.
    fold (layout_ids ms) in Hnd, Hlive. apply NoDup_cons in Hnd as [Hn Hnd].
    assert (∃ m, (if 0x1000 <=? exit x then call (exit x) L else Ok L) = Ok (set_mem m L)) as [m Em].
    { destruct (0x1000 <=? exit x); [destruct (call_ok (exit x) L P (run_returns _ _) Hinv) as (m & ? & _); by exists m|].
      exists (lmem L). by destruct L. }
    cbn [destroy_loop]. rewrite Em, bind_Ok, Hx. destruct (proj2 (Hlive i Hi) (list_elem_of_here _ _)) as [l Hl].
    destruct (unload_ok (set_mem m L) P i l (set_mem_inv L P m Hinv) Hi Hl) as (L1 & P1 & -> & Hinv1 & Hrm & Hv1). rewrite bind_Ok.
    destruct (IH L1 P1 Hinv1 Hms Hnd) as (L2 & P2 & E2 & Hinv2 & Hrm2 & Hnone2).
    + intros k Hk. rewrite Hv1. simpl. pose proof (lookup_lt_Some _ _ _ Hl). destruct (decide (k = i)) as [->|Hne].
      * rewrite list_lookup_insert_eq by done. split; [by intros [? ?]|done].
      * rewrite list_lookup_insert_ne by lia. rewrite Hlive, elem_of_cons by done. split; [intros [?|?]; done|by right].
    + exists L2, P2. split_and!; [done|done|by eapply removes_all|done].
Qed.

Lemma manager_init_inv (L : Linker S) P : linker_inv L P → live (view (layouts L)) = 0%nat → manager_inv (manager_init L) [] P.
Proof using.
  intros Hinv Hl. split; simpl; [done|apply filled_nil; lia|done|apply NoDup_nil; done|]. intros i Hi. split; [|intros []%elem_of_nil].
  intros [l E]. pose proof (live_delete _ _ _ E). lia.
Qed.

Lemma manager_destroy_ok M ms P : manager_inv M ms P →
  ∃ M' P', manager_destroy M = Ok M' ∧ manager_inv M' [] P' ∧ removes (page_set P) P P'.
Proof using run_returns.
  intros [H1 H2 H3 H4 H5]. unfold manager_destroy. rewrite (filled_each 64 _ _ H2), bind_Ok.
  destruct (destroy_loop_ok ms (_linker M) P H1 H3 H4 H5) as (L' & P' & -> & Hinv & Hrm & Hnone). rewrite bind_Ok.
  destruct (array_clear_ok 64 (modules M) (proj1 H2)) as (a & -> & Ha & Hv). rewrite bind_Ok. eexists _, P'. split; [done|]. split; [|done].
  split; simpl; [done| |done|apply NoDup_nil; done|].
  - split; [done|]. by rewrite Hv.
  - intros i Hi. split; [intros Hl; by destruct (Hnone i Hi)|intros []%elem_of_nil].
Qed.
End modules.

(** C11: the modules are the loaded layouts. In every state of the manager the layouts of its
    modules are distinct, and they are exactly the layouts the linker holds, whose pages are
    exactly the allocated and exactly the mapped pages of module space. [registerModule] keeps this: when it
    returns true there is one more module, on pages that were free and are now mapped to frames
    that were free, with an entry point that is not in the first page; when it returns false,
    whether the object was malformed, could not be linked or had a bad entry point, modules,
    mapped pages and their frames are what they were. It stops only by the panics for a full
    table, exhausted module space and exhausted memory: there is always a slot for a module
    that was linked. The destructor returns and leaves no module, no layout and no page. The code
    of the modules may change memory in any way; it returns. *)
Theorem modules_own_space {S} `{ModulePages S} junk t lit run (M : ModuleManager S) ms P :
  (∀ entry m, ∃ r, run entry m = Ok r) → manager_inv M ms P →
  (∀ fuel ptr, register_post M ms P (registerModule junk t lit run fuel ptr M))
  ∧ (∃ M' P', manager_destroy run M = Ok M' ∧ manager_inv M' [] P' ∧ removes (page_set P) P P')
  ∧ ∀ sp m P0, space_ok sp P0 → frame_of P0 = ∅ → manager_inv (manager_init (linker_init sp m)) [] P0.
Proof.
  intros Hrun HM. split; [|split].
  - intros fuel ptr. by apply register_module_ok.
  - by eapply manager_destroy_ok.
  - intros sp m P0 Hsp HP. apply manager_init_inv; [by apply linker_init_inv|].
    change (layouts (linker_init sp m)) with (array_init 64 : StaticArray Layout). rewrite (proj2 (array_init_ok (T := Layout) 64 ltac:(lia))).
    apply live_replicate.
Qed.

(** The demo object, whose entry point is called "go"; it has no exit function. *)
Module DemoModule.
Definition lit (s : string) : Z :=
  if decide (s = "module_enter"%string) then 4096 + 93 else if decide (s = "module_exit"%string) then 100 else DemoObject.lit s.
Definition run (_ : Z) (m : ram) : res (Z * ram) := Ok (0, m).
Definition manager : ModuleManager Pages := manager_init (linker_init Ledger.empty DemoObject.mem).
Definition register : res (bool * ModuleManager Pages) := registerModule (λ _, 0) DemoObject.kexp lit run 20 4096 manager.
End DemoModule.

Lemma modules_own_space_witness : ∃ M' x l P', DemoModule.register = Ok (true, M') ∧ manager_inv M' [x] P'
  ∧ takes (layout_pages l) Ledger.empty P'
  ∧ ∃ M'' P'', manager_destroy DemoModule.run M' = Ok M'' ∧ manager_inv M'' [] P'' ∧ removes (page_set P') P' P''.
Proof.
  assert (∀ e m, ∃ r, DemoModule.run e m = Ok r) as Hrun by (intros e m; by eexists).
  assert (manager_inv DemoModule.manager [] Ledger.empty) as HM0.
  { apply manager_init_inv; [apply linker_init_inv; [exact ledger_empty|done]|]. vm_compute. reflexivity. }
  destruct (modules_own_space (λ _, 0) DemoObject.kexp DemoModule.lit DemoModule.run DemoModule.manager [] Ledger.empty Hrun HM0) as (Hreg & _ & _).
  assert (register_post DemoModule.manager [] Ledger.empty DemoModule.register) as HR by exact (Hreg 20%nat 4096). clear Hreg.
  assert (match DemoModule.register with Ok (b, _) => b | _ => false end = true) as E by (vm_compute; reflexivity).
  revert HR E. destruct DemoModule.register as [[[] M']| | |]; [|discriminate..]. intros (x & l & P' & HM & _ & Htk & _) _.
  exists M', x, l, P'. split; [reflexivity|]. split; [exact HM|]. split; [exact Htk|].
  destruct (modules_own_space (λ _, 0) DemoObject.kexp DemoModule.lit DemoModule.run M' [x] _ Hrun HM) as (_ & Hd & _).
  exact Hd.
Defined.
