(* ===== verification/Display.v ===== *)
(** The text screen of the boot: kernel/include/driver/early_display.hpp and
    kernel/src/driver/early_display.cpp. *)
From S2P Require Import Prelude Memory Strings.

Definition FB : Z := 0xB8000.
Definition width : Z := 80.
Definition height : Z := 25.
Definition ENTRY_SIZE : Z := 2.

Record Cursor := MkCursor { x : Z; y : Z }.
(** [ports] is the bytes written to I/O ports, in order. *)
Record display := Display { mem : ram; cursor : Cursor; attr : Z; ports : list (Z * Z) }.
Definition with_mem (m : ram) (d : display) : display := Display m (cursor d) (attr d) (ports d).
Definition with_cursor (c : Cursor) (d : display) : display := Display (mem d) c (attr d) (ports d).
Definition with_attr (a : Z) (d : display) : display := Display (mem d) (cursor d) a (ports d).
Definition outb (port v : Z) (d : display) : display := Display (mem d) (cursor d) (attr d) (ports d ++ [(port, u8 v)]).

Definition set_fg (color : Z) (d : display) : display := with_attr (u8 (Z.lor (Z.land (attr d) 0xF0) color)) d.
Definition set_bg (color : Z) (d : display) : display := with_attr (u8 (Z.lor (Z.land (attr d) 0x0F) (Z.shiftl color 4))) d.

Definition fb_put (px py c : Z) (d : display) : display :=
  let index := wrap 16 (py * width + px) in
  with_mem (wr8 (wr8 (mem d) (FB + ENTRY_SIZE * index) c) (FB + ENTRY_SIZE * index + 1) (attr d)) d.

Definition move_cursor (d : display) : display :=
  let pos := wrap 16 (y (cursor d) * width + x (cursor d)) in
  outb 0x3D5 (Z.land (Z.shiftr pos 8) 0xFF) (outb 0x3D4 0x0E (outb 0x3D5 (Z.land pos 0xFF) (outb 0x3D4 0x0F d))).

Definition scroll (d : display) : display :=
  if height <=? y (cursor d) then
    let m := memcpy (mem d) (FB + width) FB ((height - 1) * width * ENTRY_SIZE) in
    let m := memset m (FB + (height - 1) * width) 0 (width * ENTRY_SIZE) in
    with_cursor (MkCursor (x (cursor d)) (height - 1)) (with_mem m d)
  else d.

(** The switch on the character, which is signed. *)
Definition put_char (c : Z) (d : display) : display :=
  let '(MkCursor px py) := cursor d in
  if c =? 10 then with_cursor (MkCursor 0 (u8 (py + 1))) d
  else if c =? 9 then with_cursor (MkCursor (u8 (px + 4)) py) d
  else if c =? 13 then with_cursor (MkCursor 0 py) d
  else if c =? 8 then
    if 0 <? px then fb_put (px - 1) py 32 (with_cursor (MkCursor (px - 1) py) d) else d
  else if 32 <=? c then with_cursor (MkCursor (u8 (px + 1)) py) (fb_put px py c d)
  else d.

Definition putc (c : Z) (d : display) : display :=
  let d := put_char c d in
  let d := if width <=? x (cursor d) then with_cursor (MkCursor 0 (u8 (y (cursor d) + 1))) d else d in
  scroll (move_cursor d).

Fixpoint clear_row (n : nat) (px py : Z) (d : display) : display :=
  match n with O => d | S n => clear_row n (px + 1) py (fb_put px py 32 d) end.
Fixpoint clear_rows (n : nat) (py : Z) (d : display) : display :=
  match n with O => d | S n => clear_rows n (py + 1) (clear_row (Z.to_nat width) 0 py d) end.
Definition clear (d : display) : display := clear_rows (Z.to_nat height) 0 d.

(** ** Cells and the cursor *)

Definition on_screen (px py : Z) : Prop := 0 ≤ px < width ∧ 0 ≤ py < height.
Definition cell_addr (px py : Z) : Z := FB + 2 * (py * width + px).
(** The symbol and the attribute at a position. *)
Definition cell (d : display) (px py : Z) : Z * Z := (mem d (cell_addr px py), mem d (cell_addr px py + 1)).
Definition display_ok (d : display) : Prop := on_screen (x (cursor d)) (y (cursor d)) ∧ 0 ≤ attr d < 256.

(** What a character does to a screen that need not scroll: the cell it writes and the
    position it leaves, on a line that may be one below the screen. *)
Definition written (c : Z) (px py : Z) : option (Z * Z * Z) :=
  if c =? 8 then if 0 <? px then Some (px - 1, py, 32) else None
  else if 32 <=? c then Some (px, py, c) else None.
Definition next_pos (c : Z) (px py : Z) : Z * Z :=
  let wrapped nx := if width <=? nx then (0, py + 1) else (nx, py) in
  if c =? 10 then (0, py + 1)
  else if c =? 9 then wrapped (px + 4)
  else if c =? 13 then (0, py)
  else if c =? 8 then (if 0 <? px then px - 1 else 0, py)
  else if 32 <=? c then wrapped (px + 1) else (px, py).

(** Both stores of [fb_put], at the 16-bit index the code computes. *)
Lemma store_cell m px py s a b : on_screen px py → 
  wr8 (wr8 m (FB + ENTRY_SIZE * wrap 16 (py * width + px)) s) (FB + ENTRY_SIZE * wrap 16 (py * width + px) + 1) a b
  = if b =? cell_addr px py then u8 s else if b =? cell_addr px py + 1 then u8 a else m b.
Proof.
  intros [Hx Hy]. unfold width, height in *. rewrite wrap_small by lia.
  change (FB + ENTRY_SIZE * (py * 80 + px)) with (cell_addr px py). unfold wr8.
  destruct (Z.eqb_spec b (cell_addr px py + 1)) as [->|]; [by rewrite (proj2 (Z.eqb_neq _ _)) by lia|done].
Qed.

Lemma cell_inj px py qx qy : on_screen px py → on_screen qx qy → cell_addr px py = cell_addr qx qy → px = qx ∧ py = qy.
Proof. unfold on_screen, cell_addr, width. lia. Qed.

(** One cell is written, or none, and nothing else. *)
Definition writes (m m' : ram) (o : option (Z * Z * Z)) (a : Z) : Prop :=
  match o with
  | None => m' = m
  | Some (px, py, s) => ∀ b, m' b = if b =? cell_addr px py then s else if b =? cell_addr px py + 1 then a else m b
  end.

(** The column that runs off the line wraps to the next one. *)
Definition wrap_line (d : display) : display :=
  if width <=? x (cursor d) then with_cursor (MkCursor 0 (u8 (y (cursor d) + 1))) d else d.

Lemma putc_alt c d : putc c d = scroll (move_cursor (wrap_line (put_char c d))).
Proof. done. Qed.

Lemma put_char_ok c d : display_ok d → -128 ≤ c < 128 →
  writes (mem d) (mem (put_char c d)) (written c (x (cursor d)) (y (cursor d))) (attr d)
  ∧ attr (put_char c d) = attr d
  ∧ cursor (wrap_line (put_char c d)) = let '(nx, ny) := next_pos c (x (cursor d)) (y (cursor d)) in MkCursor nx ny.
Proof.
  intros [[Hx Hy] Ha] Hc. destruct d as [m [px py] a p]. unfold wrap_line. simpl in *.
  unfold put_char, written, next_pos. cbn [x y cursor attr mem]. unfold width, height in Hx, Hy.
  destruct (Z.eqb_spec c 10) as [->|]; simpl; [split; [done|]; split; [done|]; by rewrite wrap_small by lia|].
  destruct (Z.eqb_spec c 9) as [->|]; simpl.
  { split; [done|]. split; [done|]. unfold width. rewrite wrap_small by lia. destruct (80 <=? px + 4); [|done].
    simpl. by rewrite wrap_small by lia. }
  destruct (Z.eqb_spec c 13) as [->|]; simpl; [done|].
  destruct (Z.eqb_spec c 8) as [->|]; simpl.
  { destruct (Z.ltb_spec 0 px); simpl.
    - split; [|split; [done|]; unfold width; by rewrite (proj2 (Z.leb_gt _ _)) by lia]. intros b.
      rewrite store_cell by (unfold on_screen, width, height; lia). by rewrite (wrap_small 8 a) by lia.
    - assert (px = 0) as -> by lia. done. }
  destruct (Z.leb_spec 32 c); simpl.
  - split; [|split; [done|]].
    + intros b. rewrite store_cell by (unfold on_screen, width, height; lia). by rewrite !wrap_small by lia.
    + unfold width. rewrite wrap_small by lia. destruct (80 <=? px + 1); [|done]. simpl. by rewrite wrap_small by lia.
  - split; [done|]. split; [done|]. unfold width. by rewrite (proj2 (Z.leb_gt _ _)) by lia.
Qed.

Lemma put_char_ports c d : ports (put_char c d) = ports d.
Proof. destruct d as [m [px py] a p]. unfold put_char. simpl. repeat case_match; done. Qed.

Lemma move_cursor_ok d nx ny : cursor d = MkCursor nx ny → 0 ≤ nx < width → 0 ≤ ny ≤ height →
  mem (move_cursor d) = mem d ∧ attr (move_cursor d) = attr d ∧ cursor (move_cursor d) = cursor d
  ∧ ports (move_cursor d) = ports d ++ [(0x3D4, 0x0F); (0x3D5, (ny * width + nx) mod 256);
                                        (0x3D4, 0x0E); (0x3D5, (ny * width + nx) / 256)].
Proof.
  intros E Hx Hy. unfold width, height in *. unfold move_cursor. rewrite E. cbn [x y].
  split; [done|]. split; [done|]. split; [exact E|]. cbn [ports outb]. rewrite <- !app_assoc. simpl.
  
  rewrite Z.shiftr_div_pow2, !(land_mask _ 8) by lia. change (2 ^ 8) with 256. unfold width.
  set (pos := ny * 80 + nx). assert (0 ≤ pos < 2 ^ 12) by lia.
  pose proof (Z.mod_pos_bound pos 256 ltac:(lia)). assert (0 ≤ pos / 256 < 256) by dlia.
  rewrite (wrap_small 16 pos) by lia. rewrite (Z.mod_small (pos / 256)) by done. rewrite !wrap_small by lia. done.
Qed.

Lemma next_pos_bounds c px py : on_screen px py → -128 ≤ c < 128 →
  0 ≤ fst (next_pos c px py) < width ∧ 0 ≤ snd (next_pos c px py) ≤ height.
Proof. unfold on_screen, next_pos, width, height. intros [Hx Hy] Hc. repeat case_match; simpl; lia. Qed.

Lemma written_on_screen c px py qx qy s : on_screen px py → -128 ≤ c < 128 → written c px py = Some (qx, qy, s) → on_screen qx qy.
Proof. unfold on_screen, written. intros [Hx Hy] Hc. repeat case_match; intros; simplify_eq; lia. Qed.

(** ** Scrolling *)

(** A copy to [w] bytes above the source, lowest address first, repeats the first [w] bytes. *)
Lemma memcpy_repeats w n : ∀ m s a, bytes_ok m → 0 < w →
  memcpy_loop n m (s + w) s a = if (s <=? a) && (a <? s + w + Z.of_nat n) then m (s + (a - s) mod w) else m a.
Proof.
  induction n as [|n IH]; intros m s a Hb Hw; cbn [memcpy_loop].
  - destruct (Z.leb_spec s a), (Z.ltb_spec a (s + w + Z.of_nat 0)); simpl; try done. rewrite Z.mod_small by lia. f_equal. lia.
  - replace (s + w + 1) with (s + 1 + w) by lia. rewrite IH by auto using wr8_bytes.
    destruct (Z.leb_spec (s + 1) a), (Z.ltb_spec a (s + 1 + w + Z.of_nat n)), (Z.leb_spec s a),
      (Z.ltb_spec a (s + w + Z.of_nat (S n))); simpl; try lia; try (rewrite wr8_other by lia; done).
    + pose proof (Z.mod_pos_bound (a - (s + 1)) w Hw). pose proof (Z.div_mod (a - (s + 1)) w ltac:(lia)) as E.
      destruct (decide ((a - (s + 1)) mod w = w - 1)) as [El|Hl].
      * rewrite El. replace (s + 1 + (w - 1)) with (s + w) by lia. rewrite wr8_same, wrap_small by apply Hb.
        replace ((a - s) mod w) with 0; [f_equal; lia|]. apply Z.mod_unique with ((a - (s + 1)) / w + 1); lia.
      * rewrite wr8_other by lia. f_equal.
        replace ((a - s) mod w) with ((a - (s + 1)) mod w + 1); [lia|]. apply Z.mod_unique with ((a - (s + 1)) / w); lia.
    + assert (a = s) as -> by lia. rewrite Z.sub_diag, Z.mod_0_l by lia. rewrite Z.add_0_r. rewrite wr8_other by lia. done.
Qed.

(** The byte at offset [k] of the frame buffer after the code scrolls. *)
Definition scrolled (m : ram) (k : Z) : Z :=
  if (1920 <=? k) && (k <? 2080) then 0 else if k <? 3920 then m (FB + k mod 80) else m (FB + k).

Lemma scroll_mem d b : bytes_ok (mem d) → height ≤ y (cursor d) →
  mem (scroll d) b = if (FB <=? b) && (b <? FB + 4000) then scrolled (mem d) (b - FB) else mem d b.
Proof.
  intros Hb Hy. unfold scroll. rewrite (proj2 (Z.leb_le _ _)) by done. cbn [mem with_cursor with_mem].
  unfold memset, memcpy, scrolled.
  replace (Z.to_nat ((height - 1) * width * ENTRY_SIZE)) with 3840%nat by done.
  replace (Z.to_nat (width * ENTRY_SIZE)) with 160%nat by done.
  replace (FB + (height - 1) * width) with (FB + 1920) by done. unfold width.
  destruct (Z.leb_spec (FB + 1920) b), (Z.ltb_spec b (FB + 2080)).
  1: { rewrite fill8_in by lia. rewrite (proj2 (Z.leb_le FB b)), (proj2 (Z.ltb_lt b _)) by lia. simpl.
       rewrite (proj2 (Z.leb_le 1920 _)), (proj2 (Z.ltb_lt _ 2080)) by lia. done. }
  all: rewrite fill8_other by lia; rewrite memcpy_repeats by (done || lia);
    replace (FB + 80 + Z.of_nat 3840) with (FB + 3920) by reflexivity;
    destruct (Z.leb_spec FB b), (Z.ltb_spec b (FB + 3920)), (Z.ltb_spec b (FB + 4000)); cbn [andb]; try (exfalso; lia); try reflexivity;
    destruct (Z.leb_spec 1920 (b - FB)), (Z.ltb_spec (b - FB) 2080); cbn [andb]; try (exfalso; lia);
    destruct (Z.ltb_spec (b - FB) 3920); try (exfalso; lia); f_equal; lia.
Qed.

(** ** Clearing *)

Lemma clear_row_ok n : ∀ px py d b, 0 ≤ px → px + Z.of_nat n ≤ width → 0 ≤ py < height → 0 ≤ attr d < 256 →
  mem (clear_row n px py d) b
  = (if (cell_addr px py <=? b) && (b <? cell_addr (px + Z.of_nat n) py) then if Z.even b then 32 else attr d else mem d b)
  ∧ attr (clear_row n px py d) = attr d ∧ cursor (clear_row n px py d) = cursor d.
Proof.
  induction n as [|n IH]; intros px py d b Hx Hn Hy Ha; cbn [clear_row].
  - split; [|done]. rewrite Z.add_0_r. destruct (Z.leb_spec (cell_addr px py) b), (Z.ltb_spec b (cell_addr px py)); simpl; done || lia.
  - destruct (IH (px + 1) py (fb_put px py 32 d) b) as (E & E2 & E3); try done; try lia.
    rewrite E, E2, E3. split; [|done]. cbn [fb_put with_mem mem attr].
    rewrite store_cell by (unfold on_screen; lia). rewrite (wrap_small 8 (attr d)) by lia. change (u8 32) with 32.
    replace (px + 1 + Z.of_nat n) with (px + Z.of_nat (S n)) by lia.
    assert (Z.even (cell_addr px py) = true) as Ee by (unfold cell_addr; rewrite Z.even_add_mul_2; done).
    assert (cell_addr (px + 1) py = cell_addr px py + 2) as E1 by (unfold cell_addr; lia).
    assert (cell_addr (px + Z.of_nat (S n)) py >= cell_addr px py + 2)%Z by (unfold cell_addr; lia).
    rewrite E1. destruct (Z.eqb_spec b (cell_addr px py)) as [->|].
    { rewrite Z.leb_refl, (proj2 (Z.leb_gt _ _)), (proj2 (Z.ltb_lt _ _)), Ee by lia. done. }
    destruct (Z.eqb_spec b (cell_addr px py + 1)) as [->|].
    { rewrite (proj2 (Z.leb_gt (_ + 2) _)), (proj2 (Z.leb_le _ _)), (proj2 (Z.ltb_lt _ _)) by lia. simpl.
      rewrite Z.even_add, Ee. done. }
    destruct (Z.leb_spec (cell_addr px py + 2) b), (Z.leb_spec (cell_addr px py) b); try done; lia.
Qed.

Lemma clear_rows_ok n : ∀ py d b, 0 ≤ py → py + Z.of_nat n ≤ height → 0 ≤ attr d < 256 →
  mem (clear_rows n py d) b
  = (if (cell_addr 0 py <=? b) && (b <? cell_addr 0 (py + Z.of_nat n)) then if Z.even b then 32 else attr d else mem d b)
  ∧ attr (clear_rows n py d) = attr d ∧ cursor (clear_rows n py d) = cursor d.
Proof.
  induction n as [|n IH]; intros py d b Hy Hn Ha; cbn [clear_rows].
  - split; [|done]. rewrite Z.add_0_r. destruct (Z.leb_spec (cell_addr 0 py) b), (Z.ltb_spec b (cell_addr 0 py)); simpl; done || lia.
  - destruct (clear_row_ok (Z.to_nat width) 0 py d b) as (R & Ra & Rc); try done; try lia.
    destruct (IH (py + 1) (clear_row (Z.to_nat width) 0 py d) b) as (E & E2 & E3); [lia|lia|rewrite Ra; done|].
    rewrite E, E2, E3, R, Ra, Rc. split; [|done].
    replace (py + 1 + Z.of_nat n) with (py + Z.of_nat (S n)) by lia.
    replace (cell_addr (0 + Z.of_nat (Z.to_nat width)) py) with (cell_addr 0 (py + 1)) by (unfold cell_addr, width; lia).
    assert (cell_addr 0 (py + 1) = cell_addr 0 py + 160) as -> by (unfold cell_addr, width; lia).
    assert (cell_addr 0 (py + Z.of_nat (S n)) >= cell_addr 0 py + 160)%Z by (unfold cell_addr, width; lia).
    destruct (Z.leb_spec (cell_addr 0 py + 160) b), (Z.leb_spec (cell_addr 0 py) b), (Z.ltb_spec b (cell_addr 0 (py + Z.of_nat (S n)))),
      (Z.ltb_spec b (cell_addr 0 py + 160)); simpl; done || lia.
Qed.

(** ** The screen *)

Lemma clear_screen_ok d b : 0 ≤ attr d < 256 →
  mem (clear d) b = (if (FB <=? b) && (b <? FB + 4000) then if Z.even b then 32 else attr d else mem d b)
  ∧ attr (clear d) = attr d ∧ cursor (clear d) = cursor d.
Proof. intros Ha. apply (clear_rows_ok (Z.to_nat height) 0 d b); unfold height; lia. Qed.

Lemma writes_inside m m' c px py a b : on_screen px py → -128 ≤ c < 128 → writes m m' (written c px py) a →
  b < FB ∨ FB + 4000 ≤ b → m' b = m b.
Proof.
  intros Hs Hc Hw Hb. destruct (written c px py) as [[[qx qy] s]|] eqn:E; simpl in Hw; [|by subst].
  destruct (written_on_screen _ _ _ _ _ _ Hs Hc E) as [? ?]. rewrite Hw. unfold cell_addr, width, height in *.
  rewrite !(proj2 (Z.eqb_neq _ _)) by lia. done.
Qed.

Lemma writes_bytes m m' c px py a : bytes_ok m → -128 ≤ c < 128 → 0 ≤ a < 256 → writes m m' (written c px py) a → bytes_ok m'.
Proof.
  intros Hb Hc Ha Hw. unfold writes, written in Hw. intros b. pose proof (Hb b).
  destruct (c =? 8); [destruct (0 <? px)|destruct (Z.leb_spec 32 c)]; subst; try done; rewrite Hw; repeat case_match; lia.
Qed.

(** C35: writing a character keeps the cursor on the screen, at the position the character calls
    for, with the last line kept when the screen scrolls; the hardware cursor is programmed with
    the position before the scroll; at most one cell is written, and no byte outside the frame
    buffer; [clear] blanks every cell and leaves the cursor.  A scroll does not move the lines up:
    it repeats the first 80 bytes of the frame buffer and blanks the bytes from 1920 to 2079. *)
Theorem display_exact c d : display_ok d → bytes_ok (mem d) → -128 ≤ c < 128 →
  let '(nx, ny) := next_pos c (x (cursor d)) (y (cursor d)) in
  let pos := ny * width + nx in
  let d' := putc c d in
  display_ok d' ∧ cursor d' = MkCursor nx (Z.min ny (height - 1)) ∧ attr d' = attr d
  ∧ ports d' = ports d ++ [(0x3D4, 0x0F); (0x3D5, pos mod 256); (0x3D4, 0x0E); (0x3D5, pos / 256)]
  ∧ (∃ m1, writes (mem d) m1 (written c (x (cursor d)) (y (cursor d))) (attr d)
       ∧ ∀ b, mem d' b = if (ny =? height) && ((FB <=? b) && (b <? FB + 4000)) then scrolled m1 (b - FB) else m1 b)
  ∧ (∀ b, b < FB ∨ FB + 4000 ≤ b → mem d' b = mem d b)
  ∧ (∀ b, mem (clear d) b = if (FB <=? b) && (b <? FB + 4000) then if Z.even b then 32 else attr d else mem d b).
Proof.
  intros Hd Hb Hc. destruct (put_char_ok c d Hd Hc) as (Hw & Ha & Hcur).
  destruct (next_pos_bounds c (x (cursor d)) (y (cursor d)) (proj1 Hd) Hc) as [Bx By].
  destruct (next_pos c (x (cursor d)) (y (cursor d))) as [nx ny] eqn:E. simpl in Bx, By.
  set (d1 := wrap_line (put_char c d)) in *.
  assert (mem d1 = mem (put_char c d) ∧ attr d1 = attr d ∧ ports d1 = ports d) as (Em & Ea & Ep).
  { unfold d1, wrap_line. destruct (width <=? _); simpl; split_and!; try done; try exact Ha; apply put_char_ports. }
  rewrite <- Em in Hw. cbv zeta. rewrite putc_alt. fold d1.
  destruct (move_cursor_ok d1 nx ny Hcur) as (Mm & Ma & Mc & Mp); [done..|].
  set (d2 := move_cursor d1) in *.
  assert (cursor (scroll d2) = MkCursor nx (Z.min ny (height - 1))) as Ec.
  { unfold scroll. rewrite Mc, Hcur. cbn [y x]. destruct (Z.leb_spec height ny); cbn [cursor with_cursor with_mem];
      rewrite ?Mc, ?Hcur; f_equal; unfold height in *; lia. }
  assert (∀ b, mem (scroll d2) b = if (ny =? height) && ((FB <=? b) && (b <? FB + 4000)) then scrolled (mem d1) (b - FB) else mem d1 b) as Es.
  { intros b. destruct (Z.eqb_spec ny height) as [->|].
    - rewrite scroll_mem; rewrite ?Mm, ?Mc, ?Hcur; [done| |done]. eapply writes_bytes; [apply Hb|apply Hc|apply Hd|apply Hw].
    - unfold scroll. rewrite Mc, Hcur. cbn [y]. rewrite (proj2 (Z.leb_gt _ _)) by lia. by rewrite Mm. }
  assert (attr (scroll d2) = attr d ∧ ports (scroll d2) = ports d2) as [Ea' Ep'] by (unfold scroll; case_match; simpl; rewrite ?Ma; done).
  split; [|split; [exact Ec|split; [exact Ea'|split; [by rewrite Ep', Mp, Ep|split; [by exists (mem d1)|split]]]]].
  - split; [|rewrite Ea'; apply Hd]. rewrite Ec. unfold on_screen, height in *. simpl. lia.
  - intros b Ho. rewrite Es. replace ((FB <=? b) && (b <? FB + 4000)) with false by
      (destruct (Z.leb_spec FB b), (Z.ltb_spec b (FB + 4000)); done || lia).
    rewrite andb_false_r. eapply writes_inside; [apply Hd|apply Hc|apply Hw|done].
  - intros b. exact (proj1 (clear_screen_ok d b (proj2 Hd))).
Qed.

(** A line feed on the last line of a screen whose first cell shows an A. *)
Lemma display_exact_witness :
  let d := Display (wr8 (λ _, 0) FB 65) (MkCursor 3 24) 15 [] in
  mem (putc 10 d) (FB + 3840) = 65.
Proof.
  intros d.
  assert (display_ok d) as Hd by (vm_compute; repeat split; congruence).
  assert (bytes_ok (mem d)) as Hb by (apply wr8_bytes; intros b; split; [apply Z.le_refl|reflexivity]).
  destruct (display_exact 10 d Hd Hb) as (_ & _ & _ & _ & (m1 & Hw & Hm) & _); [split; [discriminate|reflexivity]|].
  rewrite Hm. simpl in Hw. rewrite Hw. vm_compute. reflexivity.
Defined.
