(* ===== verification/Serial.v ===== *)
(** The serial ports: kernel/include/driver/serial.hpp, kernel/src/driver/serial.cpp, over the
    ports of kernel/include/io/ports.hpp.

    The lines are behind the class [Uart]: what its registers hold, and what a read and a
    write of a register do, as the data sheet of the 16550 says. A line may be absent, and
    its transmitter may be stuck. *)
From S2P Require Import Prelude.

(** ** The hardware *)

(** [lag_tx] and [lag_rx] count the reads of the line status until the transmitter is empty and until
    what was sent in loopback has arrived, [None] if that never happens. [tx] is what was handed to the line. *)
Record uart := U {
  ier : Z; lcr : Z; mcr : Z; dll : Z; dlm : Z;
  rx : list Z; tx : list Z; lag_tx : option nat; lag_rx : option nat; speed : option nat }.

Definition tick (r : uart) : uart :=
  U (ier r) (lcr r) (mcr r) (dll r) (dlm r) (rx r) (tx r) (pred <$> lag_tx r) (pred <$> lag_rx r) (speed r).
Definition dlab (r : uart) : bool := Z.testbit (lcr r) 7.
Definition looped (r : uart) : bool := Z.testbit (mcr r) 4.

(** How long a line of a given speed may take. *)
Definition takes (speed : option nat) (lag : option nat) : Prop :=
  match speed, lag with Some n, Some k => (k ≤ n)%nat | None, None => True | _, _ => False end.

(** The registers after [v] is written to the register at [off]. *)
Inductive written (r : uart) : Z → Z → uart → Prop :=
| w_dll v : dlab r = true → written r 0 v (U (ier r) (lcr r) (mcr r) v (dlm r) (rx r) (tx r) (lag_tx r) (lag_rx r) (speed r))
| w_loop v lt lr : dlab r = false → looped r = true → lag_tx r = Some 0%nat → takes (speed r) lt → takes (speed r) lr →
    written r 0 v (U (ier r) (lcr r) (mcr r) (dll r) (dlm r) (rx r ++ [v]) (tx r) lt lr (speed r))
| w_data v lt : dlab r = false → looped r = false → lag_tx r = Some 0%nat → takes (speed r) lt →
    written r 0 v (U (ier r) (lcr r) (mcr r) (dll r) (dlm r) (rx r) (tx r ++ [v]) lt (lag_rx r) (speed r))
| w_dlm v : dlab r = true → written r 1 v (U (ier r) (lcr r) (mcr r) (dll r) v (rx r) (tx r) (lag_tx r) (lag_rx r) (speed r))
| w_ier v : dlab r = false → written r 1 v (U v (lcr r) (mcr r) (dll r) (dlm r) (rx r) (tx r) (lag_tx r) (lag_rx r) (speed r))
| w_fcr v : written r 2 v (U (ier r) (lcr r) (mcr r) (dll r) (dlm r) (if Z.testbit v 1 then [] else rx r) (tx r) (lag_tx r) (lag_rx r) (speed r))
| w_lcr v : written r 3 v (U (ier r) v (mcr r) (dll r) (dlm r) (rx r) (tx r) (lag_tx r) (lag_rx r) (speed r))
| w_mcr v : written r 4 v (U (ier r) (lcr r) v (dll r) (dlm r) (rx r) (tx r) (lag_tx r) (lag_rx r) (speed r)).

(** The same for a data write on a transmitter that is still busy: the character may be lost. *)
Definition busy_data (r : uart) (off : Z) : Prop := off = 0 ∧ dlab r = false ∧ lag_tx r ≠ Some 0%nat.

Class Uart (D : Type) := {
  inb : Z → D → Z * D;
  outb : Z → Z → D → D;
  (** The line whose registers start at a port, if there is one. *)
  line : D → Z → option uart;
  line_absent d b : b mod 8 = 0 → line d b = None → (∀ off, 0 ≤ off < 8 → (inb (b + off) d).1 = 0xFF);
  line_status d b r : line d b = Some r →
    (inb (b + 5) d).1 ≠ 0xFF
    ∧ Z.testbit (inb (b + 5) d).1 5 = bool_decide (lag_tx r = Some 0%nat)
    ∧ Z.testbit (inb (b + 5) d).1 0 = bool_decide (lag_rx r = Some 0%nat ∧ rx r ≠ [])
    ∧ line (inb (b + 5) d).2 b = Some (tick r);
  line_receive d b r c l : line d b = Some r → dlab r = false → rx r = c :: l →
    (inb b d).1 = c ∧ line (inb b d).2 b = Some (U (ier r) (lcr r) (mcr r) (dll r) (dlm r) l (tx r) (lag_tx r) (lag_rx r) (speed r));
  line_identify d b : b mod 8 = 0 → line (inb (b + 2) d).2 b = line d b;
  line_write d b r off v : line d b = Some r → 0 ≤ off < 5 → 0 ≤ v < 256 → ¬ busy_data r off →
    ∃ r', line (outb (b + off) v d) b = Some r' ∧ written r off v r';
  line_inb_other d b b' off : b mod 8 = 0 → b' mod 8 = 0 → b ≠ b' → 0 ≤ off < 8 → line (inb (b + off) d).2 b' = line d b';
  line_outb_other d b b' off v : b mod 8 = 0 → b' mod 8 = 0 → b ≠ b' → 0 ≤ off < 8 → line (outb (b + off) v d) b' = line d b';
  line_absent_read d b off : b mod 8 = 0 → 0 ≤ off < 8 → line d b = None → line (inb (b + off) d).2 b = None
}.

(** ** The driver *)

Record BaudRate := Baud { high : Z; low : Z }.
Definition Baud115200 : BaudRate := Baud 0x00 0x01.
(** The other constants, with the rate in their names. *)
Definition rates : list (Z * BaudRate) :=
  [(115200, Baud115200); (57600, Baud 0x00 0x02); (38400, Baud 0x00 0x03); (19200, Baud 0x00 0x06); (9600, Baud 0x00 0x0C);
   (7200, Baud 0x00 0x10); (4800, Baud 0x00 0x18); (3600, Baud 0x00 0x20); (2400, Baud 0x00 0x30); (2000, Baud 0x00 0x3A);
   (1800, Baud 0x00 0x40); (1200, Baud 0x00 0x60); (600, Baud 0x00 0xC0)].

Module Reg.
Definition DAR : Z := 0.
Definition IER : Z := 1.
Definition FCR : Z := 2.
Definition LCR : Z := 3.
Definition MCR : Z := 4.
Definition LSR : Z := 5.
Definition DL_LOW : Z := 0.
Definition DL_HIGH : Z := 1.
End Reg.

Definition BIT8 : Z := 3.
Definition DLAB : Z := 128.
Definition IER_ALL : Z := Z.lor (Z.lor (Z.lor 1 2) 4) 8.
Definition CLEAR_RFIFO : Z := 2.
Definition FCR_INIT : Z := Z.lor (Z.lor (Z.lor 1 CLEAR_RFIFO) 4) 0xC0.
Definition MCR_LOOP : Z := 0x10.
Definition MCR_INIT : Z := Z.lor (Z.lor (Z.lor 1 2) 4) 8.

Record SerialPort := Port { address : Z; initialized : bool }.
Definition TIMEOUT : nat := Z.to_nat 1000000.

Section driver.
Context {D : Type} `{Uart D}.

Definition rd (p : SerialPort) (reg : Z) (d : D) : Z * D := inb (wrap 16 (address p + reg)) d.
Definition wr (p : SerialPort) (reg v : Z) (d : D) : D := outb (wrap 16 (address p + reg)) (u8 v) d.

Definition exists_ (p : SerialPort) (d : D) : bool * D := let '(v, d) := rd p Reg.LSR d in (negb (v =? 0xFF), d).
Definition is_transmit_empty (p : SerialPort) (d : D) : bool * D := let '(v, d) := rd p Reg.LSR d in (negb (Z.land v 0x20 =? 0), d).
Definition is_receive_ready (p : SerialPort) (d : D) : bool * D := let '(v, d) := rd p Reg.LSR d in (negb (Z.land v 0x01 =? 0), d).

(** [while (!ready() && --timeout)]: whether [timeout] is left. *)
Fixpoint wait (ready : D → bool * D) (timeout : nat) (d : D) : bool * D :=
  match timeout with
  | O => (false, d)
  | S timeout => let '(r, d) := ready d in if r then (true, d) else wait ready timeout d
  end.

Definition getc (p : SerialPort) (d : D) : Z * D :=
  let '(ok, d) := wait (is_receive_ready p) TIMEOUT d in
  if ok then rd p Reg.DAR d else (0, d).

(** The body of [putc], up to its call of itself with a carriage return. *)
Definition send (p : SerialPort) (c : Z) (d : D) : bool * D :=
  let '(ok, d) := wait (is_transmit_empty p) TIMEOUT d in
  if ok then (true, wr p Reg.DAR c d) else (false, d).
Definition putc (p : SerialPort) (c : Z) (d : D) : D :=
  let '(ok, d) := send p c d in
  if ok && (c =? 10) then (send p 13 d).2 else d.

Definition set_interrupts (p : SerialPort) (enable : bool) (d : D) : D :=
  let d := wr p Reg.IER (if enable then IER_ALL else 0) d in
  let '(v, d) := rd p Reg.FCR d in wr p Reg.FCR (Z.lor v CLEAR_RFIFO) d.

(** What the printf of [serial] does with the characters of its message. *)
Definition print (primary : SerialPort) (text : list Z) (d : D) : D :=
  foldl (λ d c, if initialized primary then putc primary c d else d) d text.

(** [init] of one port up to its message; the second result says whether it got there. *)
Definition init_line (p : SerialPort) (baud : BaudRate) (d : D) : SerialPort * bool * D :=
  let '(e, d) := exists_ p d in
  if negb e || initialized p then (p, false, d)
  else
    let d := set_interrupts p false d in
    let d := wr p Reg.LCR DLAB d in
    let d := wr p Reg.DL_LOW (low baud) d in
    let d := wr p Reg.DL_HIGH (high baud) d in
    let d := wr p Reg.LCR BIT8 d in
    let d := wr p Reg.FCR FCR_INIT d in
    let d := wr p Reg.MCR MCR_LOOP d in
    let d := putc p 65 d in
    let '(c, d) := getc p d in
    let p := Port (address p) (c =? 65) in
    (p, true, wr p Reg.MCR MCR_INIT d).

(** The text of the message for a port: [_printf] of its format. *)
Context (message : SerialPort → list Z).

(** The ports COM1 to COM8; [primary] is the first. *)
Definition init_port (baud : BaudRate) (i : nat) (s : list SerialPort * D) : list SerialPort * D :=
  let '(ps, d) := s in
  match ps !! i with
  | None => s
  | Some p =>
      let '(p, told, d) := init_line p baud d in
      let ps := <[i := p]> ps in
      (ps, if told then match ps !! 0%nat with Some primary => print primary (message p) d | None => d end else d)
  end.
Definition init (s : list SerialPort * D) : list SerialPort * D := foldl (λ s i, init_port Baud115200 i s) s (seq 0 8).
End driver.

Definition bases : list Z := [0x3F8; 0x2F8; 0x3E8; 0x2E8; 0x5F8; 0x4F8; 0x5E8; 0x4E8].
Definition COM : list SerialPort := (λ a, Port a false) <$> bases.

(** ** What a line does over time *)

Definition ticks (n : nat) (r : uart) : uart :=
  U (ier r) (lcr r) (mcr r) (dll r) (dlm r) (rx r) (tx r) ((λ k, k - n)%nat <$> lag_tx r) ((λ k, k - n)%nat <$> lag_rx r) (speed r).

Lemma ticks_0 r : ticks 0 r = r.
Proof. destruct r as [? ? ? ? ? ? ? [] [] ?]; unfold ticks; simpl; by rewrite ?Nat.sub_0_r. Qed.
Lemma ticks_S n r : ticks n (tick r) = ticks (S n) r.
Proof. destruct r as [? ? ? ? ? ? ? [x|] [y|] ?]; unfold ticks, tick; simpl; f_equal; try reflexivity; f_equal; lia. Qed.

(** The settings, which only writes change. *)
Definition cfg (r : uart) : list Z * option nat := ([ier r; lcr r; mcr r; dll r; dlm r], speed r).
(** In order: every character is gone before the driver gives up.  Stuck: none ever is. *)
Definition fit (r : uart) : Prop := ∃ n k, speed r = Some n ∧ (n < TIMEOUT)%nat ∧ lag_tx r = Some k ∧ (k < TIMEOUT)%nat.
Definition stuck (r : uart) : Prop := speed r = None ∧ lag_tx r = None.
#[export] Instance stuck_dec r : Decision (stuck r).
Proof. unfold stuck. apply _. Defined.

Lemma cfg_bits r r' : cfg r' = cfg r → dlab r' = dlab r ∧ looped r' = looped r.
Proof. unfold cfg, dlab, looped. intros [= _ -> -> _ _ _]. done. Qed.

(** A line feed goes out with a carriage return behind it. *)
Definition crlf (c : Z) : list Z := u8 c :: if c =? 10 then [13] else [].

Section correct.
Context {D : Type} `{Uart D}.

Definition base_ok (b : Z) : Prop := b mod 8 = 0 ∧ 0 ≤ b < 2 ^ 16.
(** The other lines are as they were. *)
Definition others (b : Z) (d d' : D) : Prop := ∀ b', b' mod 8 = 0 → b' ≠ b → line d' b' = line d b'.

Lemma others_refl b d : others b d d.
Proof. done. Qed.
Lemma others_trans b d1 d2 d3 : others b d1 d2 → others b d2 d3 → others b d1 d3.
Proof. intros H1 H2 b' Hm Hb. by rewrite H2, H1. Qed.

Lemma reg_address b off : base_ok b → 0 ≤ off < 8 → wrap 16 (b + off) = b + off.
Proof. intros [Hb ?] ?. apply wrap_small. dlia. Qed.

Lemma rd_others p off d : base_ok (address p) → 0 ≤ off < 8 → others (address p) d (rd p off d).2.
Proof. intros Hb Ho b' Hm Hne. unfold rd. rewrite reg_address by done. apply line_inb_other; [apply Hb|done|congruence|done]. Qed.

Lemma wr_ok p off v d r : base_ok (address p) → line d (address p) = Some r → 0 ≤ off < 5 → ¬ busy_data r off →
  ∃ r', line (wr p off v d) (address p) = Some r' ∧ written r off (u8 v) r' ∧ others (address p) d (wr p off v d).
Proof.
  intros Hb Hl Ho Hbusy. unfold wr. rewrite reg_address by (done || lia).
  destruct (line_write d (address p) r off (u8 v) Hl Ho (wrap_range 8 v ltac:(lia)) Hbusy) as (r' & E & Hw). exists r'.
  split; [done|]. split; [done|]. intros b' Hm Hne. apply line_outb_other; [apply Hb|done|congruence|lia].
Qed.

Lemma not_busy r off : off ≠ 0 → ¬ busy_data r off.
Proof. intros ? [-> _]. done. Qed.

Lemma land_testbit v k : 0 ≤ k → negb (Z.land v (2 ^ k) =? 0) = Z.testbit v k.
Proof.
  intros Hk. destruct (Z.testbit v k) eqn:E.
  - apply negb_true_iff, Z.eqb_neq. intros E0. assert (Z.testbit (Z.land v (2 ^ k)) k = false) as E1 by (rewrite E0; apply Z.bits_0).
    rewrite Z.land_spec, E, Z.pow2_bits_true in E1 by done. done.
  - apply negb_false_iff, Z.eqb_eq. apply Z.bits_inj'. intros i Hi. rewrite Z.land_spec, Z.bits_0, Z.pow2_bits_eqb by done.
    destruct (Z.eqb_spec k i) as [<-|]; [by rewrite E|by rewrite andb_false_r].
Qed.

(** Polling a status bit that the ticks of the line control. *)
Section polling.
Context (p : SerialPort) (Hb : base_ok (address p)).
Context (ready : D → bool * D) (up : uart → bool).
Context (Hready : ∀ d r, line d (address p) = Some r →
  (ready d).1 = up r ∧ line (ready d).2 (address p) = Some (tick r) ∧ others (address p) d (ready d).2).

Lemma wait_up k : ∀ n d r, line d (address p) = Some r → up (ticks k r) = true → (k < n)%nat →
  ∃ d' j, wait ready n d = (true, d') ∧ line d' (address p) = Some (ticks (S j) r) ∧ up (ticks j r) = true ∧ others (address p) d d'.
Proof using Hready.
  induction k as [|k IH]; intros n d r Hl Hup Hn; (destruct n as [|n]; [lia|]); simpl;
    destruct (Hready d r Hl) as (E1 & E2 & E3); destruct (ready d) as [v d1]; simpl in *; subst v.
  - rewrite ticks_0 in Hup. rewrite Hup. exists d1, 0%nat. rewrite ticks_0, <- ticks_S, ticks_0. done.
  - destruct (up r) eqn:Eu; [exists d1, 0%nat; rewrite ticks_0, <- ticks_S, ticks_0; done|].
    destruct (IH n d1 (tick r) E2) as (d' & j & -> & Hj & Huj & Ho); [by rewrite ticks_S|lia|].
    exists d', (S j). rewrite <- (ticks_S (S j) r), <- (ticks_S j r).
    split; [done|]. split; [done|]. split; [done|]. by eapply others_trans.
Qed.

Lemma wait_down n : ∀ d r, line d (address p) = Some r → (∀ j, up (ticks j r) = false) →
  ∃ d', wait ready n d = (false, d') ∧ line d' (address p) = Some (ticks n r) ∧ others (address p) d d'.
Proof using Hready.
  induction n as [|n IH]; intros d r Hl Hup; simpl; [exists d; rewrite ticks_0; auto using others_refl|].
  destruct (Hready d r Hl) as (E1 & E2 & E3). destruct (ready d) as [v d1]; simpl in *; subst v.
  pose proof (Hup 0%nat) as Hu0. rewrite ticks_0 in Hu0. rewrite Hu0.
  destruct (IH d1 (tick r) E2) as (d' & -> & Hj & Ho); [intros j; by rewrite ticks_S|].
  exists d'. rewrite <- ticks_S. split; [done|]. split; [done|]. by eapply others_trans.
Qed.
End polling.

Lemma tx_ready p d r : base_ok (address p) → line d (address p) = Some r →
  (is_transmit_empty p d).1 = bool_decide (lag_tx r = Some 0%nat)
  ∧ line (is_transmit_empty p d).2 (address p) = Some (tick r) ∧ others (address p) d (is_transmit_empty p d).2.
Proof.
  intros Hb Hl. destruct (line_status d (address p) r Hl) as (_ & E5 & _ & Et).
  pose proof (rd_others p Reg.LSR d Hb ltac:(done)) as Ho. unfold is_transmit_empty.
  unfold rd in *. rewrite reg_address in * by done. change Reg.LSR with 5 in *. destruct (inb (address p + 5) d) as [v d']. simpl in *.
  split; [|done]. rewrite <- E5. by apply (land_testbit v 5).
Qed.

Lemma rx_ready p d r : base_ok (address p) → line d (address p) = Some r →
  (is_receive_ready p d).1 = bool_decide (lag_rx r = Some 0%nat ∧ rx r ≠ [])
  ∧ line (is_receive_ready p d).2 (address p) = Some (tick r) ∧ others (address p) d (is_receive_ready p d).2.
Proof.
  intros Hb Hl. destruct (line_status d (address p) r Hl) as (_ & _ & E0 & Et).
  pose proof (rd_others p Reg.LSR d Hb ltac:(done)) as Ho. unfold is_receive_ready.
  unfold rd in *. rewrite reg_address in * by done. change Reg.LSR with 5 in *. destruct (inb (address p + 5) d) as [v d']. simpl in *.
  split; [|done]. rewrite <- E0. by apply (land_testbit v 0).
Qed.

(** ** Sending and receiving *)

Lemma send_fit p c d r : base_ok (address p) → line d (address p) = Some r → fit r → dlab r = false →
  ∃ d' r', send p c d = (true, d') ∧ line d' (address p) = Some r' ∧ others (address p) d d' ∧ cfg r' = cfg r ∧ fit r'
    ∧ if looped r then rx r' = rx r ++ [u8 c] ∧ tx r' = tx r ∧ (∃ k, lag_rx r' = Some k ∧ (k < TIMEOUT)%nat)
      else rx r' = rx r ∧ tx r' = tx r ++ [u8 c].
Proof.
  intros Hb Hl (n & k & Es & Hn & Ek & Hk) Hd. unfold send.
  destruct (wait_up p (is_transmit_empty p) (λ r, bool_decide (lag_tx r = Some 0%nat)) (λ d r Hl, tx_ready p d r Hb Hl) k TIMEOUT d r Hl)
    as (d1 & j & -> & Hl1 & Hj & Ho1); [unfold ticks; simpl; rewrite Ek; simpl; by rewrite Nat.sub_diag|done|].
  apply bool_decide_eq_true in Hj. set (r1 := ticks (S j) r) in *.
  assert (lag_tx r1 = Some 0%nat) as E0 by (unfold r1, ticks in *; simpl in *; rewrite Ek in *; simpl in *; f_equal; injection Hj; lia).
  destruct (wr_ok p Reg.DAR c d1 r1 Hb Hl1 ltac:(done)) as (r' & Hl' & Hw & Ho2); [intros (_ & _ & Hne); by rewrite E0 in Hne|].
  exists (wr p Reg.DAR c d1), r'. split; [done|]. split; [done|]. split; [by eapply others_trans|].
  inversion Hw as [? Hd1|? lt lr Hd1 Hlo ? Ht1 Ht2|? lt Hd1 Hlo ? Ht1| | | | | ]; subst.
  - change (dlab r = true) in Hd1. congruence.
  - assert (looped r = true) as -> by exact Hlo. simpl in Ht1, Ht2 |- *. rewrite Es in Ht1, Ht2.
    destruct lt as [k1|], lr as [k2|]; simpl in Ht1, Ht2; try done.
    split; [done|]. split; [exists n, k1; simpl; split_and!; [done..|lia]|]. split; [done|]. split; [done|]. exists k2. split; [done|lia].
  - assert (looped r = false) as -> by exact Hlo. simpl in Ht1 |- *. rewrite Es in Ht1. destruct lt as [k1|]; simpl in Ht1; try done.
    split; [done|]. split; [exists n, k1; simpl; split_and!; [done..|lia]|]. done.
Qed.

Lemma send_stuck p c d r : base_ok (address p) → line d (address p) = Some r → stuck r →
  ∃ d', send p c d = (false, d') ∧ line d' (address p) = Some (ticks TIMEOUT r) ∧ others (address p) d d'.
Proof.
  intros Hb Hl [Es Ek]. unfold send.
  destruct (wait_down p (is_transmit_empty p) (λ r, bool_decide (lag_tx r = Some 0%nat)) (λ d r Hl, tx_ready p d r Hb Hl) TIMEOUT d r Hl)
    as (d1 & -> & Hl1 & Ho1); [intros j; unfold ticks; simpl; by rewrite Ek|]. eauto.
Qed.

Lemma putc_fit p c d r : base_ok (address p) → line d (address p) = Some r → fit r → dlab r = false → looped r = false →
  ∃ r', line (putc p c d) (address p) = Some r' ∧ others (address p) d (putc p c d) ∧ cfg r' = cfg r ∧ fit r'
    ∧ rx r' = rx r ∧ tx r' = tx r ++ crlf c.
Proof.
  intros Hb Hl Hf Hd Hlo. unfold putc, crlf. destruct (send_fit p c d r Hb Hl Hf Hd) as (d1 & r1 & -> & Hl1 & Ho1 & Hc1 & Hf1 & Hx1).
  rewrite Hlo in Hx1. destruct Hx1 as [Hr1 Ht1]. cbn [andb]. destruct (c =? 10); [|by exists r1].
  assert (dlab r1 = false ∧ looped r1 = false) as [Hd1 Hlo1] by (destruct (cfg_bits _ _ Hc1) as [-> ->]; done).
  destruct (send_fit p 13 d1 r1 Hb Hl1 Hf1 Hd1) as (d2 & r2 & -> & Hl2 & Ho2 & Hc2 & Hf2 & Hx2).
  rewrite Hlo1 in Hx2. destruct Hx2 as [Hr2 Ht2]. exists r2. simpl. split; [done|]. split; [by eapply others_trans|]. split; [congruence|].
  split; [done|]. split; [congruence|]. rewrite Ht2, Ht1, <- app_assoc. done.
Qed.

Lemma print_fit p text : ∀ d r, base_ok (address p) → initialized p = true → line d (address p) = Some r → fit r →
  dlab r = false → looped r = false →
  ∃ r', line (print p text d) (address p) = Some r' ∧ others (address p) d (print p text d) ∧ cfg r' = cfg r ∧ fit r'
    ∧ rx r' = rx r ∧ tx r' = tx r ++ (text ≫= crlf).
Proof.
  induction text as [|c text IH]; intros d r Hb Hi Hl Hf Hd Hlo; simpl.
  - exists r. by rewrite app_nil_r.
  - rewrite Hi. destruct (putc_fit p c d r Hb Hl Hf Hd Hlo) as (r1 & Hl1 & Ho1 & Hc1 & Hf1 & Hr1 & Ht1).
    assert (dlab r1 = false ∧ looped r1 = false) as [Hd1 Hlo1] by (destruct (cfg_bits _ _ Hc1) as [-> ->]; done).
    destruct (IH (putc p c d) r1 Hb Hi Hl1 Hf1 Hd1 Hlo1) as (r2 & Hl2 & Ho2 & Hc2 & Hf2 & Hr2 & Ht2).
    exists r2. split; [done|]. split; [by eapply others_trans|]. split; [congruence|]. split; [done|]. split; [congruence|].
    by rewrite Ht2, Ht1, <- app_assoc.
Qed.

Lemma getc_ready p d r c l k : base_ok (address p) → line d (address p) = Some r → dlab r = false → rx r = c :: l →
  lag_rx r = Some k → (k < TIMEOUT)%nat →
  ∃ d' r', getc p d = (c, d') ∧ line d' (address p) = Some r' ∧ others (address p) d d' ∧ cfg r' = cfg r ∧ rx r' = l ∧ tx r' = tx r
    ∧ (fit r → fit r').
Proof.
  intros Hb Hl Hd Hx Ek Hk. unfold getc.
  destruct (wait_up p (is_receive_ready p) (λ r, bool_decide (lag_rx r = Some 0%nat ∧ rx r ≠ [])) (λ d r Hl, rx_ready p d r Hb Hl) k TIMEOUT d r Hl)
    as (d1 & j & -> & Hl1 & Hj & Ho1); [unfold ticks; simpl; rewrite Ek, Hx; simpl; by rewrite Nat.sub_diag|done|].
  unfold rd. rewrite reg_address by done. change Reg.DAR with 0. rewrite Z.add_0_r.
  destruct (line_receive d1 (address p) (ticks (S j) r) c l Hl1 Hd Hx) as [Ev El]. destruct (inb (address p) d1) as [v d2] eqn:E2.
  simpl in Ev, El. subst v. eexists d2, _. split; [done|]. split; [done|]. split.
  - eapply others_trans; [done|]. intros b' Hm Hne. replace d2 with (inb (address p + 0) d1).2 by (rewrite Z.add_0_r, E2; done).
    apply line_inb_other; [apply Hb|done|congruence|done].
  - split; [done|]. split; [done|]. split; [done|]. intros (n & k' & Es & Hn & Ek' & Hk'). exists n, (k' - S j)%nat. simpl.
    rewrite Ek'. simpl. split_and!; try done. lia.
Qed.

Lemma getc_empty p d r : base_ok (address p) → line d (address p) = Some r → rx r = [] →
  ∃ d', getc p d = (0, d') ∧ line d' (address p) = Some (ticks TIMEOUT r) ∧ others (address p) d d'.
Proof.
  intros Hb Hl Hx. unfold getc.
  destruct (wait_down p (is_receive_ready p) (λ r, bool_decide (lag_rx r = Some 0%nat ∧ rx r ≠ [])) (λ d r Hl, rx_ready p d r Hb Hl) TIMEOUT d r Hl)
    as (d1 & -> & Hl1 & Ho1); [intros j; unfold ticks; simpl; rewrite Hx; apply bool_decide_eq_false; tauto|]. eauto.
Qed.

(** ** One port *)

Lemma exists_ok p d : base_ok (address p) →
  (exists_ p d).1 = bool_decide (is_Some (line d (address p)))
  ∧ line (exists_ p d).2 (address p) = tick <$> line d (address p) ∧ others (address p) d (exists_ p d).2.
Proof.
  intros Hb. pose proof (rd_others p Reg.LSR d Hb ltac:(done)) as Ho. unfold exists_, rd in *.
  rewrite reg_address in * by done. change Reg.LSR with 5 in *. destruct (line d (address p)) as [r|] eqn:El.
  - destruct (line_status d (address p) r El) as (Ev & _ & _ & Et). destruct (inb _ _) as [v d']. simpl in *.
    rewrite (proj2 (Z.eqb_neq _ _) Ev). done.
  - pose proof (line_absent d (address p) (proj1 Hb) El 5 ltac:(lia)) as Ev. pose proof (line_absent_read d (address p) 5 (proj1 Hb) ltac:(lia) El) as Et.
    destruct (inb _ _) as [v d']. simpl in *. subst v. done.
Qed.

(** A control register of a line that is there is written. *)
Definition set_reg (off v : Z) (r : uart) : uart :=
  if off =? 0 then U (ier r) (lcr r) (mcr r) v (dlm r) (rx r) (tx r) (lag_tx r) (lag_rx r) (speed r)
  else if off =? 1 then
    (if dlab r then U (ier r) (lcr r) (mcr r) (dll r) v (rx r) (tx r) (lag_tx r) (lag_rx r) (speed r)
     else U v (lcr r) (mcr r) (dll r) (dlm r) (rx r) (tx r) (lag_tx r) (lag_rx r) (speed r))
  else if off =? 2 then U (ier r) (lcr r) (mcr r) (dll r) (dlm r) (if Z.testbit v 1 then [] else rx r) (tx r) (lag_tx r) (lag_rx r) (speed r)
  else if off =? 3 then U (ier r) v (mcr r) (dll r) (dlm r) (rx r) (tx r) (lag_tx r) (lag_rx r) (speed r)
  else U (ier r) (lcr r) v (dll r) (dlm r) (rx r) (tx r) (lag_tx r) (lag_rx r) (speed r).

Lemma set_reg_fcr v r : Z.testbit v 1 = true → set_reg 2 v r = set_reg 2 2 r.
Proof. intros E. unfold set_reg. by rewrite E. Qed.

Lemma wr_control p off v d r : base_ok (address p) → line d (address p) = Some r → 0 ≤ off < 5 → off ≠ 0 ∨ dlab r = true →
  line (wr p off v d) (address p) = Some (set_reg off (u8 v) r) ∧ others (address p) d (wr p off v d).
Proof.
  intros Hb Hl Ho Hc. destruct (wr_ok p off v d r Hb Hl Ho) as (r' & E & Hw & Hot).
  { intros (-> & Hd & _). destruct Hc; congruence. }
  split; [|done]. rewrite E. f_equal. unfold set_reg.
  inversion Hw as [? Hd|? ? ? Hd|? ? Hd|? Hd|? Hd| | | ]; subst; simpl; try done; try (destruct Hc; [lia|congruence]); by rewrite Hd.
Qed.

Lemma set_interrupts_ok p enable d r : base_ok (address p) → line d (address p) = Some r →
  let d' := set_interrupts p enable d in
  line d' (address p) = Some (set_reg 2 2 (set_reg 1 (if enable then 15 else 0) r)) ∧ others (address p) d d'.
Proof.
  intros Hb Hl. unfold set_interrupts.
  destruct (wr_control p Reg.IER (if enable then IER_ALL else 0) d r Hb Hl ltac:(done) ltac:(by left)) as [El1 Ho1].
  set (d1 := wr p Reg.IER _ d) in *. pose proof (rd_others p Reg.FCR d1 Hb ltac:(done)) as Ho2.
  unfold rd in *. rewrite reg_address in * by done. change Reg.FCR with 2 in *.
  pose proof (line_identify d1 (address p) (proj1 Hb)) as El2. destruct (inb (address p + 2) d1) as [v d2]. simpl in *.
  destruct (wr_control p 2 (Z.lor v CLEAR_RFIFO) d2 (set_reg 1 (if enable then 15 else 0) r) Hb) as [El3 Ho3]; [|lia|by left|].
  { rewrite El2, El1. destruct enable; done. }
  split; [|by repeat (eapply others_trans; [done|])]. rewrite El3. f_equal. apply set_reg_fcr. unfold wrap. rewrite Z.mod_pow2_bits_low, Z.lor_spec by lia. change (Z.testbit CLEAR_RFIFO 1) with true. apply orb_true_r.
Qed.

(** The settings that [init] leaves: 8 bits, no interrupts, the divisor of the rate. *)
Definition configured (baud : BaudRate) (r : uart) : Prop := cfg r = ([0; BIT8; MCR_INIT; u8 (low baud); u8 (high baud)], speed r).

Lemma configured_bits baud r : configured baud r → dlab r = false ∧ looped r = false.
Proof. unfold configured, cfg, dlab, looped. by intros [= _ -> -> _ _]. Qed.

(** The programming of the line before the loop-back test. *)
Definition programmed (baud : BaudRate) (r : uart) : uart :=
  set_reg 4 MCR_LOOP (set_reg 2 FCR_INIT (set_reg 3 BIT8 (set_reg 1 (u8 (high baud)) (set_reg 0 (u8 (low baud))
    (set_reg 3 DLAB (set_reg 2 2 (set_reg 1 0 r))))))).

Lemma programmed_ok baud r : dlab r = false →
  programmed baud r = U 0 BIT8 MCR_LOOP (u8 (low baud)) (u8 (high baud)) [] (tx r) (lag_tx r) (lag_rx r) (speed r).
Proof. intros Hd. unfold programmed, set_reg at 8. simpl. rewrite Hd. done. Qed.

Definition program (p : SerialPort) (baud : BaudRate) (d : D) : D :=
  wr p Reg.MCR MCR_LOOP (wr p Reg.FCR FCR_INIT (wr p Reg.LCR BIT8 (wr p Reg.DL_HIGH (high baud) (wr p Reg.DL_LOW (low baud)
    (wr p Reg.LCR DLAB (set_interrupts p false d)))))).

Lemma init_line_alt p baud d : init_line p baud d =
  if negb (exists_ p d).1 || initialized p then (p, false, (exists_ p d).2)
  else let '(c, d) := getc p (putc p 65 (program p baud (exists_ p d).2)) in
       (Port (address p) (c =? 65), true, wr p Reg.MCR MCR_INIT d).
Proof. unfold init_line, program. destruct (exists_ p d) as [e d1]. simpl. destruct (negb e || initialized p); [done|]. by destruct (getc _ _). Qed.

Lemma program_ok p baud d r : base_ok (address p) → line d (address p) = Some r → dlab r = false →
  line (program p baud d) (address p) = Some (U 0 BIT8 MCR_LOOP (u8 (low baud)) (u8 (high baud)) [] (tx r) (lag_tx r) (lag_rx r) (speed r))
  ∧ others (address p) d (program p baud d).
Proof.
  intros Hb Hl Hd. unfold program.
  destruct (set_interrupts_ok p false d r Hb Hl) as [L1 O1]. set (d1 := set_interrupts p false d) in *.
  destruct (wr_control p Reg.LCR DLAB d1 _ Hb L1 ltac:(done) ltac:(by left)) as [L2 O2].
  destruct (wr_control p Reg.DL_LOW (low baud) _ _ Hb L2 ltac:(done) ltac:(by right)) as [L3 O3].
  destruct (wr_control p Reg.DL_HIGH (high baud) _ _ Hb L3 ltac:(done) ltac:(by left)) as [L4 O4].
  destruct (wr_control p Reg.LCR BIT8 _ _ Hb L4 ltac:(done) ltac:(by left)) as [L5 O5].
  destruct (wr_control p Reg.FCR FCR_INIT _ _ Hb L5 ltac:(done) ltac:(by left)) as [L6 O6].
  destruct (wr_control p Reg.MCR MCR_LOOP _ _ Hb L6 ltac:(done) ltac:(by left)) as [L7 O7].
  split; [|by repeat (eapply others_trans; [done|])]. rewrite L7. f_equal. exact (programmed_ok baud r Hd).
Qed.

Lemma init_line_absent p baud d : base_ok (address p) → line d (address p) = None →
  ∃ d', init_line p baud d = (p, false, d') ∧ line d' (address p) = None ∧ others (address p) d d'.
Proof.
  intros Hb Hl. rewrite init_line_alt. destruct (exists_ok p d Hb) as (-> & El & Ho). rewrite Hl in *. simpl. eauto.
Qed.

(** The line after [exists]. *)
Lemma present p d r : base_ok (address p) → initialized p = false → line d (address p) = Some r →
  negb (exists_ p d).1 || initialized p = false ∧ line (exists_ p d).2 (address p) = Some (tick r) ∧ others (address p) d (exists_ p d).2.
Proof. intros Hb Hi Hl. destruct (exists_ok p d Hb) as (-> & El & Ho). rewrite Hl in *. by rewrite Hi. Qed.

Lemma init_line_fit p baud d r : base_ok (address p) → initialized p = false → line d (address p) = Some r → fit r → dlab r = false →
  ∃ d' r', init_line p baud d = (Port (address p) true, true, d') ∧ line d' (address p) = Some r' ∧ others (address p) d d'
    ∧ configured baud r' ∧ fit r' ∧ rx r' = [] ∧ tx r' = tx r.
Proof.
  intros Hb Hi Hl Hf Hd. rewrite init_line_alt. destruct (present p d r Hb Hi Hl) as (-> & L0 & O0).
  destruct (program_ok p baud _ _ Hb L0 Hd) as [L1 O1]. set (d1 := program p baud _) in *.
  destruct Hf as (n & k & Es & Hn & Ek & Hk). unfold putc.
  destruct (send_fit p 65 d1 _ Hb L1) as (d2 & r2 & -> & L2 & O2 & C2 & F2 & X2); [|done|].
  { exists n, (pred k). simpl. rewrite Ek. simpl. split_and!; [done..|lia]. }
  simpl in X2. destruct X2 as (X2 & T2 & k2 & K2 & Hk2). cbn [andb Z.eqb Pos.eqb].
  destruct (cfg_bits _ _ C2) as [D2 _].
  destruct (getc_ready p d2 r2 (u8 65) [] k2 Hb L2 D2 X2 K2 Hk2) as (d3 & r3 & -> & L3 & O3 & C3 & X3 & T3 & F3).
  destruct (wr_control p Reg.MCR MCR_INIT d3 r3 Hb L3 ltac:(done) ltac:(by left)) as [L4 O4].
  exists (wr p Reg.MCR MCR_INIT d3), (set_reg Reg.MCR (u8 MCR_INIT) r3). split; [done|]. split; [done|].
  split; [by repeat (eapply others_trans; [done|])|].
  split; [|split; [exact (F3 F2)|split; [done|]]].
  - rewrite C2 in C3. unfold configured, cfg in *. simpl in *. by injection C3 as -> -> _ -> -> ->.
  - simpl. by rewrite T3, T2.
Qed.

Lemma init_line_stuck p baud d r : base_ok (address p) → initialized p = false → line d (address p) = Some r → stuck r → dlab r = false →
  ∃ d' r', init_line p baud d = (Port (address p) false, true, d') ∧ line d' (address p) = Some r' ∧ others (address p) d d' ∧ tx r' = tx r.
Proof.
  intros Hb Hi Hl [Es Ek] Hd. rewrite init_line_alt. destruct (present p d r Hb Hi Hl) as (-> & L0 & O0).
  destruct (program_ok p baud _ _ Hb L0 Hd) as [L1 O1]. set (d1 := program p baud _) in *. unfold putc.
  destruct (send_stuck p 65 d1 _ Hb L1) as (d2 & -> & L2 & O2); [split; [done|]; simpl; by rewrite Ek|]. cbn [andb].
  destruct (getc_empty p d2 _ Hb L2) as (d3 & -> & L3 & O3); [done|].
  destruct (wr_control p Reg.MCR MCR_INIT d3 _ Hb L3 ltac:(done) ltac:(by left)) as [L4 O4].
  eexists (wr p Reg.MCR MCR_INIT d3), _. split; [done|]. split; [done|]. split; [by repeat (eapply others_trans; [done|])|done].
Qed.

(** ** All ports *)

Context (message : SerialPort → list Z).

Definition works (d : D) (b : Z) : bool := match line d b with Some r => negb (bool_decide (stuck r)) | None => false end.
(** The lines at the ports before the driver starts. *)
Definition usual (d : D) : Prop := ∀ b r, b ∈ bases → line d b = Some r → dlab r = false ∧ (fit r ∨ stuck r).

(** The line at [b] after its initialization, if [text] went to the primary port since. *)
Definition done_line (d0 d : D) (b : Z) (text : list Z) : Prop :=
  match line d0 b with
  | None => line d b = None
  | Some r0 => ∃ r, line d b = Some r ∧ tx r = tx r0 ++ (if (b =? 0x3F8) && works d0 b then text ≫= crlf else [])
      ∧ (works d0 b = true → configured Baud115200 r ∧ fit r ∧ rx r = [])
  end.
(** The messages about the first [n] ports: about each line that is there. *)
Definition said (d0 : D) (n : nat) : list Z :=
  take n bases ≫= λ b, if line d0 b is Some _ then message (Port b (works d0 b)) else [].

(** The state after [n] ports, with [text] sent. *)
Record boot_inv (d0 : D) (n : nat) (text : list Z) (s : list SerialPort * D) : Prop := {
  bi_ports : s.1 = imap (λ j b, Port b (bool_decide (j < n)%nat && works d0 b)) bases;
  bi_todo j b : bases !! j = Some b → (n ≤ j)%nat → line s.2 b = line d0 b;
  bi_done j b : bases !! j = Some b → (j < n)%nat → done_line d0 s.2 b text
}.

Lemma bases_ok b : b ∈ bases → base_ok b.
Proof. revert b. apply Forall_forall. repeat (apply Forall_cons; split; [by split|]). apply Forall_nil. done. Qed.
Lemma bases_inj j j' b : bases !! j = Some b → bases !! j' = Some b → j = j'.
Proof. apply NoDup_lookup. refine (bool_decide_unpack (NoDup bases) _). vm_compute. exact I. Qed.
Lemma bases_primary j : bases !! j = Some 0x3F8 → j = 0%nat.
Proof. intros Hj. by apply (bases_inj j 0 _ Hj). Qed.

Lemma print_off p text d : initialized p = false → print p text d = d.
Proof. intros Hi. unfold print. rewrite Hi. by induction text. Qed.

Lemma boot_print d0 n text s msg : (0 < n)%nat → usual d0 → boot_inv d0 n text s →
  boot_inv d0 n (text ++ msg) (s.1, match s.1 !! 0%nat with Some p => print p msg s.2 | None => s.2 end).
Proof.
  intros Hn Hu [Hp Ht Hd]. destruct s as [ps d]. cbn [fst snd] in *. subst ps.
  set (p := Port 0x3F8 (bool_decide (0 < n)%nat && works d0 0x3F8)).
  set (ps := imap _ bases). assert (ps !! 0%nat = Some p) as -> by reflexivity.
  assert (initialized p = works d0 0x3F8) as Ep by (simpl; by rewrite bool_decide_eq_true_2 by lia).
  assert (works d0 0x3F8 = true ∨ works d0 0x3F8 = false) as [Ew|Ew] by (destruct (works d0 0x3F8); auto); rewrite Ew in Ep.
  2: { rewrite print_off by done. split; cbn [fst snd]; [reflexivity|exact Ht|]. intros j b Hj Hl. specialize (Hd j b Hj Hl). unfold done_line in *.
       destruct (line d0 b); [|done]. destruct (Z.eqb_spec b 0x3F8) as [->|Hne]; [by rewrite Ew in *|done]. }
  pose proof (Hd 0%nat 0x3F8 eq_refl Hn) as Hd0. unfold done_line in Hd0. rewrite Ew in Hd0.
  destruct (line d0 0x3F8) as [r0|] eqn:E0; [|unfold works in Ew; by rewrite E0 in Ew].
  destruct Hd0 as (r & El & Et & Hc). destruct (Hc eq_refl) as (Hcf & Hf & Hx). clear Hc.
  destruct (configured_bits _ _ Hcf) as [Hdl Hlo].
  destruct (print_fit p msg d r (bases_ok 0x3F8 ltac:(by left)) Ep El Hf Hdl Hlo) as (r' & El' & Ho & Hc' & Hf' & Hx' & Ht').
  split; cbn [fst snd]; [reflexivity| |].
  - intros j b Hj Hl. rewrite Ho; [by eapply Ht|apply (bases_ok b); by eapply list_elem_of_lookup_2|]. simpl. intros ->.
    apply bases_primary in Hj. lia.
  - intros j b Hj Hl. unfold done_line. destruct (decide (b = 0x3F8)) as [->|Hne].
    + rewrite E0, Ew. exists r'. split; [done|]. split; [|intros _; split; [|split; [done|congruence]]].
      * rewrite Ht', Et, <- app_assoc. simpl. by rewrite bind_app.
      * unfold configured in *. rewrite Hc'. rewrite Hcf. f_equal. unfold cfg in Hc'. congruence.
    + specialize (Hd j b Hj Hl). unfold done_line in Hd. rewrite (Ho b) by (done || (apply (bases_ok b); by eapply list_elem_of_lookup_2)).
      rewrite (proj2 (Z.eqb_neq _ _) Hne) in *. done.
Qed.

Lemma boot_line d0 n text s b : usual d0 → boot_inv d0 n text s → bases !! n = Some b → (n = 0%nat → text = []) →
  ∃ d', init_line (Port b false) Baud115200 s.2 = (Port b (works d0 b), if line d0 b is Some _ then true else false, d')
    ∧ done_line d0 d' b text ∧ others b s.2 d'.
Proof.
  intros Hu [Hp Ht Hd] Hb Htext. pose proof (Ht n b Hb (le_n _)) as El.
  assert (b ∈ bases) as Hin by by eapply list_elem_of_lookup_2. pose proof (bases_ok b Hin) as Hok.
  unfold done_line, works. destruct (line d0 b) as [r0|] eqn:E0.
  2: { destruct (init_line_absent (Port b false) Baud115200 s.2 Hok El) as (d' & E & L & O). by exists d'. }
  assert ((if (b =? 0x3F8) && negb (bool_decide (stuck r0)) then text ≫= crlf else []) = []) as ->.
  { destruct (Z.eqb_spec b 0x3F8) as [->|]; [|done]. rewrite (Htext (bases_primary n Hb)). by destruct (_ && _). }
  rewrite app_nil_r. destruct (Hu b r0 Hin E0) as [Hdl [Hf|Hs]].
  - assert (bool_decide (stuck r0) = false) as -> by (apply bool_decide_eq_false; destruct Hf as (? & ? & ? & _), 1; congruence).
    destruct (init_line_fit (Port b false) Baud115200 s.2 r0 Hok eq_refl El Hf Hdl) as (d' & r' & E & L & O & C & F & X & T).
    exists d'. split; [exact E|]. split; [|exact O]. by exists r'.
  - rewrite bool_decide_eq_true_2 by done.
    destruct (init_line_stuck (Port b false) Baud115200 s.2 r0 Hok eq_refl El Hs Hdl) as (d' & r' & E & L & O & T).
    exists d'. split; [exact E|]. split; [|exact O]. by exists r'.
Qed.

Lemma boot_next d0 n text s b d' : boot_inv d0 n text s → bases !! n = Some b → done_line d0 d' b text → others b s.2 d' →
  boot_inv d0 (S n) text (<[n := Port b (works d0 b)]> s.1, d').
Proof.
  intros [Hp Ht Hd] Hb Hl Ho. split; cbn [fst snd].
  - rewrite Hp. apply list_eq. intros j. rewrite list_lookup_imap.
    destruct (decide (j = n)) as [->|Hne].
    + rewrite list_lookup_insert_eq by (rewrite length_imap; by eapply lookup_lt_Some). rewrite Hb. simpl.
      by rewrite bool_decide_eq_true_2 by lia.
    + rewrite list_lookup_insert_ne, list_lookup_imap by done. destruct (bases !! j); [|done]. simpl.
      by rewrite (bool_decide_ext (j < n)%nat (j < S n)%nat) by lia.
  - intros j b' Hj Hl'. rewrite Ho; [apply (Ht j b' Hj); lia|apply (bases_ok b'); by eapply list_elem_of_lookup_2|].
    intros ->. pose proof (bases_inj _ _ _ Hj Hb). lia.
  - intros j b' Hj Hl'. destruct (decide (j = n)) as [->|Hne]; [by simplify_eq|].
    unfold done_line. rewrite Ho; [apply (Hd j b' Hj); lia|apply (bases_ok b'); by eapply list_elem_of_lookup_2|].
    intros ->. by pose proof (bases_inj _ _ _ Hj Hb).
Qed.

Lemma boot_port d0 n s : usual d0 → (n < 8)%nat → boot_inv d0 n (said d0 n) s →
  boot_inv d0 (S n) (said d0 (S n)) (init_port message Baud115200 n s).
Proof.
  intros Hu Hn Hs. destruct (lookup_lt_is_Some_2 bases n Hn) as [b Hb].
  assert (said d0 (S n) = said d0 n ++ if line d0 b is Some _ then message (Port b (works d0 b)) else []) as ->.
  { unfold said. rewrite (take_S_r _ _ _ Hb), bind_app. simpl. by rewrite app_nil_r. }
  destruct (boot_line d0 n (said d0 n) s b Hu Hs Hb) as (d' & E & L & O); [by intros ->|].
  pose proof (boot_next d0 n _ s b d' Hs Hb L O) as Hs'. destruct s as [ps d]. cbn [fst snd] in *. unfold init_port.
  assert (ps !! n = Some (Port b false)) as ->.
  { pose proof (bi_ports _ _ _ _ Hs) as Hp. cbn [fst] in Hp. rewrite Hp, list_lookup_imap, Hb. simpl. by rewrite bool_decide_eq_false_2 by lia. }
  rewrite E. destruct (line d0 b).
  - exact (boot_print d0 (S n) _ _ _ ltac:(lia) Hu Hs').
  - by rewrite app_nil_r.
Qed.

Lemma boot_all d0 k : ∀ n s, usual d0 → (n + k = 8)%nat → boot_inv d0 n (said d0 n) s →
  boot_inv d0 8 (said d0 8) (foldl (λ s i, init_port message Baud115200 i s) s (seq n k)).
Proof.
  induction k as [|k IH]; intros n s Hu Hk Hs; simpl.
  - by replace 8%nat with n by lia.
  - apply IH; [done|lia|]. apply boot_port; [done|lia|done].
Qed.

Lemma putc_stuck p c d r : base_ok (address p) → line d (address p) = Some r → stuck r →
  line (putc p c d) (address p) = Some (ticks TIMEOUT r) ∧ others (address p) d (putc p c d).
Proof. intros Hb Hl Hs. unfold putc. by destruct (send_stuck p c d r Hb Hl Hs) as (d' & -> & L & O). Qed.
End correct.

(** C28: the serial ports. Whatever lines there are at the eight ports, absent, working or with a
    transmitter that is stuck, [init] ends; the ports it marks as initialized are those whose line
    works, which are set to 8 bits at 115200 baud with interrupts off and an empty receiver. The characters of
    the loop-back test do not reach the line: only the messages do, those of every line that is
    there, on the primary port if its line works. After it, [print] sends its
    text with a carriage return behind every line feed; on a stuck line [putc] gives up, having
    sent nothing, and [getc] on a line with nothing to receive gives 0. The divisor of each rate
    is that of the clock of 115200 Hz, rounded to nearest. *)
Theorem serial_init_exact {D} `{Uart D} message (d : D) : usual d →
  let s := init message (COM, d) in
  s.1 = (λ b, Port b (works d b)) <$> bases
  ∧ (∀ b, b ∈ bases → done_line d s.2 b (said message d 8))
  ∧ (works d 0x3F8 = true → ∀ text, ∃ r r', line s.2 0x3F8 = Some r ∧ line (print (Port 0x3F8 true) text s.2) 0x3F8 = Some r'
       ∧ tx r' = tx r ++ (text ≫= crlf))
  ∧ Forall (λ x, 256 * high x.2 + low x.2 = (115200 + x.1 / 2) / x.1) rates
  ∧ ∀ p d r, base_ok (address p) → line d (address p) = Some r →
      (∀ c, stuck r → ∃ r', line (putc p c d) (address p) = Some r' ∧ tx r' = tx r)
      ∧ (rx r = [] → (getc p d).1 = 0).
Proof.
  intros Hu. cbv zeta. assert (boot_inv d 0 (said message d 0) (COM, d)) as H0 by (by split; [|done|lia]).
  pose proof (boot_all message d 8 0 _ Hu eq_refl H0) as [Hp _ Hd]. fold (init message (COM, d)) in Hp, Hd.
  assert (∀ b, b ∈ bases → done_line d (init message (COM, d)).2 b (said message d 8)) as Hdone.
  { intros b [j Hj]%list_elem_of_lookup_1. apply (Hd j b Hj). by apply lookup_lt_Some in Hj. }
  split; [rewrite Hp; reflexivity|]. split; [exact Hdone|]. split; [|split].
  - intros Hw text. pose proof (Hdone 0x3F8 ltac:(by left)) as Hl. unfold done_line in Hl.
    destruct (line d 0x3F8) as [r0|] eqn:E0; [|unfold works in Hw; by rewrite E0 in Hw].
    destruct Hl as (r & El & _ & Hc). destruct (Hc Hw) as (Hcf & Hf & _).
    destruct (print_fit (Port 0x3F8 true) text _ r (bases_ok 0x3F8 ltac:(by left)) eq_refl El Hf (proj1 (configured_bits _ _ Hcf)) (proj2 (configured_bits _ _ Hcf)))
      as (r' & El' & _ & _ & _ & _ & Et). by exists r, r'.
  - repeat (apply Forall_cons; split; [reflexivity|]). by apply Forall_nil.
  - intros p d' r Hb Hl. split.
    + intros c Hs. destruct (putc_stuck p c d' r Hb Hl Hs) as [E _]. by exists (ticks TIMEOUT r).
    + intros Hx. by destruct (getc_empty p d' r Hb Hl Hx) as (? & -> & _).
Qed.

(** A machine with lines at some ports. *)
Module DemoLines.
Abbreviation lines := (gmap Z uart).
Definition line_at (d : lines) (b : Z) : option uart := if b mod 8 =? 0 then d !! b else None.
Definition status (r : uart) : Z :=
  (if decide (lag_tx r = Some 0%nat) then 32 else 0) + (if decide (lag_rx r = Some 0%nat) then match rx r with [] => 0 | _ => 1 end else 0).
Definition read_reg (off : Z) (r : uart) : Z * uart :=
  if off =? 5 then (status r, tick r)
  else if off =? 0 then
    match dlab r, rx r with
    | false, c :: l => (c, U (ier r) (lcr r) (mcr r) (dll r) (dlm r) l (tx r) (lag_tx r) (lag_rx r) (speed r))
    | _, _ => (0, r)
    end
  else (0, r).
Definition write_reg (off v : Z) (r : uart) : uart :=
  if (off =? 0) && negb (dlab r) then
    if decide (lag_tx r = Some 0%nat) then
      if looped r then U (ier r) (lcr r) (mcr r) (dll r) (dlm r) (rx r ++ [v]) (tx r) (speed r) (speed r) (speed r)
      else U (ier r) (lcr r) (mcr r) (dll r) (dlm r) (rx r) (tx r ++ [v]) (speed r) (lag_rx r) (speed r)
    else r
  else set_reg off v r.
Definition base_of (p : Z) : Z := 8 * (p / 8).
Definition lines_inb (p : Z) (d : lines) : Z * lines :=
  match d !! base_of p with
  | None => (0xFF, d)
  | Some r => let '(v, r) := read_reg (p mod 8) r in (v, <[base_of p := r]> d)
  end.
Definition lines_outb (p v : Z) (d : lines) : lines :=
  match d !! base_of p with None => d | Some r => <[base_of p := write_reg (p mod 8) v r]> d end.

Lemma line_at_Some d b r : line_at d b = Some r → b mod 8 = 0 ∧ d !! b = Some r.
Proof. unfold line_at. destruct (Z.eqb_spec (b mod 8) 0); done. Qed.
Lemma line_at_aligned d b : b mod 8 = 0 → line_at d b = d !! b.
Proof. intros E. unfold line_at. by rewrite E. Qed.
Lemma at_offset b off : b mod 8 = 0 → 0 ≤ off < 8 → base_of (b + off) = b ∧ (b + off) mod 8 = off.
Proof. unfold base_of. intros. split; dlia. Qed.

Lemma inb_at d b off : b mod 8 = 0 → 0 ≤ off < 8 →
  lines_inb (b + off) d = match d !! b with None => (0xFF, d) | Some r => let '(v, r) := read_reg off r in (v, <[b := r]> d) end.
Proof. intros Hb Ho. unfold lines_inb. by destruct (at_offset b off Hb Ho) as [-> ->]. Qed.
Lemma outb_at d b off v : b mod 8 = 0 → 0 ≤ off < 8 →
  lines_outb (b + off) v d = match d !! b with None => d | Some r => <[b := write_reg off v r]> d end.
Proof. intros Hb Ho. unfold lines_outb. by destruct (at_offset b off Hb Ho) as [-> ->]. Qed.

Lemma takes_self s : takes s s.
Proof. destruct s; [apply Nat.le_refl|exact I]. Qed.

Lemma write_reg_ok r off v : 0 ≤ off < 5 → ¬ busy_data r off → written r off v (write_reg off v r).
Proof.
  intros Ho Hbusy. unfold write_reg, set_reg. assert (off = 0 ∨ off = 1 ∨ off = 2 ∨ off = 3 ∨ off = 4) as Hc by lia.
  destruct Hc as [-> | [-> | [-> | [-> | ->]]]]; simpl; try (by constructor).
  - destruct (dlab r) eqn:Ed; simpl; [by constructor|]. destruct (decide (lag_tx r = Some 0%nat)) as [E|Hn]; [|by destruct Hbusy].
    destruct (looped r) eqn:El; constructor; auto using takes_self.
  - destruct (dlab r) eqn:Ed; by constructor.
Qed.

#[export] Instance demo_uart : Uart lines.
Proof.
  refine (Build_Uart lines lines_inb lines_outb line_at _ _ _ _ _ _ _ _).
  - intros d b Hb Hl off Ho. rewrite line_at_aligned in Hl by done. by rewrite inb_at, Hl by done.
  - intros d b r [Hb Hl]%line_at_Some. rewrite inb_at, Hl by done. change (read_reg 5 r) with (status r, tick r).
    cbn [fst snd]. rewrite line_at_aligned by done.
    rewrite lookup_insert_eq. unfold status.
    destruct (decide (lag_tx r = Some 0%nat)) as [Et|Et];
      [rewrite (bool_decide_eq_true_2 (lag_tx r = Some 0%nat)) by done|rewrite (bool_decide_eq_false_2 (lag_tx r = Some 0%nat)) by done];
      (destruct (decide (lag_rx r = Some 0%nat)) as [Er|Er]; [destruct (rx r) as [|c l]|]).
    all: split; [done|]; split; [done|]; split; [symmetry|done].
    1, 3, 4, 6: apply bool_decide_eq_false_2; tauto.
    all: by apply bool_decide_eq_true_2.
  - intros d b r c l [Hb Hl]%line_at_Some Hd Hx. rewrite <- (Z.add_0_r b) at 1 2. rewrite inb_at, Hl by done. unfold read_reg.
    cbn [Z.eqb]. rewrite Hd, Hx. cbn [fst snd]. rewrite line_at_aligned by done. by rewrite lookup_insert_eq.
  - intros d b Hb. rewrite inb_at by done. destruct (d !! b) as [r|] eqn:E; cbn [fst snd]; [|done].
    change (read_reg 2 r) with (0, r). cbn [fst snd]. rewrite !line_at_aligned by done. by rewrite lookup_insert_eq.
  - intros d b r off v [Hb Hl]%line_at_Some Ho Hv Hbusy. rewrite outb_at, Hl, line_at_aligned by (done || lia).
    rewrite lookup_insert_eq. eauto using write_reg_ok.
  - intros d b b' off Hb Hb' Hne Ho. rewrite inb_at by done. destruct (d !! b) as [r|]; [|done].
    destruct (read_reg off r). cbn [fst snd]. rewrite !line_at_aligned by done. by rewrite lookup_insert_ne.
  - intros d b b' off v Hb Hb' Hne Ho. rewrite outb_at, !line_at_aligned by done. destruct (d !! b) as [r|]; [|done].
    by rewrite lookup_insert_ne.
  - intros d b off Hb Ho Hl. rewrite line_at_aligned in Hl by done. rewrite inb_at, Hl by done. cbn [snd]. by rewrite line_at_aligned.
Defined.

(** A working line at COM1, a stuck one at COM2. *)
Definition machine : lines := <[0x3F8 := U 0 0 0 0 0 [33] [] (Some 2%nat) (Some 0%nat) (Some 3%nat)]>
  {[0x2F8 := U 0 0 0 0 0 [] [] None None None]}.
Definition message (p : SerialPort) : list Z := if initialized p then [79; 75; 10] else [78; 111; 10].
End DemoLines.
#[local] Existing Instance DemoLines.demo_uart.

Lemma serial_init_exact_witness :
  let s := init DemoLines.message (COM, DemoLines.machine) in
  initialized <$> s.1 = [true; false; false; false; false; false; false; false]
  ∧ ∃ r, line s.2 0x3F8 = Some r ∧ tx r = [79; 75; 10; 13; 78; 111; 10; 13].
Proof.
  intros s.
  assert (usual DemoLines.machine) as Hu.
  { intros b r Hb Hl. unfold DemoLines.machine in Hl. apply DemoLines.line_at_Some in Hl as [_ [[<- <-]|[_ [<- <-]%lookup_singleton_Some]]%lookup_insert_Some].
    - split; [done|]. left. exists 3%nat, 2%nat. split; [done|]. split; [|split; [done|]]; apply (Nat.ltb_lt _ _); reflexivity.
    - split; [done|]. by right. }
  destruct (serial_init_exact DemoLines.message DemoLines.machine Hu) as (Hp & Hl & _). fold s in Hp, Hl. split.
  - rewrite Hp. reflexivity.
  - pose proof (Hl 0x3F8 ltac:(by left)) as (r & E & Et & _). exists r. split; [exact E|]. rewrite Et. reflexivity.
Defined.
