(* ===== verification/Log.v ===== *)
(** Log lines: klibcpp/include/log.hpp, and [puts] of klibcpp/cstdlib.cpp.

    A line is put together in a buffer of 256 bytes by successive calls of [snprintf], each
    given what is left, and handed to [puts]. The string literals are in memory, where
    [lit] says. The lock around it only keeps lines apart. *)
From S2P Require Import Prelude Memory Strings Printf.

Inductive LogLevel := INFO | WARN | DEBUG | ERR | CRIT | FATAL | ALL.
Definition level_number (l : LogLevel) : Z :=
  match l with INFO => 0 | WARN => 1 | DEBUG => 2 | ERR => 3 | CRIT => 4 | FATAL => 5 | ALL => 6 end.
Definition level_str : list string := ["INFO"; "WARN"; "DEBUG"; "ERR"; "CRIT"; "FATAL"]%string.
Definition global_level : LogLevel := ALL.
Definition BUFFER_SIZE : Z := 256.

(** The characters up to the terminator, each of them passed to [api.putc]. *)
Fixpoint puts_loop (fuel : nat) (m : ram) (s : Z) : res (list Z) :=
  match fuel with
  | O => NoFuel
  | S fuel => if m s =? 0 then Ok [] else l ← puts_loop fuel m (s + 1); Ok (m s :: l)
  end.
Definition puts (api_putc : bool) (fuel : nat) (m : ram) (s : Z) : res (list Z) :=
  if negb api_putc then Ok [] else puts_loop fuel m s.

(** What follows the last separator of a path. *)
Definition file_name (fuel : nat) (m : ram) (file : Z) : res Z :=
  last_slash ← strrchr fuel m file 47;
  last_backslash ← strrchr fuel m file 92;
  Ok (if negb (last_slash =? NULL) || negb (last_backslash =? NULL) then
        if last_backslash <? last_slash then last_slash + 1 else last_backslash + 1
      else file).

Section log.
Context (ftoa : ram → Z → Z → Z → Z → res ram).
(** Where the local buffer of [_vprintf], the one of the line and the literals are; the functions of
    the kernel interface: the ticks, and whether there is a [putc]; whether file and line are shown. *)
Context (local buffer : Z) (lit : string → Z) (get_ticks : option Z) (api_putc show_file_line : bool).

(** [pos], [remaining] and the memory. *)
Definition safe_snprintf (fuel : nat) (format : Z) (params : list Z) (s : Z * Z * ram) : res (Z * Z * ram) :=
  let '(pos, remaining, m) := s in
  '(written, m) ← snprintf ftoa local fuel m pos remaining format params;
  let written :=
    if (written <? 0) || (remaining <=? u32 written) then
      if 0 <? remaining then u32 (remaining - 1) else 0
    else written in
  Ok (u32 (pos + written), u32 (remaining - written), m).

Definition printf (fuel : nat) (level : LogLevel) (file line fmt : Z) (args : list Z) (m : ram) : res (list Z * ram) :=
  if level_number global_level <? level_number level then Ok ([], m)
  else
    let m := memset m buffer 0 BUFFER_SIZE in
    let s := (buffer, BUFFER_SIZE, m) in
    s ← match get_ticks with
        | Some ticks => safe_snprintf fuel (lit "[%010d]") [ticks] s
        | None => Ok s
        end;
    s ← (if show_file_line then
           f ← file_name fuel s.2 file;
           safe_snprintf fuel (lit "[%14s:%-6d]") [f; u32 line] s
         else Ok s);
    match level_str !! Z.to_nat (level_number level) with
    | None => Fault (level_number level)
    | Some name =>
        s ← safe_snprintf fuel (lit "<%6s>: ") [lit name] s;
        s ← safe_snprintf fuel fmt args s;
        out ← puts api_putc fuel s.2 buffer;
        Ok (out, s.2)
    end.
End log.

(** ** The file name *)

Definition separator (c : Z) : bool := (c =? 47) || (c =? 92).
(** The last component of a path. *)
Fixpoint base_name (s : list Z) : list Z :=
  match s with
  | [] => []
  | c :: s => if existsb separator s then base_name s else if separator c then s else c :: s
  end.

(** The address of the last [ch] of the string [s] at [a]. *)
Fixpoint last_at (ch a : Z) (s : list Z) (last : Z) : Z :=
  match s with [] => last | c :: s => last_at ch (a + 1) s (if c =? ch then a else last) end.

Lemma strrchr_loop_ok s : ∀ fuel m a ch last, cstr m a s → ch ≠ 0 → (length s < fuel)%nat →
  strrchr_loop fuel m a ch last = Ok (last_at ch a s last).
Proof.
  induction s as [|c s IH]; intros [|fuel] m a ch last Hs Hch Hf; simpl in Hf; try lia; simpl in Hs |- *.
  - rewrite Hs. simpl. by rewrite (proj2 (Z.eqb_neq ch 0)).
  - destruct Hs as (Hc & Hn & Hs). rewrite Hc, (proj2 (Z.eqb_neq c 0)) by done. simpl. apply IH; [done|done|lia].
Qed.

Lemma base_name_suffix s : ∃ pre, s = pre ++ base_name s.
Proof.
  induction s as [|c s [pre IH]]; simpl; [by exists []|]. destruct (existsb separator s).
  - exists (c :: pre). simpl. by rewrite <- IH.
  - destruct (separator c); [by exists [c]|by exists []].
Qed.

Lemma last_separator s : ∀ a x y, x < a → y < a →
  let x' := last_at 47 a s x in let y' := last_at 92 a s y in
  if existsb separator s then a ≤ Z.max x' y' ∧ Z.max x' y' + 1 = a + len s - len (base_name s)
  else x' = x ∧ y' = y.
Proof.
  induction s as [|c s IH]; intros a x y Hx Hy; cbn [last_at existsb]; cbv zeta; [done|].
  specialize (IH (a + 1) (if c =? 47 then a else x) (if c =? 92 then a else y)).
  cbv zeta in IH. unfold separator at 1. cbn [base_name]. unfold separator at 3.
  destruct (c =? 47) eqn:E47, (c =? 92) eqn:E92; cbn [orb] in *;
    (destruct (existsb separator s); [destruct IH as [IH1 IH2]; [lia|lia|]; cbn [length]; lia|]);
    destruct IH as [-> ->]; try lia; cbn [length]; try lia; done.
Qed.

Lemma file_name_ok fuel m a s : cstr m a s → 0 < a → (length s < fuel)%nat →
  ∃ f, file_name fuel m a = Ok f ∧ cstr m f (base_name s) ∧ a ≤ f ∧ f + len (base_name s) = a + len s.
Proof.
  intros Hs Ha Hf. unfold file_name, strrchr. change (u8 47) with 47. change (u8 92) with 92.
  rewrite !(strrchr_loop_ok s) by done. rewrite !bind_Ok. eexists. split; [done|].
  pose proof (last_separator s a NULL NULL Ha Ha) as H. cbv zeta in H.
  set (x := last_at 47 a s NULL) in *. set (y := last_at 92 a s NULL) in *. unfold NULL in *.
  destruct (base_name_suffix s) as [pre E]. assert (len s = len pre + len (base_name s)) as El by (rewrite E at 1; rewrite length_app; lia).
  assert (∀ f, f = a + len pre → cstr m f (base_name s) ∧ a ≤ f ∧ f + len (base_name s) = a + len s) as Hgoal.
  { intros f ->. split; [|lia]. rewrite E in Hs. by apply cstr_app in Hs as (_ & _ & Hs). }
  destruct (existsb separator s) eqn:Es.
  - apply Hgoal. destruct (Z.eqb_spec x 0), (Z.eqb_spec y 0), (Z.ltb_spec y x); cbn [negb orb]; lia.
  - destruct H as [-> ->]. cbn [Z.eqb negb orb]. assert (base_name s = s) as Eb.
    { clear -Es. destruct s as [|c s]; [done|]. simpl in *. apply orb_false_iff in Es as [-> ->]. done. }
    rewrite Eb. split; [done|lia].
Qed.

(** ** The line *)

Lemma item_ok_mono m m' (sf sf' : Z → Prop) i : (∀ b, sf b → sf' b ∧ m' b = m b) → item_ok m sf i → item_ok m' sf' i.
Proof.
  intros H. destruct i as [c| |minus sym width prec k]; try done. simpl. intros (H1 & H2 & H3 & H4 & H5). split_and!; try done.
  destruct k as [| | | | |a s]; try done. simpl in *. destruct (decide (a = NULL)); [done|].
  destruct H5 as (Hs & Hl & Hb). split_and!; [|done|by intros; apply H, Hb]. eapply cstr_ext; [|exact Hs]. intros b Hb'. by apply H, Hb.
Qed.

Lemma digit_nonzero d : 0 ≤ d < 16 → digit d ≠ 0.
Proof. intros Hd. rewrite digit_value by lia. destruct (d <? 10); lia. Qed.

Lemma kind_text_nonzero m sf k t : kind_ok m sf k → kind_text k t → Forall (λ c, c ≠ 0) t.
Proof.
  assert (∀ b v u, b ≤ 16 → numeral b v u → Forall (λ c, c ≠ 0) u) as Hnum.
  { intros b v u Hb (ds & -> & Hd & _). apply Forall_fmap. eapply Forall_impl; [exact Hd|]. intros d Hd'. simpl in *. apply digit_nonzero. lia. }
  destruct k as [a|a|a|a|a|a s]; simpl; intros Hk Ht; try (by eapply Hnum; [|exact Ht]; lia).
  - destruct Ht as (u & -> & Hu). do 2 (apply Forall_cons; split; [lia|]). eapply Hnum; [|exact Hu]. lia.
  - subst t. apply Forall_singleton. lia.
  - subst t. destruct (decide (a = NULL)) as [_|_].
    + subst s. repeat (apply Forall_cons; split; [lia|]). by apply Forall_nil.
    + destruct Hk as (Hs & _). by apply cstr_seg in Hs as (_ & Hs & _).
Qed.

Lemma item_text_nonzero m sf i out : item_ok m sf i → item_text i out → Forall (λ c, c ≠ 0) out.
Proof.
  destruct i as [c| |minus sym width prec k]; simpl.
  - intros [? _] ->. apply Forall_singleton. lia.
  - intros _ ->. by apply Forall_singleton.
  - intros (Hsym & _ & _ & _ & Hk) (t & Ht & ->). pose proof (kind_text_nonzero m sf k t Hk Ht) as Hf.
    unfold padded. destruct minus; apply Forall_app; split; try done; apply Forall_replicate; [done|].
    destruct sym as [c|]; simpl; [destruct Hsym; lia|done].
Qed.

Lemma items_text_nonzero m sf items outs : Forall (item_ok m sf) items → Forall2 item_text items outs → Forall (λ c, c ≠ 0) (concat outs).
Proof.
  intros Hok H. induction H as [|i o items outs Hi H IH]; [constructor|]. apply Forall_cons in Hok as [Hoi Hok]. simpl.
  apply Forall_app. split; [by eapply item_text_nonzero|by apply IH].
Qed.

(** A bound on the output of a piece. *)
Definition item_max (i : item) : Z :=
  match i with
  | Conv _ _ width _ k => value_be 10 width + match k with KS _ s => len s | _ => 34 end
  | _ => 1
  end.
Definition items_max (items : list item) : Z := foldr (λ i a, item_max i + a) 0 items.

Lemma value_be_ge base ds : ∀ x, 2 ≤ base → digits base ds → 0 ≤ x → x * 2 ^ len ds ≤ foldl (λ acc d, acc * base + d) x ds.
Proof.
  induction ds as [|d ds IH]; intros x Hb Hd Hx; cbn [foldl length]; [rewrite Z.mul_1_r; lia|].
  apply Forall_cons in Hd as [Hd Hds]. rewrite Nat2Z.inj_succ, Z.pow_succ_r by lia.
  pose proof (Z.pow_pos_nonneg 2 (len ds) ltac:(lia) ltac:(lia)).
  etransitivity; [|apply IH; [done|done|nia]]. nia.
Qed.

Lemma numeral_length base v t : 2 ≤ base → 0 ≤ v < 2 ^ 32 → numeral base v t → len t ≤ 32.
Proof.
  intros Hb Hv (ds & -> & Hd & Hval & Hh). rewrite length_fmap. destruct ds as [|d ds]; [simpl; lia|].
  destruct Hh as [E|Hh]; [injection E as -> ->; simpl; lia|]. unfold value_be in Hval. cbn [foldl] in Hval.
  apply Forall_cons in Hd as [Hd Hds]. assert (d ≠ 0) as Hd0 by (intros ->; done).
  pose proof (value_be_ge base ds (0 * base + d) Hb Hds ltac:(lia)) as Hge. rewrite Hval in Hge.
  pose proof (Z.pow_pos_nonneg 2 (len ds) ltac:(lia) ltac:(lia)).
  assert (2 ^ len ds < 2 ^ 32) as Hlt by nia. apply Z.pow_lt_mono_r_iff in Hlt; cbn [length]; lia.
Qed.

Lemma item_length m sf i out : item_ok m sf i → item_text i out → len out ≤ item_max i.
Proof.
  destruct i as [c| |minus sym width prec k]; simpl.
  - intros _ ->. done.
  - intros _ ->. done.
  - intros (_ & Hw & _ & _ & Hk) (t & Ht & ->).
    assert (0 ≤ value_be 10 width) as Hw0.
    { pose proof (value_be_ge 10 width 0 ltac:(lia) Hw ltac:(lia)). unfold value_be. lia. }
    assert (len t ≤ match k with KS _ s => len s | _ => 34 end) as Ht'.
    { destruct k as [a|a|a|a|a|a s]; simpl in *;
        try (pose proof (numeral_length 10 a t ltac:(lia) Hk Ht); lia); try (pose proof (numeral_length 16 a t ltac:(lia) Hk Ht); lia).
      - destruct Ht as (u & -> & Hu). pose proof (numeral_length 16 a u ltac:(lia) Hk Hu). simpl. lia.
      - subst t. simpl. lia.
      - by subst t. }
    unfold padded. destruct minus; rewrite length_app, length_replicate; lia.
Qed.

Lemma items_length m sf items outs : Forall (item_ok m sf) items → Forall2 item_text items outs → len (concat outs) ≤ items_max items.
Proof.
  intros Hok H. induction H as [|i o items outs Hi H IH]; [done|]. apply Forall_cons in Hok as [Hoi Hok]. simpl.
  rewrite length_app. pose proof (item_length m sf i o Hoi Hi). specialize (IH Hok). lia.
Qed.

Lemma puts_loop_ok s : ∀ fuel m a, cstr m a s → (length s < fuel)%nat → puts_loop fuel m a = Ok s.
Proof.
  induction s as [|c s IH]; intros [|fuel] m a Hs Hf; simpl in Hf; try lia; simpl in *; [by rewrite Hs|].
  destruct Hs as (Hc & Hn & Hs). rewrite Hc, (proj2 (Z.eqb_neq c 0)) by done. rewrite (IH fuel m (a + 1)) by (done || lia). done.
Qed.

Section line.
Context (ftoa : ram → Z → Z → Z → Z → res ram) (local buffer : Z) (m0 : ram).
Hypothesis Hbuffer : 0 < buffer ∧ buffer + BUFFER_SIZE ≤ 2 ^ 32.
Hypothesis Hlocal : 0 < local.
Hypothesis Happart : local + 64 ≤ buffer ∨ buffer + BUFFER_SIZE ≤ local.

(** What the line is made from lies outside the two buffers. *)
Definition outside (b : Z) : Prop := safe (sized_range buffer BUFFER_SIZE) local b.
Definition kept_text (a : Z) (s : list Z) : Prop := cstr m0 a s ∧ ∀ b, a ≤ b ≤ a + len s → outside b.

(** The text [T] so far; the buffer holds as much of it as fits. *)
Record progress (T : list Z) (s : Z * Z * ram) : Prop := {
  pr_pos : s.1.1 = buffer + Z.min (len T) 255;
  pr_remaining : s.1.2 = 256 - Z.min (len T) 255;
  pr_text : seg s.2 buffer (take 255 T);
  pr_end : s.2 (buffer + Z.min (len T) 255) = 0;
  pr_bytes : bytes_ok s.2;
  pr_keep b : outside b → s.2 b = m0 b
}.

Lemma progress_start : bytes_ok m0 → progress [] (buffer, BUFFER_SIZE, memset m0 buffer 0 BUFFER_SIZE).
Proof.
  intros Hb. unfold memset. split; cbn [fst snd length].
  - lia.
  - done.
  - intros i c Hc. by rewrite take_nil, lookup_nil in Hc.
  - apply (fill8_in 0). unfold BUFFER_SIZE. lia.
  - by apply fill8_bytes.
  - intros b [Hb' _]. apply fill8_other. unfold sized_range in Hb'. rewrite Z2Nat.id by done. lia.
Qed.

Lemma outside_sub k b : 0 ≤ k < 256 → outside b → safe (sized_range (buffer + k) (256 - k)) local b.
Proof. intros Hk [H1 H2]. split; [|done]. unfold sized_range, BUFFER_SIZE in *. lia. Qed.

Lemma safe_snprintf_ok fuel f items args T s B : progress T s →
  Forall (item_ok m0 outside) items → Forall (λ i, text_len i ≤ B)%nat items → kept_text f (concat (show <$> items)) →
  items_max items < 2 ^ 31 →
  (length (concat (show <$> items)) + B + 66 < fuel)%nat →
  ∃ outs s', Forall2 item_text items outs ∧ safe_snprintf ftoa local fuel f (concat (item_args <$> items) ++ args) s = Ok s'
    ∧ progress (T ++ concat outs) s'.
Proof.
  destruct s as [[p r] m]. intros [Hp Hr Ht He Hb Hk] Hok HB [Hf Hsf] Hlen Hfuel. cbn [fst snd] in *. subst p r.
  set (k := Z.min (len T) 255) in *. assert (0 ≤ k ≤ 255) as Hk255 by lia. unfold BUFFER_SIZE in Hbuffer, Happart.
  destruct (snprintf_ok ftoa local fuel m (buffer + k) (256 - k) f items args B) as (outs & m' & Htx & E & Hseg & H0 & Hag & Hb'); [lia|lia|done|lia|done| |done| | |done|].
  { eapply Forall_impl; [exact Hok|]. intros i. apply item_ok_mono. intros b Hb'. split; [by apply outside_sub; [lia|]|by apply Hk]. }
  { eapply cstr_ext; [|exact Hf]. intros b Hb'. by apply Hk, Hsf. }
  { intros b Hb'. apply outside_sub; [lia|by apply Hsf]. }
  exists outs. unfold safe_snprintf. rewrite E, bind_Ok. pose proof (items_length _ _ _ _ Hok Htx) as Hlo. set (O := concat outs) in *.
  rewrite s32_small by lia.
  set (w := if (len O <? 0) || (256 - k <=? u32 (len O)) then if 0 <? 256 - k then u32 (256 - k - 1) else 0 else len O).
  assert (w = Z.min (len O) (255 - k)) as Ew.
  { unfold w. rewrite (proj2 (Z.ltb_ge _ 0)), (proj2 (Z.ltb_lt 0 _)), u32_small by lia. cbn [orb].
    rewrite (u32_small (256 - k - 1)) by lia. destruct (Z.leb_spec (256 - k) (len O)); lia. }
  assert (k + w = Z.min (len (T ++ O)) 255) as Ekw by (rewrite length_app; lia).
  eexists. split; [done|]. split; [done|]. split; cbn [fst snd].
  - rewrite wrap_small by lia. lia.
  - rewrite wrap_small by lia. lia.
  - rewrite take_app. apply seg_app. split.
    + eapply seg_ext; [|exact Ht]. intros b Hb''. rewrite length_take in Hb''. rewrite Hag; [done|].
      split; [unfold sized_range; lia|]. lia.
    + assert (buffer + len (take 255 T) = buffer + k) as -> by (rewrite length_take; lia).
      replace (255 - length T)%nat with (Z.to_nat (256 - k - 1)) by lia. exact Hseg.
  - rewrite <- Ekw. replace (buffer + (k + w)) with (buffer + k + Z.min (len O) (256 - k - 1)) by lia. exact H0.
  - done.
  - intros b Hb''. rewrite Hag by (apply outside_sub; [lia|done]). by apply Hk.
Qed.

Lemma progress_puts T s fuel : progress T s → Forall (λ c, c ≠ 0) T → (255 < fuel)%nat →
  puts_loop fuel s.2 buffer = Ok (take 255 T).
Proof.
  intros [_ _ Ht He _ _] Hn Hf. apply puts_loop_ok; [|rewrite length_take; lia]. apply cstr_seg. split; [done|]. split; [by apply Forall_take|].
  rewrite length_take. rewrite <- He. f_equal. lia.
Qed.

(** *** The whole line *)

Context (lit : string → Z) (get_ticks : option Z) (api_putc : bool).

Definition tick_items (t : Z) : list item := [Chr 91; Conv false (Some 48) [1; 0] None (KD t); Chr 93].
Definition file_items (f : Z) (name : list Z) (line : Z) : list item :=
  [Chr 91; Conv false None [1; 4] None (KS f name); Chr 58; Conv true None [6] None (KD line); Chr 93].
Definition level_items (a : Z) (name : list Z) : list item := [Chr 60; Conv false None [6] None (KS a name); Chr 62; Chr 58; Chr 32].

Definition formats : list string := ["[%010d]"; "[%14s:%-6d]"; "<%6s>: "]%string.

(** A call of [printf]: the literals, the name [fs] of the file, the pieces [items] of the format. *)
Record call_ok (B : nat) (file line fmt : Z) (fs : list Z) (items : list item) : Prop := {
  co_bytes : bytes_ok m0;
  co_literals s : s ∈ formats ++ level_str → 0 < lit s ∧ kept_text (lit s) (bytes_of s);
  co_ticks t : get_ticks = Some t → 0 ≤ t < 2 ^ 32;
  co_file : kept_text file fs ∧ 0 < file ∧ len fs < 2 ^ 30;
  co_line : 0 ≤ line < 2 ^ 32;
  co_format : kept_text fmt (concat (show <$> items));
  co_items : Forall (item_ok m0 outside) items ∧ Forall (λ i, text_len i ≤ B)%nat items ∧ items_max items < 2 ^ 31
}.

Definition header (show_file : bool) (level : string) (fs : list Z) (line : Z) : list item :=
  match get_ticks with Some t => tick_items t | None => [] end
  ++ (if show_file then file_items 1 (base_name fs) line else []) ++ level_items 1 (bytes_of level).

Lemma one_string a s : 0 < a → kept_text a s → len s < 2 ^ 31 - 1 → kind_ok m0 outside (KS a s).
Proof. intros Ha [Hs Hk] Hl. simpl. rewrite decide_False by (unfold NULL; lia). done. Qed.

Lemma base_name_length s : (length (base_name s) ≤ length s)%nat.
Proof. destruct (base_name_suffix s) as [pre E]. apply (f_equal length) in E. rewrite length_app in E. lia. Qed.

(** Where a string is does not show in the output. *)
Lemma items_moved l l' outs : Forall2 (λ i j, ∀ out, item_text i out → item_text j out) l l' → Forall2 item_text l outs → Forall2 item_text l' outs.
Proof.
  intros H. revert outs. induction H as [|i j l l' Hi H IH]; intros outs Ho; inversion Ho; subst; constructor; auto.
Qed.

Lemma step_ok fuel f items items' B T s : progress T s → Forall (item_ok m0 outside) items → Forall (λ i, text_len i ≤ B)%nat items →
  kept_text f (concat (show <$> items)) → items_max items < 2 ^ 31 → (length (concat (show <$> items)) + B + 66 < fuel)%nat →
  Forall2 (λ i j, ∀ out, item_text i out → item_text j out) items items' →
  ∃ outs s', Forall2 item_text items' outs ∧ safe_snprintf ftoa local fuel f (concat (item_args <$> items)) s = Ok s'
    ∧ progress (T ++ concat outs) s'.
Proof.
  intros Hp Hok HB Hf Hm Hfuel Hi. destruct (safe_snprintf_ok fuel f items [] T s B Hp Hok HB Hf Hm Hfuel) as (outs & s' & Ht & E & Hp').
  rewrite app_nil_r in E. exists outs, s'. split; [by eapply items_moved|done].
Qed.

Lemma same_items l : Forall2 (λ i j, ∀ out, item_text i out → item_text j out) l l.
Proof. by apply Forall_Forall2_diag, Forall_true. Qed.

(** The three pieces before the message. *)
Lemma tick_ok fuel t T s : progress T s → (100 < fuel)%nat → 0 ≤ t < 2 ^ 32 → kept_text (lit "[%010d]") (bytes_of "[%010d]") →
  ∃ outs s', Forall2 item_text (tick_items t) outs ∧ safe_snprintf ftoa local fuel (lit "[%010d]") [t] s = Ok s' ∧ progress (T ++ concat outs) s'.
Proof.
  intros Hp Hf Ht Hl. apply (step_ok fuel (lit "[%010d]") (tick_items t) (tick_items t) 0 T s Hp); [|repeat constructor|exact Hl|reflexivity|simpl; lia|apply same_items].
  repeat (apply Forall_cons; split); [| | |by apply Forall_nil]; simpl; try lia.
  split; [by left|]. split; [repeat constructor; lia|]. split; [reflexivity|]. done.
Qed.

Lemma file_ok fuel f name line T s : progress T s → (length name + 100 < fuel)%nat → 0 ≤ line < 2 ^ 32 → 0 < f → len name < 2 ^ 30 → kept_text f name →
  kept_text (lit "[%14s:%-6d]") (bytes_of "[%14s:%-6d]") →
  ∃ outs s', Forall2 item_text (file_items 1 name line) outs ∧ safe_snprintf ftoa local fuel (lit "[%14s:%-6d]") [f; u32 line] s = Ok s'
    ∧ progress (T ++ concat outs) s'.
Proof.
  intros Hp Hf Hline Ha Hn Hk Hl. rewrite u32_small by done.
  apply (step_ok fuel (lit "[%14s:%-6d]") (file_items f name line) (file_items 1 name line) (length name) T s Hp); [| |exact Hl| | |].
  - repeat (apply Forall_cons; split); [| | | | |by apply Forall_nil]; try (simpl; lia).
    + split; [done|]. split; [repeat constructor; lia|]. split; [reflexivity|]. split; [done|]. apply one_string; [done|done|lia].
    + split; [done|]. split; [repeat constructor; lia|]. split; [reflexivity|]. done.
  - repeat (apply Forall_cons; split); [| | | | |by apply Forall_nil]; simpl; lia.
  - unfold items_max, file_items. simpl. change (value_be 10 [1; 4]) with 14. change (value_be 10 [6]) with 6. lia.
  - simpl. lia.
  - repeat (apply Forall2_cons; split); done.
Qed.

Lemma level_ok fuel name T s : progress T s → (110 < fuel)%nat → (length (bytes_of name) ≤ 5)%nat → 0 < lit name → kept_text (lit name) (bytes_of name) →
  kept_text (lit "<%6s>: ") (bytes_of "<%6s>: ") →
  ∃ outs s', Forall2 item_text (level_items 1 (bytes_of name)) outs ∧ safe_snprintf ftoa local fuel (lit "<%6s>: ") [lit name] s = Ok s'
    ∧ progress (T ++ concat outs) s'.
Proof.
  intros Hp Hf Hn Ha Hk Hl.
  apply (step_ok fuel (lit "<%6s>: ") (level_items (lit name) (bytes_of name)) (level_items 1 (bytes_of name)) 5 T s Hp); [| |exact Hl| | |].
  - repeat (apply Forall_cons; split); [| | | | |by apply Forall_nil]; try (simpl; lia).
    split; [done|]. split; [repeat constructor; lia|]. split; [reflexivity|]. split; [done|]. apply one_string; [done|done|lia].
  - repeat (apply Forall_cons; split); [| | | | |by apply Forall_nil]; simpl; lia.
  - unfold items_max, level_items. simpl. change (value_be 10 [6]) with 6. lia.
  - simpl. lia.
  - repeat (apply Forall2_cons; split); done.
Qed.

Lemma header_nonzero show_file level fs line outs : Forall (λ c, c ≠ 0) fs → Forall (λ c, c ≠ 0) (bytes_of level) →
  0 ≤ line < 2 ^ 32 → (∀ t, get_ticks = Some t → 0 ≤ t < 2 ^ 32) →
  Forall2 item_text (header show_file level fs line) outs → Forall (λ c, c ≠ 0) (concat outs).
Proof.
  intros Hfs Hl Hline Ht Ho.
  assert (∀ i out, item_text i out → match i with
     | Chr c => c ≠ 0 | Pct => True
     | Conv _ sym _ _ k => default 32 sym ≠ 0 ∧ match k with KD a => 0 ≤ a < 2 ^ 32 | KS _ s => Forall (λ c, c ≠ 0) s | _ => False end
     end → Forall (λ c, c ≠ 0) out) as Hi.
  { intros [c| |minus sym width prec k] out; simpl; [intros -> ?; by apply Forall_singleton|intros -> _; by apply Forall_singleton|].
    intros (t & Hk & ->) [Hsym Hkind]. assert (Forall (λ c, c ≠ 0) t) as Hf.
    { destruct k as [a|a|a|a|a|a s']; try done; [by eapply (kind_text_nonzero m0 outside (KD a))|by rewrite Hk]. }
    unfold padded. destruct minus; apply Forall_app; split; try done; by apply Forall_replicate. }
  assert (Forall (λ i, match i with
     | Chr c => c ≠ 0 | Pct => True
     | Conv _ sym _ _ k => default 32 sym ≠ 0 ∧ match k with KD a => 0 ≤ a < 2 ^ 32 | KS _ s => Forall (λ c, c ≠ 0) s | _ => False end
     end) (header show_file level fs line)) as Hall.
  { destruct (base_name_suffix fs) as [pre Epre]. rewrite Epre in Hfs. apply Forall_app in Hfs as [_ Hfs].
    unfold header, tick_items, file_items, level_items.
    repeat apply Forall_app_2; [destruct get_ticks as [t|]|destruct show_file|]; repeat apply Forall_cons_2; try apply Forall_nil_2; auto; done. }
  clear Hfs Hl. induction Ho as [|i o l outs Hio Ho IH]; simpl; [by constructor|]. apply Forall_cons in Hall as [? ?].
  apply Forall_app. split; [by eapply Hi|by apply IH].
Qed.

Lemma line_ok fuel show_file level B file line fmt fs items : call_ok B file line fmt fs items → level ≠ ALL →
  (length fs + length (concat (show <$> items)) + B + 300 < fuel)%nat →
  ∃ outs m' name, level_str !! Z.to_nat (level_number level) = Some name
    ∧ Forall2 item_text (header show_file name fs line ++ items) outs
    ∧ printf ftoa local buffer lit get_ticks api_putc show_file fuel level file line fmt (concat (item_args <$> items)) m0
        = Ok (if api_putc then take 255 (concat outs) else [], m')
    ∧ ∀ b, outside b → m' b = m0 b.
Proof.
  intros [Hb Hlit Hticks ((Hfile & Hsafe) & Hfpos & Hflen) Hline Hfmt (Hok & HB & Hmax)] Hlev Hfuel.
  assert (level_number level < 6) as Hnum by (by destruct level).
  assert (∃ name, level_str !! Z.to_nat (level_number level) = Some name ∧ (length (bytes_of name) ≤ 5)%nat ∧ Forall (λ c, c ≠ 0) (bytes_of name))
    as (name & Hname & Hnlen & Hnz) by (destruct level; try done; (eexists; split; [reflexivity|]; split; [simpl; lia|];
      repeat apply Forall_cons_2; try apply Forall_nil_2; done)).
  pose proof (λ s (Hs : s ∈ formats), Hlit s (proj2 (elem_of_app _ _ _) (or_introl Hs))) as Hformats.
  destruct (Hlit name) as [Hnpos Hnk]; [apply elem_of_app; right; by eapply list_elem_of_lookup_2|].
  unfold printf. rewrite (proj2 (Z.ltb_ge _ _)) by (simpl; lia). cbv zeta. rewrite Hname.
  pose proof (progress_start Hb) as P0. set (s0 := (buffer, BUFFER_SIZE, memset m0 buffer 0 BUFFER_SIZE)) in *.
  assert (∃ o1 s1, Forall2 item_text (match get_ticks with Some t => tick_items t | None => [] end) o1
    ∧ match get_ticks with Some ticks => safe_snprintf ftoa local fuel (lit "[%010d]") [ticks] s0 | None => Ok s0 end = Ok s1
    ∧ progress (concat o1) s1) as (o1 & s1 & Ho1 & -> & P1).
  { destruct get_ticks as [t|]; [|by exists [], s0].
    apply (tick_ok fuel t [] s0 P0); [lia|by apply Hticks|]. apply Hformats. by left. }
  rewrite bind_Ok.
  assert (∃ o2 s2, Forall2 item_text (if show_file then file_items 1 (base_name fs) line else []) o2
    ∧ (if show_file then f ← file_name fuel s1.2 file; safe_snprintf ftoa local fuel (lit "[%14s:%-6d]") [f; u32 line] s1 else Ok s1) = Ok s2
    ∧ progress (concat o1 ++ concat o2) s2) as (o2 & s2 & Ho2 & -> & P2).
  { destruct show_file; [|exists [], s1; by rewrite app_nil_r].
    assert (cstr s1.2 file fs) as Hf1 by (eapply cstr_ext; [|exact Hfile]; intros b Hb'; apply P1, Hsafe; lia).
    destruct (file_name_ok fuel s1.2 file fs Hf1 Hfpos ltac:(lia)) as (f & -> & Hf & Hge & Hend). rewrite bind_Ok.
    pose proof (base_name_length fs). apply (file_ok fuel f (base_name fs) line _ s1 P1); [lia|done|lia|lia| |].
    - split; [|intros b Hb'; apply Hsafe; lia]. eapply cstr_ext; [|exact Hf]. intros b Hb'. symmetry. apply P1, Hsafe. lia.
    - apply Hformats. right. by left. }
  rewrite bind_Ok.
  destruct (level_ok fuel name _ s2 P2 ltac:(lia) Hnlen Hnpos Hnk) as (o3 & s3 & Ho3 & -> & P3); [apply Hformats; right; right; by left|].
  rewrite bind_Ok. destruct (step_ok fuel fmt items items B _ s3 P3 Hok HB Hfmt Hmax ltac:(lia) (same_items _)) as (o4 & s4 & Ho4 & -> & P4).
  rewrite bind_Ok. exists (((o1 ++ o2) ++ o3) ++ o4), s4.2, name. split; [done|].
  assert (Forall2 item_text (header show_file name fs line) ((o1 ++ o2) ++ o3)) as Hh.
  { unfold header. rewrite app_assoc. repeat apply Forall2_app; done. }
  split; [by apply Forall2_app|]. rewrite !concat_app. split; [|apply P4].
  unfold puts. destruct api_putc; [|done]. cbn [negb]. rewrite (progress_puts _ s4 fuel P4); [done| |lia].
  rewrite <- !concat_app, concat_app. apply Forall_app. split; [|by eapply items_text_nonzero].
  eapply header_nonzero; [|exact Hnz|exact Hline|exact Hticks|exact Hh]. by apply cstr_seg in Hfile as (_ & ? & _).
Qed.
End line.

(** C25: a log line. For a message with a well-formed format, whatever its length, [printf] returns, hands to
    [putc] the first 255 characters of the line (the ticks, if the kernel interface has them, in ten digits;
    the last component of the file's path and the line number; the level; the
    message) and changes nothing in memory but the local buffers of itself and of [_vprintf]. Without
    a [putc] nothing is output. *)
Theorem log_line_exact ftoa local buffer m lit get_ticks api_putc show_file fuel level B file line fmt fs items :
  0 < buffer ∧ buffer + BUFFER_SIZE ≤ 2 ^ 32 → 0 < local → local + 64 ≤ buffer ∨ buffer + BUFFER_SIZE ≤ local →
  call_ok local buffer m lit get_ticks B file line fmt fs items → level ≠ ALL →
  (length fs + length (concat (show <$> items)) + B + 300 < fuel)%nat →
  ∃ outs m' name, level_str !! Z.to_nat (level_number level) = Some name
    ∧ Forall2 item_text (header get_ticks show_file name fs line ++ items) outs
    ∧ printf ftoa local buffer lit get_ticks api_putc show_file fuel level file line fmt (concat (item_args <$> items)) m
        = Ok (if api_putc then take 255 (concat outs) else [], m')
    ∧ ∀ b, outside local buffer b → m' b = m b.
Proof. intros. by eapply line_ok. Qed.

(** A warning from line 3 of a/b.c at tick 7: x=5. *)
Module DemoLog.
Definition texts : list string := (formats ++ level_str ++ ["a/b.c"; "x=%u"]%string)%list.
Definition data : list Z := texts ≫= λ s, bytes_of s ++ [0].
Definition mem : ram := λ a, default 0 (data !! Z.to_nat (a - 4096)).
Fixpoint find (s : string) (l : list string) (a : Z) : Z :=
  match l with [] => 0 | x :: l => if bool_decide (s = x) then a else find s l (a + len (bytes_of x) + 1) end.
Definition lit (s : string) : Z := find s texts 4096.
Definition items : list item := [Chr 120; Chr 61; Conv false None [] None (KU 5)].
Definition placed (s : string) : bool :=
  (0 <? lit s) && (lit s + len (bytes_of s) <? 8192)
  && bool_decide (Forall2 (λ c i, mem (lit s + i) = c) (bytes_of s ++ [0]) (seqZ 0 (len (bytes_of s) + 1)))
  && bool_decide (Forall (λ c, c ≠ 0) (bytes_of s)).

Lemma placed_ok s : placed s = true → 0 < lit s ∧ kept_text 8192 9000 mem (lit s) (bytes_of s).
Proof.
  intros [[[H1%Z.ltb_lt H2%Z.ltb_lt]%andb_true_iff H3%bool_decide_eq_true]%andb_true_iff H4%bool_decide_eq_true]%andb_true_iff.
  split; [done|]. split.
  - apply cstr_seg. assert (seg mem (lit s) (bytes_of s ++ [0])) as Hs.
    { intros i c Hc. destruct (Forall2_lookup_l _ _ _ _ _ H3 Hc) as (j & Hj & <-). apply lookup_seqZ in Hj as [-> _]. by rewrite Z.add_0_l. }
    apply seg_app in Hs as [Hs H0]. apply seg_one in H0. done.
  - intros b Hb. split; [unfold sized_range; lia|lia].
Qed.

Lemma mem_bytes : bytes_ok mem.
Proof.
  intros a. unfold mem. assert (Forall (λ c, 0 ≤ c < 256) data) as Hd by (refine (bool_decide_unpack _ _); vm_compute; exact I).
  destruct (data !! _) as [c|] eqn:E; simpl; [|lia]. by eapply (proj1 (Forall_lookup _ _) Hd).
Qed.
End DemoLog.

Lemma log_line_exact_witness : ∃ outs m' name, level_str !! Z.to_nat (level_number WARN) = Some name
  ∧ printf (λ m _ _ _ _, Ok m) 8192 9000 DemoLog.lit (Some 7) true true 400 WARN (DemoLog.lit "a/b.c") 3 (DemoLog.lit "x=%u") [5] DemoLog.mem
      = Ok (take 255 (concat outs), m').
Proof.
  assert (∀ s, s ∈ DemoLog.texts → 0 < DemoLog.lit s ∧ kept_text 8192 9000 DemoLog.mem (DemoLog.lit s) (bytes_of s)) as Hp.
  { intros s Hs. apply DemoLog.placed_ok. revert s Hs. apply Forall_forall.
    repeat (apply Forall_cons_2; [vm_compute; reflexivity|]). apply Forall_nil_2. }
  destruct (log_line_exact (λ m _ _ _ _, Ok m) 8192 9000 DemoLog.mem DemoLog.lit (Some 7) true true 400 WARN 0
    (DemoLog.lit "a/b.c") 3 (DemoLog.lit "x=%u") (bytes_of "a/b.c") DemoLog.items) as (outs & m' & name & Hn & _ & E & _).
  - split; [reflexivity|discriminate].
  - reflexivity.
  - left. discriminate.
  - split.
    + apply DemoLog.mem_bytes.
    + intros s Hs. apply Hp. apply elem_of_app in Hs as [Hs|Hs]; apply elem_of_app; [by left|right]. apply elem_of_app. by left.
    + intros t [= <-]. split; [discriminate|reflexivity].
    + destruct (Hp "a/b.c"%string) as [H1 H2]; [do 9 right; by left|]. split; [exact H2|]. split; [exact H1|reflexivity].
    + split; [discriminate|reflexivity].
    + destruct (Hp "x=%u"%string) as [H1 H2]; [do 10 right; by left|]. exact H2.
    + split; [|split; [|reflexivity]].
      * repeat (apply Forall_cons; split); [| | |by apply Forall_nil]; simpl; try lia. split; [done|]. split; [by apply Forall_nil|]. split; [reflexivity|]. split; [done|]. split; [discriminate|reflexivity].
      * repeat (apply Forall_cons; split); [| | |by apply Forall_nil]; simpl; lia.
  - discriminate.
  - apply (Nat.ltb_lt _ _). reflexivity.
  - exists outs, m', name. split; [exact Hn|exact E].
Defined.
