(* ===== verification/SelfTest.v ===== *)
(** The kernel's self-tests: kernel/include/ktest/engine.hpp, builtin.hpp, compile_time.hpp.

    The engine counts suites, cases and checks and logs a verdict per case. Twenty of the 26 cases are
    translated as written and run on the definitions of the other files, so that what the
    kernel expects of itself there is checked of the model as well. Not modelled are the case on
    floating point (byte-converter), the four on the frames and page tables of a booted machine
    (pmm-accounting-and-reserved-ranges, pmm-low-bootstrap-pages-reserved, vmm-lookup-no-side-effects,
    vmm-map-unmap) and the one on running tasks (suite scheduler), and those compile-time assertions
    that are on types, sizes and other constants. *)
From S2P Require Import Prelude Memory Stacks Layout Bitmap Pmm Slots Locks SharedPtr Atexit Interrupts Smp Heap HeapInv HeapSpec.

(** ** The engine *)

Inductive line :=
| Starting (run : string)
| SuiteLine (suite : string)
| CaseLine (case : string)
| PassLine (suite case : option string)
| FailLine (suite case : option string)
| CheckFailed (suite case expr : string)
| ImmediateDone
| Summary (suites cases checks failures : Z).

Record Session := Sess {
  suite_count : Z; case_count : Z; check_count : Z; failure_count : Z; case_failure_marker : Z;
  run_name : option string; current_suite : option string; current_case : option string;
  started : bool; completed : bool }.
Definition session0 : Session := Sess 0 0 0 0 0 None None None false false.

(** The counters that the probes of the tests keep. *)
Record State := St {
  ran_immediate : bool; ran_finalize : bool; atexit_registered : bool;
  global_ctor_count : Z; local_ctor_count : Z; local_dtor_count : Z; raw_ctor_count : Z; raw_dtor_count : Z;
  shared_ctor_count : Z; slot_ctor_count : Z; slot_dtor_count : Z; array_ctor_count : Z; array_dtor_count : Z }.
Definition state0 : State := St false false false 0 0 0 0 0 0 0 0 0 0.

(** What the tests run on: the session and its log, the counters, the heap, the
    functions registered for the exit, the shared pointers. *)
Record env := Env { sess : Session; out : list line; st : State; theheap : Heap; exits : table; objs : shared }.
Definition with_sess (x : Session) (e : env) : env := Env x (out e) (st e) (theheap e) (exits e) (objs e).
Definition with_out (x : list line) (e : env) : env := Env (sess e) x (st e) (theheap e) (exits e) (objs e).
Definition with_st (x : State) (e : env) : env := Env (sess e) (out e) x (theheap e) (exits e) (objs e).
Definition with_heap (x : Heap) (e : env) : env := Env (sess e) (out e) (st e) x (exits e) (objs e).
Definition with_exits (x : table) (e : env) : env := Env (sess e) (out e) (st e) (theheap e) x (objs e).
Definition with_objs (x : shared) (e : env) : env := Env (sess e) (out e) (st e) (theheap e) (exits e) x.

(** Test code: [None] when the case returned early. *)
Definition T (A : Type) : Type := env → res (option A * env).
#[export] Instance T_ret : MRet T := λ A a e, Ok (Some a, e).
#[export] Instance T_bind : MBind T := λ A B f c e,
  match c e with
  | Ok (Some a, e) => f a e
  | Ok (None, e) => Ok (None, e)
  | Panic m => Panic m
  | Fault a => Fault a
  | NoFuel => NoFuel
  end.
Definition ask {A} (f : env → A) : T A := λ e, Ok (Some (f e), e).
Definition change (f : env → env) : T () := λ e, Ok (Some (), f e).
Definition give_back {A} : T A := λ e, Ok (None, e).
Definition lift {A} (r : res A) : T A := λ e, a ← r; Ok (Some a, e).
Definition say (l : line) : T () := change (λ e, with_out (out e ++ [l]) e).
Definition on_sess (f : Session → Session) : T () := change (λ e, with_sess (f (sess e)) e).
Definition on_state (f : State → State) : T () := change (λ e, with_st (f (st e)) e).

Definition start (name : string) : T () :=
  s ← ask sess;
  if started s then mret ()
  else _ ← on_sess (λ s, Sess (suite_count s) (case_count s) (check_count s) (failure_count s) (case_failure_marker s)
                            (Some name) (current_suite s) (current_case s) true (completed s));
       say (Starting name).

Definition begin_suite (name : string) : T () :=
  _ ← on_sess (λ s, Sess (u32 (suite_count s + 1)) (case_count s) (check_count s) (failure_count s) (case_failure_marker s)
                       (run_name s) (Some name) (current_case s) (started s) (completed s));
  say (SuiteLine name).

Definition end_suite : T () :=
  on_sess (λ s, Sess (suite_count s) (case_count s) (check_count s) (failure_count s) (case_failure_marker s)
                  (run_name s) None (current_case s) (started s) (completed s)).

Definition begin_case (name : string) : T () :=
  _ ← on_sess (λ s, Sess (suite_count s) (u32 (case_count s + 1)) (check_count s) (failure_count s) (failure_count s)
                       (run_name s) (current_suite s) (Some name) (started s) (completed s));
  say (CaseLine name).

Definition end_case : T () :=
  s ← ask sess;
  _ ← (if failure_count s =? case_failure_marker s then say (PassLine (current_suite s) (current_case s))
       else say (FailLine (current_suite s) (current_case s)));
  on_sess (λ s, Sess (suite_count s) (case_count s) (check_count s) (failure_count s) (case_failure_marker s)
                  (run_name s) (current_suite s) None (started s) (completed s)).

Definition expect (condition : bool) (expr : string) : T bool :=
  _ ← on_sess (λ s, Sess (suite_count s) (case_count s) (u32 (check_count s + 1)) (failure_count s) (case_failure_marker s)
                       (run_name s) (current_suite s) (current_case s) (started s) (completed s));
  if condition then mret true
  else
    _ ← on_sess (λ s, Sess (suite_count s) (case_count s) (check_count s) (u32 (failure_count s + 1)) (case_failure_marker s)
                         (run_name s) (current_suite s) (current_case s) (started s) (completed s));
    s ← ask sess;
    _ ← say (CheckFailed (default "<no-suite>" (current_suite s)) (default "<no-case>" (current_case s)) expr);
    mret false.
(** KTEST_EXPECT and KTEST_ASSERT *)
Definition EXPECT (condition : bool) (expr : string) : T () := _ ← expect condition expr; mret ().
Definition ASSERT (condition : bool) (expr : string) : T () := b ← expect condition expr; if b : bool then mret () else give_back.

Definition complete : T () :=
  s ← ask sess;
  if completed s then mret ()
  else
    _ ← on_sess (λ s, Sess (suite_count s) (case_count s) (check_count s) (failure_count s) (case_failure_marker s)
                         (run_name s) (current_suite s) (current_case s) (started s) true);
    say (Summary (suite_count s) (case_count s) (check_count s) (failure_count s)).

(** The lambda of a case returns; the case goes on. *)
Definition call_case (fn : T ()) : T () := λ e,
  match fn e with Ok (_, e) => Ok (Some (), e) | Panic m => Panic m | Fault a => Fault a | NoFuel => NoFuel end.
Definition run_case (name : string) (fn : T ()) : T () := _ ← begin_case name; _ ← call_case fn; end_case.

(** ** What the cases use *)

(** Code of the heap, as [kernel._heap.get()] runs it. *)
Definition FUEL : nat := 20.
Definition HD : Z := 4096.
Definition on_heap {A} (c : M Heap A) : T A := λ e, '(a, h) ← c (theheap e); Ok (Some a, with_heap h e).
Definition heap_alloc (size : Z) : T Z := on_heap (Heap.alloc HD (map_heap_backing (λ _, 0) (λ _ _, true)) FUEL size).
Definition heap_palign (size : Z) : T Z := on_heap (palignedAlloc HD (map_heap_backing (λ _, 0) (λ _ _, true)) FUEL size).
Definition heap_release (p : Z) : T () := on_heap (Heap.free HD FUEL p).
Definition poke (f : ram → ram) : T () := on_heap (Heap.modify (λ h, Heap.with_mem (f (Heap.mem h)) h)).
Definition peek {A} (f : ram → A) : T A := ask (λ e, f (Heap.mem (theheap e))).

(** The member functions of shared pointers, one after the other; [new] of an object. *)
Definition calls (os : list op) : T () := λ e, s ← run_steps FUEL (os ≫= code) (objs e); Ok (Some (), with_objs s e).
Definition new_probe (p : Z) : T () :=
  change (λ e, with_objs (Shared (handles (objs e)) (blocks (objs e)) ({[ p ]} ∪ alive (objs e)))
    (with_st (St (ran_immediate (st e)) (ran_finalize (st e)) (atexit_registered (st e)) (global_ctor_count (st e))
        (local_ctor_count (st e)) (local_dtor_count (st e)) (raw_ctor_count (st e)) (raw_dtor_count (st e))
        (u32 (shared_ctor_count (st e) + 1)) (slot_ctor_count (st e)) (slot_dtor_count (st e)) (array_ctor_count (st e)) (array_dtor_count (st e))) e)).
Definition shared_dtor_count (e : env) : Z := shared_ctor_count (st e) - Z.of_nat (size (alive (objs e))).
Definition shared_ctors (e : env) : Z := shared_ctor_count (st e).
Definition get_ (h : Z) : T Z := λ e, p ← SharedPtr.get h (objs e); Ok (Some p, e).
Definition use_count_ (h : Z) : T Z := λ e, n ← use_count h (objs e); Ok (Some n, e).
(** A block with locals: they are destroyed however it is left. *)
Definition scoped (body : T ()) (locals : list Z) : T () := λ e,
  '(o, e) ← body e; s ← run_steps FUEL ((Destroy <$> rev locals) ≫= code) (objs e); Ok (o, with_objs s e).

(** The registered functions: [atexit]'s wrapper, which calls the function it is given,
    and the destructor of the global probe. *)
Definition WRAPPER : Z := 0x100100.
Definition ON_ATEXIT : Z := 0x100200.
Definition GLOBAL_DTOR : Z := 0x100300.
Definition PROBE : Z := 0x200000.
Definition calls_of (f o : Z) (e : env) : Z := Z.of_nat (length (base.filter (λ c, c = (f, o)) (log (exits e)))).
Definition global_dtor_count : env → Z := calls_of GLOBAL_DTOR PROBE.
Definition register (f o : Z) : T () := λ e, '(_, t) ← __cxa_atexit f o 0 (exits e); Ok (Some (), with_exits t e).
Definition atexit_calls : env → Z := calls_of WRAPPER ON_ATEXIT.
Definition atexit (f : Z) : T () := register WRAPPER f.

Definition with_local (c d : Z) (s : State) : State :=
  St (ran_immediate s) (ran_finalize s) (atexit_registered s) (global_ctor_count s) c d (raw_ctor_count s) (raw_dtor_count s)
    (shared_ctor_count s) (slot_ctor_count s) (slot_dtor_count s) (array_ctor_count s) (array_dtor_count s).
Definition with_raw (c d : Z) (s : State) : State :=
  St (ran_immediate s) (ran_finalize s) (atexit_registered s) (global_ctor_count s) (local_ctor_count s) (local_dtor_count s) c d
    (shared_ctor_count s) (slot_ctor_count s) (slot_dtor_count s) (array_ctor_count s) (array_dtor_count s).
Definition with_slot (c d : Z) (s : State) : State :=
  St (ran_immediate s) (ran_finalize s) (atexit_registered s) (global_ctor_count s) (local_ctor_count s) (local_dtor_count s)
    (raw_ctor_count s) (raw_dtor_count s) (shared_ctor_count s) c d (array_ctor_count s) (array_dtor_count s).
Definition with_array (c d : Z) (s : State) : State :=
  St (ran_immediate s) (ran_finalize s) (atexit_registered s) (global_ctor_count s) (local_ctor_count s) (local_dtor_count s)
    (raw_ctor_count s) (raw_dtor_count s) (shared_ctor_count s) (slot_ctor_count s) (slot_dtor_count s) c d.
Definition with_flags (i f a : bool) (s : State) : State :=
  St i f a (global_ctor_count s) (local_ctor_count s) (local_dtor_count s) (raw_ctor_count s) (raw_dtor_count s)
    (shared_ctor_count s) (slot_ctor_count s) (slot_dtor_count s) (array_ctor_count s) (array_dtor_count s).

Definition eqb_opt (a b : option Z) : bool := bool_decide (a = b).

(** ** The suites *)

Definition local_lifetime : T () :=
  ctor_before ← ask (λ e, local_ctor_count (st e)); dtor_before ← ask (λ e, local_dtor_count (st e));
  _ ← on_state (λ s, with_local (u32 (local_ctor_count s + 1)) (local_dtor_count s) s);
  let magic := 0xC0FFEE00 in
  _ ← EXPECT (magic =? 0xC0FFEE00) "probe.magic == 0xC0FFEE00";
  _ ← on_state (λ s, with_local (local_ctor_count s) (u32 (local_dtor_count s + 1)) s);
  c ← ask (λ e, local_ctor_count (st e)); d ← ask (λ e, local_dtor_count (st e));
  _ ← EXPECT (c =? u32 (ctor_before + 1)) "state().local_ctor_count == ctor_before + 1";
  EXPECT (d =? u32 (dtor_before + 1)) "state().local_dtor_count == dtor_before + 1".

Definition raw_new_delete : T () :=
  ctor_before ← ask (λ e, raw_ctor_count (st e)); dtor_before ← ask (λ e, raw_dtor_count (st e));
  probe ← heap_alloc 4;
  _ ← poke (λ m, wr32 m probe 0x12345678);
  _ ← on_state (λ s, with_raw (u32 (raw_ctor_count s + 1)) (raw_dtor_count s) s);
  _ ← ASSERT (negb (probe =? 0)) "probe";
  magic ← peek (λ m, rd32 m probe);
  _ ← EXPECT (magic =? 0x12345678) "probe->magic == 0x12345678";
  _ ← on_state (λ s, with_raw (raw_ctor_count s) (u32 (raw_dtor_count s + 1)) s);
  _ ← heap_release probe;
  c ← ask (λ e, raw_ctor_count (st e)); d ← ask (λ e, raw_dtor_count (st e));
  _ ← EXPECT (c =? u32 (ctor_before + 1)) "state().raw_ctor_count == ctor_before + 1";
  EXPECT (d =? u32 (dtor_before + 1)) "state().raw_dtor_count == dtor_before + 1".

(** The handles of a case are numbered, the objects have addresses and values. *)
Definition shared_ptr_case : T () :=
  ctor_before ← ask shared_ctors; dtor_before ← ask shared_dtor_count;
  let ptr0 := 1 in let ptr1 := 2 in
  let values : gmap Z Z := {[ 0x5000 := 0xCAFEBABE ]} in
  scoped (
    _ ← new_probe 0x5000; _ ← calls [Ctor ptr0 0x5000];
    p ← get_ ptr0; _ ← ASSERT (negb (p =? 0)) "ptr0.get() != nullptr";
    _ ← EXPECT (eqb_opt (values !! p) (Some 0xCAFEBABE)) "ptr0->value == 0xCAFEBABE";
    n ← use_count_ ptr0; _ ← EXPECT (n =? 1) "ptr0.use_count() == 1";
    _ ← calls [Copy ptr1 ptr0];
    n ← use_count_ ptr0; _ ← EXPECT (n =? 2) "ptr0.use_count() == 2";
    n ← use_count_ ptr1; _ ← EXPECT (n =? 2) "ptr1.use_count() == 2";
    _ ← calls [Reset ptr1];
    n ← use_count_ ptr0; _ ← EXPECT (n =? 1) "ptr0.use_count() == 1";
    d ← ask shared_dtor_count; _ ← EXPECT (d =? dtor_before) "state().shared_dtor_count == dtor_before";
    _ ← calls [Reset ptr0];
    c ← ask shared_ctors; _ ← EXPECT (c =? ctor_before + 1) "state().shared_ctor_count == ctor_before + 1";
    d ← ask shared_dtor_count; EXPECT (d =? dtor_before + 1) "state().shared_dtor_count == dtor_before + 1") [ptr0; ptr1].

Definition shared_ptr_edge_cases : T () :=
  ctor_before ← ask shared_ctors; dtor_before ← ask shared_dtor_count;
  let empty := 3 in let moved := 4 in
  let values : gmap Z Z := {[ 0x6000 := 0xABCD1234 ]} in
  scoped (
    _ ← calls [Default empty];
    p ← get_ empty; _ ← EXPECT (p =? 0) "empty.get() == nullptr";
    n ← use_count_ empty; _ ← EXPECT (n =? 0) "empty.use_count() == 0";
    _ ← new_probe 0x6000; _ ← calls [ResetPtr empty 0x6000];
    p ← get_ empty; _ ← ASSERT (negb (p =? 0)) "empty.get() != nullptr";
    n ← use_count_ empty; _ ← EXPECT (n =? 1) "empty.use_count() == 1";
    _ ← EXPECT (eqb_opt (values !! p) (Some 0xABCD1234)) "empty->value == 0xABCD1234";
    _ ← calls [Move moved empty];
    p ← get_ empty; _ ← EXPECT (p =? 0) "empty.get() == nullptr";
    n ← use_count_ empty; _ ← EXPECT (n =? 0) "empty.use_count() == 0";
    p ← get_ moved; _ ← EXPECT (negb (p =? 0)) "moved.get() != nullptr";
    n ← use_count_ moved; _ ← EXPECT (n =? 1) "moved.use_count() == 1";
    _ ← calls [ResetPtr moved 0];
    p ← get_ moved; _ ← EXPECT (p =? 0) "moved.get() == nullptr";
    n ← use_count_ moved; _ ← EXPECT (n =? 0) "moved.use_count() == 0";
    c ← ask shared_ctors; _ ← EXPECT (c =? ctor_before + 1) "state().shared_ctor_count == ctor_before + 1";
    d ← ask shared_dtor_count; EXPECT (d =? dtor_before + 1) "state().shared_dtor_count == dtor_before + 1") [empty; moved].

Definition atexit_registration : T () :=
  _ ← change (λ e, with_exits (Table (funcs (exits e)) (func_count (exits e)) (base.filter (λ c, c ≠ (WRAPPER, ON_ATEXIT)) (log (exits e)))) e);
  _ ← on_state (λ s, with_flags (ran_immediate s) (ran_finalize s) true s);
  _ ← atexit ON_ATEXIT;
  n ← ask atexit_calls;
  EXPECT (n =? 0) "state().atexit_calls == 0".

Definition run_runtime_suite : T () :=
  _ ← begin_suite "runtime";
  _ ← run_case "global-constructor" (
    c ← ask (λ e, global_ctor_count (st e)); _ ← EXPECT (c =? 1) "state().global_ctor_count == 1";
    d ← ask global_dtor_count; EXPECT (d =? 0) "state().global_dtor_count == 0");
  _ ← run_case "local-lifetime" local_lifetime;
  _ ← run_case "raw-new-delete" raw_new_delete;
  _ ← run_case "shared-ptr" shared_ptr_case;
  _ ← run_case "shared-ptr-edge-cases" shared_ptr_edge_cases;
  _ ← run_case "atexit-registration" atexit_registration;
  end_suite.

(** An object of a slot is known by its value, one of an array by its index. *)
Definition static_slot_case : T () :=
  ctor_before ← ask (λ e, slot_ctor_count (st e)); dtor_before ← ask (λ e, slot_dtor_count (st e));
  let ctor := on_state (λ s, with_slot (u32 (slot_ctor_count s + 1)) (slot_dtor_count s) s) in
  let dtor := on_state (λ s, with_slot (slot_ctor_count s) (u32 (slot_dtor_count s + 1)) s) in
  let slot : StaticSlot Z := Slot_.fresh in
  _ ← EXPECT (negb (constructed_ slot)) "!slot.constructed()";
  slot ← lift (Slot_.construct 0x11 slot); _ ← ctor;
  let first := 0x11 in
  _ ← EXPECT (constructed_ slot) "slot.constructed()";
  v ← lift (Slot_.get slot); _ ← EXPECT (v =? first) "&slot.get() == &first";
  _ ← EXPECT (eqb_opt (Slot_.ptr_if_constructed slot) (Some first)) "slot.ptr_if_constructed() == &first";
  _ ← EXPECT (v =? 0x11) "slot.get().value == 0x11";
  _ ← dtor; _ ← ctor; slot ← lift (Slot_.reconstruct 0x22 slot);
  let second := 0x22 in
  v ← lift (Slot_.get slot); _ ← EXPECT (v =? second) "&slot.get() == &second";
  _ ← EXPECT (v =? 0x22) "slot.get().value == 0x22";
  c ← ask (λ e, slot_ctor_count (st e)); _ ← EXPECT (c =? ctor_before + 2) "state().slot_ctor_count == ctor_before + 2";
  d ← ask (λ e, slot_dtor_count (st e)); _ ← EXPECT (d =? dtor_before + 1) "state().slot_dtor_count == dtor_before + 1";
  '(b, slot) ← lift (Slot_.try_destruct slot); _ ← (if b : bool then dtor else mret ());
  _ ← EXPECT b "slot.try_destruct()";
  _ ← EXPECT (negb (constructed_ slot)) "!slot.constructed()";
  '(b, slot) ← lift (Slot_.try_destruct slot); _ ← (if b : bool then dtor else mret ());
  _ ← EXPECT (negb b) "!slot.try_destruct()";
  d ← ask (λ e, slot_dtor_count (st e)); EXPECT (d =? dtor_before + 2) "state().slot_dtor_count == dtor_before + 2".

Definition array_ctor : T () := on_state (λ s, with_array (u32 (array_ctor_count s + 1)) (array_dtor_count s) s).
Definition array_dtors (n : nat) : T () := on_state (λ s, with_array (array_ctor_count s) (u32 (array_dtor_count s + Z.of_nat n)) s).
Definition emplace_ (v : Z) (a : StaticArray Z) : T (Z * StaticArray Z) := r ← lift (emplace v a); _ ← array_ctor; mret r.
Definition emplace_at_ (i v : Z) (a : StaticArray Z) : T (Z * StaticArray Z) := r ← lift (emplace_at i v a); _ ← array_ctor; mret r.
Definition erase_ (i : Z) (a : StaticArray Z) : T (bool * StaticArray Z) :=
  r ← lift (erase i a); _ ← (if r.1 : bool then array_dtors 1 else mret ()); mret r.
Definition clear_ (a : StaticArray Z) : T (StaticArray Z) := '(dead, a) ← lift (Slots.clear a); _ ← array_dtors (length dead); mret a.

Definition static_array_case : T () :=
  ctor_before ← ask (λ e, array_ctor_count (st e)); dtor_before ← ask (λ e, array_dtor_count (st e));
  let arr : StaticArray Z := array_init 4 in
  _ ← EXPECT (capacity arr =? 4) "arr.capacity() == 4";
  _ ← EXPECT (Slots.empty arr) "arr.empty()";
  _ ← EXPECT (first_free_slot arr =? 0) "arr.first_free_slot() == 0";
  '(p0, arr) ← emplace_ 10 arr; '(p3, arr) ← emplace_at_ 3 30 arr; '(p1, arr) ← emplace_ 20 arr;
  _ ← EXPECT (live_count arr =? 3) "arr.live_count() == 3";
  _ ← EXPECT (Slots.contains (Some p0) arr) "arr.contains(&p0)";
  _ ← EXPECT (Slots.contains (Some p1) arr) "arr.contains(&p1)";
  _ ← EXPECT (Slots.contains (Some p3) arr) "arr.contains(&p3)";
  _ ← EXPECT (index_of (Some p0) arr =? 0) "arr.index_of(&p0) == 0";
  _ ← EXPECT (index_of (Some p1) arr =? 1) "arr.index_of(&p1) == 1";
  _ ← EXPECT (index_of (Some p3) arr =? 3) "arr.index_of(&p3) == 3";
  _ ← EXPECT (first_free_slot arr =? 2) "arr.first_free_slot() == 2";
  vs ← lift (for_each arr);
  let sum := foldl (λ s v, u32 (s + v)) 0 vs in let count := Z.of_nat (length vs) in
  _ ← EXPECT (count =? 3) "count == 3";
  _ ← EXPECT (sum =? 60) "sum == 60";
  '(b, arr) ← erase_ 1 arr; _ ← EXPECT b "arr.erase(1)";
  _ ← EXPECT (negb (occupied arr 1)) "!arr.occupied(1)";
  _ ← EXPECT (live_count arr =? 2) "arr.live_count() == 2";
  arr ← clear_ arr;
  _ ← EXPECT (Slots.empty arr) "arr.empty()";
  c ← ask (λ e, array_ctor_count (st e)); _ ← EXPECT (c =? ctor_before + 3) "state().array_ctor_count == ctor_before + 3";
  d ← ask (λ e, array_dtor_count (st e)); EXPECT (d =? dtor_before + 3) "state().array_dtor_count == dtor_before + 3".

Definition static_array_edge_cases : T () :=
  ctor_before ← ask (λ e, array_ctor_count (st e)); dtor_before ← ask (λ e, array_dtor_count (st e));
  let arr : StaticArray Z := array_init 4 in
  '(b, arr) ← erase_ 0 arr; _ ← EXPECT (negb b) "!arr.erase(0)";
  _ ← EXPECT (eqb_opt (Slots.ptr arr 0) None) "arr.ptr(0) == nullptr";
  _ ← EXPECT (eqb_opt (Slots.ptr arr 5) None) "arr.ptr(5) == nullptr";
  _ ← EXPECT (negb (occupied arr 5)) "!arr.occupied(5)";
  _ ← EXPECT (index_of None arr =? npos) "arr.index_of(nullptr) == npos";
  '(p0, arr) ← emplace_at_ 0 1 arr; '(p2, arr) ← emplace_at_ 2 2 arr; '(p3, arr) ← emplace_at_ 3 3 arr;
  it ← lift (begin arr);
  _ ← EXPECT (it =? 0) "it.index() == 0";
  v ← lift (deref arr it); _ ← EXPECT (v =? 1) "( *it).value == 1";
  it ← lift (next arr it);
  _ ← EXPECT (it =? 2) "it.index() == 2";
  v ← lift (deref arr it); _ ← EXPECT (v =? 2) "it->value == 2";
  cit ← lift (begin arr);
  _ ← EXPECT (cit =? 0) "cit.index() == 0";
  cit ← lift (next arr cit);
  _ ← EXPECT (cit =? 2) "cit.index() == 2";
  '(b, arr) ← erase_ 0 arr; _ ← EXPECT b "arr.erase(0)";
  it ← lift (begin arr);
  _ ← EXPECT (it =? 2) "it.index() == 2";
  '(p1, arr) ← emplace_at_ 1 4 arr;
  _ ← EXPECT (negb (full arr)) "!arr.full()";
  _ ← EXPECT (first_free_slot arr =? 0) "arr.first_free_slot() == 0";
  _ ← EXPECT (live_count arr =? 3) "arr.live_count() == 3";
  '(p0_again, arr) ← emplace_at_ 0 5 arr;
  _ ← EXPECT (full arr) "arr.full()";
  _ ← EXPECT (first_free_slot arr =? npos) "arr.first_free_slot() == npos";
  _ ← EXPECT (live_count arr =? 4) "arr.live_count() == 4";
  arr ← clear_ arr;
  _ ← EXPECT (Slots.empty arr) "arr.empty()";
  c ← ask (λ e, array_ctor_count (st e)); _ ← EXPECT (c =? ctor_before + 5) "state().array_ctor_count == ctor_before + 5";
  d ← ask (λ e, array_dtor_count (st e)); EXPECT (d =? dtor_before + 5) "state().array_dtor_count == dtor_before + 5".

Definition bitmap_case : T () :=
  let P := Params 0x400000 32 0x1000 in
  let alloc := bitmap_init P in
  _ ← EXPECT (allocated_unit_count alloc =? 0) "alloc.allocated_unit_count() == 0";
  _ ← EXPECT (free_unit_count P alloc =? 32) "alloc.free_unit_count() == 32";
  _ ← EXPECT (Bitmap.contains P 0x400000) "alloc.contains(0x400000)";
  _ ← EXPECT (Bitmap.contains P 0x41F000) "alloc.contains(0x41F000)";
  _ ← EXPECT (negb (Bitmap.contains P 0x420000)) "!alloc.contains(0x420000)";
  '(a, alloc) ← lift (alloc_unit P alloc); '(b, alloc) ← lift (alloc_units P 2 alloc);
  _ ← EXPECT (a =? 0x400000) "a == 0x400000";
  _ ← EXPECT (b =? 0x401000) "b == 0x401000";
  u ← lift (Bitmap.allocated P a alloc); _ ← EXPECT u "alloc.allocated(a)";
  u ← lift (Bitmap.allocated P b alloc); _ ← EXPECT u "alloc.allocated(b)";
  u ← lift (Bitmap.allocated P (b + 0x1000) alloc); _ ← EXPECT u "alloc.allocated(b + 0x1000)";
  _ ← EXPECT (allocated_unit_count alloc =? 3) "alloc.allocated_unit_count() == 3";
  alloc ← lift (free_unit P a alloc);
  u ← lift (Bitmap.allocated P a alloc); _ ← EXPECT (negb u) "!alloc.allocated(a)";
  alloc ← lift (mark_units_used P 0x404000 1 alloc);
  u ← lift (Bitmap.allocated P 0x404000 alloc); _ ← EXPECT u "alloc.allocated(0x404000)";
  alloc ← lift (mark_units_free P 0x404000 1 alloc);
  u ← lift (Bitmap.allocated P 0x404000 alloc); _ ← EXPECT (negb u) "!alloc.allocated(0x404000)";
  alloc ← lift (free_units P b 2 alloc);
  _ ← EXPECT (allocated_unit_count alloc =? 0) "alloc.allocated_unit_count() == 0";
  let alloc := Bitmap.set P alloc in
  _ ← EXPECT (free_unit_count P alloc =? 0) "alloc.free_unit_count() == 0";
  let alloc := Bitmap.clear alloc in
  EXPECT (free_unit_count P alloc =? 32) "alloc.free_unit_count() == 32".

Definition bitmap_edge_cases : T () :=
  let P := Params 0x800000 8 0x1000 in
  let alloc := bitmap_init P in
  '(z, alloc) ← lift (alloc_units P 0 alloc); _ ← EXPECT (z =? 0) "alloc.alloc_units(0) == 0";
  alloc ← lift (free_units P 0x800000 0 alloc);
  alloc ← lift (mark_units_used P 0x800000 0 alloc);
  alloc ← lift (mark_units_free P 0x800000 0 alloc);
  _ ← EXPECT (negb (Bitmap.contains P 0x7FF000)) "!alloc.contains(0x7FF000)";
  _ ← EXPECT (negb (Bitmap.contains P 0x808000)) "!alloc.contains(0x808000)";
  u ← lift (Bitmap.allocated P 0x800123 alloc); _ ← EXPECT (negb u) "!alloc.allocated(0x800123)";
  let alloc := Bitmap.set P alloc in
  _ ← EXPECT (allocated_unit_count alloc =? 8) "alloc.allocated_unit_count() == 8";
  alloc ← lift (mark_units_free P 0x802000 2 alloc);
  _ ← EXPECT (free_unit_count P alloc =? 2) "alloc.free_unit_count() == 2";
  '(run, alloc) ← lift (alloc_units P 2 alloc);
  _ ← EXPECT (run =? 0x802000) "run == 0x802000";
  u ← lift (Bitmap.allocated P run alloc); _ ← EXPECT u "alloc.allocated(run)";
  u ← lift (Bitmap.allocated P (run + 0x1000) alloc); _ ← EXPECT u "alloc.allocated(run + 0x1000)";
  alloc ← lift (free_units P run 2 alloc);
  u ← lift (Bitmap.allocated P run alloc); _ ← EXPECT (negb u) "!alloc.allocated(run)";
  u ← lift (Bitmap.allocated P (run + 0x1000) alloc); EXPECT (negb u) "!alloc.allocated(run + 0x1000)".

Definition run_container_suite : T () :=
  _ ← begin_suite "containers";
  _ ← run_case "static-slot" static_slot_case;
  _ ← run_case "static-array" static_array_case;
  _ ← run_case "static-array-edge-cases" static_array_edge_cases;
  _ ← run_case "bitmap-allocator" bitmap_case;
  _ ← run_case "bitmap-allocator-edge-cases" bitmap_edge_cases;
  end_suite.

Definition align_helpers : T () :=
  _ ← EXPECT (align_down 0x0000 PAGE_SIZE =? 0x0000) "mm::align_down(0x0000u, mm::PAGE_SIZE) == 0x0000u";
  _ ← EXPECT (align_down 0x1FFF PAGE_SIZE =? 0x1000) "mm::align_down(0x1FFFu, mm::PAGE_SIZE) == 0x1000u";
  _ ← EXPECT (align_up 0x2000 PAGE_SIZE =? 0x2000) "mm::align_up(0x2000u, mm::PAGE_SIZE) == 0x2000u";
  EXPECT (align_up 0x2001 PAGE_SIZE =? 0x3000) "mm::align_up(0x2001u, mm::PAGE_SIZE) == 0x3000u".

(** The stacks come from the aligned [new]. *)
Definition core_stack_anchor : T () :=
  stack0 ← heap_palign CORE_STACK_SIZE; stack1 ← heap_palign CORE_STACK_SIZE;
  _ ← ASSERT (negb (stack0 =? 0)) "stack0 != nullptr";
  _ ← ASSERT (negb (stack1 =? 0)) "stack1 != nullptr";
  let fake_core := 0x12345000 in
  _ ← poke (init_stack_anchor stack0 7 fake_core);
  let anchor_is (s : Z) : T () :=
    v ← peek (λ m, anchor_magic m s); _ ← EXPECT (v =? MAGIC) "anchor.magic == smp::BaseCoreStack::MAGIC";
    v ← peek (λ m, rd32 m (s + 4)); _ ← EXPECT (v =? 7) "anchor.stack_id == 7";
    v ← peek (λ m, anchor_core m s); EXPECT (v =? fake_core) "anchor.core == fake_core" in
  _ ← anchor_is stack0;
  _ ← EXPECT (u32 (stack0 + CORE_STACK_SIZE) =? initial_sp stack0) "stack0->base() + CORE_STACK_SIZE == stack0->initial_sp()";
  let anchor := anchor_from_sp (u32 (initial_sp stack0 - 4)) in
  _ ← EXPECT (anchor =? stack0) "anchor == &stack0->anchor";
  _ ← poke (copy_anchor_from stack1 stack0);
  _ ← anchor_is stack1;
  _ ← heap_release stack0;
  heap_release stack1.

Definition is_base (k : InterruptFrameKind) : bool := match k with Base => true | ContextSwitch => false end.
Definition isr_wrapper_metadata : T () :=
  let w := get_isr_wrapper (λ v, v) (λ v, v) (λ v, v) in
  let pf := w 14 in let pit := w 32 in let soft := w 48 in let bp := w 3 in
  _ ← EXPECT (has_error_code pf) "pf.has_error_code";
  _ ← EXPECT (is_base (isr_kind pf)) "pf.kind == idt::InterruptFrameKind::Base";
  _ ← EXPECT (negb (is_base (isr_kind pit))) "pit.kind == idt::InterruptFrameKind::ContextSwitch";
  _ ← EXPECT (negb (has_error_code pit)) "!pit.has_error_code";
  _ ← EXPECT (negb (is_base (isr_kind soft))) "soft.kind == idt::InterruptFrameKind::ContextSwitch";
  _ ← EXPECT (is_base (isr_kind bp)) "bp.kind == idt::InterruptFrameKind::Base";
  EXPECT (negb (has_error_code bp)) "!bp.has_error_code".

Definition atomic_primitives : T () :=
  let counter32 := 7 in let counter64 := 0x100000000 in let flag := 0 in
  _ ← EXPECT (Atomic.load counter32 =? 7) "counter32.load() == 7";
  let '(r, counter32) := Atomic.fetch_add 32 5 counter32 in
  _ ← EXPECT (r =? 7) "counter32.fetch_add(5) == 7";
  _ ← EXPECT (Atomic.load counter32 =? 12) "counter32.load() == 12";
  let '(r, counter32) := Atomic.fetch_sub 32 2 counter32 in
  _ ← EXPECT (r =? 12) "counter32.fetch_sub(2) == 12";
  _ ← EXPECT (Atomic.load counter32 =? 10) "counter32.load() == 10";
  let '(r, counter32) := Atomic.exchange 42 counter32 in
  _ ← EXPECT (r =? 10) "counter32.exchange(42) == 10";
  _ ← EXPECT (Atomic.load counter32 =? 42) "counter32.load() == 42";
  let expected32 := 42 in
  let '(b, expected32, counter32) := Atomic.compare_exchange_strong expected32 99 counter32 in
  _ ← EXPECT b "counter32.compare_exchange_strong(expected32, 99)";
  _ ← EXPECT (Atomic.load counter32 =? 99) "counter32.load() == 99";
  let expected32 := 42 in
  let '(b, expected32, counter32) := Atomic.compare_exchange_strong expected32 77 counter32 in
  _ ← EXPECT (negb b) "!counter32.compare_exchange_strong(expected32, 77)";
  _ ← EXPECT (expected32 =? 99) "expected32 == 99";
  let '(r, counter64) := Atomic.fetch_add 64 0x20 counter64 in
  _ ← EXPECT (r =? 0x100000000) "counter64.fetch_add(0x20ull) == 0x100000000ull";
  _ ← EXPECT (Atomic.load counter64 =? 0x100000020) "counter64.load() == 0x100000020ull";
  let '(r, counter64) := Atomic.fetch_sub 64 0x10 counter64 in
  _ ← EXPECT (r =? 0x100000020) "counter64.fetch_sub(0x10ull) == 0x100000020ull";
  _ ← EXPECT (Atomic.load counter64 =? 0x100000010) "counter64.load() == 0x100000010ull";
  _ ← EXPECT (Atomic.load flag =? 0) "!flag.load()";
  let flag := Atomic.store 1 flag in
  _ ← EXPECT (negb (Atomic.load flag =? 0)) "flag.load(kstd::MemoryOrder::Acquire)";
  let '(r, flag) := Atomic.exchange 0 flag in
  _ ← EXPECT (negb (r =? 0)) "flag.exchange(false) == true";
  EXPECT (Atomic.load flag =? 0) "!flag.load()".

Definition spinlock_basic : T () :=
  let lock := 0 in
  let '(b, lock) := Lock.try_lock lock in _ ← EXPECT b "lock.try_lock()";
  let '(b, lock) := Lock.try_lock lock in _ ← EXPECT (negb b) "!lock.try_lock()";
  let lock := Lock.unlock lock in
  (* the guard's constructor takes the free lock at once *)
  let '(_, lock) := Lock.try_lock lock in
  let '(b, lock) := Lock.try_lock lock in _ ← EXPECT (negb b) "!lock.try_lock()";
  let lock := Lock.unlock lock in
  let '(b, lock) := Lock.try_lock lock in _ ← EXPECT b "lock.try_lock()";
  let lock := Lock.unlock lock in mret ().

(** The cases of [run_utility_suite], without byte-converter. *)
Definition utility_cases : T () :=
  _ ← begin_suite "utility";
  _ ← run_case "align-helpers" align_helpers;
  _ ← run_case "core-stack-anchor" core_stack_anchor;
  _ ← run_case "isr-wrapper-metadata" isr_wrapper_metadata;
  _ ← run_case "atomic-primitives" atomic_primitives;
  _ ← run_case "spinlock-basic" spinlock_basic;
  end_suite.

Definition heap_reuse_and_alignment : T () :=
  reused0 ← heap_alloc 96;
  _ ← ASSERT (negb (reused0 =? 0)) "reused0 != nullptr";
  _ ← poke (λ m, fill8 m reused0 0x3C 96);
  v ← peek (λ m, m reused0); _ ← EXPECT (v =? 0x3C) "reinterpret_cast<uint8_t*>(reused0)[0] == 0x3C";
  v ← peek (λ m, m (reused0 + 95)); _ ← EXPECT (v =? 0x3C) "reinterpret_cast<uint8_t*>(reused0)[95] == 0x3C";
  _ ← heap_release reused0;
  reused1 ← heap_alloc 96;
  _ ← ASSERT (negb (reused1 =? 0)) "reused1 != nullptr";
  _ ← EXPECT (reused1 =? reused0) "reused1 == reused0";
  _ ← heap_release reused1;
  aligned ← heap_palign 128;
  _ ← ASSERT (negb (aligned =? 0)) "aligned != nullptr";
  _ ← EXPECT (aligned mod PAGE_SIZE =? 0) "(reinterpret_cast<uint32_t>(aligned) % mm::PAGE_SIZE) == 0";
  _ ← poke (λ m, fill8 m aligned 0xA7 128);
  v ← peek (λ m, m aligned); _ ← EXPECT (v =? 0xA7) "reinterpret_cast<uint8_t*>(aligned)[0] == 0xA7";
  v ← peek (λ m, m (aligned + 127)); _ ← EXPECT (v =? 0xA7) "reinterpret_cast<uint8_t*>(aligned)[127] == 0xA7";
  heap_release aligned.

Definition heap_coalesce : T () :=
  block0 ← heap_alloc 0x200; block1 ← heap_alloc 0x200; block2 ← heap_alloc 0x200;
  _ ← ASSERT (negb (block0 =? 0)) "block0 != nullptr";
  _ ← ASSERT (negb (block1 =? 0)) "block1 != nullptr";
  _ ← ASSERT (negb (block2 =? 0)) "block2 != nullptr";
  _ ← heap_release block0;
  _ ← heap_release block1;
  merged ← heap_alloc 0x300;
  _ ← ASSERT (negb (merged =? 0)) "merged != nullptr";
  _ ← EXPECT (merged =? block0) "merged == block0";
  _ ← heap_release merged;
  heap_release block2.

(** The last two of the six cases of [run_mm_suite]. *)
Definition mm_heap_cases : T () :=
  _ ← begin_suite "mm";
  _ ← run_case "heap-reuse-and-alignment" heap_reuse_and_alignment;
  _ ← run_case "heap-coalesce" heap_coalesce;
  end_suite.

(** The modelled cases in their order. *)
Definition suites : T () :=
  _ ← run_runtime_suite; _ ← run_container_suite; _ ← mm_heap_cases; _ ← utility_cases; say ImmediateDone.

(** [run_all] on the modelled cases: once. *)
Definition run_modelled : T () :=
  s ← ask st;
  if ran_immediate s then mret ()
  else
    _ ← on_state (λ s, with_flags true (ran_finalize s) (atexit_registered s) s);
    _ ← start "kernel self-tests";
    suites.

Definition atexit_callback : T () :=
  s ← ask st; n ← ask atexit_calls;
  if atexit_registered s then EXPECT (n =? 1) "state().atexit_calls == 1" else EXPECT (n =? 0) "state().atexit_calls == 0".

Definition shutdown_suite : T () :=
  _ ← begin_suite "shutdown";
  _ ← run_case "atexit-callback" atexit_callback;
  _ ← run_case "global-destructor" (n ← ask global_dtor_count; EXPECT (n =? 1) "state().global_dtor_count == 1");
  end_suite.

Definition finalize : T () :=
  s ← ask st;
  if negb (ran_immediate s) || ran_finalize s then mret ()
  else
    _ ← on_state (λ s, with_flags (ran_immediate s) true (atexit_registered s) s);
    _ ← shutdown_suite;
    _ ← complete;
    s ← ask sess;
    if negb (failure_count s =? 0) then lift (Panic "kernel self-tests failed") else mret ().

(** [_init] constructs the global probe and registers its destructor; [kernel_main] runs
    the cases; the destructor of the kernel runs what was registered, then [finalize]. *)
Definition init_globals : T () :=
  _ ← on_state (λ s, St (ran_immediate s) (ran_finalize s) (atexit_registered s) (u32 (global_ctor_count s + 1)) (local_ctor_count s)
    (local_dtor_count s) (raw_ctor_count s) (raw_dtor_count s) (shared_ctor_count s) (slot_ctor_count s) (slot_dtor_count s)
    (array_ctor_count s) (array_dtor_count s));
  register GLOBAL_DTOR PROBE.
Definition destroy_globals : T () := λ e, t ← __cxa_finalize (λ _ _ t, t) 0 (exits e); Ok (Some (), with_exits t e).
Definition kernel_life : T () := _ ← init_globals; _ ← run_modelled; _ ← destroy_globals; finalize.

Definition env0 (h : Heap) : env := Env session0 [] state0 h Atexit.start (Shared ∅ ∅ ∅).

(** ** Some of the assertions checked at compile time *)

Definition static_bitmap : list bool := [
  BASE_ADDR TinyBitmap =? 0x1000; MAX_UNITS TinyBitmap =? 64; UNIT_SIZE TinyBitmap =? 0x1000; BITMAP_SIZE TinyBitmap =? 2;
  BASE_ADDR PMM =? 0; MAX_UNITS PMM =? MAX_FRAMES; UNIT_SIZE PMM =? PAGE_SIZE].
Definition static_pages : list bool := [
  align_down PAGE_SIZE PAGE_SIZE =? PAGE_SIZE; align_down 0x1234 0x1000 =? 0x1000;
  align_up PAGE_SIZE PAGE_SIZE =? PAGE_SIZE; align_up 0x1234 0x1000 =? 0x2000].
Definition on_region (id : RegionId) (f : RegionDesc → bool) : bool := from_option f false (region id).
Definition static_regions : list bool := [
  Layout.validate;
  on_region KernelHeap (λ r, bool_decide (r_id r = KernelHeap));
  from_option (λ r, bool_decide (r_id r = KernelHeap)) false (find_region KERNEL_HEAP_BASE);
  bool_decide (find_region 0x00800000 = None);
  on_region KernelHeap (λ r, r_base r =? KERNEL_HEAP_BASE);
  on_region KernelHeap (λ r, r_size r =? KERNEL_HEAP_BASE + KERNEL_HEAP_SIZE - KERNEL_HEAP_BASE);
  on_region KernelHeap (λ r, region_contains r KERNEL_HEAP_BASE);
  on_region KernelHeap (λ r, region_contains_span r KERNEL_HEAP_BASE HEAP_MIN_SIZE);
  on_region ModuleSpace (λ r, r_base r =? MODULE_SPACE_BASE);
  on_region RecursivePageTables (λ r, r_base r =? RECURSIVE_PT_BASE);
  LOW_USABLE_BASE =? 0x00100000; ACPI_SCAN_BASE =? 0x000E0000; ACPI_SCAN_END =? 0x00100000;
  HEAP_MIN_SIZE mod PAGE_SIZE =? 0; PAGE_SIZE <=? HEAP_MIN_SIZE].
Definition static_isrs : list bool :=
  let w := get_isr_wrapper (λ v, v) (λ v, v) (λ v, v) in
  [has_error_code (w 14); is_base (isr_kind (w 14)); negb (is_base (isr_kind (w 32))); negb (is_base (isr_kind (w 48)));
   is_base (isr_kind (w 49)); negb (has_error_code (w 3))].

(** ** What a run means *)

Definition is_failed (x : line) : bool := match x with CheckFailed _ _ _ => true | _ => false end.
Definition failed (l : list line) : list line := base.filter (λ x, is_failed x = true) l.
Lemma failed_app l1 l2 : failed (l1 ++ l2) = failed l1 ++ failed l2.
Proof. apply filter_app. Qed.
Lemma failed_failed l : Forall (λ x, is_failed x = true) l → failed l = l.
Proof. induction 1 as [|x l Hx _ IH]; [done|]. unfold failed in *. rewrite filter_cons_True by done. by rewrite IH. Qed.

Definition good (e : env) : Prop := 0 ≤ failure_count (sess e) < 2 ^ 32.

(** What test code may do to the engine: only checks, [f] of which failed. *)
Record kept (e e' : env) (f : nat) : Prop := {
  k_failures : failure_count (sess e') = u32 (failure_count (sess e) + Z.of_nat f);
  k_suite : current_suite (sess e') = current_suite (sess e);
  k_case : current_case (sess e') = current_case (sess e);
  k_marker : case_failure_marker (sess e') = case_failure_marker (sess e);
  k_started : started (sess e') = started (sess e);
  k_completed : completed (sess e') = completed (sess e);
  k_flags : ran_immediate (st e') = ran_immediate (st e) ∧ ran_finalize (st e') = ran_finalize (st e)
}.

(** Test code with at most [n] failing checks. *)
Definition checks {A} (n : nat) (m : T A) : Prop := ∀ e o e', good e → m e = Ok (o, e') →
  ∃ l, out e' = out e ++ l ∧ Forall (λ x, is_failed x = true) l ∧ (length l ≤ n)%nat ∧ kept e e' (length l).

Lemma kept_good e e' f : kept e e' f → good e'.
Proof. intros [H _ _ _ _ _ _]. unfold good. rewrite H. apply (wrap_range 32). lia. Qed.

Lemma kept_refl e e' : good e → sess e' = sess e → st e' = st e ∨ ran_immediate (st e') = ran_immediate (st e) ∧ ran_finalize (st e') = ran_finalize (st e) →
  kept e e' 0.
Proof. intros Hg Es Et. split; rewrite ?Es; try done. - unfold good in Hg. rewrite u32_small; simpl; lia. - by destruct Et as [->|?]. Qed.

Lemma kept_trans e1 e2 e3 f g : kept e1 e2 f → kept e2 e3 g → kept e1 e3 (f + g).
Proof.
  intros [H1 ? ? ? ? ? [? ?]] [H2 ? ? ? ? ? [? ?]]. split; try (split; congruence); try congruence.
  rewrite H2, H1. unfold u32, wrap. rewrite Zplus_mod_idemp_l. f_equal. lia.
Qed.

(** Code that leaves the engine alone. *)
Lemma checks_quiet {A} (m : T A) : (∀ e o e', m e = Ok (o, e') → out e' = out e ∧ sess e' = sess e ∧
    (ran_immediate (st e') = ran_immediate (st e) ∧ ran_finalize (st e') = ran_finalize (st e))) → checks 0 m.
Proof.
  intros Hm e o e' Hg E. destruct (Hm e o e' E) as (E1 & E2 & E3). exists []. rewrite app_nil_r. split; [done|]. split; [constructor|].
  split; [done|]. apply kept_refl; auto.
Qed.

Lemma checks_bind {A B} n1 n2 (c : T A) (f : A → T B) : checks n1 c → (∀ a, checks n2 (f a)) → checks (n1 + n2) (c ≫= f).
Proof.
  intros Hc Hf e o e' Hg E. unfold mbind, T_bind in E. destruct (c e) as [[oa e1]|m|a|] eqn:Ec; try done.
  destruct (Hc e oa e1 Hg Ec) as (l1 & E1 & F1 & N1 & K1). destruct oa as [a|]; [|injection E as <- <-; exists l1; split_and!; done || lia].
  destruct (Hf a e1 o e' (kept_good _ _ _ K1) E) as (l2 & E2 & F2 & N2 & K2). exists (l1 ++ l2). rewrite E2, E1, app_assoc, length_app.
  split; [done|]. split; [by apply Forall_app|]. split; [lia|]. by eapply kept_trans.
Qed.

Lemma checks_weaken {A} n n' (m : T A) : checks n m → (n ≤ n')%nat → checks n' m.
Proof. intros Hm Hn e o e' Hg E. destruct (Hm e o e' Hg E) as (l & ? & ? & ? & ?). exists l. split_and!; done || lia. Qed.
Lemma checks_if {A} n1 n2 (b : bool) (m1 m2 : T A) : checks n1 m1 → checks n2 m2 → checks (n1 + n2) (if b then m1 else m2).
Proof. intros H1 H2. destruct b; (eapply checks_weaken; [done|lia]). Qed.

Lemma checks_ret {A} (a : A) : checks 0 (mret a : T A).
Proof. apply checks_quiet. by intros e o e' [= _ <-]. Qed.
Lemma checks_give_back {A} : checks 0 (give_back : T A).
Proof. apply checks_quiet. by intros e o e' [= _ <-]. Qed.
Lemma checks_ask {A} (f : env → A) : checks 0 (ask f).
Proof. apply checks_quiet. by intros e o e' [= _ <-]. Qed.
Lemma checks_lift {A} (r : res A) : checks 0 (lift r).
Proof. apply checks_quiet. intros e o e' E. unfold lift in E. destruct r; [|done..]. by injection E as _ <-. Qed.
Lemma checks_on_heap {A} (c : M Heap A) : checks 0 (on_heap c).
Proof. apply checks_quiet. intros e o e' E. unfold on_heap in E. destruct (c (theheap e)) as [[a h]|m|x|]; [|done..]. by injection E as _ <-. Qed.
Lemma checks_calls os : checks 0 (calls os).
Proof. apply checks_quiet. intros e o e' E. unfold calls in E. destruct (run_steps _ _ _); [|done..]. by injection E as _ <-. Qed.
Lemma checks_new_probe p : checks 0 (new_probe p).
Proof. apply checks_quiet. by intros e o e' [= _ <-]. Qed.
Lemma checks_get h : checks 0 (get_ h).
Proof. apply checks_quiet. intros e o e' E. unfold get_ in E. destruct (SharedPtr.get _ _); [|done..]. by injection E as _ <-. Qed.
Lemma checks_use_count h : checks 0 (use_count_ h).
Proof. apply checks_quiet. intros e o e' E. unfold use_count_ in E. destruct (use_count _ _); [|done..]. by injection E as _ <-. Qed.
Lemma checks_register f o : checks 0 (register f o).
Proof. apply checks_quiet. intros e o' e' E. unfold register in E. destruct (__cxa_atexit _ _ _ _) as [[a t]|m|x|]; [|done..]. by injection E as _ <-. Qed.
Lemma checks_state f : (∀ s, ran_immediate (f s) = ran_immediate s ∧ ran_finalize (f s) = ran_finalize s) → checks 0 (on_state f).
Proof. intros Hf. apply checks_quiet. intros e o e' [= _ <-]. split_and!; [done|done|apply Hf..]. Qed.
Lemma checks_exits f : checks 0 (change (λ e, with_exits (f e) e)).
Proof. apply checks_quiet. by intros e o e' [= _ <-]. Qed.

Lemma checks_scoped n body locals : checks n body → checks n (scoped body locals).
Proof.
  intros Hb e o e' Hg E. unfold scoped in E. destruct (body e) as [[ob e1]|m|x|] eqn:Eb; [|done..].
  destruct (Hb e ob e1 Hg Eb) as (l & E1 & F1 & N1 & K1). rewrite bind_Ok in E. destruct (run_steps _ _ _) as [s|m|x|]; [|done..].
  injection E as <- <-. exists l. split_and!; try done. by destruct K1.
Qed.

Lemma checks_expect b t : checks 1 (expect b t).
Proof.
  intros e o e' Hg E. destruct b; injection E as _ <-.
  - exists []. rewrite app_nil_r. split_and!; [done|constructor|simpl; lia|]. unfold good in Hg. split; try done. simpl. rewrite u32_small; lia.
  - eexists [_]. split_and!; [done|by constructor|done|]. by split.
Qed.

Lemma checks_EXPECT b t : checks 1 (EXPECT b t).
Proof. apply (checks_bind 1 0); [apply checks_expect|intros; apply checks_ret]. Qed.
Lemma checks_ASSERT b t : checks 1 (ASSERT b t).
Proof. apply (checks_bind 1 0); [apply checks_expect|intros [|]; [apply checks_ret|apply checks_give_back]]. Qed.
Create HintDb ktest discriminated.
#[local] Opaque mbind mret ask lift on_state on_heap EXPECT ASSERT calls new_probe get_ use_count_ register scoped change
  Atomic.fetch_add Atomic.fetch_sub Atomic.exchange Atomic.compare_exchange_strong Lock.try_lock.
#[export] Hint Resolve checks_EXPECT checks_ASSERT checks_ret checks_ask checks_lift checks_on_heap checks_calls checks_new_probe
  checks_get checks_use_count checks_register checks_exits checks_scoped : ktest.
(** Bound the checks of a case: a sequence adds up, a branch is one of its sides. *)
Ltac count_checks :=
  repeat match goal with
    | |- checks _ (mbind _ _) => eapply checks_bind; [|intros]
    | |- checks _ (scoped _ _) => apply checks_scoped
    | |- checks _ (match ?p with (_, _) => _ end) => destruct p
    | |- checks _ (if _ then _ else _) => apply checks_if
    | |- checks _ (on_state _) => apply checks_state; by intros
    | |- checks _ _ => solve [eauto 1 with ktest]
    end.

Lemma checks_local_lifetime : checks 60 local_lifetime.
Proof. eapply checks_weaken; [unfold local_lifetime; count_checks|lia]. Qed.
Lemma checks_raw_new_delete : checks 60 raw_new_delete.
Proof. eapply checks_weaken; [unfold raw_new_delete, heap_alloc, poke, peek, heap_release; count_checks|lia]. Qed.
Lemma checks_shared_ptr_case : checks 60 shared_ptr_case.
Proof. eapply checks_weaken; [unfold shared_ptr_case; cbv zeta; count_checks|lia]. Qed.
Lemma checks_shared_ptr_edge_cases : checks 60 shared_ptr_edge_cases.
Proof. eapply checks_weaken; [unfold shared_ptr_edge_cases; cbv zeta; count_checks|lia]. Qed.
Lemma checks_atexit_registration : checks 60 atexit_registration.
Proof. eapply checks_weaken; [unfold atexit_registration, atexit; count_checks|lia]. Qed.
Lemma checks_static_slot_case : checks 60 static_slot_case.
Proof. eapply checks_weaken; [unfold static_slot_case; cbv zeta; count_checks|lia]. Qed.
Lemma checks_static_array_case : checks 60 static_array_case.
Proof. eapply checks_weaken; [unfold static_array_case, emplace_, emplace_at_, erase_, clear_, array_ctor, array_dtors; cbv zeta; count_checks|lia]. Qed.
Lemma checks_static_array_edge_cases : checks 60 static_array_edge_cases.
Proof. eapply checks_weaken; [unfold static_array_edge_cases, emplace_, emplace_at_, erase_, clear_, array_ctor, array_dtors; cbv zeta; count_checks|lia]. Qed.
Lemma checks_bitmap_case : checks 60 bitmap_case.
Proof. eapply checks_weaken; [unfold bitmap_case; cbv zeta; count_checks|lia]. Qed.
Lemma checks_bitmap_edge_cases : checks 60 bitmap_edge_cases.
Proof. eapply checks_weaken; [unfold bitmap_edge_cases; cbv zeta; count_checks|lia]. Qed.
Lemma checks_align_helpers : checks 60 align_helpers.
Proof. eapply checks_weaken; [unfold align_helpers; count_checks|lia]. Qed.
Lemma checks_core_stack_anchor : checks 60 core_stack_anchor.
Proof. eapply checks_weaken; [unfold core_stack_anchor, heap_palign, poke, peek, heap_release; cbv zeta; count_checks|lia]. Qed.
Lemma checks_isr_wrapper_metadata : checks 60 isr_wrapper_metadata.
Proof. eapply checks_weaken; [unfold isr_wrapper_metadata; cbv zeta; count_checks|lia]. Qed.
Lemma checks_atomic_primitives : checks 60 atomic_primitives.
Proof. eapply checks_weaken; [unfold atomic_primitives; cbv zeta; count_checks|lia]. Qed.
Lemma checks_spinlock_basic : checks 60 spinlock_basic.
Proof. eapply checks_weaken; [unfold spinlock_basic; cbv zeta; count_checks|lia]. Qed.
Lemma checks_heap_reuse_and_alignment : checks 60 heap_reuse_and_alignment.
Proof. eapply checks_weaken; [unfold heap_reuse_and_alignment, heap_alloc, heap_palign, poke, peek, heap_release; count_checks|lia]. Qed.
Lemma checks_heap_coalesce : checks 60 heap_coalesce.
Proof. eapply checks_weaken; [unfold heap_coalesce, heap_alloc, heap_release; count_checks|lia]. Qed.
Lemma checks_atexit_callback : checks 60 atexit_callback.
Proof. eapply checks_weaken; [unfold atexit_callback; count_checks|lia]. Qed.
#[export] Hint Resolve checks_local_lifetime checks_raw_new_delete checks_shared_ptr_case checks_shared_ptr_edge_cases
  checks_atexit_registration checks_static_slot_case checks_static_array_case checks_static_array_edge_cases checks_bitmap_case
  checks_bitmap_edge_cases checks_align_helpers checks_core_stack_anchor checks_isr_wrapper_metadata checks_atomic_primitives
  checks_spinlock_basic checks_heap_reuse_and_alignment checks_heap_coalesce checks_atexit_callback : ktest.
#[local] Transparent mbind mret ask lift on_state on_heap EXPECT ASSERT calls new_probe get_ use_count_ register scoped change
  Atomic.fetch_add Atomic.fetch_sub Atomic.exchange Atomic.compare_exchange_strong Lock.try_lock.

(** A part of a run with at most [n] failing checks, which logs [cs] if none fails
    and leaves the current suite [after]. *)
Definition tested (n : nat) (cs : option string → list line) (after : option string → option string) (m : T ()) : Prop := ∀ e o e', good e → m e = Ok (o, e') →
  ∃ L, o = Some () ∧ out e' = out e ++ L ∧ (length (failed L) ≤ n)%nat ∧ (failed L = [] → L = cs (current_suite (sess e)))
    ∧ failure_count (sess e') = u32 (failure_count (sess e) + Z.of_nat (length (failed L)))
    ∧ current_suite (sess e') = after (current_suite (sess e)) ∧ completed (sess e') = completed (sess e)
    ∧ ran_immediate (st e') = ran_immediate (st e) ∧ ran_finalize (st e') = ran_finalize (st e).

Definition passing (c : string) (s : option string) : list line := [CaseLine c; PassLine s (Some c)].

(** The verdict of a case: it passes exactly when no check of it fails. *)
Lemma run_case_tested n c fn : checks n fn → Z.of_nat n < 2 ^ 32 → tested n (passing c) (λ s, s) (run_case c fn).
Proof.
  intros Hfn Hn e o e' Hg E. unfold run_case, begin_case, on_sess, say, change, mbind, T_bind in E.
  match type of E with context [call_case fn ?x] => set (e1 := x) in E end.
  assert (good e1) as Hg1 by exact Hg. unfold call_case in E.
  destruct (fn e1) as [[o1 e2]|m|x|] eqn:Ef; try done. destruct (Hfn e1 o1 e2 Hg1 Ef) as (l & Eo & Fl & Nl & [K1 K2 K3 K4 K5 K6 [K7 K8]]).
  unfold end_case, on_sess, say, ask, change, mbind, T_bind in E. rewrite K1, K2, K3, K4 in E.
  change (failure_count (sess e1)) with (failure_count (sess e)) in *. change (case_failure_marker (sess e1)) with (failure_count (sess e)) in E.
  change (current_suite (sess e1)) with (current_suite (sess e)) in *. change (current_case (sess e1)) with (Some c) in *.
  change (out e1) with (out e ++ [CaseLine c]) in Eo. unfold good in Hg.
  destruct (Z.eqb_spec (u32 (failure_count (sess e) + Z.of_nat (length l))) (failure_count (sess e))) as [Eq|Hne]; injection E as <- <-.
  - assert (l = []) as ->.
    { destruct l as [|x l]; [done|]. exfalso. unfold u32, wrap in Eq. change (2 ^ 32) with 4294967296 in *. cbn [length] in *. clear - Eq Hg Nl Hn. dlia. }
    exists [CaseLine c; PassLine (current_suite (sess e)) (Some c)]. simpl. rewrite Eo, app_nil_r, <- app_assoc. simpl in K1. split_and!; try done; lia.
  - assert (failed ((CaseLine c :: l) ++ [FailLine (current_suite (sess e)) (Some c)]) = l) as Ef2.
    { rewrite failed_app. change (failed [FailLine _ _]) with (@nil line). rewrite app_nil_r. change (CaseLine c :: l) with ([CaseLine c] ++ l).
      rewrite failed_app. by apply failed_failed. }
    exists ((CaseLine c :: l) ++ [FailLine (current_suite (sess e)) (Some c)]). rewrite Ef2. simpl. rewrite Eo, <- !app_assoc. split_and!; try done.
    intros ->. simpl in *. rewrite Z.add_0_r, u32_small in Hne by lia. done.
Qed.

Lemma tested_seq n1 n2 cs1 cs2 a1 a2 m1 m2 : tested n1 cs1 a1 m1 → tested n2 cs2 a2 m2 →
  tested (n1 + n2) (λ s, cs1 s ++ cs2 (a1 s)) (λ s, a2 (a1 s)) (_ ← m1; m2).
Proof.
  intros H1 H2 e o e' Hg E. unfold mbind, T_bind in E. destruct (m1 e) as [[o1 e1]|m|x|] eqn:E1; try done.
  destruct (H1 e o1 e1 Hg E1) as (L1 & -> & O1 & N1 & C1 & F1 & S1 & P1 & I1 & R1).
  assert (good e1) as Hg1 by (unfold good; rewrite F1; apply (wrap_range 32); lia).
  destruct (H2 e1 o e' Hg1 E) as (L2 & -> & O2 & N2 & C2 & F2 & S2 & P2 & I2 & R2).
  exists (L1 ++ L2). rewrite failed_app, length_app, O2, O1, app_assoc. split_and!; try congruence; [lia| |].
  - intros [F1' F2']%app_nil. by rewrite (C1 F1'), (C2 F2'), S1.
  - rewrite F2, F1. unfold u32, wrap. rewrite Zplus_mod_idemp_l. f_equal. lia.
Qed.

(** Engine code without checks. *)
Lemma tested_line n cs a (m : T ()) : (∀ e, ∃ e', m e = Ok (Some (), e') ∧ out e' = out e ++ cs ∧ failed cs = []
    ∧ failure_count (sess e') = failure_count (sess e) ∧ current_suite (sess e') = a (current_suite (sess e))
    ∧ completed (sess e') = completed (sess e) ∧ ran_immediate (st e') = ran_immediate (st e) ∧ ran_finalize (st e') = ran_finalize (st e)) →
  tested n (λ _, cs) a m.
Proof.
  intros Hm e o e' Hg E. destruct (Hm e) as (e1 & E1 & H1 & H2 & H3 & H4). rewrite E1 in E. injection E as <- <-.
  exists cs. rewrite H2, H3. unfold good in Hg. simpl. rewrite u32_small by lia. split_and!; try done; [lia|lia|apply H4..].
Qed.
Lemma begin_suite_tested name : tested 0 (λ _, [SuiteLine name]) (λ _, Some name) (begin_suite name).
Proof. apply tested_line. intros e. eexists. split_and!; done. Qed.
Lemma end_suite_tested : tested 0 (λ _, []) (λ _, None) end_suite.
Proof. apply tested_line. intros e. eexists. split; [done|]. simpl. rewrite app_nil_r. done. Qed.
Lemma say_tested l : is_failed l = false → tested 0 (λ _, [l]) (λ s, s) (say l).
Proof. intros Hl. apply tested_line. intros e. eexists. split; [done|]. split_and!; try done. unfold failed. by rewrite filter_cons_False, filter_nil by (by rewrite Hl). Qed.

Ltac run_tests :=
  repeat match goal with
    | |- tested _ _ _ (mbind _ (begin_suite _)) => apply tested_seq; [apply begin_suite_tested|]
    | |- tested _ _ _ (mbind _ _) => eapply tested_seq
    | |- tested _ _ _ (begin_suite _) => apply begin_suite_tested
    | |- tested _ _ _ end_suite => apply end_suite_tested
    | |- tested _ _ _ (run_case _ _) => apply (run_case_tested 60); [|done]
    | |- checks _ _ => solve [eauto 1 with ktest | eapply checks_weaken; [count_checks|lia]]
    end.

Definition suite_log (name : string) (cases : list string) : list line := SuiteLine name :: (cases ≫= λ c, passing c (Some name)).

Lemma tested_conv n n' cs cs' a a' m : tested n cs a m → (n ≤ n')%nat → (∀ s, cs s = cs' s) → (∀ s, a s = a' s) → tested n' cs' a' m.
Proof.
  intros Hm Hn Hcs Ha e o e' Hg E. destruct (Hm e o e' Hg E) as (L & ? & ? & ? & Hc & ? & Hs & ? & ? & ?).
  exists L. rewrite <- Hcs, <- Ha. split_and!; done || lia.
Qed.

Definition runtime_log := suite_log "runtime" ["global-constructor"; "local-lifetime"; "raw-new-delete"; "shared-ptr"; "shared-ptr-edge-cases"; "atexit-registration"].
Lemma runtime_tested : tested 400 (λ _, runtime_log) (λ _, None) run_runtime_suite.
Proof. eapply tested_conv; [unfold run_runtime_suite; run_tests|vm_compute; lia|done..]. Qed.
Definition container_log := suite_log "containers" ["static-slot"; "static-array"; "static-array-edge-cases"; "bitmap-allocator"; "bitmap-allocator-edge-cases"].
Lemma container_tested : tested 400 (λ _, container_log) (λ _, None) run_container_suite.
Proof. eapply tested_conv; [unfold run_container_suite; run_tests|vm_compute; lia|done..]. Qed.
Definition mm_log := suite_log "mm" ["heap-reuse-and-alignment"; "heap-coalesce"].
Lemma mm_tested : tested 400 (λ _, mm_log) (λ _, None) mm_heap_cases.
Proof. eapply tested_conv; [unfold mm_heap_cases; run_tests|vm_compute; lia|done..]. Qed.
Definition utility_log := suite_log "utility" ["align-helpers"; "core-stack-anchor"; "isr-wrapper-metadata"; "atomic-primitives"; "spinlock-basic"].
Lemma utility_tested : tested 400 (λ _, utility_log) (λ _, None) utility_cases.
Proof. eapply tested_conv; [unfold utility_cases; run_tests|vm_compute; lia|done..]. Qed.
Definition shutdown_log := suite_log "shutdown" ["atexit-callback"; "global-destructor"].

Lemma destroy_tested : tested 0 (λ _, []) (λ s, s) destroy_globals.
Proof.
  intros e o e' Hg E. unfold destroy_globals in E. destruct (__cxa_finalize _ _ _) as [t|m|x|]; [|done..]. injection E as <- <-.
  exists []. unfold good in Hg. simpl. rewrite app_nil_r, Z.add_0_r, u32_small by lia. done.
Qed.

Definition suites_log : list line := runtime_log ++ container_log ++ mm_log ++ utility_log ++ [ImmediateDone].
Lemma suites_tested : tested 1600 (λ _, suites_log) (λ _, None) suites.
Proof.
  eapply tested_conv; [repeat first [apply runtime_tested|apply container_tested|apply mm_tested|apply utility_tested|
    apply say_tested; done|eapply tested_seq]|vm_compute; lia|done..].
Qed.

Lemma shutdown_tested : tested 120 (λ _, shutdown_log) (λ _, None) shutdown_suite.
Proof. eapply tested_conv; [unfold shutdown_suite; run_tests|vm_compute; lia|done..]. Qed.

Definition passed_log : list line := Starting "kernel self-tests" :: suites_log ++ shutdown_log.

Lemma run_modelled_suites e : ran_immediate (st e) = false → started (sess e) = false → ∃ e2, run_modelled e = suites e2
  ∧ out e2 = out e ++ [Starting "kernel self-tests"] ∧ failure_count (sess e2) = failure_count (sess e)
  ∧ completed (sess e2) = completed (sess e) ∧ ran_immediate (st e2) = true ∧ ran_finalize (st e2) = ran_finalize (st e).
Proof.
  intros Hr Hs. eexists. split.
  - unfold run_modelled, ask. unfold mbind at 1, T_bind at 1. rewrite Hr. unfold mbind at 1, T_bind at 1. cbn [on_state change].
    unfold mbind at 1, T_bind at 1, start, ask. unfold mbind at 1, T_bind at 1. cbn [sess with_st]. rewrite Hs. reflexivity.
  - done.
Qed.

(** A shutdown that returns has seen no failure. *)
Lemma finalize_ok e o e' : good e → ran_immediate (st e) = true → ran_finalize (st e) = false → completed (sess e) = false →
  finalize e = Ok (o, e') →
  ∃ L s c k, out e' = out e ++ L ++ [Summary s c k 0] ∧ (length (failed L) ≤ 120)%nat ∧ (failed L = [] → L = shutdown_log)
    ∧ u32 (failure_count (sess e) + Z.of_nat (length (failed L))) = 0.
Proof.
  intros Hg Hi Hf Hc E. unfold finalize, ask in E. unfold mbind at 1, T_bind at 1 in E. rewrite Hi, Hf in E. cbn [negb orb] in E.
  unfold mbind at 1, T_bind at 1 in E. cbn [on_state change] in E. unfold mbind at 1, T_bind at 1 in E.
  match type of E with context [shutdown_suite ?x] => set (e1 := x) in E end.
  destruct (shutdown_suite e1) as [[o2 e2]|m|x|] eqn:E2; try done.
  destruct (shutdown_tested e1 o2 e2 Hg E2) as (L & -> & O2 & N2 & C2 & F2 & _ & P2 & _).
  change (out e1) with (out e) in O2. change (failure_count (sess e1)) with (failure_count (sess e)) in F2.
  change (completed (sess e1)) with (completed (sess e)) in P2. rewrite Hc in P2.
  unfold complete, ask, mbind, T_bind in E. rewrite P2 in E. cbn in E. destruct (Z.eqb_spec (failure_count (sess e2)) 0) as [E0|]; [|done].
  injection E as <- <-. exists L, (suite_count (sess e2)), (case_count (sess e2)), (check_count (sess e2)).
  simpl. rewrite O2, E0, <- app_assoc. rewrite <- F2. done.
Qed.

Lemma init_globals_ok h : ∃ e1, init_globals (env0 h) = Ok (Some (), e1) ∧ out e1 = [] ∧ sess e1 = session0
  ∧ ran_immediate (st e1) = false ∧ ran_finalize (st e1) = false.
Proof.
  unfold init_globals, register. unfold mbind at 1, T_bind at 1. cbn [on_state change].
  destruct (__cxa_atexit GLOBAL_DTOR PROBE 0 Atexit.start) as [[r t]|m|x|] eqn:E; [|vm_compute in E; done..].
  change (exits (with_st _ (env0 h))) with Atexit.start. rewrite E. by eexists.
Qed.

Lemma T_step {A B} (c : T A) (f : A → T B) e a e1 : c e = Ok (Some a, e1) → (c ≫= f) e = f a e1.
Proof. intros E. unfold mbind, T_bind. by rewrite E. Qed.
Lemma T_inv {A B} (c : T A) (f : A → T B) e o e' : (c ≫= f) e = Ok (o, e') →
  ∃ oa e1, c e = Ok (oa, e1) ∧ match oa with Some a => f a e1 = Ok (o, e') | None => o = None ∧ e1 = e' end.
Proof.
  unfold mbind, T_bind. destruct (c e) as [[[a|] e1]|m|x|]; intros E; [by exists (Some a), e1| |done..].
  injection E as <- <-. by exists None, e1.
Qed.

Lemma kernel_life_eq : kernel_life = (_ ← init_globals; _ ← run_modelled; _ ← destroy_globals; finalize).
Proof. reflexivity. Qed.

Lemma kernel_life_log h o e : kernel_life (env0 h) = Ok (o, e) → ∃ s c k, out e = passed_log ++ [Summary s c k 0].
Proof.
  intros E. rewrite kernel_life_eq in E.
  destruct (init_globals_ok h) as (e1 & E1 & O1 & S1 & I1 & R1).
  rewrite (T_step _ _ _ _ _ E1) in E. destruct (T_inv _ _ _ _ _ E) as (o3 & e3 & E3 & E'). clear E.
  destruct (run_modelled_suites e1 I1) as (e2 & E2 & O2 & F2 & C2 & I2 & R2); [by rewrite S1|]. rewrite E2 in E3. rewrite S1 in F2, C2.
  destruct (suites_tested e2 o3 e3) as (L3 & -> & O3 & N3 & C3 & F3 & _ & P3 & I3 & R3); [by unfold good; rewrite F2|done|].
  destruct (T_inv _ _ _ _ _ E') as (o4 & e4 & E4 & E). clear E'.
  assert (good e3) as Hg3 by (unfold good; rewrite F3; apply (wrap_range 32); lia).
  destruct (destroy_tested e3 o4 e4 Hg3 E4) as (L4 & -> & O4 & N4 & C4 & F4 & _ & P4 & I4 & R4).
  assert (failed L4 = []) as E4' by (by destruct (failed L4); [|simpl in N4; lia]). rewrite (C4 E4') in *. rewrite app_nil_r in O4.
  destruct (finalize_ok e4 o e) as (L5 & s & c & k & O5 & N5 & C5 & F5); [|congruence|congruence|by rewrite P4, P3|exact E|].
  { unfold good. rewrite F4. apply (wrap_range 32). lia. }
  exists s, c, k. change (failed []) with (@nil line) in F4. rewrite F4, F3, F2 in F5. change (failure_count session0) with 0 in F5.
  change (Z.of_nat (length (@nil line))) with 0 in F5. rewrite Z.add_0_l, Z.add_0_r in F5.
  rewrite !(u32_small (Z.of_nat (length (failed L3)))) in F5 by lia. rewrite u32_small in F5 by lia.
  destruct (failed L3) as [|? ?] eqn:E5; [|cbn [length] in *; lia]. destruct (failed L5) as [|? ?] eqn:E6; [|cbn [length] in *; lia].
  rewrite O5, O4, O3, O2, O1, (C3 eq_refl), (C5 eq_refl). unfold passed_log. by rewrite <- !app_assoc.
Qed.

(** On any heap, if the constructors of the globals, the modelled cases, the destructors and the
    last checks run to the end without a panic or a fault, then each of the modelled cases has run, in order,
    and has passed: the log is exactly the one without a failed check, and the summary
    reports none. *)
Theorem modelled_tests_sound h o e :
  kernel_life (env0 h) = Ok (o, e) → ∃ s c k, out e = passed_log ++ [Summary s c k 0].
Proof. apply kernel_life_log. Qed.

(** On the heap of the boot they do. *)
Example modelled_tests_pass :
  (h ← boot_heap; '(_, e) ← kernel_life (env0 h); Ok (out e)) = Ok (passed_log ++ [Summary 5 20 174 0]).
Proof. vm_compute. reflexivity. Qed.
Example modelled_assertions : forallb (λ b, b) (static_bitmap ++ static_pages ++ static_regions ++ static_isrs) = true.
Proof. vm_compute. reflexivity. Qed.
