(* ===== verification/Lapic.v ===== *)
(** The local APIC of a core: [LAPIC] of kernel/include/sys/apic.hpp, over the registers of
    register.hpp and the model-specific registers of io/msr.hpp.

    The hardware is behind the class [LocalApic]: the registers in memory at the base
    address, the interrupts sent, the model-specific registers, as the manual describes
    them. *)
From S2P Require Import Prelude.

(** ** The registers *)

Inductive LAPICRegister :=
| ID | VER | TPR | APR | PPR | EOI_ | RRD | LDR | DFR | SIVR
| ISR (i : nat) | TMR (i : nat) | IRR (i : nat)
| ESR | LVT_CMCI | ICR0 | ICR1 | LVT_TR | LVT_TSR | LVT_PMCR | LVT_LINT0 | LVT_LINT1 | LVT_ER | ICR | CCR | DCR.
#[export] Instance register_eq_dec : EqDecision LAPICRegister.
Proof. solve_decision. Defined.

(** [ISR0] to [ISR7] and the like are 16 bytes apart. *)
Definition offset (r : LAPICRegister) : Z :=
  match r with
  | ID => 0x20 | VER => 0x30 | TPR => 0x80 | APR => 0x90 | PPR => 0xA0 | EOI_ => 0xB0 | RRD => 0xC0 | LDR => 0xD0 | DFR => 0xE0 | SIVR => 0xF0
  | ISR i => 0x100 + 0x10 * Z.of_nat i | TMR i => 0x180 + 0x10 * Z.of_nat i | IRR i => 0x200 + 0x10 * Z.of_nat i
  | ESR => 0x280 | LVT_CMCI => 0x2F0 | ICR0 => 0x300 | ICR1 => 0x310 | LVT_TR => 0x320 | LVT_TSR => 0x330 | LVT_PMCR => 0x340
  | LVT_LINT0 => 0x350 | LVT_LINT1 => 0x360 | LVT_ER => 0x370 | ICR => 0x380 | CCR => 0x390 | DCR => 0x3E0
  end.
Definition exists_ (r : LAPICRegister) : Prop := match r with ISR i | TMR i | IRR i => (i < 8)%nat | _ => True end.

Lemma offset_range r : exists_ r → 0 ≤ offset r < 0x400.
Proof. destruct r; simpl; lia. Qed.
Lemma offset_inj r1 r2 : exists_ r1 → exists_ r2 → offset r1 = offset r2 → r1 = r2.
Proof. destruct r1, r2; simpl; intros; try lia; try done; f_equal; lia. Qed.

(** ** The hardware *)
Class LocalApic (D : Type) := {
  mmio_read : Z → D → Z * D;
  mmio_write : Z → Z → D → D;
  rdmsr : Z → D → Z;
  wrmsr : Z → Z → D → D;
  (** The value of a register, the interrupts sent: destination and command, and those acknowledged. *)
  reg : D → LAPICRegister → Z;
  sent : D → list (Z * Z);
  acked : D → nat;
  at_base : D → Z;
  reg_range d r : 0 ≤ reg d r < 2 ^ 32;
  base_range d : 0 ≤ at_base d ∧ at_base d + 0x400 ≤ 2 ^ 32;
  msr_range d i : 0 ≤ rdmsr i d < 2 ^ 64;
  read_reg d r : exists_ r → mmio_read (at_base d + offset r) d = (reg d r, d);
  (** Writing a register other than the command and the acknowledgement stores the value. *)
  write_reg d r v : exists_ r → r ≠ ICR0 → r ≠ EOI_ → 0 ≤ v < 2 ^ 32 →
    let d' := mmio_write (at_base d + offset r) v d in
    reg d' r = v ∧ (∀ r', r' ≠ r → reg d' r' = reg d r') ∧ sent d' = sent d ∧ acked d' = acked d
    ∧ at_base d' = at_base d ∧ (∀ i, rdmsr i d' = rdmsr i d);
  (** Writing the low command register sends an interrupt to the core in the high one. *)
  write_icr0 d v : 0 ≤ v < 2 ^ 32 →
    let d' := mmio_write (at_base d + offset ICR0) v d in
    sent d' = sent d ++ [(reg d ICR1 / 2 ^ 24, v)] ∧ (∀ r', r' ≠ ICR0 → reg d' r' = reg d r') ∧ acked d' = acked d
    ∧ at_base d' = at_base d ∧ (∀ i, rdmsr i d' = rdmsr i d);
  write_eoi d v :
    let d' := mmio_write (at_base d + offset EOI_) v d in
    acked d' = S (acked d) ∧ sent d' = sent d ∧ (∀ r', r' ≠ EOI_ → reg d' r' = reg d r') ∧ at_base d' = at_base d
    ∧ (∀ i, rdmsr i d' = rdmsr i d);
  write_msr_hw d i v : 0 ≤ v < 2 ^ 64 →
    let d' := wrmsr i v d in
    rdmsr i d' = v ∧ (∀ j, j ≠ i → rdmsr j d' = rdmsr j d) ∧ (∀ r, reg d' r = reg d r) ∧ sent d' = sent d ∧ acked d' = acked d
    ∧ at_base d' = at_base d
}.

Section lapic.
Context {D : Type} `{LocalApic D}.

(** ** The code *)

(** [((uint64_t)edx << 32) | eax], and the two halves written back. *)
Definition read_msr (msr : Z) (d : D) : Z :=
  let eax := u32 (rdmsr msr d) in let edx := u32 (Z.shiftr (rdmsr msr d) 32) in Z.lor (Z.shiftl edx 32) eax.
Definition write_msr (msr data : Z) (d : D) : D :=
  let low := Z.land data 0xFFFFFFFF in let high := u32 (Z.shiftr data 32) in wrmsr msr (2 ^ 32 * high + low) d.

(** [LAPIC::read] and [LAPIC::write], [base] the field of the object. *)
Definition read (base off : Z) (d : D) : Z * D := mmio_read (u32 (Z.land off 0xFFFF + base)) d.
Definition write (base off value : Z) (d : D) : D := mmio_write (u32 (Z.land off 0xFFFF + base)) value d.

(** [RegisterBase]: reading, assigning, and [|=]. *)
Definition value (base : Z) (r : LAPICRegister) (d : D) : Z * D := read base (offset r) d.
Definition assign (base : Z) (r : LAPICRegister) (v : Z) (d : D) : D := write base (offset r) v d.
Definition or_assign (base : Z) (r : LAPICRegister) (rhs : Z) (d : D) : D :=
  let '(v, d) := value base r d in assign base r (Z.lor v rhs) d.

Definition EOI (base : Z) (d : D) : D := assign base EOI_ 0 d.

Definition BASE_MSR : Z := 0x1B.
Definition BASE_MSR_ENABLE : Z := 0x800.
Definition enable (base : Z) (d : D) : D :=
  let d := write_msr BASE_MSR (Z.land (Z.lor (read_msr BASE_MSR d) BASE_MSR_ENABLE) (2 ^ 64 - 1 - Z.shiftl 1 10)) d in
  or_assign base SIVR 0x1FF d.

Definition send_ipi (base ap ipi_number : Z) (d : D) : D :=
  let d := assign base ICR1 (u32 (Z.shiftl ap 24)) d in assign base ICR0 ipi_number d.
Definition send_init_ipi (base ap : Z) : D → D := send_ipi base ap 0x500.
Definition send_startup_ipi (base ap entry : Z) : D → D := send_ipi base ap (Z.lor 0x600 entry).
Definition id (base : Z) (d : D) : Z * D :=
  let '(v, d) := value base ID d in (u8 (Z.land (Z.shiftr v 24) 0xFF), d).

(** ** What it does *)

Lemma register_address r : exists_ r → ∀ d, u32 (Z.land (offset r) 0xFFFF + at_base d) = at_base d + offset r.
Proof.
  intros Hr d. pose proof (offset_range r Hr). pose proof (base_range d). change 0xFFFF with (Z.ones 16).
  rewrite Z.land_ones, Z.mod_small by lia. rewrite u32_small; lia.
Qed.

Lemma value_ok d r : exists_ r → value (at_base d) r d = (reg d r, d).
Proof. intros Hr. unfold value, read. rewrite register_address by done. by apply read_reg. Qed.

Lemma read_msr_ok i d : read_msr i d = rdmsr i d.
Proof.
  pose proof (msr_range d i) as Hr. unfold read_msr. rewrite Z.shiftr_div_pow2, Z.shiftl_mul_pow2, (Z.mul_comm _ (2 ^ 32)) by lia.
  rewrite (u32_small (_ / _)) by (clear - Hr; dlia). rewrite lor_low by (try apply (wrap_range 32); lia).
  unfold u32, wrap. clear. dlia.
Qed.

Lemma write_msr_ok i v d : 0 ≤ v < 2 ^ 64 → write_msr i v d = wrmsr i v d.
Proof.
  intros Hv. unfold write_msr. rewrite Z.shiftr_div_pow2 by lia. change 0xFFFFFFFF with (Z.ones 32). rewrite Z.land_ones by lia.
  rewrite u32_small by (clear - Hv; dlia). f_equal. clear; dlia.
Qed.

(** What a write leaves of the rest of the hardware. *)
Definition only (rs : list LAPICRegister) (d d' : D) : Prop :=
  (∀ r, r ∉ rs → reg d' r = reg d r) ∧ at_base d' = at_base d.

Lemma send_ipi_ok d ap n : 0 ≤ ap < 256 → 0 ≤ n < 2 ^ 32 →
  let d' := send_ipi (at_base d) ap n d in
  sent d' = sent d ++ [(ap, n)] ∧ acked d' = acked d ∧ only [ICR0; ICR1] d d' ∧ ∀ i, rdmsr i d' = rdmsr i d.
Proof.
  intros Hap Hn d'. unfold d', send_ipi, assign, write. rewrite (register_address ICR1 I).
  assert (u32 (Z.shiftl ap 24) = ap * 2 ^ 24) as Eu by (rewrite Z.shiftl_mul_pow2, u32_small; lia).
  destruct (write_reg d ICR1 (u32 (Z.shiftl ap 24)) I) as (E1 & R1 & S1 & A1 & B1 & M1); [done|done|rewrite Eu; lia|].
  set (d1 := mmio_write _ _ d) in *. rewrite <- B1, (register_address ICR0 I).
  destruct (write_icr0 d1 n Hn) as (S2 & R2 & A2 & B2 & M2). rewrite S2, E1, Eu, S1, Z.div_mul by done.
  split; [done|]. split; [by rewrite A2, A1|]. split; [|intros i; by rewrite M2, M1]. split; [|by rewrite B2].
  intros r Hr. rewrite !not_elem_of_cons in Hr. destruct Hr as (? & ? & _). by rewrite R2, R1.
Qed.

Lemma lor_assign_ok d r rhs : exists_ r → r ≠ ICR0 → r ≠ EOI_ → 0 ≤ rhs < 2 ^ 32 →
  let d' := or_assign (at_base d) r rhs d in
  reg d' r = Z.lor (reg d r) rhs ∧ only [r] d d' ∧ sent d' = sent d ∧ acked d' = acked d ∧ ∀ i, rdmsr i d' = rdmsr i d.
Proof.
  intros Hr H1 H2 Hrhs d'. unfold d', or_assign. rewrite value_ok by done. unfold assign, write. rewrite register_address by done.
  destruct (write_reg d r (Z.lor (reg d r) rhs) Hr H1 H2) as (E & R & S & A & B & M); [apply lor_range; [lia|apply reg_range|done]|].
  split_and!; try done. split; [|done]. intros r' Hr'. apply R. intros ->. apply Hr'. by left.
Qed.

(** The base register: bit 11 set, bit 10 clear. *)
Definition enabled_base (v : Z) : Z := Z.land (Z.lor v BASE_MSR_ENABLE) (2 ^ 64 - 1 - Z.shiftl 1 10).

Lemma enabled_base_bits v i : 0 ≤ v < 2 ^ 64 → 0 ≤ i < 64 →
  Z.testbit (enabled_base v) i = if decide (i = 11) then true else if decide (i = 10) then false else Z.testbit v i.
Proof.
  intros Hv Hi. unfold enabled_base. rewrite Z.land_spec, Z.lor_spec.
  assert (2 ^ 64 - 1 - Z.shiftl 1 10 = Z.ldiff (Z.ones 64) (Z.shiftl 1 10)) as -> by reflexivity.
  rewrite Z.ldiff_spec, Z.testbit_ones_nonneg, Z.shiftl_spec by lia. rewrite (proj2 (Z.ltb_lt i 64)) by lia.
  change BASE_MSR_ENABLE with (Z.shiftl 1 11). rewrite Z.shiftl_spec by lia. change 1 with (2 ^ 0).
  rewrite !Z.pow2_bits_eqb by lia. case_decide as E1; [subst; by rewrite orb_true_r|]. case_decide as E2; [subst; by rewrite andb_false_r|].
  rewrite (proj2 (Z.eqb_neq 0 (i - 11))), (proj2 (Z.eqb_neq 0 (i - 10))) by lia. by rewrite orb_false_r, andb_true_r.
Qed.

Lemma enabled_base_range v : 0 ≤ v < 2 ^ 64 → 0 ≤ enabled_base v < 2 ^ 64.
Proof.
  intros Hv. apply land_range; [lia|]. by apply lor_range.
Qed.

(** With the object at the hardware's base: [send_ipi] sends one interrupt, the given
    command to the given core, and touches nothing but the two command registers; [EOI]
    acknowledges one interrupt; [id] is the top byte of the register; [enable] sets bit
    11 and clears bit 10 of the base register (enabled, not in x2APIC mode) without changing
    its other bits, sets the nine low bits of the spurious vector, and changes nothing else. *)
Theorem lapic_exact d ap n : 0 ≤ ap < 256 → 0 ≤ n < 2 ^ 32 →
  let b := at_base d in
  (let d' := send_ipi b ap n d in
   sent d' = sent d ++ [(ap, n)] ∧ acked d' = acked d ∧ only [ICR0; ICR1] d d' ∧ ∀ i, rdmsr i d' = rdmsr i d)
  ∧ (let d' := EOI b d in acked d' = S (acked d) ∧ sent d' = sent d ∧ only [EOI_] d d' ∧ ∀ i, rdmsr i d' = rdmsr i d)
  ∧ (id b d).1 = reg d ID / 2 ^ 24
  ∧ (let d' := enable b d in
     (∀ i, 0 ≤ i < 64 → Z.testbit (rdmsr BASE_MSR d') i =
        if decide (i = 11) then true else if decide (i = 10) then false else Z.testbit (rdmsr BASE_MSR d) i)
     ∧ (∀ j, j ≠ BASE_MSR → rdmsr j d' = rdmsr j d)
     ∧ reg d' SIVR = Z.lor (reg d SIVR) 0x1FF ∧ only [SIVR] d d' ∧ sent d' = sent d ∧ acked d' = acked d).
Proof.
  intros Hap Hn b. split; [by apply send_ipi_ok|]. split; [|split].
  - unfold b, EOI, assign, write. rewrite (register_address EOI_ I). destruct (write_eoi d 0) as (A & S & R & B & M).
    split; [done|]. split; [done|]. split; [|done]. split; [|done]. intros r Hr. apply R. intros ->. apply Hr. by left.
  - unfold b, id. rewrite value_ok by exact I. cbn [fst]. pose proof (reg_range d ID) as Hr.
    rewrite Z.shiftr_div_pow2 by lia. change 0xFF with (Z.ones 8). rewrite Z.land_ones by lia.
    unfold u8, wrap. rewrite Z.mod_mod by done. apply Z.mod_small. clear - Hr. dlia.
  - pose proof (msr_range d BASE_MSR) as Hm. unfold enable. rewrite read_msr_ok. fold (enabled_base (rdmsr BASE_MSR d)).
    pose proof (enabled_base_range _ Hm) as He. rewrite write_msr_ok by done.
    destruct (write_msr_hw d BASE_MSR _ He) as (V1 & M1 & R1 & S1 & A1 & B1). set (d1 := wrmsr _ _ d) in *. unfold b. rewrite <- B1.
    destruct (lor_assign_ok d1 SIVR 0x1FF) as (V2 & [R2 B2] & S2 & A2 & M2); [done..|].
    split. { intros i Hi. rewrite M2, V1. by apply enabled_base_bits. }
    split. { intros j Hj. rewrite M2. by apply M1. }
    split; [by rewrite V2, R1|]. split; [|split; congruence]. split; [|congruence]. intros r Hr. rewrite R2, R1; done.
Qed.
End lapic.

(** ** A concrete local APIC, at 0xFEE00000 *)
Module Demo.
Record hw := Hw { regs : LAPICRegister → Z; msrs : Z → Z; ipis : list (Z * Z); eois : nat }.
Definition BASE : Z := 0xFEE00000.
Definition all : list LAPICRegister :=
  [ID; VER; TPR; APR; PPR; EOI_; RRD; LDR; DFR; SIVR; ESR; LVT_CMCI; ICR0; ICR1; LVT_TR; LVT_TSR; LVT_PMCR; LVT_LINT0; LVT_LINT1;
   LVT_ER; ICR; CCR; DCR] ++ (ISR <$> seq 0 8) ++ (TMR <$> seq 0 8) ++ (IRR <$> seq 0 8).
Definition decode (a : Z) : option LAPICRegister := List.find (λ r, BASE + offset r =? a) all.

Lemma decode_offset r : exists_ r → decode (BASE + offset r) = Some r.
Proof.
  intros Hr. assert (r ∈ all) as Hin.
  { unfold all. rewrite !elem_of_app. destruct r; simpl in Hr; try (left; by repeat (try (by left); right));
      right; rewrite !list_elem_of_fmap; [left|right; left|right; right]; (exists i; split; [done|]; apply elem_of_seq; lia). }
  assert (Forall exists_ all) as Hall by (unfold all; repeat (apply Forall_cons; split; [simpl; lia || done|]); by apply Forall_nil).
  unfold decode. destruct (List.find _ all) as [r'|] eqn:E.
  - apply find_some in E as [Hin' E%Z.eqb_eq]. f_equal. apply offset_inj; [|done|lia].
    rewrite Forall_forall in Hall. by apply Hall, list_elem_of_In.
  - apply list_elem_of_In in Hin. pose proof (find_none _ _ E r Hin) as Hf. by apply Z.eqb_neq in Hf.
Qed.

Definition put (r : LAPICRegister) (v : Z) (d : hw) : hw :=
  Hw (λ r', if decide (r' = r) then v else regs d r') (msrs d) (ipis d) (eois d).
Definition mmio (a v : Z) (d : hw) : hw :=
  match decode a with
  | Some ICR0 => Hw (λ r', if decide (r' = ICR0) then v else regs d r') (msrs d) (ipis d ++ [(u32 (regs d ICR1) / 2 ^ 24, v)]) (eois d)
  | Some EOI_ => Hw (regs d) (msrs d) (ipis d) (S (eois d))
  | Some r => put r v d
  | None => d
  end.
#[export, refine] Instance demo : LocalApic hw := {|
  mmio_read a d := (match decode a with Some r => u32 (regs d r) | None => 0 end, d);
  mmio_write := mmio;
  rdmsr i d := u64 (msrs d i);
  wrmsr i v d := Hw (regs d) (λ j, if j =? i then v else msrs d j) (ipis d) (eois d);
  reg d r := u32 (regs d r);
  sent := ipis;
  acked := eois;
  at_base _ := BASE
|}.
Proof.
  - intros d r. apply (wrap_range 32). lia.
  - done.
  - intros d i. apply (wrap_range 64). lia.
  - intros d r Hr. by rewrite decode_offset.
  - intros d r v Hr H1 H2 Hv d'. assert (d' = put r v d) as -> by (unfold d', mmio; rewrite decode_offset by done; by destruct r).
    unfold put. simpl. rewrite decide_True, u32_small by (done || lia). split_and!; try done. intros r' Hne. by rewrite decide_False.
  - intros d v Hv d'. unfold d', mmio. rewrite (decode_offset ICR0) by exact I. simpl. split_and!; try done.
    intros r' Hne. by rewrite decide_False.
  - intros d v d'. unfold d', mmio. by rewrite (decode_offset EOI_) by exact I.
  - intros d i v Hv d'. unfold d'. cbn [msrs regs ipis eois]. rewrite Z.eqb_refl. split; [apply Z.mod_small; done|].
    split; [|done]. intros j Hj. by rewrite (proj2 (Z.eqb_neq j i) Hj).
Defined.
End Demo.
#[local] Existing Instance Demo.demo.

Lemma lapic_exact_witness : let d := Demo.Hw (λ r, match r with ID => 0x05000014 | SIVR => 0xFF | _ => 0 end) (λ _, 0xFEE00500) [] 0 in
  sent (send_ipi Demo.BASE 3 0x500 d) = [(3, 0x500)] ∧ (id Demo.BASE d).1 = 5.
Proof.
  intros d. destruct (lapic_exact d 3 0x500) as ((Hs & _) & _ & Hi & _); [split; [discriminate|reflexivity]..|].
  exact (conj Hs Hi).
Defined.
