(* ===== verification/StackTrace.v ===== *)
(** The stack trace of a panic: kernel/src/klibcpp/kstd.cpp, kernel/include/klibcpp/kstd.hpp.

    It follows the saved frame pointers through memory that may be anything, on the machine of
    [Vmm.v]. What goes to the serial port is a list of entries; their text is that of
    [serial::printf]. *)
From S2P Require Import Prelude Memory Layout Pmm Vmm.

Inductive entry :=
| Title                      (* "Stack trace:" *)
| Frame (i eip : Z)          (* "    [%d] 0x%08x" *)
| BadFrame (ebp : Z).        (* "    Invalid frame pointer: 0x%08x" *)

(** How a chain of frames ends. *)
Inductive stop := Bottom | Enough | Broken (p : Z) | Torn.
#[export] Instance stop_eq_dec : EqDecision stop.
Proof. solve_decision. Defined.

Section trace.
Context {S : Type} `{FA : FrameAllocator S}.
Implicit Types m : machine S.

(** ** The code *)

(** A load of four bytes, which may lie in two pages. *)
Definition load8 (va : Z) m : res (Z * machine S) := '(pa, m) ← translate va m; Ok (mem m pa, m).
Definition load_word (va : Z) m : res (Z * machine S) :=
  '(b0, m) ← load8 va m; '(b1, m) ← load8 (u32 (va + 1)) m; '(b2, m) ← load8 (u32 (va + 2)) m; '(b3, m) ← load8 (u32 (va + 3)) m;
  Ok (b0 + 2 ^ 8 * b1 + 2 ^ 16 * b2 + 2 ^ 24 * b3, m).

(** [frame->ebp] and [frame->eip]. *)
Definition ebp (frame : Z) : machine S → res (Z * machine S) := load_word frame.
Definition eip (frame : Z) : machine S → res (Z * machine S) := load_word (u32 (frame + 4)).

(** The loop from [i], with [n] frames left. *)
Fixpoint trace_loop (n : nat) (i frame : Z) m : res (list entry * machine S) :=
  match n with
  | O => Ok ([], m)
  | Datatypes.S n =>
      if frame =? 0 then Ok ([], m)
      else
        '(ip, m) ← eip frame m;
        '(p, m) ← ebp frame m;
        '(mapped, m) ← is_mapped p m;
        if negb mapped then '(p, m) ← ebp frame m; Ok ([Frame i ip; BadFrame p], m)
        else
          '(p, m) ← ebp frame m;
          '(es, m) ← trace_loop n (i + 1) p m;
          Ok (Frame i ip :: es, m)
  end.
Definition stack_trace (frame max_frames : Z) m : res (list entry * machine S) :=
  '(es, m) ← trace_loop (Z.to_nat max_frames) 0 frame m; Ok (Title :: es, m).

(** ** What is in memory *)
Definition vbyte (M : ram) (D a : Z) : option Z := (λ f, M (4096 * f + a mod 4096)) <$> page_of M D (a / 4096).
Definition vword (M : ram) (D a : Z) : option Z :=
  b0 ← vbyte M D a; b1 ← vbyte M D (u32 (a + 1)); b2 ← vbyte M D (u32 (a + 2)); b3 ← vbyte M D (u32 (a + 3));
  Some (b0 + 2 ^ 8 * b1 + 2 ^ 16 * b2 + 2 ^ 24 * b3).

(** A chain of frames, and how it ends within [n] of them. *)
Inductive chain (M : ram) (D : Z) : nat → Z → list Z → stop → Prop :=
| chain_enough f : chain M D 0 f [] Enough
| chain_bottom n : chain M D (Datatypes.S n) 0 [] Bottom
| chain_torn n f : f ≠ 0 → vword M D (u32 (f + 4)) = None ∨ vword M D f = None → chain M D (Datatypes.S n) f [] Torn
| chain_broken n f ip p : f ≠ 0 → vword M D (u32 (f + 4)) = Some ip → vword M D f = Some p → page_of M D (p / 4096) = None →
    chain M D (Datatypes.S n) f [ip] (Broken p)
| chain_next n f ip p ips s : f ≠ 0 → vword M D (u32 (f + 4)) = Some ip → vword M D f = Some p → is_Some (page_of M D (p / 4096)) →
    chain M D n p ips s → chain M D (Datatypes.S n) f (ip :: ips) s.

Definition entries (i : Z) (ips : list Z) : list entry := imap (λ k ip, Frame (i + Z.of_nat k) ip) ips.
Definition ending (s : stop) : list entry := match s with Broken p => [BadFrame p] | _ => [] end.

(** Reading fills the cache, nothing else. *)
Definition cached (D : Z) (A : gset Z) m m' : Prop := (∃ t, m' = upd (mem m) t m) ∧ wf m' D A.

Lemma cached_mem D A m m' : cached D A m m' → mem m' = mem m.
Proof. by intros [[t ->] _]. Qed.
Lemma cached_trans D A m1 m2 m3 : cached D A m1 m2 → cached D A m2 m3 → cached D A m1 m3.
Proof. intros [[t1 ->] _] [[t2 ->] H]. split; [by exists t2|done]. Qed.

Lemma load8_ok m D A a : wf m D A → 0 ≤ a < 2 ^ 32 →
  match vbyte (mem m) D a with
  | Some b => ∃ m', load8 a m = Ok (b, m') ∧ cached D A m m'
  | None => load8 a m = Fault a
  end.
Proof.
  intros Hwf Ha. pose proof (wf_view _ _ _ Hwf) as Hv. unfold vbyte, load8.
  destruct (page_of (mem m) D (a / 4096)) as [f|] eqn:Ep; simpl.
  - destruct (translate_page nowhere nowhere D m (a / 4096) f (a mod 4096)) as (t & E & Ht);
      [done|clear - Ha; dlia|clear; dlia|by intros []|by intros []|done|].
    replace (4096 * (a / 4096) + a mod 4096) with a in E by (clear; dlia). rewrite E. eexists. split; [done|].
    assert (wf (upd (mem m) t m) D A) as Hwf' by (apply wf_upd_tlb; [done|]; by apply view_upd; [|apply Hv|]).
    split; [exists t; by destruct m|]. exact Hwf'.
  - destruct Hv as [Hpg Hcr HD Hb Ht]. unfold translate. rewrite Hpg.
    destruct (tlb m !! (a / 4096)) as [g|] eqn:Hg; [destruct (Ht _ _ Hg) as (_ & _ & [[]|?]); congruence|].
    by rewrite Hcr, walk_page_of, Ep by done.
Qed.

(** Run one byte load and go on. *)
Lemma load8_then m D A a : wf m D A → 0 ≤ a < 2 ^ 32 →
  (∃ b m', vbyte (mem m) D a = Some b ∧ load8 a m = Ok (b, m') ∧ mem m' = mem m ∧ cached D A m m' ∧ wf m' D A)
  ∨ vbyte (mem m) D a = None ∧ load8 a m = Fault a.
Proof.
  intros Hwf Ha. pose proof (load8_ok m D A a Hwf Ha) as H. destruct (vbyte _ _ _) as [b|]; [left|by right].
  destruct H as (m' & E & Hc). exists b, m'. split_and!; [done|done|by eapply cached_mem|done|apply Hc].
Qed.

Lemma load_word_ok m D A a : wf m D A → 0 ≤ a < 2 ^ 32 →
  match vword (mem m) D a with
  | Some v => ∃ m', load_word a m = Ok (v, m') ∧ cached D A m m'
  | None => ∃ x, load_word a m = Fault x
  end.
Proof.
  intros Hwf Ha. unfold vword, load_word. assert (∀ x, 0 ≤ u32 x < 2 ^ 32) as Hu by (intros x; apply (wrap_range 32); lia).
  destruct (load8_then m D A a Hwf Ha) as [(b0 & m1 & -> & -> & M1 & C1 & W1)|[-> ->]]; [|by exists a].
  destruct (load8_then m1 D A _ W1 (Hu (a + 1))) as [(b1 & m2 & E2 & L2 & M2 & C2 & W2)|[E2 L2]]; rewrite M1 in E2; simpl; rewrite E2, L2; [|by eexists].
  destruct (load8_then m2 D A _ W2 (Hu (a + 2))) as [(b2 & m3 & E3 & L3 & M3 & C3 & W3)|[E3 L3]]; rewrite M2, M1 in E3; simpl; rewrite E3, L3; [|by eexists].
  destruct (load8_then m3 D A _ W3 (Hu (a + 3))) as [(b3 & m4 & E4 & L4 & M4 & C4 & W4)|[E4 L4]]; rewrite M3, M2, M1 in E4; simpl; rewrite E4, L4; [|by eexists].
  exists m4. split; [done|]. eauto using cached_trans.
Qed.

Lemma vword_range m D A a v : wf m D A → vword (mem m) D a = Some v → 0 ≤ v < 2 ^ 32.
Proof.
  intros Hwf E. pose proof (view_bytes _ _ _ _ (wf_view _ _ _ Hwf)) as Hb. unfold vword, vbyte in E.
  repeat (match type of E with (match ?x with _ => _ end ≫= _) = _ => destruct x; [|done] | (?x <$> ?y) ≫= _ = _ => destruct y; [|done] end; cbn in E).
  injection E as <-. repeat match goal with |- context [mem m ?x] => pose proof (Hb x); generalize dependent (mem m x); intros end. lia.
Qed.

Lemma word_then m D A a : wf m D A → 0 ≤ a < 2 ^ 32 →
  (∃ v m', vword (mem m) D a = Some v ∧ load_word a m = Ok (v, m') ∧ mem m' = mem m ∧ cached D A m m' ∧ wf m' D A ∧ 0 ≤ v < 2 ^ 32)
  ∨ vword (mem m) D a = None ∧ ∃ x, load_word a m = Fault x.
Proof.
  intros Hwf Ha. pose proof (load_word_ok m D A a Hwf Ha) as H. destruct (vword _ _ _) as [v|] eqn:E; [left|by right].
  destruct H as (m' & El & Hc). exists v, m'. split_and!; [done|done|by eapply cached_mem|done|apply Hc|by eapply vword_range..].
Qed.

Lemma entries_cons i ip ips : entries i (ip :: ips) = Frame i ip :: entries (i + 1) ips.
Proof. unfold entries. rewrite imap_cons. f_equal; [f_equal; lia|]. apply imap_ext. intros k x _. simpl. f_equal. lia. Qed.

Lemma trace_ok n : ∀ m D A f i ips s, wf m D A → 0 ≤ f < 2 ^ 32 → chain (mem m) D n f ips s →
  if decide (s = Torn) then ∃ x, trace_loop n i f m = Fault x
  else ∃ m', trace_loop n i f m = Ok (entries i ips ++ ending s, m') ∧ cached D A m m'.
Proof.
  assert (∀ m D A, wf m D A → cached D A m m) as Hrefl by (intros m D A Hwf; split; [exists (tlb m); by destruct m|done]).
  induction n as [|n IH]; intros m D A f i ips s Hwf Hf Hc; cbn [trace_loop].
  { inversion Hc; subst. simpl. eauto. }
  destruct (Z.eqb_spec f 0) as [->|Hf0]; [inversion Hc; subst; try done; simpl; eauto|].
  assert (0 ≤ u32 (f + 4) < 2 ^ 32) as Hf4 by (apply (wrap_range 32); lia). unfold eip, ebp.
  destruct (word_then m D A (u32 (f + 4)) Hwf Hf4) as [(ip & m1 & E1 & L1 & M1 & C1 & W1 & _)|[E1 [x L1]]]; rewrite L1; simpl.
  2: { inversion Hc; subst; try done; try congruence. rewrite decide_True by done. eauto. }
  destruct (word_then m1 D A f W1 Hf) as [(p & m2 & E2 & L2 & M2 & C2 & W2 & Hp)|[E2 [x L2]]]; rewrite M1 in E2; rewrite L2; simpl.
  2: { inversion Hc; subst; try done; try congruence. rewrite decide_True by done. eauto. }
  destruct (is_mapped_ok m2 D A p W2 Hp) as (t & Em & W3). rewrite Em. simpl. set (m3 := upd (mem m2) t m2) in *.
  assert (mem m3 = mem m) as M3 by (unfold m3; simpl; congruence). rewrite M2, M1.
  assert (cached D A m m3) as C3 by (eapply cached_trans; [exact C1|]; eapply cached_trans; [exact C2|]; split; [by exists t|done]).
  destruct (word_then m3 D A f W3 Hf) as [(p' & m4 & E4 & L4 & M4 & C4 & W4 & _)|[E4 _]]; rewrite M3 in E4; [|congruence].
  assert (p' = p) as -> by congruence. rewrite L4. simpl. assert (cached D A m m4) as C5 by (by eapply cached_trans).
  inversion Hc as [| |? ? _ [?|?]|? ? ip' q _ Ei Ep Hn|? ? ip' q ips' s' _ Ei Ep Hs Hch]; subst; try congruence;
    assert (ip' = ip) as -> by congruence; assert (q = p) as -> by congruence.
  - rewrite bool_decide_eq_false_2 by (rewrite Hn; apply is_Some_None_not || by intros [? ?]). simpl.
    exists m4. split; [|done]. unfold entries. simpl. by rewrite Z.add_0_r.
  - rewrite bool_decide_eq_true_2 by done. rewrite entries_cons. cbn [negb]. assert (mem m4 = mem m) as M5 by congruence. rewrite <- M5 in Hch.
    specialize (IH m4 D A p (i + 1) ips' s W4 Hp Hch). case_decide.
    + destruct IH as [x ->]. by exists x.
    + destruct IH as (m' & -> & Cm). exists m'. split; [done|by eapply cached_trans].
Qed.

Lemma chain_total M D n : ∀ f, ∃ ips s, chain M D n f ips s ∧ (length ips ≤ n)%nat.
Proof.
  induction n as [|n IH]; intros f; [by exists [], Enough; split; [constructor|]|].
  destruct (decide (f = 0)) as [->|Hf]; [exists [], Bottom; split; [constructor|simpl; lia]|].
  destruct (vword M D (u32 (f + 4))) as [ip|] eqn:Ei; [|exists [], Torn; split; [constructor; auto|simpl; lia]].
  destruct (vword M D f) as [p|] eqn:Ep; [|exists [], Torn; split; [constructor; auto|simpl; lia]].
  destruct (page_of M D (p / 4096)) as [g|] eqn:Eg; [|exists [ip], (Broken p); split; [by constructor|simpl; lia]].
  destruct (IH p) as (ips & s & Hc & Hl). exists (ip :: ips), s. split; [|simpl; lia]. econstructor; eauto.
Qed.

(** The frames reached from [f]. *)
Inductive linked (M : ram) (D f : Z) : Z → Prop :=
| linked_refl : linked M D f f
| linked_next a p : linked M D f a → vword M D a = Some p → linked M D f p.

(** A frame in a mapped page, aligned to 8, can be read. *)
Lemma aligned_frame M D f : 0 ≤ f < 2 ^ 32 → f mod 8 = 0 → is_Some (page_of M D (f / 4096)) →
  is_Some (vword M D f) ∧ is_Some (vword M D (u32 (f + 4))).
Proof.
  intros Hf H8 [g Hg]. assert (∀ k, 0 ≤ k < 8 → is_Some (vbyte M D (u32 (f + k)))) as Hb.
  { intros k Hk. unfold vbyte. rewrite u32_small by (clear - Hf H8 Hk; dlia).
    replace ((f + k) / 4096) with (f / 4096) by (clear - H8 Hk; dlia). rewrite Hg. by eexists. }
  assert (∀ k, 0 ≤ k ≤ 4 → is_Some (vword M D (u32 (f + k)))) as Hw.
  { intros k Hk. unfold vword. assert (∀ j, 0 ≤ j < 4 → is_Some (vbyte M D (u32 (u32 (f + k) + j)))) as Hj.
    { intros j Hj. rewrite (u32_small (f + k)) by (clear - Hf H8 Hk; dlia). rewrite <- Z.add_assoc. apply Hb. lia. }
    destruct (Hb k ltac:(lia)) as [b0 ->], (Hj 1 ltac:(lia)) as [b1 E1], (Hj 2 ltac:(lia)) as [b2 E2], (Hj 3 ltac:(lia)) as [b3 E3].
    simpl. rewrite E1, E2, E3. by eexists. }
  split; [|apply Hw; lia]. specialize (Hw 0 ltac:(lia)). by rewrite Z.add_0_r, u32_small in Hw.
Qed.

Lemma not_torn m D A n : ∀ f ips s, wf m D A → chain (mem m) D n f ips s → 0 ≤ f < 2 ^ 32 → f = 0 ∨ is_Some (page_of (mem m) D (f / 4096)) →
  (∀ a, linked (mem m) D f a → a mod 8 = 0) → s ≠ Torn.
Proof.
  induction n as [|n IH]; intros f ips s Hwf Hc Hf Hm Hl.
  - by inversion Hc.
  - inversion Hc as [| |? ? H0 Hn|? ? ip' q _ Ei Ep Hn|? ? ip' q ips' s' H0 Ei Ep Hs Hch]; subst; try done.
    + destruct Hm as [?|Hm]; [done|]. destruct (aligned_frame (mem m) D f Hf (Hl f (linked_refl _ _ _)) Hm) as [[? ?] [? ?]].
      destruct Hn; congruence.
    + apply (IH q ips' s Hwf Hch); [by eapply vword_range|by right|]. intros a Ha. apply Hl. clear - Ha Ep.
      induction Ha as [|a p Ha IHa E]; [by eapply linked_next; [apply linked_refl|]|by eapply linked_next].
Qed.
End trace.

(** C29: the trace always ends, after at most [n] frames, and changes no memory. It lists
    the return addresses of the chain of frames from [f], in order, until the frame pointer is
    null, [n] frames are listed, or a frame pointer lies in a page that is not mapped, which it
    announces. It faults only at a frame that is not mapped as a whole: [is_mapped] looks at
    the first byte of a frame, and the first frame is not looked at. That never
    happens when the first frame is mapped and all frames are aligned to 8. *)
Theorem stack_trace_exact {S} `{FrameAllocator S} (m : machine S) D A f n : wf m D A → 0 ≤ f < 2 ^ 32 → 0 ≤ n →
  ∃ ips s, chain (mem m) D (Z.to_nat n) f ips s ∧ Z.of_nat (length ips) ≤ n
    ∧ (if decide (s = Torn) then ∃ x, stack_trace f n m = Fault x
       else ∃ m', stack_trace f n m = Ok (Title :: entries 0 ips ++ ending s, m') ∧ mem m' = mem m ∧ wf m' D A)
    ∧ (f = 0 ∨ is_Some (page_of (mem m) D (f / 4096)) → (∀ a, linked (mem m) D f a → a mod 8 = 0) → s ≠ Torn).
Proof.
  intros Hwf Hf Hn. destruct (chain_total (mem m) D (Z.to_nat n) f) as (ips & s & Hc & Hl). exists ips, s.
  split; [done|]. split; [lia|]. split; [|by intros; eapply not_torn].
  pose proof (trace_ok (Z.to_nat n) m D A f 0 ips s Hwf Hf Hc) as Ht. unfold stack_trace. case_decide.
  - destruct Ht as [x ->]. by exists x.
  - destruct Ht as (m' & -> & Hm). exists m'. split; [done|]. split; [by eapply cached_mem|apply Hm].
Qed.

Lemma stack_trace_exact_witness : ∃ (m : machine pmm) D A, wf m D A ∧
  ∃ ips s, chain (mem m) D 10 0x1000000 ips s ∧ Z.of_nat (length ips) ≤ 10
    ∧ (s ≠ Torn → ∃ m', stack_trace 0x1000000 10 m = Ok (Title :: entries 0 ips ++ ending s, m')).
Proof.
  destruct started as (m & D & A & Hwf & _). exists m, D, A. split; [exact Hwf|].
  destruct (stack_trace_exact m D A 0x1000000 10 Hwf ltac:(lia) ltac:(lia)) as (ips & s & Hc & Hl & Ht & _).
  exists ips, s. split; [exact Hc|]. split; [exact Hl|]. intros Hs. rewrite decide_False in Ht by exact Hs.
  destruct Ht as (m' & E & _). exists m'. exact E.
Defined.
